(** * EVIO version 6 (HIPO record format): header codec, swapper and reader

    A shallow embedding of the parts of the evio repository that the
    specification talks about, followed by the properties established
    for them.

    - [Java]        : Java [int]/[long] arithmetic and exceptions.
    - [ByteBuffer]  : the [java.nio.ByteBuffer] operations the sources use.
    - [RecordHeader]: [org.jlab.coda.hipo.RecordHeader] (RecordHeader.java).
    - [Evioswap]    : the C swapper (evioswap.c).
    - [Reader]      : the reader (newlib++/Reader.cpp).

    Integers are [Z] with the wrap-around of the source type written out;
    bytes are [Z] in [0, 256); arrays are lists. *)

From Stdlib Require Import ZArith List Lia Bool.
Import ListNotations.
Open Scope Z_scope.

(* ===================================================================== *)
(** * Java integers and exceptions                                        *)
(* ===================================================================== *)

Module Java.

(** Two's complement value of [z] in [w] bits. *)
Definition wrap (w : Z) (z : Z) : Z :=
  (z + 2 ^ (w - 1)) mod 2 ^ w - 2 ^ (w - 1).

(** The value of a Java [int] / [long] expression computed in [Z]. *)
Definition int (z : Z) : Z := wrap 32 z.
Definition long (z : Z) : Z := wrap 64 z.

Definition MAX_INT : Z := 2 ^ 31 - 1.

(** [x << n] on [int]. *)
Definition shl (x n : Z) : Z := int (Z.shiftl x n).
(** [x >>> n] on [int]. *)
Definition ushr (x n : Z) : Z := int (Z.shiftr (x mod 2 ^ 32) n).
(** [x / y] and [x % y] on [int] truncate towards zero. *)
Definition div (x y : Z) : Z := int (Z.quot x y).
Definition rem (x y : Z) : Z := Z.rem x y.

(** What a call can throw. *)
Inductive exn : Set :=
| IndexOutOfBoundsException
| ArrayIndexOutOfBoundsException
| IllegalArgumentException
| BufferOverflowException
| BufferUnderflowException
| NullPointerException
| HipoException.

Inductive res (A : Type) : Type :=
| Ok (a : A)
| Throw (e : exn).
Arguments Ok {A} a.
Arguments Throw {A} e.

Definition bind {A B : Type} (m : res A) (k : A -> res B) : res B :=
  match m with
  | Ok a => k a
  | Throw e => Throw e
  end.

End Java.

Import Java.

Notation "x <- m ;; k" := (bind m (fun x => k))
  (at level 61, m at next level, right associativity).
Notation "' p <- m ;; k" := (bind m (fun p => k))
  (at level 61, p pattern, m at next level, right associativity).

(* ===================================================================== *)
(** * Byte strings in a given byte order                                  *)
(* ===================================================================== *)

Inductive ByteOrder : Set := LITTLE_ENDIAN | BIG_ENDIAN.

Definition ByteOrder_eqb (a b : ByteOrder) : bool :=
  match a, b with
  | LITTLE_ENDIAN, LITTLE_ENDIAN | BIG_ENDIAN, BIG_ENDIAN => true
  | _, _ => false
  end.

Definition flip_order (o : ByteOrder) : ByteOrder :=
  match o with
  | LITTLE_ENDIAN => BIG_ENDIAN
  | BIG_ENDIAN => LITTLE_ENDIAN
  end.

(** The [n] low bytes of [u], least significant first. *)
Fixpoint le_bytes (n : nat) (u : Z) : list Z :=
  match n with
  | O => []
  | S k => u mod 256 :: le_bytes k (u / 256)
  end.

(** The number whose bytes, least significant first, are [bs]. *)
Fixpoint le_val (bs : list Z) : Z :=
  match bs with
  | [] => 0
  | b :: r => b + 256 * le_val r
  end.

Definition encode (o : ByteOrder) (n : nat) (v : Z) : list Z :=
  match o with
  | LITTLE_ENDIAN => le_bytes n v
  | BIG_ENDIAN => rev (le_bytes n v)
  end.

Definition decode (o : ByteOrder) (bs : list Z) : Z :=
  match o with
  | LITTLE_ENDIAN => le_val bs
  | BIG_ENDIAN => le_val (rev bs)
  end.

(** The bytes [l[i .. i+n)] and the array [l] with [bs] stored at [i]. *)
Definition get_bytes (l : list Z) (i : Z) (n : nat) : list Z :=
  firstn n (skipn (Z.to_nat i) l).

Definition put_bytes (l : list Z) (i : Z) (bs : list Z) : list Z :=
  firstn (Z.to_nat i) l ++ bs ++ skipn (Z.to_nat i + length bs) l.

(* ===================================================================== *)
(** * java.nio.ByteBuffer                                                 *)
(* ===================================================================== *)

Module ByteBuffer.

(** A heap buffer: backing array, position, limit and byte order.  The
    capacity is the length of the backing array. *)
Record t := mk {
  hb : list Z;
  position : Z;
  limit : Z;
  order : ByteOrder
}.

Definition capacity (b : t) : Z := Z.of_nat (length (hb b)).
Definition remaining (b : t) : Z := limit b - position b.

(** [ByteBuffer.allocate(n)] / [ByteBuffer.wrap(new byte[n])]: zero filled,
    big endian, position 0, limit = capacity. *)
Definition allocate (n : Z) : t :=
  mk (repeat 0 (Z.to_nat n)) 0 n BIG_ENDIAN.

Definition wrap_array (a : list Z) : t :=
  mk a 0 (Z.of_nat (length a)) BIG_ENDIAN.

Definition set_order (o : ByteOrder) (b : t) : t :=
  mk (hb b) (position b) (limit b) o.

(** [checkIndex(i, nb)]: an absolute access of [nb] bytes at [i]. *)
Definition checkIndex (b : t) (i nb : Z) : bool :=
  (0 <=? i) && (nb <=? limit b - i).

Definition getN (width : nat) (b : t) (index : Z) : res Z :=
  if checkIndex b index (Z.of_nat width)
  then Ok (decode (order b) (get_bytes (hb b) index width))
  else Throw IndexOutOfBoundsException.

Definition putN (width : nat) (b : t) (index : Z) (v : Z) : res t :=
  if checkIndex b index (Z.of_nat width)
  then Ok (mk (put_bytes (hb b) index (encode (order b) width v))
              (position b) (limit b) (order b))
  else Throw IndexOutOfBoundsException.

(** [getInt(index)], [putInt(index, v)], [getLong(index)],
    [putLong(index, v)]: absolute accesses in the buffer's order. *)
Definition getInt (b : t) (index : Z) : res Z :=
  v <- getN 4 b index ;; Ok (Java.int v).
Definition putInt (b : t) (index v : Z) : res t := putN 4 b index v.
Definition getLong (b : t) (index : Z) : res Z :=
  v <- getN 8 b index ;; Ok (Java.long v).
Definition putLong (b : t) (index v : Z) : res t := putN 8 b index v.

(** [limit(n)]: the position is clamped to the new limit. *)
Definition set_limit (n : Z) (b : t) : res t :=
  if (n <? 0) || (capacity b <? n) then Throw IllegalArgumentException
  else Ok (mk (hb b) (Z.min (position b) n) n (order b)).

(** [position(p)]. *)
Definition set_position (p : Z) (b : t) : res t :=
  if (p <? 0) || (limit b <? p) then Throw IllegalArgumentException
  else Ok (mk (hb b) p (limit b) (order b)).

(** [flip()]. *)
Definition flip (b : t) : t := mk (hb b) 0 (position b) (order b).

(** [dst.put(src)]: the remaining bytes of [src] are copied to [dst] at
    its position; both positions advance.  Returns [(dst, src)]. *)
Definition put (dst src : t) : res (t * t) :=
  let n := remaining src in
  if remaining dst <? n then Throw BufferOverflowException
  else
    let bs := get_bytes (hb src) (position src) (Z.to_nat n) in
    Ok (mk (put_bytes (hb dst) (position dst) bs)
           (position dst + Z.max 0 n) (limit dst) (order dst),
        mk (hb src) (position src + Z.max 0 n) (limit src) (order src)).

End ByteBuffer.

(* ===================================================================== *)
(** * org.jlab.coda.hipo.RecordHeader                                     *)
(* ===================================================================== *)

Module RecordHeader.

Record t := mk {
  position : Z;
  recordLength : Z;
  recordNumber : Z;
  entries : Z;
  headerLength : Z;
  userHeaderLength : Z;
  indexLength : Z;
  dataLength : Z;
  compressedDataLength : Z;
  compressionType : Z;
  userHeaderLengthPadding : Z;
  dataLengthPadding : Z;
  compressedDataLengthPadding : Z;
  recordLengthPadding : Z;
  dataLengthWords : Z;
  compressedDataLengthWords : Z;
  userHeaderLengthWords : Z;
  recordLengthWords : Z;
  headerLengthWords : Z;
  recordUserRegisterFirst : Z;
  recordUserRegisterSecond : Z;
  headerVersion : Z;
  headerMagicWord : Z
}.

(** The names of the fields, to write an assignment [this.f = v]. *)
Inductive field : Set :=
| F_position | F_recordLength | F_recordNumber | F_entries
| F_headerLength | F_userHeaderLength | F_indexLength | F_dataLength
| F_compressedDataLength | F_compressionType | F_userHeaderLengthPadding | F_dataLengthPadding
| F_compressedDataLengthPadding | F_recordLengthPadding | F_dataLengthWords | F_compressedDataLengthWords
| F_userHeaderLengthWords | F_recordLengthWords | F_headerLengthWords | F_recordUserRegisterFirst
| F_recordUserRegisterSecond | F_headerVersion | F_headerMagicWord.

Definition field_eqb (f g : field) : bool :=
  match f, g with
  | F_position, F_position | F_recordLength, F_recordLength
  | F_recordNumber, F_recordNumber | F_entries, F_entries
  | F_headerLength, F_headerLength | F_userHeaderLength, F_userHeaderLength
  | F_indexLength, F_indexLength | F_dataLength, F_dataLength
  | F_compressedDataLength, F_compressedDataLength | F_compressionType, F_compressionType
  | F_userHeaderLengthPadding, F_userHeaderLengthPadding | F_dataLengthPadding, F_dataLengthPadding
  | F_compressedDataLengthPadding, F_compressedDataLengthPadding | F_recordLengthPadding, F_recordLengthPadding
  | F_dataLengthWords, F_dataLengthWords | F_compressedDataLengthWords, F_compressedDataLengthWords
  | F_userHeaderLengthWords, F_userHeaderLengthWords | F_recordLengthWords, F_recordLengthWords
  | F_headerLengthWords, F_headerLengthWords | F_recordUserRegisterFirst, F_recordUserRegisterFirst
  | F_recordUserRegisterSecond, F_recordUserRegisterSecond | F_headerVersion, F_headerVersion
  | F_headerMagicWord, F_headerMagicWord => true
  | _, _ => false
  end.

(** [assign f v h] is [h] after [this.f = v]. *)
Definition assign (f : field) (v : Z) (h : t) : t :=
  let new (g : field) (old : Z) := if field_eqb f g then v else old in
  {| position := new F_position (position h);
     recordLength := new F_recordLength (recordLength h);
     recordNumber := new F_recordNumber (recordNumber h);
     entries := new F_entries (entries h);
     headerLength := new F_headerLength (headerLength h);
     userHeaderLength := new F_userHeaderLength (userHeaderLength h);
     indexLength := new F_indexLength (indexLength h);
     dataLength := new F_dataLength (dataLength h);
     compressedDataLength := new F_compressedDataLength (compressedDataLength h);
     compressionType := new F_compressionType (compressionType h);
     userHeaderLengthPadding := new F_userHeaderLengthPadding (userHeaderLengthPadding h);
     dataLengthPadding := new F_dataLengthPadding (dataLengthPadding h);
     compressedDataLengthPadding := new F_compressedDataLengthPadding (compressedDataLengthPadding h);
     recordLengthPadding := new F_recordLengthPadding (recordLengthPadding h);
     dataLengthWords := new F_dataLengthWords (dataLengthWords h);
     compressedDataLengthWords := new F_compressedDataLengthWords (compressedDataLengthWords h);
     userHeaderLengthWords := new F_userHeaderLengthWords (userHeaderLengthWords h);
     recordLengthWords := new F_recordLengthWords (recordLengthWords h);
     headerLengthWords := new F_headerLengthWords (headerLengthWords h);
     recordUserRegisterFirst := new F_recordUserRegisterFirst (recordUserRegisterFirst h);
     recordUserRegisterSecond := new F_recordUserRegisterSecond (recordUserRegisterSecond h);
     headerVersion := new F_headerVersion (headerVersion h);
     headerMagicWord := new F_headerMagicWord (headerMagicWord h) |}.

(** [private static int[] padValue = {0,3,2,1}] *)
Definition padValue : list Z := [0; 3; 2; 1].

Definition HEADER_SIZE_WORDS : Z := 14.
Definition HEADER_SIZE_BYTES : Z := 56.
Definition HEADER_MAGIC : Z := Java.int 0xc0da0100.
Definition HEADER_MAGIC_LE : Z := HEADER_MAGIC.
Definition HEADER_MAGIC_BE : Z := 0x0010dac0.

(** [new RecordHeader()]: every field starts at its initialiser. *)
Definition new : t :=
  {| position := 0; recordLength := 0; recordNumber := 0; entries := 0;
     headerLength := 0; userHeaderLength := 0; indexLength := 0;
     dataLength := 0; compressedDataLength := 0; compressionType := 0;
     userHeaderLengthPadding := 0; dataLengthPadding := 0;
     compressedDataLengthPadding := 0; recordLengthPadding := 0;
     dataLengthWords := 0; compressedDataLengthWords := 0;
     userHeaderLengthWords := 0; recordLengthWords := 0;
     headerLengthWords := 0;
     recordUserRegisterFirst := 0; recordUserRegisterSecond := 0;
     headerVersion := 6; headerMagicWord := HEADER_MAGIC_LE |}.

(** [padValue[length%4]]: a negative remainder is a bad array index. *)
Definition getPadding (length : Z) : res Z :=
  let i := Java.rem length 4 in
  if i <? 0 then Throw ArrayIndexOutOfBoundsException
  else match nth_error padValue (Z.to_nat i) with
       | Some p => Ok p
       | None => Throw ArrayIndexOutOfBoundsException
       end.

Definition getWords (length : Z) : res Z :=
  padding <- getPadding length ;;
  let words := Java.div length 4 in
  Ok (if 0 <? padding then Java.int (words + 1) else words).

Definition setPosition (pos : Z) (h : t) : t := assign F_position pos h.
Definition setRecordNumber (num : Z) (h : t) : t := assign F_recordNumber num h.
Definition setVersion (version : Z) (h : t) : t := assign F_headerVersion version h.

Definition setLength (length : Z) (h : t) : res t :=
  let h := assign F_recordLength length h in
  w <- getWords length ;;
  let h := assign F_recordLengthWords w h in
  p <- getPadding length ;;
  Ok (assign F_recordLengthPadding p h).

Definition setDataLength (length : Z) (h : t) : res t :=
  let h := assign F_dataLength length h in
  w <- getWords length ;;
  let h := assign F_dataLengthWords w h in
  p <- getPadding length ;;
  Ok (assign F_dataLengthPadding p h).

Definition setCompressedDataLength (length : Z) (h : t) : res t :=
  let h := assign F_compressedDataLength length h in
  w <- getWords length ;;
  let h := assign F_compressedDataLengthWords w h in
  p <- getPadding length ;;
  Ok (assign F_compressedDataLengthPadding p h).

Definition setIndexLength (length : Z) (h : t) : t := assign F_indexLength length h.
Definition setCompressionType (type : Z) (h : t) : t := assign F_compressionType type h.
Definition setEntries (n : Z) (h : t) : t := assign F_entries n h.

Definition setUserHeaderLength (length : Z) (h : t) : res t :=
  let h := assign F_userHeaderLength length h in
  w <- getWords length ;;
  let h := assign F_userHeaderLengthWords w h in
  p <- getPadding length ;;
  Ok (assign F_userHeaderLengthPadding p h).

Definition setHeaderLength (length : Z) (h : t) : t :=
  let h := assign F_headerLength length h in
  assign F_headerLengthWords (Java.div length 4) h.

Definition setUserRegisterFirst (reg : Z) (h : t) : t :=
  assign F_recordUserRegisterFirst reg h.
Definition setUserRegisterSecond (reg : Z) (h : t) : t :=
  assign F_recordUserRegisterSecond reg h.

Definition getBitInfoWord (h : t) : Z :=
  Z.lor (Z.lor (Z.lor (Java.shl (userHeaderLengthPadding h) 20)
                      (Java.shl (dataLengthPadding h) 22))
               (Java.shl (compressedDataLengthPadding h) 24))
        (Z.land (headerVersion h) 0x000000FF).

(** [writeHeader(buffer, offset)] *)
Definition writeHeader (h : t) (buffer : ByteBuffer.t) (offset : Z)
  : res ByteBuffer.t :=
  buffer <- ByteBuffer.putInt buffer (0*4 + offset) (recordLengthWords h) ;;
  buffer <- ByteBuffer.putInt buffer (1*4 + offset) (recordNumber h) ;;
  buffer <- ByteBuffer.putInt buffer (2*4 + offset) (headerLength h) ;;
  buffer <- ByteBuffer.putInt buffer (3*4 + offset) (entries h) ;;
  buffer <- ByteBuffer.putInt buffer (4*4 + offset) (indexLength h) ;;
  buffer <- ByteBuffer.putInt buffer (5*4 + offset) (getBitInfoWord h) ;;
  buffer <- ByteBuffer.putInt buffer (6*4 + offset) (userHeaderLength h) ;;
  buffer <- ByteBuffer.putInt buffer (7*4 + offset) (headerMagicWord h) ;;
  let compressedWord :=
    Z.lor (Z.land (compressedDataLengthWords h) 0x0FFFFFFF)
          (Java.shl (Z.land (compressionType h) 0x0000000F) 28) in
  buffer <- ByteBuffer.putInt buffer (8*4 + offset) (dataLength h) ;;
  buffer <- ByteBuffer.putInt buffer (9*4 + offset) compressedWord ;;
  buffer <- ByteBuffer.putLong buffer (10*4 + offset) (recordUserRegisterFirst h) ;;
  ByteBuffer.putLong buffer (12*4 + offset) (recordUserRegisterSecond h).

(** [readHeader(buffer, offset)] on the header object [h]; returns the
    object and the buffer, whose byte order the method may change.  The
    two error branches of the source are empty, so control falls through
    them. *)
Definition readHeader (h : t) (buffer : ByteBuffer.t) (offset : Z)
  : res (t * ByteBuffer.t) :=
  (* First read the magic word to establish endianness *)
  magic <- ByteBuffer.getInt buffer (7*4 + offset) ;;
  let h := assign F_headerMagicWord magic h in
  let buffer :=
    if negb (magic =? HEADER_MAGIC_LE) then
      if magic =? HEADER_MAGIC_BE then
        match ByteBuffer.order buffer with
        | BIG_ENDIAN => ByteBuffer.set_order LITTLE_ENDIAN buffer
        | LITTLE_ENDIAN => ByteBuffer.set_order BIG_ENDIAN buffer
        end
      else
        (* ERROR condition, bad magic word: nothing is done *)
        buffer
    else buffer in
  (* Next look at the version # *)
  bitInoWord <- ByteBuffer.getInt buffer (5*4 + offset) ;;
  let h := assign F_headerVersion (Z.land bitInoWord 0x000000FF) h in
  let h := if headerVersion h <? 6
           then (* ERROR condition, wrong version: nothing is done *) h
           else h in
  w <- ByteBuffer.getInt buffer (0 + offset) ;;
  let h := assign F_recordLengthWords w h in
  let h := assign F_recordLength (Java.int (recordLengthWords h * 4)) h in
  let h := assign F_recordLengthPadding 0 h in
  v <- ByteBuffer.getInt buffer (1*4 + offset) ;;
  let h := assign F_recordNumber v h in
  v <- ByteBuffer.getInt buffer (2*4 + offset) ;;
  let h := assign F_headerLength v h in
  v <- ByteBuffer.getInt buffer (3*4 + offset) ;;
  let h := assign F_entries v h in
  v <- ByteBuffer.getInt buffer (4*4 + offset) ;;
  let h := assign F_indexLength v h in
  let h := setIndexLength (indexLength h) h in
  v <- ByteBuffer.getInt buffer (6*4 + offset) ;;
  let h := assign F_userHeaderLength v h in
  h <- setUserHeaderLength (userHeaderLength h) h ;;
  v <- ByteBuffer.getInt buffer (8*4 + offset) ;;
  let h := assign F_dataLength v h in
  h <- setDataLength (dataLength h) h ;;
  compressionWord <- ByteBuffer.getInt buffer (9*4 + offset) ;;
  let h := assign F_compressionType (Java.ushr compressionWord 28) h in
  let h := assign F_compressedDataLength (Z.land compressionWord 0x0FFFFFFF) h in
  h <- setCompressedDataLength (compressedDataLength h) h ;;
  r1 <- ByteBuffer.getLong buffer (10*4 + offset) ;;
  let h := assign F_recordUserRegisterFirst r1 h in
  r2 <- ByteBuffer.getLong buffer (12*4 + offset) ;;
  let h := assign F_recordUserRegisterSecond r2 h in
  Ok (h, buffer).

(** The header that [main] builds before writing it. *)
Definition main_header : res t :=
  let header := new in
  header <- setCompressedDataLength 861 header ;;
  header <- setDataLength 12457 header ;;
  header <- setUserHeaderLength 459 header ;;
  let header := setIndexLength 324 header in
  header <- setLength (16 + compressedDataLengthWords header) header ;;
  let header := setUserRegisterFirst 1234567 header in
  let header := setUserRegisterSecond 4567890 header in
  let header := setRecordNumber 23 header in
  let header := setEntries 3245 header in
  let header := setHeaderLength 14 header in
  Ok (setCompressionType 1 header).

End RecordHeader.

(* ===================================================================== *)
(** * evioswap.c                                                          *)
(* ===================================================================== *)

Module Evioswap.

(** ** Memory and pointers

    [evioswap] works on two arrays of 32-bit words: the buffer that holds
    the event and the destination buffer.  A [uint32_t *] is null, points
    into one of the two arrays, or is what [NULL + n] gives: a pointer that
    is not null and lies in no object. *)

Record mem := mkmem {
  data_array : list Z;
  dest_array : list Z
}.

Inductive ptr : Set :=
| Null
| Data (i : Z)
| Dest (i : Z)
| Wild (addr : Z).

(** [p + n] for a [uint32_t *p]. *)
Definition padd (p : ptr) (n : Z) : ptr :=
  match p with
  | Null => if n =? 0 then Null else Wild (4 * n)
  | Data i => Data (i + n)
  | Dest i => Dest (i + n)
  | Wild a => Wild (a + 4 * n)
  end.

Definition is_null (p : ptr) : bool :=
  match p with Null => true | _ => false end.

(** How a call ends: normally, by an access outside the two arrays (the
    behaviour of the C program is then undefined), or because the model ran
    out of [fuel]. *)
Inductive outcome (A : Type) : Type :=
| Done (a : A)
| Fault
| OutOfFuel.
Arguments Done {A} a.
Arguments Fault {A}.
Arguments OutOfFuel {A}.

Definition obind {A B : Type} (m : outcome A) (k : A -> outcome B) : outcome B :=
  match m with
  | Done a => k a
  | Fault => Fault
  | OutOfFuel => OutOfFuel
  end.

Notation "x <~ m ;; k" := (obind m (fun x => k))
  (at level 61, m at next level, right associativity).
Notation "' p <~ m ;; k" := (obind m (fun p => k))
  (at level 61, p pattern, m at next level, right associativity).

Definition u32 (z : Z) : Z := z mod 2 ^ 32.
Definition u16 (z : Z) : Z := z mod 2 ^ 16.

Definition nth_word (l : list Z) (i : Z) : outcome Z :=
  if i <? 0 then Fault
  else match nth_error l (Z.to_nat i) with
       | Some w => Done w
       | None => Fault
       end.

Definition set_word (l : list Z) (i : Z) (v : Z) : outcome (list Z) :=
  if i <? 0 then Fault
  else match nth_error l (Z.to_nat i) with
       | Some _ => Done (firstn (Z.to_nat i) l ++ v :: skipn (S (Z.to_nat i)) l)
       | None => Fault
       end.

(** [p[i]] as an rvalue and [p[i] = v]. *)
Definition load (m : mem) (p : ptr) (i : Z) : outcome Z :=
  match p with
  | Data k => nth_word (data_array m) (k + i)
  | Dest k => nth_word (dest_array m) (k + i)
  | Null | Wild _ => Fault
  end.

Definition store (m : mem) (p : ptr) (i : Z) (v : Z) : outcome mem :=
  match p with
  | Data k => l <~ set_word (data_array m) (k + i) v ;;
              Done (mkmem l (dest_array m))
  | Dest k => l <~ set_word (dest_array m) (k + i) v ;;
              Done (mkmem (data_array m) l)
  | Null | Wild _ => Fault
  end.

(** ** What evio.h provides

    evio.h is not part of the sources at hand; its macros are used by
    evioswap.c and are fixed here. *)

(** Modelled from the spec: [EV_HDSIZ_V6], the number of words of a version
    6 header ("14 x 32-bit words"). *)
Definition EV_HDSIZ_V6 : Z := 14.

(** Modelled from the spec: the macros [EVIO_SWAP16], [EVIO_SWAP32] and
    [EVIO_SWAP64] of evio.h reverse the bytes of a 16, 32 or 64 bit value
    (the "endian swap" of the swapper). *)
Definition EVIO_SWAP16 (x : Z) : Z := le_val (rev (le_bytes 2 x)).
Definition EVIO_SWAP32 (x : Z) : Z := le_val (rev (le_bytes 4 x)).
Definition EVIO_SWAP64 (x : Z) : Z := le_val (rev (le_bytes 8 x)).

(** Modelled from the spec: the status codes of evio.h. *)
Inductive status : Set := S_SUCCESS | S_FAILURE.

(** ** Views of the word arrays as [uint16_t] and [uint64_t]

    A cast of [data] to a pointer to [uint16_t] or [uint64_t] reads the
    same memory in other units; which half of a word comes first depends on
    the byte order of the host. *)

Section Host.

Variable host : ByteOrder.

(** [p[i]] for [p] cast to a pointer to [uint16_t]. *)
Definition load16 (m : mem) (p : ptr) (i : Z) : outcome Z :=
  w <~ load m p (i / 2) ;;
  let low_first := match host with LITTLE_ENDIAN => true | BIG_ENDIAN => false end in
  Done (if Bool.eqb (i mod 2 =? 0) low_first then w mod 2 ^ 16 else (w / 2 ^ 16) mod 2 ^ 16).

Definition store16 (m : mem) (p : ptr) (i : Z) (v : Z) : outcome mem :=
  w <~ load m p (i / 2) ;;
  let low_first := match host with LITTLE_ENDIAN => true | BIG_ENDIAN => false end in
  let lo := w mod 2 ^ 16 in
  let hi := (w / 2 ^ 16) mod 2 ^ 16 in
  store m p (i / 2)
        (if Bool.eqb (i mod 2 =? 0) low_first then u16 v + 2 ^ 16 * hi
         else lo + 2 ^ 16 * u16 v).

(** [p[i]] for [p] cast to a pointer to [uint64_t]. *)
Definition load64 (m : mem) (p : ptr) (i : Z) : outcome Z :=
  w0 <~ load m p (2 * i) ;;
  w1 <~ load m p (2 * i + 1) ;;
  Done (match host with
        | LITTLE_ENDIAN => w0 + 2 ^ 32 * w1
        | BIG_ENDIAN => w1 + 2 ^ 32 * w0
        end).

Definition store64 (m : mem) (p : ptr) (i : Z) (v : Z) : outcome mem :=
  let lo := v mod 2 ^ 32 in
  let hi := (v / 2 ^ 32) mod 2 ^ 32 in
  match host with
  | LITTLE_ENDIAN => m <~ store m p (2 * i) lo ;; store m p (2 * i + 1) hi
  | BIG_ENDIAN => m <~ store m p (2 * i) hi ;; store m p (2 * i + 1) lo
  end.

(** ** Words of 64 bits out of two words of 32 *)

(** [evioIsLocalHostBigEndian()]: whether the first byte in memory of the
    [int32_t] 1 is not 1. *)
Definition evioIsLocalHostBigEndian : bool :=
  negb (hd 0 (encode host 4 1) =? 1).

(** The macro [EVIO_TO_64_BITS(low, high)] of evio.h, which is not part of
    the sources at hand: a parameter. *)
Variable EVIO_TO_64_BITS : Z -> Z -> Z.

(** [evioToLongWord(word1, word2, needToSwap)] *)
Definition evioToLongWord (word1 word2 : Z) (needToSwap : bool) : Z :=
  let hostIsBigEndian := evioIsLocalHostBigEndian in
  if needToSwap then
    (* First swap each 32 bit word *)
    let word1 := EVIO_SWAP32 word1 in
    let word2 := EVIO_SWAP32 word2 in
    (* If this is a big endian machine ... EVIO_TO_64_BITS(low, high) *)
    if hostIsBigEndian then EVIO_TO_64_BITS word1 word2
    else EVIO_TO_64_BITS word2 word1
  else if hostIsBigEndian then EVIO_TO_64_BITS word2 word1
  else
    (* this host is little endian *)
    EVIO_TO_64_BITS word1 word2.

(** ** The swapping loops *)

(** [for (i = 0; i < length; i++) body(i)] with [n] iterations left. *)
Fixpoint for_loop (n : nat) (i : Z) (body : mem -> Z -> outcome mem) (m : mem)
  : outcome mem :=
  match n with
  | O => Done m
  | S k => m <~ body m i ;; for_loop k (i + 1) body m
  end.

(** [swap_int32_t(data, length, dest)]; returns the memory and the pointer
    to the swapped data. *)
Definition swap_int32_t (m : mem) (data : ptr) (length : Z) (dest : ptr)
  : outcome (mem * ptr) :=
  let dest := if is_null dest then data else dest in
  m <~ for_loop (Z.to_nat length) 0
        (fun m i => w <~ load m data i ;; store m dest i (EVIO_SWAP32 w)) m ;;
  Done (m, dest).

(** [swap_int64_t(data, length, dest)] on [uint64_t] pointers. *)
Definition swap_int64_t (m : mem) (data : ptr) (length : Z) (dest : ptr)
  : outcome (mem * ptr) :=
  let dest := if is_null dest then data else dest in
  m <~ for_loop (Z.to_nat length) 0
        (fun m i => w <~ load64 m data i ;; store64 m dest i (EVIO_SWAP64 w)) m ;;
  Done (m, dest).

(** [swap_int16_t(data, length, dest)] on [uint16_t] pointers. *)
Definition swap_int16_t (m : mem) (data : ptr) (length : Z) (dest : ptr)
  : outcome (mem * ptr) :=
  let dest := if is_null dest then data else dest in
  m <~ for_loop (Z.to_nat length) 0
        (fun m i => w <~ load16 m data i ;; store16 m dest i (EVIO_SWAP16 w)) m ;;
  Done (m, dest).

(** [copy_data(data, length, dest)] *)
Definition copy_data (m : mem) (data : ptr) (length : Z) (dest : ptr)
  : outcome mem :=
  if is_null dest then Done m
  else for_loop (Z.to_nat length) 0
         (fun m i => w <~ load m data i ;; store m dest i w) m.

(** ** Header swaps *)

(** [evioSwapRecordHeaderV6(header)]: nothing is done for a null
    argument. *)
Definition evioSwapRecordHeaderV6 (m : mem) (header : ptr) : outcome mem :=
  if is_null header then Done m
  else
    (* Swap everything as 32 bit words *)
    '(m, _) <~ swap_int32_t m header EV_HDSIZ_V6 Null ;;
    (* user register 1 *)
    temp <~ load m header 10 ;;
    w <~ load m header 11 ;;
    m <~ store m header 10 w ;;
    m <~ store m header 11 temp ;;
    (* user register 2 *)
    temp <~ load m header 12 ;;
    w <~ load m header 13 ;;
    m <~ store m header 12 w ;;
    store m header 13 temp.

(** [evioSwapFileHeaderV6(header)] *)
Definition evioSwapFileHeaderV6 (m : mem) (header : ptr) : outcome mem :=
  if is_null header then Done m
  else
    '(m, _) <~ swap_int32_t m header EV_HDSIZ_V6 Null ;;
    (* user register *)
    temp <~ load m header 8 ;;
    w <~ load m header 9 ;;
    m <~ store m header 8 w ;;
    m <~ store m header 9 temp ;;
    (* trailer position *)
    temp <~ load m header 10 ;;
    w <~ load m header 11 ;;
    m <~ store m header 10 w ;;
    store m header 11 temp.

(** ** Composite data

    [eviofmt] and [eviofmtswap] are declared [extern] ("Sergey's composite
    swap library", eviofmt.c and eviofmtswap.c); they are parameters here.
    [eviofmt m fmt ifmtLen] returns [nfmt] and the filled [ifmt];
    [eviofmtswap m iarr nwrd ifmt nfmt tolocal padding] returns the memory,
    swapped in place from [iarr], and its return value. *)

Variable eviofmt : mem -> ptr -> Z -> Z * list Z.
Variable eviofmtswap : mem -> ptr -> Z -> list Z -> Z -> bool -> Z -> mem * Z.

(** The [while (len > 0)] loop of [swap_composite_t], entered with the
    current values of [data], [dest], [d], [pData] and [len]. *)
Fixpoint swap_composite_loop (fuel : nat) (m : mem) (inPlace tolocal : bool)
    (data dest d pData : ptr) (len : Z) : outcome (mem * status) :=
  match fuel with
  | O => OutOfFuel
  | S fuel =>
    if 0 <? len then
      (* swap format tagsegment header word *)
      '(m, pData) <~ (if tolocal then swap_int32_t m data 1 dest
                      else Done (m, pData)) ;;
      (* get length of format string (in 32 bit words) *)
      w <~ load m pData 0 ;;
      let formatLen := Z.land w 0xffff in
      '(m, _) <~ (if negb tolocal then swap_int32_t m data 1 dest
                  else Done (m, Null)) ;;
      (* copy if needed *)
      m <~ (if negb inPlace then copy_data m (padd data 1) formatLen (padd dest 1)
            else Done m) ;;
      (* set start of format string *)
      let formatString := padd pData 1 in
      (* swap data bank header words *)
      let pData := padd data (u32 (formatLen + 1)) in
      '(m, pData) <~ (if tolocal
                      then swap_int32_t m (padd data (u32 (formatLen + 1))) 2
                                        (padd d (u32 (formatLen + 1)))
                      else Done (m, pData)) ;;
      (* get length of composite data (bank's len - 1) *)
      w <~ load m pData 0 ;;
      let dataLen := u32 (w - 1) in
      '(m, _) <~ (if negb tolocal
                  then swap_int32_t m (padd data (u32 (formatLen + 1))) 2
                                    (padd d (u32 (formatLen + 1)))
                  else Done (m, Null)) ;;
      (* copy if needed *)
      m <~ (if negb inPlace
            then copy_data m (padd data (u32 (formatLen + 3))) dataLen
                           (padd d (u32 (formatLen + 3)))
            else Done m) ;;
      (* get start of composite data, will be swapped in place *)
      let pData := padd d (u32 (formatLen + 3)) in
      let '(nfmt, ifmt) := eviofmt m formatString 1024 in
      if 0 <? nfmt then
        let '(m, rc) := eviofmtswap m pData dataLen ifmt nfmt tolocal 0 in
        if negb (rc =? 0) then Done (m, S_FAILURE)
        else
          (* # of words in this composite data array element *)
          let wordLen := Java.int (u32 (1 + formatLen + 2 + dataLen)) in
          (* go to the next composite data array element *)
          let len := Java.long (len - wordLen) in
          let dest := padd dest wordLen in
          let data := padd data wordLen in
          let pData := data in
          let d := if inPlace then data else dest in
          (* oops, things aren't coming out evenly *)
          if len <? 0 then Done (m, S_FAILURE)
          else swap_composite_loop fuel m inPlace tolocal data dest d pData len
      else Done (m, S_FAILURE)
    else Done (m, S_SUCCESS)
  end.

(** [swap_composite_t(data, tolocal, dest, length)] *)
Definition swap_composite_t (fuel : nat) (m : mem) (data : ptr) (tolocal : bool)
    (dest : ptr) (length : Z) : outcome (mem * status) :=
  let len := length in
  (* swap in place or copy ? *)
  let inPlace := is_null dest in
  let d := if inPlace then data else dest in
  (* location of incoming data *)
  let pData := data in
  swap_composite_loop fuel m inPlace tolocal data dest d pData len.

(** ** Banks, segments, tagsegments and their data *)

(** [(dest==NULL) ? NULL : &dest[l]] *)
Definition dest_at (dest : ptr) (l : Z) : ptr :=
  if is_null dest then Null else padd dest l.

(** The three [while (l < length)] loops of [swap_data]: [swap_child] is
    [swap_bank], [swap_segment] or [swap_tagsegment], and [frag w] the
    length of a fragment whose first word is [w]. *)
Fixpoint fragment_loop (fuel : nat)
    (swap_child : mem -> ptr -> ptr -> outcome mem) (frag : Z -> Z)
    (m : mem) (data : ptr) (tolocal : bool) (dest : ptr) (l length : Z)
  : outcome mem :=
  match fuel with
  | O => OutOfFuel
  | S fuel =>
    if l <? length then
      '(m, fraglen) <~
        (if tolocal then
           m <~ swap_child m (padd data l) (dest_at dest l) ;;
           w <~ (if is_null dest then load m data l else load m dest l) ;;
           Done (m, frag w)
         else
           w <~ load m data l ;;
           m <~ swap_child m (padd data l) (dest_at dest l) ;;
           Done (m, frag w)) ;;
      fragment_loop fuel swap_child frag m data tolocal dest (u32 (l + fraglen)) length
    else Done m
  end.

(** The bodies of [swap_bank], [swap_segment] and [swap_tagsegment], given
    [swap_data] for the data that follows the header. *)
Definition swap_bank_body
    (swap_data : mem -> ptr -> Z -> Z -> ptr -> outcome mem)
    (m : mem) (buf : ptr) (tolocal : bool) (dest : ptr) : outcome mem :=
  let p := buf in
  (* Swap header to get length and contained type if buf NOT local endian *)
  '(m, p) <~ (if tolocal then swap_int32_t m buf 2 dest else Done (m, p)) ;;
  p0 <~ load m p 0 ;;
  p1 <~ load m p 1 ;;
  let data_length := u32 (p0 - 1) in
  let data_type := Z.land (Z.shiftr p1 8) 0x3f in
  (* Swap header if buf is local endian *)
  '(m, _) <~ (if negb tolocal then swap_int32_t m buf 2 dest else Done (m, Null)) ;;
  (* Swap non-header bank data *)
  swap_data m (padd buf 2) data_type data_length (dest_at dest 2).

Definition swap_segment_body
    (swap_data : mem -> ptr -> Z -> Z -> ptr -> outcome mem)
    (m : mem) (buf : ptr) (tolocal : bool) (dest : ptr) : outcome mem :=
  let p := buf in
  '(m, p) <~ (if tolocal then swap_int32_t m buf 1 dest else Done (m, p)) ;;
  p0 <~ load m p 0 ;;
  let data_length := Z.land p0 0xffff in
  let data_type := Z.land (Z.shiftr p0 16) 0x3f in
  '(m, _) <~ (if negb tolocal then swap_int32_t m buf 1 dest else Done (m, Null)) ;;
  swap_data m (padd buf 1) data_type data_length (dest_at dest 1).

Definition swap_tagsegment_body
    (swap_data : mem -> ptr -> Z -> Z -> ptr -> outcome mem)
    (m : mem) (buf : ptr) (tolocal : bool) (dest : ptr) : outcome mem :=
  let p := buf in
  '(m, p) <~ (if tolocal then swap_int32_t m buf 1 dest else Done (m, p)) ;;
  p0 <~ load m p 0 ;;
  let data_length := Z.land p0 0xffff in
  let data_type := Z.land (Z.shiftr p0 16) 0xf in
  '(m, _) <~ (if negb tolocal then swap_int32_t m buf 1 dest else Done (m, Null)) ;;
  swap_data m (padd buf 1) data_type data_length (dest_at dest 1).

(** [swap_data(data, type, length, tolocal, dest)].  The recursion of the
    C functions through nested structures is counted by [fuel]. *)
Fixpoint swap_data (fuel : nat) (tolocal : bool) (m : mem) (data : ptr)
    (type : Z) (length : Z) (dest : ptr) : outcome mem :=
  match fuel with
  | O => OutOfFuel
  | S fuel =>
    let rec := swap_data fuel tolocal in
    match type with
    (* unknown type ... no swap *)
    | 0x0 => copy_data m data length dest
    (* 32-bit types: uint, float, or int *)
    | 0x1 | 0x2 | 0xb =>
        '(m, _) <~ swap_int32_t m data length dest ;; Done m
    (* 8-bit types: string array, char, or uchar ... no swap *)
    | 0x3 | 0x6 | 0x7 => copy_data m data length dest
    (* 16-bit types: short or ushort *)
    | 0x4 | 0x5 =>
        '(m, _) <~ swap_int16_t m data (u32 (length * 2)) dest ;; Done m
    (* 64-bit types: double, int, or uint *)
    | 0x8 | 0x9 | 0xa =>
        '(m, _) <~ swap_int64_t m data (length / 2) dest ;; Done m
    (* Composite type: the return value is dropped *)
    | 0xf =>
        '(m, _) <~ swap_composite_t fuel m data tolocal dest length ;; Done m
    (* bank *)
    | 0xe | 0x10 =>
        fragment_loop fuel
          (fun m b d => swap_bank_body rec m b tolocal d)
          (fun w => u32 (w + 1)) m data tolocal dest 0 length
    (* segment *)
    | 0xd | 0x20 =>
        fragment_loop fuel
          (fun m b d => swap_segment_body rec m b tolocal d)
          (fun w => u32 (Z.land w 0xffff + 1)) m data tolocal dest 0 length
    (* tagsegment *)
    | 0xc =>
        fragment_loop fuel
          (fun m b d => swap_tagsegment_body rec m b tolocal d)
          (fun w => u32 (Z.land w 0xffff + 1)) m data tolocal dest 0 length
    (* unknown type, just copy *)
    | _ => copy_data m data length dest
    end
  end.

Definition swap_bank (fuel : nat) (m : mem) (buf : ptr) (tolocal : bool)
    (dest : ptr) : outcome mem :=
  swap_bank_body (swap_data fuel tolocal) m buf tolocal dest.

Definition swap_segment (fuel : nat) (m : mem) (buf : ptr) (tolocal : bool)
    (dest : ptr) : outcome mem :=
  swap_segment_body (swap_data fuel tolocal) m buf tolocal dest.

Definition swap_tagsegment (fuel : nat) (m : mem) (buf : ptr) (tolocal : bool)
    (dest : ptr) : outcome mem :=
  swap_tagsegment_body (swap_data fuel tolocal) m buf tolocal dest.

(** [evioswap(buf, tolocal, dest)] *)
Definition evioswap (fuel : nat) (m : mem) (buf : ptr) (tolocal : bool)
    (dest : ptr) : outcome mem :=
  swap_bank fuel m buf tolocal dest.

End Host.

End Evioswap.

(* ===================================================================== *)
(** * newlib++/Reader.cpp                                                 *)
(* ===================================================================== *)

Module Reader.

Definition u32 (z : Z) : Z := z mod 2 ^ 32.
Definition u64 (z : Z) : Z := z mod 2 ^ 64.

(** [RecordPosition(pos, len, cnt)] *)
Record RecordPosition := mkRecordPosition {
  rp_position : Z;
  rp_length : Z;
  rp_count : Z
}.

(** Modelled from the spec: what the reader asks of a parsed [FileHeader]
    (FileHeader is not part of the sources at hand): the two index bits
    of the bit-info word, the trailer position of words 10-11, and the
    lengths of words 2, 4 and 6 with the total length of header, index and
    padded user header. *)
Record FileHeader := mkFileHeader {
  fh_hasTrailerWithIndex : bool;
  fh_hasIndex : bool;
  fh_getTrailerPosition : Z;
  fh_getLength : Z;
  fh_getHeaderLength : Z;
  fh_getUserHeaderLength : Z;
  fh_getIndexLength : Z;
  fh_getByteOrder : ByteOrder;
  fh_getVersion : Z
}.

(** Modelled from the spec: what the reader asks of a parsed record header
    (the C++ [RecordHeader] is not part of the sources at hand). *)
Record RecordHeaderInfo := mkRecordHeaderInfo {
  rh_getLength : Z;
  rh_getEntries : Z;
  rh_getIndexLength : Z;
  rh_getRecordNumber : Z;
  rh_getCompressionType : Z
}.

(** The fields of EvioNode.h that the reader uses.  [parentNode] "is null
    if this is an event node". *)
#[local] Set Warnings "-register-all".
Inductive EvioNode : Type := mkEvioNode {
  len : Z;
  pos : Z;
  type : Z;
  dataLen : Z;
  dataPos : Z;
  recordPos : Z;
  isEvent : bool;
  obsolete : bool;
  place : Z;
  parentNode : option EvioNode
}.

Definition setObsolete (b : bool) (n : EvioNode) : EvioNode :=
  mkEvioNode (len n) (pos n) (type n) (dataLen n) (dataPos n) (recordPos n)
             (isEvent n) b (place n) (parentNode n).

(** Modelled from the spec: [RecordHeader::UNCOMPRESSED_LENGTH_OFFSET], the
    byte offset of header word 8 ("uncompressedDataLength"). *)
Definition UNCOMPRESSED_LENGTH_OFFSET : Z := 32.
Definition HEADER_SIZE_BYTES : Z := 56.

(** The classes the reader works with and whose code is not part of the
    sources at hand: the file, [FileEventIndex], [RecordInput], the parsers
    of the two headers, [ByteDataTransformer.toIntArray] and
    [EvioNode::updateLengths].  The reader is written over any
    implementation of them. *)
Record Collaborators := mkCollaborators {
  File : Type;
  FileEventIndex : Type;
  RecordInput : Type;
  (* inStreamRandom.length() *)
  file_length : File -> Z;
  (* channel.position(p); inStreamRandom.read(headerBytes);
     fileHeader.readHeader(headerBuffer) *)
  readFileHeader : File -> Z -> res FileHeader;
  (* channel.position(p); inStreamRandom.read(headerBytes);
     recordHeader.readHeader(headerBuffer) *)
  readRecordHeader : File -> Z -> res RecordHeaderInfo;
  (* inStreamRandom.read(index) at position p, then
     ByteDataTransformer.toIntArray(index, order) *)
  readIntArray : File -> Z -> Z -> ByteOrder -> res (list Z);
  (* FileEventIndex *)
  clear : FileEventIndex -> FileEventIndex;
  addEventSize : FileEventIndex -> Z -> FileEventIndex;
  getMaxEvents : FileEventIndex -> Z;
  setEvent : FileEventIndex -> Z -> FileEventIndex * bool;
  getRecordNumber : FileEventIndex -> Z;
  getRecordEventNumber : FileEventIndex -> Z;
  (* RecordInput *)
  readRecordFromFile : RecordInput -> File -> Z -> res RecordInput;
  readRecordFromBuffer : RecordInput -> ByteBuffer.t -> Z -> res RecordInput;
  getEntries : RecordInput -> Z;
  getEventBytes : RecordInput -> Z -> option (list Z);
  (* node.updateLengths(deltaLen) on the buffer of the node *)
  updateLengths : EvioNode -> Z -> ByteBuffer.t -> res ByteBuffer.t
}.

Section Reader.

Variable C : Collaborators.

(** The member variables of [Reader]. *)
Record t := mk {
  inStreamRandom : File C;
  fileHeader : option FileHeader;
  firstRecordHeader : option RecordHeaderInfo;
  byteOrder : ByteOrder;
  evioVersion : Z;
  compressed : bool;
  closed : bool;
  fromFile : bool;
  checkRecordNumberSequence : bool;
  recordNumberExpected : Z;
  eventIndex : FileEventIndex C;
  recordPositions : list RecordPosition;
  inputRecordStream : RecordInput C;
  currentRecordLoaded : Z;
  sequentialIndex : Z;
  lastCalledSeqNext : bool;
  buffer : ByteBuffer.t;
  bufferOffset : Z;
  bufferLimit : Z;
  eventNodes : list EvioNode
}.

(** [scanBuffer()] hands the buffer to [RecordHeader::isCompressed],
    [RecordInput::uncompressRecord] and [EvioNode::extractEventNode], none
    of which is part of the sources at hand: it is a parameter. *)
Variable scanBuffer : t -> res t.

Definition set_eventIndex (e : FileEventIndex C) (r : t) : t :=
  mk r.(inStreamRandom) r.(fileHeader) r.(firstRecordHeader) r.(byteOrder)
     r.(evioVersion) r.(compressed) r.(closed) r.(fromFile)
     r.(checkRecordNumberSequence) r.(recordNumberExpected) e
     r.(recordPositions) r.(inputRecordStream) r.(currentRecordLoaded)
     r.(sequentialIndex) r.(lastCalledSeqNext) r.(buffer) r.(bufferOffset)
     r.(bufferLimit) r.(eventNodes).

Definition set_recordPositions (l : list RecordPosition) (r : t) : t :=
  mk r.(inStreamRandom) r.(fileHeader) r.(firstRecordHeader) r.(byteOrder)
     r.(evioVersion) r.(compressed) r.(closed) r.(fromFile)
     r.(checkRecordNumberSequence) r.(recordNumberExpected) r.(eventIndex)
     l r.(inputRecordStream) r.(currentRecordLoaded)
     r.(sequentialIndex) r.(lastCalledSeqNext) r.(buffer) r.(bufferOffset)
     r.(bufferLimit) r.(eventNodes).

Definition set_recordNumberExpected (n : Z) (r : t) : t :=
  mk r.(inStreamRandom) r.(fileHeader) r.(firstRecordHeader) r.(byteOrder)
     r.(evioVersion) r.(compressed) r.(closed) r.(fromFile)
     r.(checkRecordNumberSequence) n r.(eventIndex)
     r.(recordPositions) r.(inputRecordStream) r.(currentRecordLoaded)
     r.(sequentialIndex) r.(lastCalledSeqNext) r.(buffer) r.(bufferOffset)
     r.(bufferLimit) r.(eventNodes).

(** [fileHeader = ...; byteOrder = fileHeader.getByteOrder();
    evioVersion = fileHeader.getVersion()] *)
Definition set_fileHeader (fh : FileHeader) (r : t) : t :=
  mk r.(inStreamRandom) (Some fh) r.(firstRecordHeader) (fh_getByteOrder fh)
     (fh_getVersion fh) r.(compressed) r.(closed) r.(fromFile)
     r.(checkRecordNumberSequence) r.(recordNumberExpected) r.(eventIndex)
     r.(recordPositions) r.(inputRecordStream) r.(currentRecordLoaded)
     r.(sequentialIndex) r.(lastCalledSeqNext) r.(buffer) r.(bufferOffset)
     r.(bufferLimit) r.(eventNodes).

(** [firstRecordHeader = ...;
    compressed = firstRecordHeader.getCompressionType() != 0] *)
Definition set_firstRecordHeader (rh : RecordHeaderInfo) (r : t) : t :=
  mk r.(inStreamRandom) r.(fileHeader) (Some rh) r.(byteOrder)
     r.(evioVersion) (negb (rh_getCompressionType rh =? 0)) r.(closed)
     r.(fromFile) r.(checkRecordNumberSequence) r.(recordNumberExpected)
     r.(eventIndex) r.(recordPositions) r.(inputRecordStream)
     r.(currentRecordLoaded) r.(sequentialIndex) r.(lastCalledSeqNext)
     r.(buffer) r.(bufferOffset) r.(bufferLimit) r.(eventNodes).

Definition set_record (ri : RecordInput C) (index : Z) (r : t) : t :=
  mk r.(inStreamRandom) r.(fileHeader) r.(firstRecordHeader) r.(byteOrder)
     r.(evioVersion) r.(compressed) r.(closed) r.(fromFile)
     r.(checkRecordNumberSequence) r.(recordNumberExpected) r.(eventIndex)
     r.(recordPositions) ri index
     r.(sequentialIndex) r.(lastCalledSeqNext) r.(buffer) r.(bufferOffset)
     r.(bufferLimit) r.(eventNodes).

Definition set_buffer (b : ByteBuffer.t) (off lim : Z) (r : t) : t :=
  mk r.(inStreamRandom) r.(fileHeader) r.(firstRecordHeader) r.(byteOrder)
     r.(evioVersion) r.(compressed) r.(closed) r.(fromFile)
     r.(checkRecordNumberSequence) r.(recordNumberExpected) r.(eventIndex)
     r.(recordPositions) r.(inputRecordStream) r.(currentRecordLoaded)
     r.(sequentialIndex) r.(lastCalledSeqNext) b off lim r.(eventNodes).

Definition set_eventNodes (l : list EvioNode) (r : t) : t :=
  mk r.(inStreamRandom) r.(fileHeader) r.(firstRecordHeader) r.(byteOrder)
     r.(evioVersion) r.(compressed) r.(closed) r.(fromFile)
     r.(checkRecordNumberSequence) r.(recordNumberExpected) r.(eventIndex)
     r.(recordPositions) r.(inputRecordStream) r.(currentRecordLoaded)
     r.(sequentialIndex) r.(lastCalledSeqNext) r.(buffer) r.(bufferOffset)
     r.(bufferLimit) l.

(** [list.get(index)] *)
Definition list_get {A : Type} (l : list A) (index : Z) : res A :=
  if index <? 0 then Throw IndexOutOfBoundsException
  else match nth_error l (Z.to_nat index) with
       | Some a => Ok a
       | None => Throw IndexOutOfBoundsException
       end.

(** ** Reading events *)

(** [readRecord(index)]; returns the reader and the boolean result. *)
Definition readRecord (r : t) (index : Z) : res (t * bool) :=
  if (0 <=? index) && (index <? Z.of_nat (length r.(recordPositions))) then
    pos <- list_get r.(recordPositions) index ;;
    ri <- (if r.(fromFile)
           then readRecordFromFile C r.(inputRecordStream) r.(inStreamRandom)
                                   (rp_position pos)
           else readRecordFromBuffer C r.(inputRecordStream) r.(buffer)
                                     (Java.int (rp_position pos))) ;;
    Ok (set_record ri index r, true)
  else Ok (r, false).

(** [getEvent(index)]: the byte array of the event, or null. *)
Definition getEvent (r : t) (index : Z) : res (option (list Z) * t) :=
  if (index <? 0) || (getMaxEvents C r.(eventIndex) <=? index) then
    Ok (None, r)
  else
    let '(ei, changed) := setEvent C r.(eventIndex) index in
    let r := set_eventIndex ei r in
    r <- (if changed
          (* If here, the event is in the next record *)
          then '(r, _) <- readRecord r (getRecordNumber C r.(eventIndex)) ;; Ok r
          else Ok r) ;;
    r <- (if getEntries C r.(inputRecordStream) =? 0
          then '(r, _) <- readRecord r (getRecordNumber C r.(eventIndex)) ;; Ok r
          else Ok r) ;;
    Ok (getEventBytes C r.(inputRecordStream)
                      (getRecordEventNumber C r.(eventIndex)), r).

(** ** Reading events in sequence *)

Definition set_sequentialIndex (i : Z) (r : t) : t :=
  mk r.(inStreamRandom) r.(fileHeader) r.(firstRecordHeader) r.(byteOrder)
     r.(evioVersion) r.(compressed) r.(closed) r.(fromFile)
     r.(checkRecordNumberSequence) r.(recordNumberExpected) r.(eventIndex)
     r.(recordPositions) r.(inputRecordStream) r.(currentRecordLoaded)
     i r.(lastCalledSeqNext) r.(buffer) r.(bufferOffset)
     r.(bufferLimit) r.(eventNodes).

Definition set_lastCalledSeqNext (b : bool) (r : t) : t :=
  mk r.(inStreamRandom) r.(fileHeader) r.(firstRecordHeader) r.(byteOrder)
     r.(evioVersion) r.(compressed) r.(closed) r.(fromFile)
     r.(checkRecordNumberSequence) r.(recordNumberExpected) r.(eventIndex)
     r.(recordPositions) r.(inputRecordStream) r.(currentRecordLoaded)
     r.(sequentialIndex) b r.(buffer) r.(bufferOffset)
     r.(bufferLimit) r.(eventNodes).

(** [getNumEventsRemaining()] *)
Definition getNumEventsRemaining (r : t) : Z :=
  Java.int (getMaxEvents C r.(eventIndex) - r.(sequentialIndex)).

(** [getNextEvent()]: [getEvent(sequentialIndex++)] is called with the
    index before the increment. *)
Definition getNextEvent (r : t) : res (option (list Z) * t) :=
  let r :=
    if r.(sequentialIndex) <? 0 then set_sequentialIndex 0 r
    (* else if last call was to getPrevEvent ... *)
    else if negb r.(lastCalledSeqNext)
         then set_sequentialIndex (Java.int (r.(sequentialIndex) + 1)) r
         else r in
  let index := r.(sequentialIndex) in
  let r := set_sequentialIndex (Java.int (index + 1)) r in
  '(array, r) <- getEvent r index ;;
  let r := set_lastCalledSeqNext true r in
  match array with
  | None => Ok (None, set_sequentialIndex (Java.int (r.(sequentialIndex) - 1)) r)
  | Some a => Ok (Some a, r)
  end.

(** [getPrevEvent()]: [getEvent(--sequentialIndex)] is called with the
    index after the decrement. *)
Definition getPrevEvent (r : t) : res (option (list Z) * t) :=
  let r :=
    if r.(sequentialIndex) <? 0 then r
    (* else if last call was to getNextEvent ... *)
    else if r.(lastCalledSeqNext)
         then set_sequentialIndex (Java.int (r.(sequentialIndex) - 1)) r
         else r in
  let r := set_sequentialIndex (Java.int (r.(sequentialIndex) - 1)) r in
  '(array, r) <- getEvent r r.(sequentialIndex) ;;
  let r := set_lastCalledSeqNext false r in
  match array with
  | None => Ok (None, set_sequentialIndex (Java.int (r.(sequentialIndex) + 1)) r)
  | Some a => Ok (Some a, r)
  end.

(** ** Scanning a file *)

(** The check of the record number sequence in [forceScanFile]. *)
Definition checkSequence (r : t) (rh : RecordHeaderInfo) : res t :=
  if r.(checkRecordNumberSequence) then
    if negb (rh_getRecordNumber rh =? r.(recordNumberExpected))
    then Throw HipoException
    else Ok (set_recordNumberExpected (Java.int (r.(recordNumberExpected) + 1)) r)
  else Ok r.

(** The [while (recordPosition < maximumSize)] loop of [forceScanFile];
    [recordPosition] is a [uint64_t]. *)
Fixpoint forceScanLoop (fuel : nat) (r : t) (maximumSize recordPosition : Z)
    (haveFirstRecordHeader : bool) : option (res t) :=
  match fuel with
  | O => None
  | S fuel =>
    if recordPosition <? maximumSize then
      match readRecordHeader C r.(inStreamRandom) recordPosition with
      | Throw e => Some (Throw e)
      | Ok recordHeader =>
        match checkSequence r recordHeader with
        | Throw e => Some (Throw e)
        | Ok r =>
          (* Save the first record header *)
          let r := if negb haveFirstRecordHeader
                   then set_firstRecordHeader recordHeader r else r in
          let recordLen := rh_getLength recordHeader in
          let pos := mkRecordPosition recordPosition recordLen
                                      (rh_getEntries recordHeader) in
          let r := set_recordPositions (r.(recordPositions) ++ [pos]) r in
          (* Track # of events in this record for event index handling *)
          let r := set_eventIndex
                     (addEventSize C r.(eventIndex) (rh_getEntries recordHeader)) r in
          forceScanLoop fuel r maximumSize (u64 (recordPosition + recordLen)) true
        end
      end
    else Some (Ok r)
  end.

(** [forceScanFile()]; [None] when the loop does not end within [fuel]
    iterations. *)
Definition forceScanFile (fuel : nat) (r : t) : option (res t) :=
  (* Read and parse file header if we have't already done so in scanFile() *)
  let start :=
    match r.(fileHeader) with
    | None => fh <- readFileHeader C r.(inStreamRandom) 0 ;;
              Ok (set_fileHeader fh r, fh)
    | Some fh => Ok (r, fh)
    end in
  match start with
  | Throw e => Some (Throw e)
  | Ok (r, fh) =>
    let r := set_eventIndex (clear C r.(eventIndex)) r in
    let r := set_recordPositions [] r in
    let r := set_recordNumberExpected 1 r in
    let fileSize := u64 (file_length C r.(inStreamRandom)) in
    (* Don't go beyond 1 header length before EOF *)
    let maximumSize := u64 (fileSize - HEADER_SIZE_BYTES) in
    (* First record position (past file's header + index + user header) *)
    let recordPosition :=
      u64 (Java.int (fh_getHeaderLength fh + fh_getUserHeaderLength fh
                     + fh_getIndexLength fh)) in
    forceScanLoop fuel r maximumSize recordPosition false
  end.

(** The [for (int i=0; i < intData.length; i += 2)] loop of [scanFile];
    [recordPosition] is a [uint32_t]. *)
Fixpoint scanIndexLoop (r : t) (intData : list Z) (recordPosition : Z) : res t :=
  match intData with
  | [] => Ok r
  | [_] => Throw ArrayIndexOutOfBoundsException
  | len :: count :: intData =>
    let pos := mkRecordPosition recordPosition len count in
    let r := set_recordPositions (r.(recordPositions) ++ [pos]) r in
    (* Track # of events in this record for event index handling *)
    let r := set_eventIndex (addEventSize C r.(eventIndex) count) r in
    scanIndexLoop r intData (u32 (recordPosition + len))
  end.

(** [scanFile(force)] *)
Definition scanFile (fuel : nat) (r : t) (force : bool) : option (res t) :=
  if force then forceScanFile fuel r
  else
    let r := set_eventIndex (clear C r.(eventIndex)) r in
    let r := set_recordPositions [] r in
    (* Read and parse file header *)
    match readFileHeader C r.(inStreamRandom) 0 with
    | Throw e => Some (Throw e)
    | Ok fh =>
      let r := set_fileHeader fh r in
      (* Index in trailer gets first priority.
         Index in file header gets next priority. *)
      let fileHasIndex := fh_hasTrailerWithIndex fh || fh_hasIndex fh in
      (* If there is no index, scan file *)
      if negb fileHasIndex then forceScanFile fuel r
      else
        (* If we're using the trailer, make sure it's position is valid *)
        let useTrailer := fh_hasTrailerWithIndex fh in
        let bad := useTrailer && (fh_getTrailerPosition fh <? 1) in
        if bad && negb (fh_hasIndex fh) then
          (* Scan if no viable index exists *)
          forceScanFile fuel r
        else
          (* Use file header index if there is one *)
          let useTrailer := if bad then false else useTrailer in
          Some (
            (* First record position (past file's header + index + user header) *)
            let recordPosition := u32 (fh_getLength fh) in
            (* Move to first record and save the header *)
            rh <- readRecordHeader C r.(inStreamRandom) recordPosition ;;
            let r := set_firstRecordHeader rh r in
            '(indexPosition, indexLength) <-
              (if useTrailer then
                 (* Read trailer *)
                 recordHeader <- readRecordHeader C r.(inStreamRandom)
                                                  (fh_getTrailerPosition fh) ;;
                 Ok (fh_getTrailerPosition fh + HEADER_SIZE_BYTES,
                     rh_getIndexLength recordHeader)
               else
                 (* Index immediately follows file header in this case *)
                 Ok (fh_getHeaderLength fh, fh_getIndexLength fh)) ;;
            (* Read indexes *)
            intData <- readIntArray C r.(inStreamRandom) indexPosition indexLength
                                    (fh_getByteOrder fh) ;;
            (* Turn record lengths into file positions and store in list *)
            let r := set_recordPositions [] r in
            scanIndexLoop r intData recordPosition)
    end.

(** ** Adding a structure *)

(** [addStructure(eventNumber, addBuffer)]; returns the reader and the new
    buffer. *)
Definition addStructure (r : t) (eventNumber : Z) (addBuffer : ByteBuffer.t)
  : res (t * ByteBuffer.t) :=
  if ByteBuffer.remaining addBuffer <? 8 then Throw HipoException
  else if negb (ByteOrder_eqb (ByteBuffer.order addBuffer) r.(byteOrder))
  then Throw HipoException
  else if eventNumber <? 1 then Throw HipoException
  else if r.(closed) then Throw HipoException
  else
    eventNode <- match list_get r.(eventNodes) (eventNumber - 1) with
                 | Ok n => Ok n
                 | Throw _ => Throw HipoException
                 end ;;
    (* Position in byteBuffer just past end of event *)
    let endPos := Java.int (dataPos eventNode + Java.int (4 * dataLen eventNode)) in
    (* How many bytes are we adding? *)
    let appendDataLen := ByteBuffer.remaining addBuffer in
    (* Make sure it's a multiple of 4 *)
    if negb (Java.rem appendDataLen 4 =? 0) then Throw HipoException
    else
      (* Create a new buffer *)
      let size := Java.int (r.(bufferLimit) - r.(bufferOffset) + appendDataLen) in
      if size <? 0 then Throw IllegalArgumentException
      else
      let newBuffer := ByteBuffer.allocate size in
      let newBuffer := ByteBuffer.set_order r.(byteOrder) newBuffer in
      (* Copy beginning part of existing buffer into new buffer *)
      buf <- ByteBuffer.set_limit endPos r.(buffer) ;;
      buf <- ByteBuffer.set_position r.(bufferOffset) buf ;;
      '(newBuffer, buf) <- ByteBuffer.put newBuffer buf ;;
      (* Copy new structure into new buffer *)
      '(newBuffer, addBuffer) <- ByteBuffer.put newBuffer addBuffer ;;
      (* Copy ending part of existing buffer into new buffer *)
      buf <- ByteBuffer.set_limit r.(bufferLimit) buf ;;
      buf <- ByteBuffer.set_position endPos buf ;;
      '(newBuffer, buf) <- ByteBuffer.put newBuffer buf ;;
      (* Get new buffer ready for reading *)
      let newBuffer := ByteBuffer.flip newBuffer in
      let r := set_buffer newBuffer 0 (ByteBuffer.limit newBuffer) r in
      (* Increase lengths of parent nodes *)
      addToNode <- list_get r.(eventNodes) eventNumber ;;
      match parentNode addToNode with
      | None => Throw NullPointerException
      | Some parent =>
        buf <- updateLengths C parent appendDataLen r.(buffer) ;;
        (* Increase containing record's length *)
        let pos := recordPos addToNode in
        (* Header length in words *)
        w <- ByteBuffer.getInt buf pos ;;
        let oldLen := Java.int (4 * w) in
        buf <- ByteBuffer.putInt buf pos
                    (Java.div (Java.int (oldLen + appendDataLen)) 4) ;;
        (* Uncompressed data length in bytes *)
        oldLen <- ByteBuffer.getInt buf (pos + UNCOMPRESSED_LENGTH_OFFSET) ;;
        buf <- ByteBuffer.putInt buf (pos + UNCOMPRESSED_LENGTH_OFFSET)
                    (Java.int (oldLen + appendDataLen)) ;;
        let r := set_buffer buf r.(bufferOffset) r.(bufferLimit) r in
        (* Invalidate all nodes obtained from the last buffer scan *)
        let r := set_eventNodes (map (setObsolete true) r.(eventNodes)) r in
        (* rescan buffer to update everything *)
        r <- scanBuffer r ;;
        Ok (r, r.(buffer))
      end.

End Reader.

End Reader.

(* ===================================================================== *)
(** * Notions used in the statements                                      *)
(* ===================================================================== *)

(** The limit of a buffer never exceeds its capacity. *)
Definition wf_buffer (b : ByteBuffer.t) : Prop :=
  0 <= ByteBuffer.limit b <= ByteBuffer.capacity b.

(** The buffer after a successful [putN]. *)
Definition stored (w : nat) (b : ByteBuffer.t) (i v : Z) : ByteBuffer.t :=
  ByteBuffer.mk (put_bytes (ByteBuffer.hb b) i (encode (ByteBuffer.order b) w v))
                (ByteBuffer.position b) (ByteBuffer.limit b) (ByteBuffer.order b).

(** What a setter of a byte length leaves in the three fields it writes. *)
Definition derived_from (n : Z) (length words padding : Z) : Prop :=
  length = n /\ words = (n + 3) / 4 /\ padding = Z.land (- n) 3.


(** ** Headers as they may arrive

    Three 56-byte headers, as a reader finds them in a little-endian
    buffer. *)

(** Word 7 is 0xDEADBEEF; the version is 6. *)
Definition bad_magic_header : list Z :=
  [0; 0; 0; 0;  0; 0; 0; 0;  14; 0; 0; 0;  0; 0; 0; 0;  0; 0; 0; 0;
   6; 0; 0; 0;  0; 0; 0; 0;  239; 190; 173; 222;  0; 0; 0; 0;  0; 0; 0; 0;
   0; 0; 0; 0;  0; 0; 0; 0;  0; 0; 0; 0;  0; 0; 0; 0].

(** Word 7 is 0xC0DA0100; the version is 5. *)
Definition version5_header : list Z :=
  [0; 0; 0; 0;  0; 0; 0; 0;  14; 0; 0; 0;  0; 0; 0; 0;  0; 0; 0; 0;
   5; 0; 0; 0;  0; 0; 0; 0;  0; 1; 218; 192;  0; 0; 0; 0;  0; 0; 0; 0;
   0; 0; 0; 0;  0; 0; 0; 0;  0; 0; 0; 0;  0; 0; 0; 0].

(** A header of version 6 with header length 14 and magic word 0xC0DA0100,
    written in big-endian order. *)
Definition big_endian_header : list Z :=
  [0; 0; 0; 0;  0; 0; 0; 0;  0; 0; 0; 14;  0; 0; 0; 0;  0; 0; 0; 0;
   0; 0; 0; 6;  0; 0; 0; 0;  192; 218; 1; 0;  0; 0; 0; 0;  0; 0; 0; 0;
   0; 0; 0; 0;  0; 0; 0; 0;  0; 0; 0; 0;  0; 0; 0; 0].

(** [ByteBuffer.wrap(a).order(ByteOrder.LITTLE_ENDIAN)] *)
Definition little_endian_buffer (a : list Z) : ByteBuffer.t :=
  ByteBuffer.set_order LITTLE_ENDIAN (ByteBuffer.wrap_array a).

(** ** What reading back a written header gives

    [read_back h h0] is the header object that held [h0] after it has read
    the 56 bytes written from [h]: the fields that [readHeader] does not
    assign keep the value they have in [h0]. *)
Definition compressedWord_of (h : RecordHeader.t) : Z :=
  Z.lor (Z.land (RecordHeader.compressedDataLengthWords h) 0x0FFFFFFF)
        (Java.shl (Z.land (RecordHeader.compressionType h) 0x0000000F) 28).

Definition read_back (h h0 : RecordHeader.t) : RecordHeader.t :=
  let cdl := RecordHeader.compressedDataLengthWords h mod 2 ^ 28 in
  {| RecordHeader.position := RecordHeader.position h0;
     RecordHeader.recordLength := Java.int (RecordHeader.recordLengthWords h * 4);
     RecordHeader.recordNumber := RecordHeader.recordNumber h;
     RecordHeader.entries := RecordHeader.entries h;
     RecordHeader.headerLength := RecordHeader.headerLength h;
     RecordHeader.userHeaderLength := RecordHeader.userHeaderLength h;
     RecordHeader.indexLength := RecordHeader.indexLength h;
     RecordHeader.dataLength := RecordHeader.dataLength h;
     RecordHeader.compressedDataLength := cdl;
     RecordHeader.compressionType := RecordHeader.compressionType h mod 16;
     RecordHeader.userHeaderLengthPadding :=
       Z.land (- RecordHeader.userHeaderLength h) 3;
     RecordHeader.dataLengthPadding := Z.land (- RecordHeader.dataLength h) 3;
     RecordHeader.compressedDataLengthPadding := Z.land (- cdl) 3;
     RecordHeader.recordLengthPadding := 0;
     RecordHeader.dataLengthWords := (RecordHeader.dataLength h + 3) / 4;
     RecordHeader.compressedDataLengthWords := (cdl + 3) / 4;
     RecordHeader.userHeaderLengthWords := (RecordHeader.userHeaderLength h + 3) / 4;
     RecordHeader.recordLengthWords := RecordHeader.recordLengthWords h;
     RecordHeader.headerLengthWords := RecordHeader.headerLengthWords h0;
     RecordHeader.recordUserRegisterFirst := RecordHeader.recordUserRegisterFirst h;
     RecordHeader.recordUserRegisterSecond := RecordHeader.recordUserRegisterSecond h;
     RecordHeader.headerVersion := RecordHeader.headerVersion h mod 256;
     RecordHeader.headerMagicWord := RecordHeader.HEADER_MAGIC |}.

Definition is_int (z : Z) : Prop := - 2 ^ 31 <= z < 2 ^ 31.
Definition is_long (z : Z) : Prop := - 2 ^ 63 <= z < 2 ^ 63.

(** A header object that can be written and read again: its fields hold
    values of their Java types, the two lengths that [readHeader] hands to
    [getPadding] are not negative, and the magic word is the one every
    constructor sets. *)
Record writable (h : RecordHeader.t) : Prop := {
  w_recordLengthWords : is_int (RecordHeader.recordLengthWords h);
  w_recordNumber : is_int (RecordHeader.recordNumber h);
  w_headerLength : is_int (RecordHeader.headerLength h);
  w_entries : is_int (RecordHeader.entries h);
  w_indexLength : is_int (RecordHeader.indexLength h);
  w_userHeaderLength : 0 <= RecordHeader.userHeaderLength h <= Java.MAX_INT;
  w_dataLength : 0 <= RecordHeader.dataLength h <= Java.MAX_INT;
  w_first : is_long (RecordHeader.recordUserRegisterFirst h);
  w_second : is_long (RecordHeader.recordUserRegisterSecond h);
  w_magic : RecordHeader.headerMagicWord h = RecordHeader.HEADER_MAGIC
}.

(** A header set up through the setters, in the manner of [main]. *)
Definition make_header
    (recordLength recordNumber headerLength entries indexLength version
     userHeaderLength dataLength compressedDataLength compressionType
     register1 register2 : Z) : res RecordHeader.t :=
  let header := RecordHeader.new in
  header <- RecordHeader.setCompressedDataLength compressedDataLength header ;;
  header <- RecordHeader.setDataLength dataLength header ;;
  header <- RecordHeader.setUserHeaderLength userHeaderLength header ;;
  let header := RecordHeader.setIndexLength indexLength header in
  header <- RecordHeader.setLength recordLength header ;;
  let header := RecordHeader.setUserRegisterFirst register1 header in
  let header := RecordHeader.setUserRegisterSecond register2 header in
  let header := RecordHeader.setRecordNumber recordNumber header in
  let header := RecordHeader.setEntries entries header in
  let header := RecordHeader.setHeaderLength headerLength header in
  let header := RecordHeader.setVersion version header in
  Ok (RecordHeader.setCompressionType compressionType header).

(** The fields of the claim that a header read back shares with the header
    written; the compressed data length and the two fields derived from it
    are not among them. *)
Definition same_fields (h h' : RecordHeader.t) : Prop :=
  RecordHeader.recordLength h' = RecordHeader.recordLength h /\
  RecordHeader.recordNumber h' = RecordHeader.recordNumber h /\
  RecordHeader.headerLength h' = RecordHeader.headerLength h /\
  RecordHeader.entries h' = RecordHeader.entries h /\
  RecordHeader.indexLength h' = RecordHeader.indexLength h /\
  RecordHeader.headerVersion h' = RecordHeader.headerVersion h /\
  RecordHeader.userHeaderLength h' = RecordHeader.userHeaderLength h /\
  RecordHeader.dataLength h' = RecordHeader.dataLength h /\
  RecordHeader.compressionType h' = RecordHeader.compressionType h /\
  RecordHeader.recordUserRegisterFirst h' = RecordHeader.recordUserRegisterFirst h /\
  RecordHeader.recordUserRegisterSecond h' = RecordHeader.recordUserRegisterSecond h /\
  RecordHeader.userHeaderLengthWords h' = RecordHeader.userHeaderLengthWords h /\
  RecordHeader.userHeaderLengthPadding h' = RecordHeader.userHeaderLengthPadding h /\
  RecordHeader.dataLengthWords h' = RecordHeader.dataLengthWords h /\
  RecordHeader.dataLengthPadding h' = RecordHeader.dataLengthPadding h /\
  RecordHeader.recordLengthWords h' = RecordHeader.recordLengthWords h /\
  RecordHeader.recordLengthPadding h' = RecordHeader.recordLengthPadding h /\
  RecordHeader.headerMagicWord h' = RecordHeader.headerMagicWord h.

(** The values a header is made of fit the fields of the 14 words. *)
Record fits_wire
    (recordLength recordNumber headerLength entries indexLength version
     userHeaderLength dataLength compressedDataLength compressionType
     register1 register2 : Z) : Prop := {
  fw_recordLength : 0 <= recordLength <= Java.MAX_INT /\ recordLength mod 4 = 0;
  fw_recordNumber : is_int recordNumber;
  fw_headerLength : is_int headerLength;
  fw_entries : is_int entries;
  fw_indexLength : is_int indexLength;
  fw_version : 0 <= version < 256;
  fw_userHeaderLength : 0 <= userHeaderLength <= Java.MAX_INT;
  fw_dataLength : 0 <= dataLength <= Java.MAX_INT;
  fw_compressedDataLength : 0 <= compressedDataLength <= Java.MAX_INT;
  fw_compressionType : 0 <= compressionType < 16;
  fw_register1 : is_long register1;
  fw_register2 : is_long register2
}.

(** ** An event with composite data

    A bank of 12 words whose data has type 0xf (composite) and is an array
    of two composite elements.  Each element is a tagsegment of one word
    holding the format string, a bank header of two words and one word of
    data.  In the byte order of the host the words are

      11, 0x00010f01,
      0x00030001, 0x00000049, 2, 0x00010100, 42,
      0x00030001, 0x00000049, 2, 0x00010100, 42

    and the event below is the same event in the other byte order: the
    header words are byte-reversed, the format strings are characters, and
    the data words 42 are what the composite swapper is to swap. *)
Definition composite_event : list Z :=
  [0x0b000000; 0x010f0100;
   0x01000300; 0x00000049; 0x02000000; 0x00010100; 42;
   0x01000300; 0x00000049; 0x02000000; 0x00010100; 42].

(** The memory when [eviofmt] and [eviofmtswap] are called for the first of
    the two elements, the event being swapped in place. *)
Definition composite_event_at_first_call : Evioswap.mem :=
  Evioswap.mkmem
    [11; 0x00010f01;
     0x00030001; 0x00000049; 2; 0x00010100; 42;
     0x01000300; 0x00000049; 0x02000000; 0x00010100; 42]
    [].

(** ** Notions and examples for the reader *)

(** The positions that the index loop of [scanFile] stores for the index
    array [intData], starting from [recordPosition]. *)
Fixpoint index_positions (intData : list Z) (recordPosition : Z)
  : list Reader.RecordPosition :=
  match intData with
  | len :: count :: intData =>
      Reader.mkRecordPosition recordPosition len count
      :: index_positions intData (Reader.u32 (recordPosition + len))
  | _ => []
  end.

(** The event counts of an index array, in order. *)
Fixpoint index_counts (intData : list Z) : list Z :=
  match intData with
  | _ :: count :: intData => count :: index_counts intData
  | _ => []
  end.

(** The index array of a file of 513 records of 8 MiB (the default maximum
    size of a record) with 1000 events each: 513 pairs (length, count). *)
Definition big_file_index : list Z := concat (repeat [8388608; 1000] 513).

(** An implementation of the classes that are not part of the sources at
    hand, to run the reader on examples: a file of [size] bytes that
    answers the read of the file header by [fh], the read of any record
    header by [rh] and the read of an index array by [index]; an event
    index that keeps the list of the event counts it was given; and a
    record input that holds no record. *)
Definition example_collaborators (size : Z) (fh : Reader.FileHeader)
    (rh : Reader.RecordHeaderInfo) (index : list Z) : Reader.Collaborators :=
  {| Reader.File := unit;
     Reader.FileEventIndex := list Z;
     Reader.RecordInput := unit;
     Reader.file_length := fun _ => size;
     Reader.readFileHeader := fun _ _ => Ok fh;
     Reader.readRecordHeader := fun _ _ => Ok rh;
     Reader.readIntArray := fun _ _ _ _ => Ok index;
     Reader.clear := fun _ => [];
     Reader.addEventSize := fun e n => e ++ [n];
     Reader.getMaxEvents := fun e => fold_right Z.add 0 e;
     Reader.setEvent := fun e _ => (e, false);
     Reader.getRecordNumber := fun _ => 0;
     Reader.getRecordEventNumber := fun _ => 0;
     Reader.readRecordFromFile := fun ri _ _ => Ok ri;
     Reader.readRecordFromBuffer := fun ri _ _ => Ok ri;
     Reader.getEntries := fun _ => 0;
     Reader.getEventBytes := fun _ _ => None;
     Reader.updateLengths := fun _ _ b => Ok b |}.

(** A file header that announces an index array after the file header and
    no trailer: 56 bytes of header, 8 * 513 bytes of index, no user
    header. *)
Definition example_file_header : Reader.FileHeader :=
  {| Reader.fh_hasTrailerWithIndex := false;
     Reader.fh_hasIndex := true;
     Reader.fh_getTrailerPosition := 0;
     Reader.fh_getLength := 4160;
     Reader.fh_getHeaderLength := 56;
     Reader.fh_getUserHeaderLength := 0;
     Reader.fh_getIndexLength := 4104;
     Reader.fh_getByteOrder := LITTLE_ENDIAN;
     Reader.fh_getVersion := 6 |}.

Definition example_record_header : Reader.RecordHeaderInfo :=
  {| Reader.rh_getLength := 8388608;
     Reader.rh_getEntries := 1000;
     Reader.rh_getIndexLength := 4000;
     Reader.rh_getRecordNumber := 1;
     Reader.rh_getCompressionType := 0 |}.

(** A reader as its constructor leaves it before the scan. *)
Definition example_reader (C : Reader.Collaborators)
    (file : Reader.File C) (ei : Reader.FileEventIndex C)
    (ri : Reader.RecordInput C) (buffer : ByteBuffer.t)
    (nodes : list Reader.EvioNode) : Reader.t C :=
  {| Reader.inStreamRandom := file;
     Reader.fileHeader := None;
     Reader.firstRecordHeader := None;
     Reader.byteOrder := ByteBuffer.order buffer;
     Reader.evioVersion := 6;
     Reader.compressed := false;
     Reader.closed := false;
     Reader.fromFile := true;
     Reader.checkRecordNumberSequence := false;
     Reader.recordNumberExpected := 1;
     Reader.eventIndex := ei;
     Reader.recordPositions := [];
     Reader.inputRecordStream := ri;
     Reader.currentRecordLoaded := 0;
     Reader.sequentialIndex := 0;
     Reader.lastCalledSeqNext := false;
     Reader.buffer := buffer;
     Reader.bufferOffset := ByteBuffer.position buffer;
     Reader.bufferLimit := ByteBuffer.limit buffer;
     Reader.eventNodes := nodes |}.

(** A buffer of one record with one event: the 56 bytes of a record header
    (record length 16 words, one entry, 8 bytes of data), then the event, a
    bank of two words with no data. *)
Definition one_event_buffer : ByteBuffer.t :=
  little_endian_buffer
    ([16; 0; 0; 0;  1; 0; 0; 0;  14; 0; 0; 0;  1; 0; 0; 0;  0; 0; 0; 0;
      6; 0; 0; 0;  0; 0; 0; 0;  0; 1; 218; 192;  8; 0; 0; 0;  0; 0; 0; 0;
      0; 0; 0; 0;  0; 0; 0; 0;  0; 0; 0; 0;  0; 0; 0; 0]
     ++ [1; 0; 0; 0;  1; 14; 1; 0]).

(** The node of that event: header at byte 56, data (none) from byte 64. *)
Definition one_event_node : Reader.EvioNode :=
  {| Reader.len := 1; Reader.pos := 56; Reader.type := 0x10;
     Reader.dataLen := 0; Reader.dataPos := 64; Reader.recordPos := 0;
     Reader.isEvent := true; Reader.obsolete := false; Reader.place := 0;
     Reader.parentNode := None |}.

(** A bank of two words to add: length 1, tag 2, type 1, num 2. *)
Definition bank_to_add : ByteBuffer.t :=
  little_endian_buffer [1; 0; 0; 0;  2; 1; 2; 0].

(** The record lengths of an index array, in order. *)
Fixpoint index_lengths (intData : list Z) : list Z :=
  match intData with
  | len :: _ :: intData => len :: index_lengths intData
  | _ => []
  end.

(** The sum of the first [i] elements of a list. *)
Definition prefix_sum (l : list Z) (i : nat) : Z :=
  fold_right Z.add 0 (firstn i l).

(* ===================================================================== *)
(** * evioswap.java                                                       *)
(* ===================================================================== *)

Module EvioswapJava.

(** An [int[]] is the list of its elements, fewer than 2^31 of them; the
    routines take the array [data] and an array [dest] that is null or
    another array. *)
Definition arrays : Type := list Z * option (list Z).

(** [a[i]] and [a[i] = v]. *)
Definition aget (a : list Z) (i : Z) : res Z :=
  if (i <? 0) || (Z.of_nat (length a) <=? i)
  then Throw ArrayIndexOutOfBoundsException
  else Ok (nth (Z.to_nat i) a 0).

Definition aset (a : list Z) (i v : Z) : res (list Z) :=
  if (i <? 0) || (Z.of_nat (length a) <=? i)
  then Throw ArrayIndexOutOfBoundsException
  else Ok (firstn (Z.to_nat i) a ++ v :: skipn (S (Z.to_nat i)) a).

(** How a call ends: [None] when the loops of [swap_data] have not ended
    within the fuel, else the result or the exception. *)
Definition run (A : Type) : Type := option (res A).

Definition lift {A : Type} (m : res A) : run A := Some m.

Definition rbind {A B : Type} (m : run A) (k : A -> run B) : run B :=
  match m with
  | Some (Ok a) => k a
  | Some (Throw e) => Some (Throw e)
  | None => None
  end.

Notation "x <-- m ;; k" := (rbind m (fun x => k))
  (at level 61, m at next level, right associativity).
Notation "' p <-- m ;; k" := (rbind m (fun p => k))
  (at level 61, p pattern, m at next level, right associativity).

(** [swap_int_value(val)] *)
Definition swap_int_value (val : Z) : Z :=
  let temp := 0 in
  let temp := Z.lor temp (Java.shl (Z.land val 0xff) 24) in
  let temp := Z.lor temp (Java.shl (Z.land val 0xff00) 8) in
  let temp := Z.lor temp (Java.ushr (Z.land val 0xff0000) 8) in
  let temp := Z.lor temp (Java.ushr (Z.land val (Java.int 0xff000000)) 24) in
  temp.

(** [swap_short_value(val)] *)
Definition swap_short_value (val : Z) : Z :=
  let temp := 0 in
  let temp := Z.lor temp (Java.shl (Z.land val 0xff) 8) in
  let temp := Z.lor temp (Java.ushr (Z.land val 0xff00) 8) in
  let temp := Z.lor temp (Java.shl (Z.land val 0xff0000) 8) in
  let temp := Z.lor temp (Java.ushr (Z.land val (Java.int 0xff000000)) 8) in
  temp.

(** [for (i = i0; i < length; i += step) body(i)] with [n] iterations left;
    the counter stays below [length], so it does not overflow. *)
Fixpoint for_loop {S : Type} (n : nat) (i step : Z) (body : Z -> S -> res S) (s : S)
  : res S :=
  match n with
  | O => Ok s
  | S n => s <- body i s ;; for_loop n (i + step) step body s
  end.

(** [swap_int(data, offset, length, dest)] *)
Definition swap_int (data : list Z) (offset length : Z) (dest : option (list Z))
  : res arrays :=
  match dest with
  | None =>
      data <- for_loop (Z.to_nat length) 0 1
                (fun i data =>
                   v <- aget data (Java.int (offset + i)) ;;
                   aset data (Java.int (offset + i)) (swap_int_value v)) data ;;
      Ok (data, None)
  | Some dest =>
      dest <- for_loop (Z.to_nat length) 0 1
                (fun i dest =>
                   v <- aget data (Java.int (offset + i)) ;;
                   aset dest (Java.int (offset + i)) (swap_int_value v)) dest ;;
      Ok (data, Some dest)
  end.

(** [swap_long(data, offset, length, dest)]: the counter advances by 2, so
    the body runs for [i] = 0, 2, ... below [length]. *)
Definition swap_long (data : list Z) (offset length : Z) (dest : option (list Z))
  : res arrays :=
  match dest with
  | None =>
      data <- for_loop (Z.to_nat ((length + 1) / 2)) 0 2
                (fun i data =>
                   temp <- aget data (Java.int (offset + i)) ;;
                   v <- aget data (Java.int (Java.int (offset + i) + 1)) ;;
                   data <- aset data (Java.int (offset + i)) (swap_int_value v) ;;
                   aset data (Java.int (Java.int (offset + i) + 1))
                        (swap_int_value temp)) data ;;
      Ok (data, None)
  | Some dest =>
      dest <- for_loop (Z.to_nat ((length + 1) / 2)) 0 2
                (fun i dest =>
                   v <- aget data (Java.int (Java.int (offset + i) + 1)) ;;
                   dest <- aset dest (Java.int (offset + i)) (swap_int_value v) ;;
                   v <- aget data (Java.int (offset + i)) ;;
                   aset dest (Java.int (Java.int (offset + i) + 1))
                        (swap_int_value v)) dest ;;
      Ok (data, Some dest)
  end.

(** [swap_short(data, offset, length, dest)] *)
Definition swap_short (data : list Z) (offset length : Z) (dest : option (list Z))
  : res arrays :=
  match dest with
  | None =>
      data <- for_loop (Z.to_nat length) 0 1
                (fun i data =>
                   v <- aget data (Java.int (offset + i)) ;;
                   aset data (Java.int (offset + i)) (swap_short_value v)) data ;;
      Ok (data, None)
  | Some dest =>
      dest <- for_loop (Z.to_nat length) 0 1
                (fun i dest =>
                   v <- aget data (Java.int (offset + i)) ;;
                   aset dest (Java.int (offset + i)) (swap_short_value v)) dest ;;
      Ok (data, Some dest)
  end.

(** [copy_data(data, offset, length, dest)] *)
Definition copy_data (data : list Z) (offset length : Z) (dest : option (list Z))
  : res arrays :=
  match dest with
  | None => Ok (data, None)
  | Some dest =>
      dest <- for_loop (Z.to_nat length) 0 1
                (fun i dest =>
                   v <- aget data (Java.int (offset + i)) ;;
                   aset dest (Java.int (offset + i)) v) dest ;;
      Ok (data, Some dest)
  end.

(** The [while (l < length)] loops of [swap_data]: [swap_child] is
    [swap_bank], [swap_segment] or [swap_tagsegment], and [fraglen_of] gives
    the length of a fragment from its first word.  When swapping to local
    order the word is read after the fragment is swapped, from [dest] if
    there is one; otherwise it is read from [data] before the swap. *)
Fixpoint fragment_loop (fuel : nat)
    (swap_child : list Z -> Z -> option (list Z) -> run arrays)
    (fraglen_of : Z -> Z) (tolocal : bool)
    (data : list Z) (dest : option (list Z)) (offset length l : Z) : run arrays :=
  match fuel with
  | O => None
  | S fuel =>
    if l <? length then
      if tolocal then
        '(data, dest) <-- swap_child data (Java.int (offset + l)) dest ;;
        w <-- lift (aget (match dest with None => data | Some d => d end)
                         (Java.int (offset + l))) ;;
        fragment_loop fuel swap_child fraglen_of tolocal data dest offset length
                      (Java.int (l + fraglen_of w))
      else
        w <-- lift (aget data (Java.int (offset + l))) ;;
        '(data, dest) <-- swap_child data (Java.int (offset + l)) dest ;;
        fragment_loop fuel swap_child fraglen_of tolocal data dest offset length
                      (Java.int (l + fraglen_of w))
    else Some (Ok (data, dest))
  end.

Section Fragments.

(** [swap_data], as the three fragment routines call it. *)
Variable swap_data : list Z -> Z -> Z -> Z -> bool -> option (list Z) -> run arrays.

(** The body of [swap_bank(buf, offset, tolocal, dest)]. *)
Definition swap_bank_body (buf : list Z) (offset : Z) (tolocal : bool)
    (dest : option (list Z)) : run arrays :=
  w0 <-- lift (aget buf offset) ;;
  w1 <-- lift (aget buf (Java.int (offset + 1))) ;;
  let data_length :=
    if tolocal then Java.int (swap_int_value w0 - 1) else Java.int (w0 - 1) in
  let data_type :=
    if tolocal then Z.land (Z.shiftr (swap_int_value w1) 8) 0xff
    else Z.land (Z.shiftr w1 8) 0xff in
  '(buf, dest) <-- lift (swap_int buf offset 2 dest) ;;
  swap_data buf (Java.int (offset + 2)) data_type data_length tolocal dest.

(** The body of [swap_segment(buf, offset, tolocal, dest)]. *)
Definition swap_segment_body (buf : list Z) (offset : Z) (tolocal : bool)
    (dest : option (list Z)) : run arrays :=
  w <-- lift (aget buf offset) ;;
  let d := if tolocal then swap_int_value w else w in
  '(buf, dest) <-- lift (swap_int buf offset 1 dest) ;;
  let data_length := Z.land d 0xffff in
  let data_type := Z.land (Z.shiftr d 16) 0xff in
  swap_data buf (Java.int (offset + 1)) data_type data_length tolocal dest.

(** The body of [swap_tagsegment(buf, offset, tolocal, dest)]. *)
Definition swap_tagsegment_body (buf : list Z) (offset : Z) (tolocal : bool)
    (dest : option (list Z)) : run arrays :=
  w <-- lift (aget buf offset) ;;
  let d := if tolocal then swap_int_value w else w in
  '(buf, dest) <-- lift (swap_int buf offset 1 dest) ;;
  let data_length := Z.land d 0xffff in
  let data_type := Z.land (Z.shiftr d 16) 0xf in
  swap_data buf (Java.int (offset + 1)) data_type data_length tolocal dest.

End Fragments.

(** [swap_data(data, offset, type, length, tolocal, dest)].  The recursion
    through [swap_bank], [swap_segment] and [swap_tagsegment] and the
    [while] loops are cut by [fuel]. *)
Fixpoint swap_data (fuel : nat) (data : list Z) (offset type length : Z)
    (tolocal : bool) (dest : option (list Z)) : run arrays :=
  match fuel with
  | O => None
  | S fuel =>
    match type with
    (* undefined...no swap *)
    | 0x0 => lift (copy_data data offset length dest)
    (* int *)
    | 0x1 | 0x2 | 0xb => lift (swap_int data offset length dest)
    (* char or byte *)
    | 0x3 | 0x6 | 0x7 => lift (copy_data data offset length dest)
    (* short *)
    | 0x4 | 0x5 => lift (swap_short data offset length dest)
    (* long *)
    | 0x8 | 0x9 | 0xa => lift (swap_long data offset length dest)
    (* bank *)
    | 0xe | 0x10 =>
        fragment_loop fuel
          (fun data offset dest =>
             swap_bank_body (swap_data fuel) data offset tolocal dest)
          (fun w => Java.int (w + 1)) tolocal data dest offset length 0
    (* segment *)
    | 0xd | 0x20 =>
        fragment_loop fuel
          (fun data offset dest =>
             swap_segment_body (swap_data fuel) data offset tolocal dest)
          (fun w => Java.int (Z.land w 0xffff + 1)) tolocal data dest offset length 0
    (* tagsegment *)
    | 0xc | 0x40 =>
        fragment_loop fuel
          (fun data offset dest =>
             swap_tagsegment_body (swap_data fuel) data offset tolocal dest)
          (fun w => Java.int (Z.land w 0xffff + 1)) tolocal data dest offset length 0
    (* unknown type, just copy *)
    | _ => lift (copy_data data offset length dest)
    end
  end.

Definition swap_bank (fuel : nat) := swap_bank_body (swap_data fuel).
Definition swap_segment (fuel : nat) := swap_segment_body (swap_data fuel).
Definition swap_tagsegment (fuel : nat) := swap_tagsegment_body (swap_data fuel).

(** [evioswap(buf, tolocal, dest)] *)
Definition evioswap (fuel : nat) (buf : list Z) (tolocal : bool)
    (dest : option (list Z)) : run arrays :=
  swap_bank fuel buf 0 tolocal dest.

End EvioswapJava.

(** ** Events as the Java swapper sees them *)

(** The words of a list of 64-bit values held as pairs of [int]s, and the
    same list with each pair exchanged and each word byte-reversed. *)
Definition pair_words (ps : list (Z * Z)) : list Z :=
  flat_map (fun p => [fst p; snd p]) ps.

Definition swapped_pair_words (ps : list (Z * Z)) : list Z :=
  flat_map (fun p => [EvioswapJava.swap_int_value (snd p);
                      EvioswapJava.swap_int_value (fst p)]) ps.

(** The three kinds of fragment, with the routine that swaps each and the
    length of a fragment as the loops of [swap_data] take it from its
    first word. *)
Inductive fragment : Set := Bank | Segment | Tagsegment.

Definition swap_fragment_body (f : fragment) :=
  match f with
  | Bank => EvioswapJava.swap_bank_body
  | Segment => EvioswapJava.swap_segment_body
  | Tagsegment => EvioswapJava.swap_tagsegment_body
  end.

Definition fraglen_of (f : fragment) (w : Z) : Z :=
  match f with
  | Bank => Java.int (w + 1)
  | Segment | Tagsegment => Java.int (Z.land w 0xffff + 1)
  end.

(** The cases of the switch of [swap_data]. *)
Inductive data_case : Set :=
| AsInts | AsShorts | AsLongs | AsBytes | AsFragments (f : fragment).

Definition data_case_of (type : Z) : data_case :=
  match type with
  | 0x1 | 0x2 | 0xb => AsInts
  | 0x4 | 0x5 => AsShorts
  | 0x8 | 0x9 | 0xa => AsLongs
  | 0xe | 0x10 => AsFragments Bank
  | 0xd | 0x20 => AsFragments Segment
  | 0xc | 0x40 => AsFragments Tagsegment
  | _ => AsBytes
  end.

(** The parts of an event: the data of a fragment of a given type, a
    sequence of fragments, one fragment. *)
Inductive part : Set :=
| Data (type : Z)
| Fragments (f : fragment)
| Fragment (f : fragment).

(** [foreign p y x]: the words [y] are a well-formed part [p] of an event
    in the byte order of the host, and [x] is the same part in the other
    byte order.  A bank is two header words, the number of words that
    follow the first and a word whose bits 8-15 give the type of the data,
    then the data; a segment and a tagsegment are one header word, with
    the number of words of data in bits 0-15 and the type in bits 16-23
    (bits 16-19 for a tagsegment), then the data.  The data of a container
    type are fragments that fill it exactly; 64-bit data are pairs of
    words. *)
Inductive foreign : part -> list Z -> list Z -> Prop :=
| foreign_ints (type : Z) (ws : list Z) :
    data_case_of type = AsInts -> Forall is_int ws ->
    foreign (Data type) ws (map EvioswapJava.swap_int_value ws)
| foreign_shorts (type : Z) (ws : list Z) :
    data_case_of type = AsShorts -> Forall is_int ws ->
    foreign (Data type) ws (map EvioswapJava.swap_short_value ws)
| foreign_longs (type : Z) (ps : list (Z * Z)) :
    data_case_of type = AsLongs -> Forall is_int (pair_words ps) ->
    foreign (Data type) (pair_words ps) (swapped_pair_words ps)
| foreign_bytes (type : Z) (ws : list Z) :
    data_case_of type = AsBytes ->
    foreign (Data type) ws ws
| foreign_container (type : Z) (f : fragment) (y x : list Z) :
    data_case_of type = AsFragments f ->
    foreign (Fragments f) y x ->
    foreign (Data type) y x
| foreign_nil (f : fragment) :
    foreign (Fragments f) [] []
| foreign_cons (f : fragment) (b b' r r' : list Z) :
    foreign (Fragment f) b b' -> foreign (Fragments f) r r' ->
    foreign (Fragments f) (b ++ r) (b' ++ r')
| foreign_bank (len w1 : Z) (y x : list Z) :
    len = Z.of_nat (length y) + 1 -> is_int len -> is_int w1 ->
    foreign (Data (Z.land (Z.shiftr w1 8) 0xff)) y x ->
    foreign (Fragment Bank) (len :: w1 :: y)
            (EvioswapJava.swap_int_value len :: EvioswapJava.swap_int_value w1 :: x)
| foreign_segment (d : Z) (y x : list Z) :
    Z.land d 0xffff = Z.of_nat (length y) -> is_int d ->
    foreign (Data (Z.land (Z.shiftr d 16) 0xff)) y x ->
    foreign (Fragment Segment) (d :: y) (EvioswapJava.swap_int_value d :: x)
| foreign_tagsegment (d : Z) (y x : list Z) :
    Z.land d 0xffff = Z.of_nat (length y) -> is_int d ->
    foreign (Data (Z.land (Z.shiftr d 16) 0xf)) y x ->
    foreign (Fragment Tagsegment) (d :: y) (EvioswapJava.swap_int_value d :: x).

(** What the in-place swap of a part does, in either direction: with
    [tolocal] the part is given in the other byte order and comes out in
    the order of the host, without it the reverse; the words before and
    after the part stay. *)
Definition swaps_in_place (p : part) (y x : list Z) : Prop :=
  forall (fuel : nat) (pre post : list Z) (tolocal : bool),
    Z.of_nat (length pre + length y + length post) < 2 ^ 31 ->
    let src := if tolocal then x else y in
    let tgt := if tolocal then y else x in
    match p with
    | Data type =>
        (length y + 2 <= fuel)%nat ->
        EvioswapJava.swap_data fuel (pre ++ src ++ post)
          (Z.of_nat (length pre)) type (Z.of_nat (length y)) tolocal None
        = Some (Ok (pre ++ tgt ++ post, None))
    | Fragment f =>
        (length y + 1 <= fuel)%nat ->
        swap_fragment_body f (EvioswapJava.swap_data fuel) (pre ++ src ++ post)
          (Z.of_nat (length pre)) tolocal None
        = Some (Ok (pre ++ tgt ++ post, None))
    | Fragments f =>
        (length y + 1 <= fuel)%nat ->
        forall (n : nat) (offset l : Z),
          offset + l = Z.of_nat (length pre) -> 0 <= offset -> 0 <= l ->
          (length y + 1 <= n)%nat ->
          EvioswapJava.fragment_loop n
            (fun data offset dest =>
               swap_fragment_body f (EvioswapJava.swap_data fuel) data offset
                                  tolocal dest)
            (fraglen_of f) tolocal (pre ++ src ++ post) None
            offset (l + Z.of_nat (length y)) l
          = Some (Ok (pre ++ tgt ++ post, None))
    end.

(** An event to try the swapper on: a bank of banks (tag 7) that holds a
    bank of two 32-bit integers (tag 1) and a bank of segments (tag 2) with
    one segment of 16-bit integers (tag 5); and the same event in the other
    byte order. *)
Definition sample_event : list Z :=
  [9; 0x00071000;
   3; 0x00010100; 0x11223344; 5;
   3; 0x00022000; 0x05040001; 0x00010002].

Definition sample_event_foreign : list Z :=
  [0x09000000; 0x00100700;
   0x03000000; 0x00010100; 0x44332211; 0x05000000;
   0x03000000; 0x00200200; 0x01000405; 0x01000200].

(** What the swap of a part into a destination does, in either direction:
    the array that holds the part is left as it is, and the destination
    receives the swapped part at the same place, its other words staying. *)
Definition swaps_to_dest (p : part) (y x : list Z) : Prop :=
  forall (fuel : nat) (pre post dpre dold dpost : list Z) (tolocal : bool),
    Z.of_nat (length pre + length y + length post) < 2 ^ 31 ->
    length dpre = length pre -> length dold = length y ->
    let src := if tolocal then x else y in
    let tgt := if tolocal then y else x in
    let data := pre ++ src ++ post in
    match p with
    | Data type =>
        (length y + 2 <= fuel)%nat ->
        EvioswapJava.swap_data fuel data
          (Z.of_nat (length pre)) type (Z.of_nat (length y)) tolocal
          (Some (dpre ++ dold ++ dpost))
        = Some (Ok (data, Some (dpre ++ tgt ++ dpost)))
    | Fragment f =>
        (length y + 1 <= fuel)%nat ->
        swap_fragment_body f (EvioswapJava.swap_data fuel) data
          (Z.of_nat (length pre)) tolocal (Some (dpre ++ dold ++ dpost))
        = Some (Ok (data, Some (dpre ++ tgt ++ dpost)))
    | Fragments f =>
        (length y + 1 <= fuel)%nat ->
        forall (n : nat) (offset l : Z),
          offset + l = Z.of_nat (length pre) -> 0 <= offset -> 0 <= l ->
          (length y + 1 <= n)%nat ->
          EvioswapJava.fragment_loop n
            (fun data offset dest =>
               swap_fragment_body f (EvioswapJava.swap_data fuel) data offset
                                  tolocal dest)
            (fraglen_of f) tolocal data (Some (dpre ++ dold ++ dpost))
            offset (l + Z.of_nat (length y)) l
          = Some (Ok (data, Some (dpre ++ tgt ++ dpost)))
    end.

(** A header of version 6 with the right magic word whose user header
    length, word 6, is 0xFFFFFFFF. *)
Definition corrupt_length_header : list Z :=
  [14; 0; 0; 0;  1; 0; 0; 0;  14; 0; 0; 0;  0; 0; 0; 0;  0; 0; 0; 0;
   6; 0; 0; 0;  255; 255; 255; 255;  0; 1; 218; 192;  0; 0; 0; 0;  0; 0; 0; 0;
   0; 0; 0; 0;  0; 0; 0; 0;  0; 0; 0; 0;  0; 0; 0; 0].

(* ===================================================================== *)
(** * org.jlab.coda.jevio.DataType                                        *)
(* ===================================================================== *)

Module DataType.

Inductive t : Set :=
| UNKNOWN32 | UINT32 | FLOAT32 | CHARSTAR8 | SHORT16 | USHORT16 | CHAR8
| UCHAR8 | DOUBLE64 | LONG64 | ULONG64 | INT32 | TAGSEGMENT | ALSOSEGMENT
| ALSOBANK | COMPOSITE | BANK | SEGMENT
| HOLLERIT | NVALUE | nVALUE | mVALUE.

(** [getValue()]: the integer each name is declared with. *)
Definition getValue (type : t) : Z :=
  match type with
  | UNKNOWN32 => 0x0 | UINT32 => 0x1 | FLOAT32 => 0x2 | CHARSTAR8 => 0x3
  | SHORT16 => 0x4 | USHORT16 => 0x5 | CHAR8 => 0x6 | UCHAR8 => 0x7
  | DOUBLE64 => 0x8 | LONG64 => 0x9 | ULONG64 => 0xa | INT32 => 0xb
  | TAGSEGMENT => 0xc | ALSOSEGMENT => 0xd | ALSOBANK => 0xe
  | COMPOSITE => 0xf | BANK => 0x10 | SEGMENT => 0x20
  | HOLLERIT => 0x21 | NVALUE => 0x22 | nVALUE => 0x23 | mVALUE => 0x24
  end.

(** [values()]: the constants in the order of their declaration. *)
Definition values : list t :=
  [UNKNOWN32; UINT32; FLOAT32; CHARSTAR8; SHORT16; USHORT16; CHAR8; UCHAR8;
   DOUBLE64; LONG64; ULONG64; INT32; TAGSEGMENT; ALSOSEGMENT; ALSOBANK;
   COMPOSITE; BANK; SEGMENT; HOLLERIT; NVALUE; nVALUE; mVALUE].

(** [a[i] = v] on an array that has the index [i]. *)
Definition array_set {A : Type} (a : list A) (i : nat) (v : A) : list A :=
  firstn i a ++ v :: skipn (S i) a.

(** The static initialiser: [intToType = new DataType[0x24 + 1]], then
    [intToType[type.value] = type] for each of [values()]. *)
Definition intToType : list (option t) :=
  fold_left (fun a type => array_set a (Z.to_nat (getValue type)) (Some type))
            values (repeat None (Z.to_nat (0x24 + 1))).

(** [getDataType(val)]: the matching constant, or null. *)
Definition getDataType (val : Z) : option t :=
  if (val >? 0x24) || (val <? 0) then None
  else nth (Z.to_nat val) intToType None.

(** The static [isStructure(dataType)], [isBank(dataType)],
    [isSegment(dataType)] and [isTagSegment(dataType)]. *)
Definition isStructure_of (dataType : Z) : bool :=
  (dataType =? getValue BANK) || (dataType =? getValue ALSOBANK)
  || (dataType =? getValue SEGMENT) || (dataType =? getValue ALSOSEGMENT)
  || (dataType =? getValue TAGSEGMENT).

Definition isBank_of (dataType : Z) : bool :=
  (getValue BANK =? dataType) || (getValue ALSOBANK =? dataType).

Definition isSegment_of (dataType : Z) : bool :=
  (getValue SEGMENT =? dataType) || (getValue ALSOSEGMENT =? dataType).

Definition isTagSegment_of (dataType : Z) : bool :=
  getValue TAGSEGMENT =? dataType.

(** The methods [isStructure()], [isBank()] and [isInteger()] of a
    constant. *)
Definition isStructure (type : t) : bool :=
  match type with
  | BANK | SEGMENT | TAGSEGMENT | ALSOBANK | ALSOSEGMENT => true
  | _ => false
  end.

Definition isBank (type : t) : bool :=
  match type with
  | BANK | ALSOBANK => true
  | _ => false
  end.

Definition isInteger (type : t) : bool :=
  match type with
  | UCHAR8 | CHAR8 | USHORT16 | SHORT16 | UINT32 | INT32 | ULONG64 | LONG64 => true
  | _ => false
  end.

End DataType.

(** ** The sequential cursor of the reader *)

(** The cursor of [getNextEvent] and [getPrevEvent] lies between -1 and the
    number of events, and below the number of events when the last call
    went backwards. *)
Definition cursor_in_range (C : Reader.Collaborators) (r : Reader.t C) : Prop :=
  -1 <= Reader.sequentialIndex C r <= Reader.getMaxEvents C (Reader.eventIndex C r) /\
  (Reader.lastCalledSeqNext C r = false ->
   Reader.sequentialIndex C r < Reader.getMaxEvents C (Reader.eventIndex C r)).

(** A reader environment that serves events: an event index that keeps the
    list of the event counts, and a record input in which the event at
    position [n] of the loaded record is the one byte [n]. *)
Definition serving_collaborators : Reader.Collaborators :=
  {| Reader.File := unit;
     Reader.FileEventIndex := list Z;
     Reader.RecordInput := unit;
     Reader.file_length := fun _ => 0;
     Reader.readFileHeader := fun _ _ => Ok example_file_header;
     Reader.readRecordHeader := fun _ _ => Ok example_record_header;
     Reader.readIntArray := fun _ _ _ _ => Ok [];
     Reader.clear := fun _ => [];
     Reader.addEventSize := fun e n => e ++ [n];
     Reader.getMaxEvents := fun e => fold_right Z.add 0 e;
     Reader.setEvent := fun e _ => (e, false);
     Reader.getRecordNumber := fun _ => 0;
     Reader.getRecordEventNumber := fun _ => 0;
     Reader.readRecordFromFile := fun ri _ _ => Ok ri;
     Reader.readRecordFromBuffer := fun ri _ _ => Ok ri;
     Reader.getEntries := fun _ => 1;
     Reader.getEventBytes := fun _ n => Some [n];
     Reader.updateLengths := fun _ _ b => Ok b |}.

(** ** Files laid out in records *)

(** The records with the headers [recs] lie one after the other from
    byte [pos] of the file: reading a record header at the start of each
    gives its header, and the next record starts where it ends. *)
Fixpoint laid_out (C : Reader.Collaborators) (file : Reader.File C) (pos : Z)
    (recs : list Reader.RecordHeaderInfo) : Prop :=
  match recs with
  | [] => True
  | rh :: recs =>
      Reader.readRecordHeader C file pos = Ok rh /\
      laid_out C file (pos + Reader.rh_getLength rh) recs
  end.

(** Where these records are, in unbounded arithmetic. *)
Fixpoint record_positions (pos : Z) (recs : list Reader.RecordHeaderInfo)
  : list Reader.RecordPosition :=
  match recs with
  | [] => []
  | rh :: recs =>
      Reader.mkRecordPosition pos (Reader.rh_getLength rh) (Reader.rh_getEntries rh)
      :: record_positions (pos + Reader.rh_getLength rh) recs
  end.

Definition total_length (recs : list Reader.RecordHeaderInfo) : Z :=
  fold_right Z.add 0 (map Reader.rh_getLength recs).

(** The positions an index array describes from [pos], in unbounded
    arithmetic. *)
Fixpoint exact_positions (intData : list Z) (pos : Z) : list Reader.RecordPosition :=
  match intData with
  | len :: count :: intData =>
      Reader.mkRecordPosition pos len count :: exact_positions intData (pos + len)
  | _ => []
  end.

(** A file of three records of 100, 200 and 300 bytes after a file header
    of 56 bytes and its index of 24 bytes, followed by a trailer of 56
    bytes. *)
Definition three_records : list Reader.RecordHeaderInfo :=
  [ {| Reader.rh_getLength := 100; Reader.rh_getEntries := 1;
       Reader.rh_getIndexLength := 4; Reader.rh_getRecordNumber := 1;
       Reader.rh_getCompressionType := 0 |};
    {| Reader.rh_getLength := 200; Reader.rh_getEntries := 2;
       Reader.rh_getIndexLength := 8; Reader.rh_getRecordNumber := 2;
       Reader.rh_getCompressionType := 0 |};
    {| Reader.rh_getLength := 300; Reader.rh_getEntries := 3;
       Reader.rh_getIndexLength := 12; Reader.rh_getRecordNumber := 3;
       Reader.rh_getCompressionType := 0 |} ].

Definition trailer_header : Reader.RecordHeaderInfo :=
  {| Reader.rh_getLength := 56; Reader.rh_getEntries := 0;
     Reader.rh_getIndexLength := 0; Reader.rh_getRecordNumber := 4;
     Reader.rh_getCompressionType := 0 |}.

Definition indexed_file_header : Reader.FileHeader :=
  {| Reader.fh_hasTrailerWithIndex := false;
     Reader.fh_hasIndex := true;
     Reader.fh_getTrailerPosition := 0;
     Reader.fh_getLength := 80;
     Reader.fh_getHeaderLength := 56;
     Reader.fh_getUserHeaderLength := 0;
     Reader.fh_getIndexLength := 24;
     Reader.fh_getByteOrder := LITTLE_ENDIAN;
     Reader.fh_getVersion := 6 |}.

(** The header of the record that starts at byte [pos] of that file. *)
Definition three_records_at (pos : Z) : res Reader.RecordHeaderInfo :=
  if pos =? 80 then Ok (nth 0 three_records trailer_header)
  else if pos =? 180 then Ok (nth 1 three_records trailer_header)
  else if pos =? 380 then Ok (nth 2 three_records trailer_header)
  else if pos =? 680 then Ok trailer_header
  else Throw HipoException.

Definition three_records_file : Reader.Collaborators :=
  {| Reader.File := unit;
     Reader.FileEventIndex := list Z;
     Reader.RecordInput := unit;
     Reader.file_length := fun _ => 736;
     Reader.readFileHeader := fun _ _ => Ok indexed_file_header;
     Reader.readRecordHeader := fun _ pos => three_records_at pos;
     Reader.readIntArray := fun _ _ _ _ => Ok [100; 1; 200; 2; 300; 3];
     Reader.clear := fun _ => [];
     Reader.addEventSize := fun e n => e ++ [n];
     Reader.getMaxEvents := fun e => fold_right Z.add 0 e;
     Reader.setEvent := fun e _ => (e, false);
     Reader.getRecordNumber := fun _ => 0;
     Reader.getRecordEventNumber := fun _ => 0;
     Reader.readRecordFromFile := fun ri _ _ => Ok ri;
     Reader.readRecordFromBuffer := fun ri _ _ => Ok ri;
     Reader.getEntries := fun _ => 1;
     Reader.getEventBytes := fun _ n => Some [n];
     Reader.updateLengths := fun _ _ b => Ok b |}.

(** A file whose first record header announces a length of 0. *)
Definition empty_length_header : Reader.RecordHeaderInfo :=
  {| Reader.rh_getLength := 0; Reader.rh_getEntries := 0;
     Reader.rh_getIndexLength := 0; Reader.rh_getRecordNumber := 1;
     Reader.rh_getCompressionType := 0 |}.

(** The index array that describes these records: the length and the
    event count of each. *)
Definition index_of (recs : list Reader.RecordHeaderInfo) : list Z :=
  flat_map (fun rh => [Reader.rh_getLength rh; Reader.rh_getEntries rh]) recs.

(** ** Events as the C swapper sees them *)

(** A [uint32_t]. *)
Definition is_word (w : Z) : Prop := 0 <= w < 2 ^ 32.

(** A word with the two bytes of each of its 16-bit halves exchanged, and
    the words of a list of 64-bit values with each pair exchanged and each
    word byte-reversed. *)
Definition swap_halves (w : Z) : Z :=
  Evioswap.EVIO_SWAP16 (w mod 2 ^ 16)
  + 2 ^ 16 * Evioswap.EVIO_SWAP16 ((w / 2 ^ 16) mod 2 ^ 16).

Definition c_swapped_pair_words (ps : list (Z * Z)) : list Z :=
  flat_map (fun p => [Evioswap.EVIO_SWAP32 (snd p);
                      Evioswap.EVIO_SWAP32 (fst p)]) ps.

(** The routine that swaps each kind of fragment, and the length of a
    fragment as the loops of [swap_data] take it from its first word. *)
Definition c_swap_fragment_body (f : fragment) :=
  match f with
  | Bank => Evioswap.swap_bank_body
  | Segment => Evioswap.swap_segment_body
  | Tagsegment => Evioswap.swap_tagsegment_body
  end.

Definition c_fraglen_of (f : fragment) (w : Z) : Z :=
  match f with
  | Bank => Evioswap.u32 (w + 1)
  | Segment | Tagsegment => Evioswap.u32 (Z.land w 0xffff + 1)
  end.

(** The cases of the switch of [swap_data] in evioswap.c. *)
Inductive c_data_case : Set :=
| CInts | CShorts | CLongs | CBytes | CComposite | CFragments (f : fragment).

Definition c_data_case_of (type : Z) : c_data_case :=
  match type with
  | 0x1 | 0x2 | 0xb => CInts
  | 0x4 | 0x5 => CShorts
  | 0x8 | 0x9 | 0xa => CLongs
  | 0xf => CComposite
  | 0xe | 0x10 => CFragments Bank
  | 0xd | 0x20 => CFragments Segment
  | 0xc => CFragments Tagsegment
  | _ => CBytes
  end.

(** [c_foreign p y x]: the words [y] are a well-formed part [p] of an
    event without composite data in the byte order of the host, and [x]
    is the same part in the other byte order.  A bank is two header words,
    the number of words that follow the first and a word whose bits 8-13
    give the type of the data, then the data; a segment and a tagsegment
    are one header word, with the number of words of data in bits 0-15 and
    the type in bits 16-21 (bits 16-19 for a tagsegment), then the data.
    The data of a container type are fragments that fill it exactly;
    64-bit data are pairs of words. *)
Inductive c_foreign : part -> list Z -> list Z -> Prop :=
| c_foreign_ints (type : Z) (ws : list Z) :
    c_data_case_of type = CInts -> Forall is_word ws ->
    c_foreign (Data type) ws (map Evioswap.EVIO_SWAP32 ws)
| c_foreign_shorts (type : Z) (ws : list Z) :
    c_data_case_of type = CShorts -> Forall is_word ws ->
    c_foreign (Data type) ws (map swap_halves ws)
| c_foreign_longs (type : Z) (ps : list (Z * Z)) :
    c_data_case_of type = CLongs -> Forall is_word (pair_words ps) ->
    c_foreign (Data type) (pair_words ps) (c_swapped_pair_words ps)
| c_foreign_bytes (type : Z) (ws : list Z) :
    c_data_case_of type = CBytes ->
    c_foreign (Data type) ws ws
| c_foreign_container (type : Z) (f : fragment) (y x : list Z) :
    c_data_case_of type = CFragments f ->
    c_foreign (Fragments f) y x ->
    c_foreign (Data type) y x
| c_foreign_nil (f : fragment) :
    c_foreign (Fragments f) [] []
| c_foreign_cons (f : fragment) (b b' r r' : list Z) :
    c_foreign (Fragment f) b b' -> c_foreign (Fragments f) r r' ->
    c_foreign (Fragments f) (b ++ r) (b' ++ r')
| c_foreign_bank (len w1 : Z) (y x : list Z) :
    len = Z.of_nat (length y) + 1 -> is_word len -> is_word w1 ->
    c_foreign (Data (Z.land (Z.shiftr w1 8) 0x3f)) y x ->
    c_foreign (Fragment Bank) (len :: w1 :: y)
              (Evioswap.EVIO_SWAP32 len :: Evioswap.EVIO_SWAP32 w1 :: x)
| c_foreign_segment (d : Z) (y x : list Z) :
    Z.land d 0xffff = Z.of_nat (length y) -> is_word d ->
    c_foreign (Data (Z.land (Z.shiftr d 16) 0x3f)) y x ->
    c_foreign (Fragment Segment) (d :: y) (Evioswap.EVIO_SWAP32 d :: x)
| c_foreign_tagsegment (d : Z) (y x : list Z) :
    Z.land d 0xffff = Z.of_nat (length y) -> is_word d ->
    c_foreign (Data (Z.land (Z.shiftr d 16) 0xf)) y x ->
    c_foreign (Fragment Tagsegment) (d :: y) (Evioswap.EVIO_SWAP32 d :: x).

Section CSwaps.

Variable host : ByteOrder.
Variable eviofmt : Evioswap.mem -> Evioswap.ptr -> Z -> Z * list Z.
Variable eviofmtswap :
  Evioswap.mem -> Evioswap.ptr -> Z -> list Z -> Z -> bool -> Z -> Evioswap.mem * Z.

(** What the in-place swap of a part does in evioswap.c, in either
    direction: with [tolocal] the part is given in the other byte order
    and comes out in the order of the host, without it the reverse; the
    words before and after the part and the other array stay. *)
Definition c_swaps_in_place (p : part) (y x : list Z) : Prop :=
  forall (fuel : nat) (pre post other : list Z) (tolocal : bool),
    Z.of_nat (length pre + length y + length post) < 2 ^ 31 ->
    let src := if tolocal then x else y in
    let tgt := if tolocal then y else x in
    let swap_data := Evioswap.swap_data host eviofmt eviofmtswap fuel tolocal in
    match p with
    | Data type =>
        (length y + 2 <= fuel)%nat ->
        swap_data (Evioswap.mkmem (pre ++ src ++ post) other)
          (Evioswap.Data (Z.of_nat (length pre))) type (Z.of_nat (length y))
          Evioswap.Null
        = Evioswap.Done (Evioswap.mkmem (pre ++ tgt ++ post) other)
    | Fragment f =>
        (length y + 1 <= fuel)%nat ->
        c_swap_fragment_body f swap_data
          (Evioswap.mkmem (pre ++ src ++ post) other)
          (Evioswap.Data (Z.of_nat (length pre))) tolocal Evioswap.Null
        = Evioswap.Done (Evioswap.mkmem (pre ++ tgt ++ post) other)
    | Fragments f =>
        (length y + 1 <= fuel)%nat ->
        forall (n : nat) (base l : Z),
          base + l = Z.of_nat (length pre) -> 0 <= base -> 0 <= l ->
          (length y + 1 <= n)%nat ->
          Evioswap.fragment_loop n
            (fun m b d => c_swap_fragment_body f swap_data m b tolocal d)
            (c_fraglen_of f)
            (Evioswap.mkmem (pre ++ src ++ post) other)
            (Evioswap.Data base) tolocal Evioswap.Null
            l (l + Z.of_nat (length y))
          = Evioswap.Done (Evioswap.mkmem (pre ++ tgt ++ post) other)
    end.

End CSwaps.

Section CSwapsToDest.

Variable host : ByteOrder.
Variable eviofmt : Evioswap.mem -> Evioswap.ptr -> Z -> Z * list Z.
Variable eviofmtswap :
  Evioswap.mem -> Evioswap.ptr -> Z -> list Z -> Z -> bool -> Z -> Evioswap.mem * Z.

(** What the swap of a part into the other array does in evioswap.c, in
    either direction: the array that holds the part is left as it is, and
    the destination receives the swapped part where [dest] points, its
    other words staying. *)
Definition c_swaps_to_dest (p : part) (y x : list Z) : Prop :=
  forall (fuel : nat) (pre post dpre dold dpost : list Z) (tolocal : bool),
    Z.of_nat (length pre + length y + length post) < 2 ^ 31 ->
    length dold = length y ->
    let src := if tolocal then x else y in
    let tgt := if tolocal then y else x in
    let swap_data := Evioswap.swap_data host eviofmt eviofmtswap fuel tolocal in
    let m := Evioswap.mkmem (pre ++ src ++ post) (dpre ++ dold ++ dpost) in
    let m' := Evioswap.mkmem (pre ++ src ++ post) (dpre ++ tgt ++ dpost) in
    match p with
    | Data type =>
        (length y + 2 <= fuel)%nat ->
        swap_data m (Evioswap.Data (Z.of_nat (length pre))) type
          (Z.of_nat (length y)) (Evioswap.Dest (Z.of_nat (length dpre)))
        = Evioswap.Done m'
    | Fragment f =>
        (length y + 1 <= fuel)%nat ->
        c_swap_fragment_body f swap_data m
          (Evioswap.Data (Z.of_nat (length pre))) tolocal
          (Evioswap.Dest (Z.of_nat (length dpre)))
        = Evioswap.Done m'
    | Fragments f =>
        (length y + 1 <= fuel)%nat ->
        forall (n : nat) (base dbase l : Z),
          base + l = Z.of_nat (length pre) ->
          dbase + l = Z.of_nat (length dpre) -> 0 <= base -> 0 <= l ->
          (length y + 1 <= n)%nat ->
          Evioswap.fragment_loop n
            (fun m b d => c_swap_fragment_body f swap_data m b tolocal d)
            (c_fraglen_of f) m (Evioswap.Data base) tolocal (Evioswap.Dest dbase)
            l (l + Z.of_nat (length y))
          = Evioswap.Done m'
    end.

End CSwapsToDest.
(* ===================================================================== *)
(** * Properties                                                          *)
(* ===================================================================== *)

(** ** Arithmetic of Java integers *)

Lemma wrap_id (w z : Z) :
  0 < w -> - 2 ^ (w - 1) <= z < 2 ^ (w - 1) -> Java.wrap w z = z.
Proof.
  intros Hw Hz. unfold Java.wrap.
  assert (E : 2 ^ w = 2 * 2 ^ (w - 1)).
  { replace w with (Z.succ (w - 1)) at 1 by lia. apply Z.pow_succ_r. lia. }
  assert (P : 0 < 2 ^ (w - 1)) by (apply Z.pow_pos_nonneg; lia).
  rewrite E. set (p := 2 ^ (w - 1)) in *.
  rewrite Z.mod_small; lia.
Qed.

Lemma int_id (z : Z) : - 2 ^ 31 <= z < 2 ^ 31 -> Java.int z = z.
Proof. intros H. apply wrap_id; simpl; lia. Qed.

Lemma long_id (z : Z) : - 2 ^ 63 <= z < 2 ^ 63 -> Java.long z = z.
Proof. intros H. apply wrap_id; simpl; lia. Qed.

Lemma int_range (z : Z) : - 2 ^ 31 <= Java.int z < 2 ^ 31.
Proof.
  unfold Java.int, Java.wrap.
  change (2 ^ (32 - 1)) with 2147483648. change (2 ^ 32) with 4294967296.
  change (2 ^ 31) with 2147483648.
  pose proof (Z.mod_pos_bound (z + 2147483648) 4294967296 eq_refl). lia.
Qed.

Lemma int_mod (z : Z) : Java.int (z mod 2 ^ 32) = Java.int z.
Proof.
  unfold Java.int, Java.wrap. f_equal.
  rewrite Z.add_mod_idemp_l; [reflexivity | discriminate].
Qed.

Lemma long_mod (z : Z) : Java.long (z mod 2 ^ 64) = Java.long z.
Proof.
  unfold Java.long, Java.wrap. f_equal.
  rewrite Z.add_mod_idemp_l; [reflexivity | discriminate].
Qed.

Lemma int_shift (z : Z) : exists q, Java.int z = z + q * 2 ^ 32.
Proof.
  exists (- ((z + 2 ^ 31) / 2 ^ 32)). unfold Java.int, Java.wrap.
  change (2 ^ (32 - 1)) with (2 ^ 31).
  rewrite Z.mod_eq by discriminate. lia.
Qed.

Lemma int_mod_small (z m : Z) :
  0 < m -> (m | 2 ^ 32) -> Java.int z mod m = z mod m.
Proof.
  intros Hm [k Hk]. destruct (int_shift z) as [q ->].
  rewrite Hk, Z.mul_assoc. apply Z.mod_add. lia.
Qed.

(** ** Bytes of a number *)

Lemma le_bytes_length (n : nat) (u : Z) : length (le_bytes n u) = n.
Proof. revert u. induction n; intros u; simpl; [reflexivity | now rewrite IHn]. Qed.

Lemma le_val_le_bytes (n : nat) (u : Z) :
  le_val (le_bytes n u) = u mod 2 ^ (8 * Z.of_nat n).
Proof.
  revert u. induction n as [|n IH]; intros u.
  - simpl. now rewrite Z.mod_1_r.
  - cbn [le_bytes le_val]. rewrite IH.
    replace (8 * Z.of_nat (S n)) with (8 + 8 * Z.of_nat n) by lia.
    rewrite Z.pow_add_r by lia. change (2 ^ 8) with 256.
    rewrite Z.rem_mul_r; [reflexivity | discriminate | ].
    apply Z.pow_pos_nonneg; lia.
Qed.

Lemma encode_length (o : ByteOrder) (n : nat) (v : Z) : length (encode o n v) = n.
Proof. destruct o; simpl; [| rewrite length_rev]; apply le_bytes_length. Qed.

Lemma decode_encode (o : ByteOrder) (n : nat) (v : Z) :
  decode o (encode o n v) = v mod 2 ^ (8 * Z.of_nat n).
Proof.
  destruct o; simpl; [| rewrite rev_involutive]; apply le_val_le_bytes.
Qed.

(** ** Storing and fetching bytes *)

Lemma put_bytes_length (l : list Z) (i : Z) (bs : list Z) :
  0 <= i -> i + Z.of_nat (length bs) <= Z.of_nat (length l) ->
  length (put_bytes l i bs) = length l.
Proof.
  intros Hi Hl. unfold put_bytes.
  rewrite !length_app, length_firstn, length_skipn. lia.
Qed.

Lemma get_put_same (l : list Z) (i : Z) (bs : list Z) :
  0 <= i -> i + Z.of_nat (length bs) <= Z.of_nat (length l) ->
  get_bytes (put_bytes l i bs) i (length bs) = bs.
Proof.
  intros Hi Hl. unfold get_bytes, put_bytes.
  rewrite skipn_app.
  assert (E : length (firstn (Z.to_nat i) l) = Z.to_nat i)
    by (rewrite length_firstn; lia).
  rewrite E, Nat.sub_diag. simpl skipn at 2.
  rewrite skipn_all2 by lia. simpl.
  rewrite firstn_app, Nat.sub_diag. simpl.
  now rewrite firstn_all, app_nil_r.
Qed.

Lemma get_put_other (l : list Z) (i j : Z) (bs : list Z) (n : nat) :
  0 <= i -> i + Z.of_nat (length bs) <= Z.of_nat (length l) ->
  0 <= j ->
  j + Z.of_nat n <= i \/ i + Z.of_nat (length bs) <= j ->
  get_bytes (put_bytes l i bs) j n = get_bytes l j n.
Proof.
  intros Hi Hl Hj Hd. unfold get_bytes, put_bytes.
  destruct Hd as [Hd | Hd].
  - (* the bytes fetched lie before the bytes stored *)
    rewrite skipn_app.
    assert (E : length (firstn (Z.to_nat i) l) = Z.to_nat i)
      by (rewrite length_firstn; lia).
    rewrite E.
    replace (Z.to_nat j - Z.to_nat i)%nat with 0%nat by lia.
    simpl skipn at 2.
    rewrite firstn_app.
    rewrite skipn_firstn_comm.
    rewrite length_firstn, length_skipn.
    replace (n - Nat.min (Z.to_nat i - Z.to_nat j) (length l - Z.to_nat j))%nat
      with 0%nat by lia.
    simpl. rewrite app_nil_r.
    rewrite firstn_firstn. f_equal. lia.
  - (* the bytes fetched lie after the bytes stored *)
    rewrite app_assoc, skipn_app.
    assert (E : length (firstn (Z.to_nat i) l ++ bs) = (Z.to_nat i + length bs)%nat)
      by (rewrite length_app, length_firstn; lia).
    rewrite E.
    rewrite (skipn_all2 (firstn (Z.to_nat i) l ++ bs)) by lia.
    simpl. rewrite skipn_skipn. do 2 f_equal. lia.
Qed.

(** ** Absolute accesses to a ByteBuffer *)

Lemma limit_stored w b i v : ByteBuffer.limit (stored w b i v) = ByteBuffer.limit b.
Proof. reflexivity. Qed.

Lemma order_stored w b i v : ByteBuffer.order (stored w b i v) = ByteBuffer.order b.
Proof. reflexivity. Qed.

Lemma position_stored w b i v :
  ByteBuffer.position (stored w b i v) = ByteBuffer.position b.
Proof. reflexivity. Qed.

Lemma checkIndex_true b i nb :
  0 <= i -> i + nb <= ByteBuffer.limit b -> ByteBuffer.checkIndex b i nb = true.
Proof.
  intros. unfold ByteBuffer.checkIndex.
  apply andb_true_intro; split; [apply Z.leb_le | apply Z.leb_le]; lia.
Qed.

Lemma wf_stored w b i v :
  wf_buffer b -> 0 <= i -> i + Z.of_nat w <= ByteBuffer.limit b ->
  wf_buffer (stored w b i v).
Proof.
  unfold wf_buffer, ByteBuffer.capacity. intros [H0 H1] Hi Hw. simpl.
  unfold ByteBuffer.capacity in H1.
  rewrite put_bytes_length; rewrite ?encode_length; lia.
Qed.

Lemma putN_stored w b i v :
  0 <= i -> i + Z.of_nat w <= ByteBuffer.limit b ->
  ByteBuffer.putN w b i v = Ok (stored w b i v).
Proof.
  intros. unfold ByteBuffer.putN. now rewrite checkIndex_true.
Qed.

Lemma getN_stored_same w b i v :
  wf_buffer b -> 0 <= i -> i + Z.of_nat w <= ByteBuffer.limit b ->
  ByteBuffer.getN w (stored w b i v) i = Ok (v mod 2 ^ (8 * Z.of_nat w)).
Proof.
  intros [H0 H1] Hi Hw. unfold ByteBuffer.getN.
  rewrite checkIndex_true by (rewrite ?limit_stored; lia).
  unfold stored; simpl. unfold ByteBuffer.capacity in H1.
  rewrite <- (encode_length (ByteBuffer.order b) w v) at 2.
  rewrite get_put_same by (rewrite ?encode_length; lia).
  now rewrite decode_encode.
Qed.

Lemma getN_stored_other w' w b i j v :
  wf_buffer b -> 0 <= i -> i + Z.of_nat w <= ByteBuffer.limit b -> 0 <= j ->
  j + Z.of_nat w' <= i \/ i + Z.of_nat w <= j ->
  ByteBuffer.getN w' (stored w b i v) j = ByteBuffer.getN w' b j.
Proof.
  intros [H0 H1] Hi Hw Hj Hd. unfold ByteBuffer.getN, ByteBuffer.checkIndex.
  rewrite limit_stored, order_stored. unfold stored; simpl.
  unfold ByteBuffer.capacity in H1.
  rewrite get_put_other by (rewrite ?encode_length; lia).
  reflexivity.
Qed.

Lemma getN_set_order_same w b i v o :
  wf_buffer b -> 0 <= i -> i + Z.of_nat w <= ByteBuffer.limit b ->
  ByteBuffer.getN w (ByteBuffer.set_order o (stored w (ByteBuffer.set_order o b) i v)) i
  = Ok (v mod 2 ^ (8 * Z.of_nat w)).
Proof.
  intros. apply (getN_stored_same w (ByteBuffer.set_order o b) i v); assumption.
Qed.

(** ** Padding and length in words *)

Lemma rem4_cases (n : Z) :
  0 <= n ->
  (Z.rem n 4 = 0 /\ n mod 4 = 0) \/ (Z.rem n 4 = 1 /\ n mod 4 = 1) \/
  (Z.rem n 4 = 2 /\ n mod 4 = 2) \/ (Z.rem n 4 = 3 /\ n mod 4 = 3).
Proof.
  intros Hn. rewrite Z.rem_mod_nonneg by lia.
  pose proof (Z.mod_pos_bound n 4 eq_refl). lia.
Qed.

Lemma land_neg_3 (n : Z) : Z.land (- n) 3 = (- n) mod 4.
Proof. change 3 with (Z.ones 2). now rewrite Z.land_ones by lia. Qed.

Lemma neg_mod4 (n : Z) : (- n) mod 4 = (4 - n mod 4) mod 4.
Proof. Z.div_mod_to_equations. lia. Qed.

Lemma div4_up (n : Z) :
  (n + 3) / 4 = if n mod 4 =? 0 then n / 4 else n / 4 + 1.
Proof. destruct (Z.eqb_spec (n mod 4) 0); Z.div_mod_to_equations; lia. Qed.

Lemma getPadding_spec (n : Z) :
  0 <= n -> RecordHeader.getPadding n = Ok (Z.land (- n) 3).
Proof.
  intros Hn. unfold RecordHeader.getPadding, Java.rem.
  rewrite land_neg_3, neg_mod4.
  destruct (rem4_cases n Hn) as [[R M] | [[R M] | [[R M] | [R M]]]];
    rewrite R, M; reflexivity.
Qed.

Lemma getWords_spec (n : Z) :
  0 <= n <= Java.MAX_INT -> RecordHeader.getWords n = Ok ((n + 3) / 4).
Proof.
  intros [Hn Hm]. unfold Java.MAX_INT in Hm.
  change (2 ^ 31) with 2147483648 in Hm.
  unfold RecordHeader.getWords. rewrite getPadding_spec by assumption.
  simpl bind. unfold Java.div. rewrite Z.quot_div_nonneg by lia.
  rewrite land_neg_3, neg_mod4, div4_up.
  assert (D : 0 <= n / 4 < 536870912) by (Z.div_mod_to_equations; lia).
  rewrite (int_id (n / 4)) by (change (2 ^ 31) with 2147483648; lia).
  destruct (rem4_cases n Hn) as [[R M] | [[R M] | [[R M] | [R M]]]];
    rewrite M; simpl; try reflexivity;
    f_equal; apply int_id; change (2 ^ 31) with 2147483648; lia.
Qed.

(** ** The bit-info word *)

Lemma lor_high_low (k V : Z) :
  0 <= V < 2 ^ 20 ->
  Z.land (Z.lor (k * 2 ^ 20) V) 255 = Z.land V 255 /\
  Z.shiftr (Z.lor (k * 2 ^ 20) V) 20 = k.
Proof.
  intros HV. split.
  - rewrite Z.land_lor_distr_l.
    replace (Z.land (k * 2 ^ 20) 255) with 0; [reflexivity |].
    change 255 with (Z.ones 8). rewrite Z.land_ones by lia.
    change (2 ^ 20) with (4096 * 2 ^ 8). rewrite Z.mul_assoc.
    now rewrite Z.mod_mul by discriminate.
  - rewrite Z.shiftr_lor, !Z.shiftr_div_pow2 by lia.
    rewrite Z.div_mul by discriminate.
    rewrite (Z.div_small V) by lia. apply Z.lor_0_r.
Qed.

Lemma land_255_range (v : Z) : 0 <= Z.land v 255 < 2 ^ 20.
Proof.
  change 255 with (Z.ones 8). rewrite Z.land_ones by lia.
  pose proof (Z.mod_pos_bound v (2 ^ 8) eq_refl).
  change (2 ^ 8) with 256 in *. change (2 ^ 20) with 1048576. lia.
Qed.

Lemma land_255_idem (v : Z) : Z.land (Z.land v 255) 255 = Z.land v 255.
Proof. rewrite <- Z.land_assoc. reflexivity. Qed.

Lemma bitinfo_fields (p1 p2 p3 v : Z) :
  0 <= p1 <= 3 -> 0 <= p2 <= 3 -> 0 <= p3 <= 3 ->
  let w := Z.lor (Z.lor (Z.lor (Java.shl p1 20) (Java.shl p2 22)) (Java.shl p3 24))
                 (Z.land v 255) in
  Z.land w 255 = Z.land v 255 /\
  Z.land (Z.shiftr w 20) 3 = p1 /\
  Z.land (Z.shiftr w 22) 3 = p2 /\
  Z.land (Z.shiftr w 24) 3 = p3.
Proof.
  intros H1 H2 H3 w. subst w.
  pose proof (land_255_range v) as HV.
  set (V := Z.land v 255) in *.
  assert (E : forall K k, K = k * 2 ^ 20 ->
            Z.land (Z.lor K V) 255 = Z.land V 255 /\
            Z.shiftr (Z.lor K V) 20 = k /\
            Z.shiftr (Z.lor K V) 22 = Z.shiftr k 2 /\
            Z.shiftr (Z.lor K V) 24 = Z.shiftr k 4).
  { intros K k ->. destruct (lor_high_low k V HV) as [A B].
    repeat split; try assumption.
    - change 22 with (20 + 2). rewrite <- Z.shiftr_shiftr by lia. now rewrite B.
    - change 24 with (20 + 4). rewrite <- Z.shiftr_shiftr by lia. now rewrite B. }
  assert (C1 : p1 = 0 \/ p1 = 1 \/ p1 = 2 \/ p1 = 3) by lia.
  assert (C2 : p2 = 0 \/ p2 = 1 \/ p2 = 2 \/ p2 = 3) by lia.
  assert (C3 : p3 = 0 \/ p3 = 1 \/ p3 = 2 \/ p3 = 3) by lia.
  destruct C1 as [-> | [-> | [-> | ->]]];
  destruct C2 as [-> | [-> | [-> | ->]]];
  destruct C3 as [-> | [-> | [-> | ->]]];
  match goal with
  | |- context [Z.lor ?K V] =>
      let k := eval vm_compute in (Z.shiftr K 20) in
      destruct (E K k eq_refl) as (A & B & B2 & B4)
  end;
  rewrite A, B, B2, B4; unfold V; rewrite ?land_255_idem; repeat split; reflexivity.
Qed.

(** ** Derived fields of the header follow the lengths *)

Lemma setter_spec (n : Z) (h : RecordHeader.t) :
  0 <= n <= Java.MAX_INT ->
  (exists h', RecordHeader.setUserHeaderLength n h = Ok h' /\
     derived_from n (RecordHeader.userHeaderLength h')
                    (RecordHeader.userHeaderLengthWords h')
                    (RecordHeader.userHeaderLengthPadding h')) /\
  (exists h', RecordHeader.setDataLength n h = Ok h' /\
     derived_from n (RecordHeader.dataLength h')
                    (RecordHeader.dataLengthWords h')
                    (RecordHeader.dataLengthPadding h')) /\
  (exists h', RecordHeader.setCompressedDataLength n h = Ok h' /\
     derived_from n (RecordHeader.compressedDataLength h')
                    (RecordHeader.compressedDataLengthWords h')
                    (RecordHeader.compressedDataLengthPadding h')) /\
  (exists h', RecordHeader.setLength n h = Ok h' /\
     derived_from n (RecordHeader.recordLength h')
                    (RecordHeader.recordLengthWords h')
                    (RecordHeader.recordLengthPadding h')).
Proof.
  intros Hn.
  unfold RecordHeader.setUserHeaderLength, RecordHeader.setDataLength,
    RecordHeader.setCompressedDataLength, RecordHeader.setLength.
  rewrite getWords_spec, getPadding_spec by lia. simpl bind.
  repeat split; eexists; (split; [reflexivity | repeat split]).
Qed.

(** C3: for every byte length [n >= 0] the padding to the next 4-byte
    boundary is [(-n) & 3], that is 0, 3, 2, 1 for [n mod 4] = 0, 1, 2, 3,
    and the length in words is [n/4] rounded up; each of the setters
    [setUserHeaderLength], [setDataLength], [setCompressedDataLength] and
    [setLength] stores the new length with the words and padding computed
    from it; and the bit-info word of a header whose lengths were set this
    way holds the version in its low 8 bits and the three padding counts in
    bits 20-21, 22-23 and 24-25. *)
Theorem C3_padding_words_bitinfo (n : Z) :
  0 <= n <= Java.MAX_INT ->
  RecordHeader.getPadding n = Ok (Z.land (- n) 3) /\
  Z.land (- n) 3 = nth (Z.to_nat (n mod 4)) [0; 3; 2; 1] 0 /\
  RecordHeader.getWords n = Ok ((n + 3) / 4) /\
  (n + 3) / 4 * 4 = n + Z.land (- n) 3 /\
  (forall h,
    (exists h', RecordHeader.setUserHeaderLength n h = Ok h' /\
       derived_from n (RecordHeader.userHeaderLength h')
                      (RecordHeader.userHeaderLengthWords h')
                      (RecordHeader.userHeaderLengthPadding h')) /\
    (exists h', RecordHeader.setDataLength n h = Ok h' /\
       derived_from n (RecordHeader.dataLength h')
                      (RecordHeader.dataLengthWords h')
                      (RecordHeader.dataLengthPadding h')) /\
    (exists h', RecordHeader.setCompressedDataLength n h = Ok h' /\
       derived_from n (RecordHeader.compressedDataLength h')
                      (RecordHeader.compressedDataLengthWords h')
                      (RecordHeader.compressedDataLengthPadding h')) /\
    (exists h', RecordHeader.setLength n h = Ok h' /\
       derived_from n (RecordHeader.recordLength h')
                      (RecordHeader.recordLengthWords h')
                      (RecordHeader.recordLengthPadding h'))) /\
  (forall h d c h1 h2 h3,
    0 <= d <= Java.MAX_INT -> 0 <= c <= Java.MAX_INT ->
    RecordHeader.setUserHeaderLength n h = Ok h1 ->
    RecordHeader.setDataLength d h1 = Ok h2 ->
    RecordHeader.setCompressedDataLength c h2 = Ok h3 ->
    let w := RecordHeader.getBitInfoWord h3 in
    Z.land w 0xFF = Z.land (RecordHeader.headerVersion h) 0xFF /\
    Z.land (Z.shiftr w 20) 3 = Z.land (- n) 3 /\
    Z.land (Z.shiftr w 22) 3 = Z.land (- d) 3 /\
    Z.land (Z.shiftr w 24) 3 = Z.land (- c) 3).
Proof.
  intros Hn.
  assert (P : forall k, 0 <= Z.land (- k) 3 <= 3).
  { intros k. rewrite land_neg_3.
    pose proof (Z.mod_pos_bound (- k) 4 eq_refl). lia. }
  split; [apply getPadding_spec; lia |].
  split.
  { rewrite land_neg_3, neg_mod4.
    destruct (rem4_cases n (proj1 Hn)) as [[_ M] | [[_ M] | [[_ M] | [_ M]]]];
      rewrite M; reflexivity. }
  split; [apply getWords_spec; exact Hn |].
  split.
  { rewrite land_neg_3. Z.div_mod_to_equations. lia. }
  split; [intros h; apply setter_spec; exact Hn |].
  intros h d c h1 h2 h3 Hd Hc E1 E2 E3 w. subst w.
  unfold RecordHeader.setUserHeaderLength in E1.
  unfold RecordHeader.setDataLength in E2.
  unfold RecordHeader.setCompressedDataLength in E3.
  rewrite getWords_spec, getPadding_spec in E1, E2, E3 by lia.
  simpl bind in E1, E2, E3.
  injection E1 as <-. injection E2 as <-. injection E3 as <-.
  unfold RecordHeader.getBitInfoWord. cbn.
  apply bitinfo_fields; apply P.
Qed.

Lemma C3_padding_words_bitinfo_witness :
  0 <= 861 <= Java.MAX_INT /\
  RecordHeader.getPadding 861 = Ok 3 /\
  RecordHeader.getWords 861 = Ok 216.
Proof.
  assert (H : 0 <= 861 <= Java.MAX_INT) by (unfold Java.MAX_INT; simpl; lia).
  destruct (C3_padding_words_bitinfo 861 H) as (A & _ & B & _).
  split; [exact H |]. split; [exact A | exact B].
Defined.

(** ** Reading a header never fails on its contents *)

(** C1: [readHeader] has no failure for the magic word or the version.  A
    header whose word 7 is 0xDEADBEEF is read to the end, the bad word
    stored as the magic word; a header of version 5 is read to the end
    with version 5; and a header written in big-endian order, whose word
    7 reads 0x0001DAC0 in a little-endian buffer, is not recognised by the
    comparison with 0x0010DAC0: the buffer stays little endian and the
    header length 14 is read as 0x0E000000. *)
Theorem C1_readHeader_accepts_bad_magic_and_old_version :
  (exists h,
     RecordHeader.readHeader RecordHeader.new
       (little_endian_buffer bad_magic_header) 0
     = Ok (h, little_endian_buffer bad_magic_header) /\
     RecordHeader.headerMagicWord h = Java.int 0xDEADBEEF /\
     RecordHeader.headerVersion h = 6 /\
     RecordHeader.headerLength h = 14) /\
  (exists h,
     RecordHeader.readHeader RecordHeader.new
       (little_endian_buffer version5_header) 0
     = Ok (h, little_endian_buffer version5_header) /\
     RecordHeader.headerMagicWord h = RecordHeader.HEADER_MAGIC /\
     RecordHeader.headerVersion h = 5) /\
  (exists h,
     RecordHeader.readHeader RecordHeader.new
       (little_endian_buffer big_endian_header) 0
     = Ok (h, little_endian_buffer big_endian_header) /\
     RecordHeader.headerMagicWord h = 0x0001DAC0 /\
     RecordHeader.headerLength h = 0x0E000000).
Proof.
  repeat split; eexists; (split; [vm_compute; reflexivity | repeat split]).
Qed.

(** The constant the magic word is compared with to detect the other byte
    order is not the byte-reversed magic word. *)
Lemma HEADER_MAGIC_BE_is_not_the_swapped_magic :
  decode BIG_ENDIAN (encode LITTLE_ENDIAN 4 RecordHeader.HEADER_MAGIC) = 0x0001DAC0 /\
  RecordHeader.HEADER_MAGIC_BE = 0x0010DAC0 /\
  RecordHeader.HEADER_MAGIC_BE <> 0x0001DAC0.
Proof. repeat split. discriminate. Qed.

(** ** Bit fields that do not overlap *)

Lemma land_disjoint (x k n : Z) :
  0 <= n -> 0 <= x < 2 ^ n -> Z.land x (k * 2 ^ n) = 0.
Proof.
  intros Hn Hx. apply Z.bits_inj'. intros m Hm.
  rewrite Z.land_spec, Z.bits_0.
  destruct (Z.lt_ge_cases m n) as [L | G].
  - rewrite (Z.mul_pow2_bits_low k n m) by lia. apply andb_false_r.
  - replace (Z.testbit x m) with false; [reflexivity |].
    symmetry. apply Z.testbit_false; [lia |].
    rewrite Z.div_small; [reflexivity |].
    split; [lia |]. apply Z.lt_le_trans with (2 ^ n); [lia |].
    apply Z.pow_le_mono_r; lia.
Qed.

Lemma lor_disjoint (x k n : Z) :
  0 <= n -> 0 <= x < 2 ^ n -> Z.lor x (k * 2 ^ n) = x + k * 2 ^ n.
Proof.
  intros Hn Hx. pose proof (land_disjoint x k n Hn Hx) as D.
  rewrite <- Z.lxor_lor by exact D. symmetry. now apply Z.add_nocarry_lxor.
Qed.

Lemma shl_low_bits (p k : Z) :
  8 <= k -> Z.land (Java.shl p k) 255 = 0.
Proof.
  intros Hk. unfold Java.shl. change 255 with (Z.ones 8).
  rewrite Z.land_ones by lia.
  rewrite int_mod_small; [| reflexivity | exists (2 ^ 24); reflexivity].
  rewrite Z.shiftl_mul_pow2 by lia.
  replace k with ((k - 8) + 8) by lia. rewrite Z.pow_add_r by lia.
  rewrite Z.mul_assoc. apply Z.mod_mul. discriminate.
Qed.

Lemma bitinfo_low8 (h : RecordHeader.t) :
  Z.land (RecordHeader.getBitInfoWord h) 255 =
  Z.land (RecordHeader.headerVersion h) 255.
Proof.
  unfold RecordHeader.getBitInfoWord.
  rewrite !Z.land_lor_distr_l, !shl_low_bits by lia.
  rewrite land_255_idem. reflexivity.
Qed.

Lemma version_read_back (h : RecordHeader.t) :
  Z.land (Java.int (RecordHeader.getBitInfoWord h mod 2 ^ 32)) 255
  = RecordHeader.headerVersion h mod 256.
Proof.
  rewrite int_mod. change 255 with (Z.ones 8).
  rewrite Z.land_ones by lia.
  rewrite int_mod_small; [| reflexivity | exists (2 ^ 24); reflexivity].
  rewrite <- Z.land_ones by lia. change (Z.ones 8) with 255.
  rewrite bitinfo_low8. change 255 with (Z.ones 8).
  now rewrite Z.land_ones by lia.
Qed.

Lemma compressedWord_mod (h : RecordHeader.t) :
  compressedWord_of h mod 2 ^ 32 =
  RecordHeader.compressedDataLengthWords h mod 2 ^ 28
  + RecordHeader.compressionType h mod 16 * 2 ^ 28.
Proof.
  unfold compressedWord_of, Java.shl.
  change 0x0FFFFFFF with (Z.ones 28). change 0x0000000F with (Z.ones 4).
  rewrite !Z.land_ones by lia. change (2 ^ 4) with 16.
  set (x := RecordHeader.compressedDataLengthWords h mod 2 ^ 28).
  set (y := RecordHeader.compressionType h mod 16).
  assert (Hx : 0 <= x < 2 ^ 28) by (apply Z.mod_pos_bound; reflexivity).
  assert (Hy : 0 <= y < 16) by (apply Z.mod_pos_bound; reflexivity).
  rewrite Z.shiftl_mul_pow2 by lia.
  destruct (int_shift (y * 2 ^ 28)) as [q ->].
  replace (y * 2 ^ 28 + q * 2 ^ 32) with ((y + 16 * q) * 2 ^ 28)
    by (change (2 ^ 32) with (16 * 2 ^ 28); ring).
  rewrite lor_disjoint by lia.
  replace (x + (y + 16 * q) * 2 ^ 28) with (x + y * 2 ^ 28 + q * 2 ^ 32)
    by (change (2 ^ 32) with (16 * 2 ^ 28); ring).
  rewrite Z.mod_add by discriminate.
  apply Z.mod_small. change (2 ^ 28) with 268435456 in *.
  change (2 ^ 32) with 4294967296. lia.
Qed.

Lemma compressionType_read_back (h : RecordHeader.t) :
  Java.ushr (Java.int (compressedWord_of h mod 2 ^ 32)) 28
  = RecordHeader.compressionType h mod 16.
Proof.
  unfold Java.ushr.
  rewrite (int_mod_small _ (2 ^ 32)); [| reflexivity | exists 1; reflexivity].
  rewrite Z.mod_mod by discriminate.
  rewrite compressedWord_mod.
  set (x := RecordHeader.compressedDataLengthWords h mod 2 ^ 28).
  set (y := RecordHeader.compressionType h mod 16).
  assert (Hx : 0 <= x < 2 ^ 28) by (apply Z.mod_pos_bound; reflexivity).
  assert (Hy : 0 <= y < 16) by (apply Z.mod_pos_bound; reflexivity).
  rewrite Z.shiftr_div_pow2 by lia.
  rewrite Z.div_add by discriminate.
  rewrite Z.div_small by exact Hx. simpl.
  apply int_id. change (2 ^ 31) with 2147483648. lia.
Qed.

Lemma compressedDataLength_read_back (h : RecordHeader.t) :
  Z.land (Java.int (compressedWord_of h mod 2 ^ 32)) 0x0FFFFFFF
  = RecordHeader.compressedDataLengthWords h mod 2 ^ 28.
Proof.
  change 0x0FFFFFFF with (Z.ones 28). rewrite Z.land_ones by lia.
  rewrite int_mod_small; [| reflexivity | exists 16; reflexivity].
  rewrite compressedWord_mod.
  set (x := RecordHeader.compressedDataLengthWords h mod 2 ^ 28).
  set (y := RecordHeader.compressionType h mod 16).
  assert (Hx : 0 <= x < 2 ^ 28) by (apply Z.mod_pos_bound; reflexivity).
  rewrite Z.mod_add by discriminate. now apply Z.mod_small.
Qed.

(** ** A header written and read again in the same byte order *)

Ltac buf_side :=
  rewrite ?limit_stored;
  first [ lia
        | repeat (apply wf_stored; [ | lia | rewrite ?limit_stored; lia ]);
          assumption ].

Ltac read_stored :=
  repeat rewrite getN_stored_other by buf_side;
  rewrite getN_stored_same by buf_side.

Lemma if_same (A : Type) (c : bool) (x : A) : (if c then x else x) = x.
Proof. now destruct c. Qed.

Ltac hdr_simpl :=
  cbn [bind negb RecordHeader.assign RecordHeader.field_eqb
       RecordHeader.setIndexLength
       RecordHeader.position RecordHeader.recordLength RecordHeader.recordNumber
       RecordHeader.entries RecordHeader.headerLength
       RecordHeader.userHeaderLength RecordHeader.indexLength
       RecordHeader.dataLength RecordHeader.compressedDataLength
       RecordHeader.compressionType RecordHeader.userHeaderLengthPadding
       RecordHeader.dataLengthPadding RecordHeader.compressedDataLengthPadding
       RecordHeader.recordLengthPadding RecordHeader.dataLengthWords
       RecordHeader.compressedDataLengthWords RecordHeader.userHeaderLengthWords
       RecordHeader.recordLengthWords RecordHeader.headerLengthWords
       RecordHeader.recordUserRegisterFirst RecordHeader.recordUserRegisterSecond
       RecordHeader.headerVersion RecordHeader.headerMagicWord].

Lemma nonneg_is_int (z : Z) : 0 <= z <= Java.MAX_INT -> is_int z.
Proof. unfold Java.MAX_INT, is_int. lia. Qed.

Lemma readHeader_writeHeader (h h0 : RecordHeader.t) (b : ByteBuffer.t) (off : Z) :
  wf_buffer b -> 0 <= off -> off + 56 <= ByteBuffer.limit b -> writable h ->
  exists b',
    RecordHeader.writeHeader h b off = Ok b' /\
    ByteBuffer.order b' = ByteBuffer.order b /\
    ByteBuffer.limit b' = ByteBuffer.limit b /\
    wf_buffer b' /\
    RecordHeader.readHeader h0 b' off = Ok (read_back h h0, b').
Proof.
  intros Hwf Hoff Hlim W.
  unfold RecordHeader.writeHeader, ByteBuffer.putInt, ByteBuffer.putLong.
  repeat (rewrite putN_stored by buf_side; cbn [bind]).
  fold (compressedWord_of h).
  eexists. split; [reflexivity |].
  split; [reflexivity |]. split; [reflexivity |].
  split; [buf_side |].
  match goal with |- RecordHeader.readHeader _ ?B _ = _ => set (B' := B) end.
  assert (N : forall k v,
             ByteBuffer.getN 4 B' (k * 4 + off) = Ok (v mod 2 ^ 32) ->
             ByteBuffer.getInt B' (k * 4 + off) = Ok (Java.int v)).
  { intros k v E. unfold ByteBuffer.getInt. rewrite E. cbn [bind].
    now rewrite int_mod. }
  assert (G : forall k v,
             ByteBuffer.getN 4 B' (k * 4 + off) = Ok (v mod 2 ^ 32) -> is_int v ->
             ByteBuffer.getInt B' (k * 4 + off) = Ok v).
  { intros k v E I. rewrite (N k v E). f_equal. apply int_id. exact I. }
  assert (L : forall k v,
             ByteBuffer.getN 8 B' (k * 4 + off) = Ok (v mod 2 ^ 64) -> is_long v ->
             ByteBuffer.getLong B' (k * 4 + off) = Ok v).
  { intros k v E I. unfold ByteBuffer.getLong. rewrite E. cbn [bind].
    rewrite long_mod. f_equal. apply long_id. exact I. }
  assert (G0 : ByteBuffer.getInt B' (0 + off) = Ok (RecordHeader.recordLengthWords h)).
  { change (0 + off) with (0 * 4 + off). apply G; [| apply W].
    unfold B'. read_stored. reflexivity. }
  assert (G1 : ByteBuffer.getInt B' (1 * 4 + off) = Ok (RecordHeader.recordNumber h)).
  { apply G; [| apply W]. unfold B'. read_stored. reflexivity. }
  assert (G2 : ByteBuffer.getInt B' (2 * 4 + off) = Ok (RecordHeader.headerLength h)).
  { apply G; [| apply W]. unfold B'. read_stored. reflexivity. }
  assert (G3 : ByteBuffer.getInt B' (3 * 4 + off) = Ok (RecordHeader.entries h)).
  { apply G; [| apply W]. unfold B'. read_stored. reflexivity. }
  assert (G4 : ByteBuffer.getInt B' (4 * 4 + off) = Ok (RecordHeader.indexLength h)).
  { apply G; [| apply W]. unfold B'. read_stored. reflexivity. }
  assert (G5 : ByteBuffer.getInt B' (5 * 4 + off)
               = Ok (Java.int (RecordHeader.getBitInfoWord h))).
  { apply N. unfold B'. read_stored. reflexivity. }
  assert (G6 : ByteBuffer.getInt B' (6 * 4 + off) = Ok (RecordHeader.userHeaderLength h)).
  { apply G; [| apply nonneg_is_int, W]. unfold B'. read_stored. reflexivity. }
  assert (G7 : ByteBuffer.getInt B' (7 * 4 + off) = Ok RecordHeader.HEADER_MAGIC).
  { rewrite <- (w_magic h W). apply G.
    - unfold B'. read_stored. reflexivity.
    - rewrite (w_magic h W). unfold is_int. split; vm_compute; congruence. }
  assert (G8 : ByteBuffer.getInt B' (8 * 4 + off) = Ok (RecordHeader.dataLength h)).
  { apply G; [| apply nonneg_is_int, W]. unfold B'. read_stored. reflexivity. }
  assert (G9 : ByteBuffer.getInt B' (9 * 4 + off)
               = Ok (Java.int (compressedWord_of h))).
  { apply N. unfold B'. read_stored. reflexivity. }
  assert (G10 : ByteBuffer.getLong B' (10 * 4 + off)
                = Ok (RecordHeader.recordUserRegisterFirst h)).
  { apply L; [| apply W]. unfold B'. read_stored. reflexivity. }
  assert (G12 : ByteBuffer.getLong B' (12 * 4 + off)
                = Ok (RecordHeader.recordUserRegisterSecond h)).
  { apply L; [| apply W]. unfold B'. read_stored. reflexivity. }
  clearbody B'. clear N G L.
  destruct h0 as [q0 q1 q2 q3 q4 q5 q6 q7 q8 q9 q10 q11 q12 q13 q14 q15 q16 q17
                  q18 q19 q20 q21 q22].
  unfold RecordHeader.readHeader.
  rewrite G7. cbn [bind].
  change (RecordHeader.HEADER_MAGIC =? RecordHeader.HEADER_MAGIC_LE) with true.
  hdr_simpl.
  rewrite G5. hdr_simpl.
  rewrite if_same.
  rewrite G0. hdr_simpl. rewrite G1. hdr_simpl. rewrite G2. hdr_simpl.
  rewrite G3. hdr_simpl. rewrite G4. hdr_simpl. rewrite G6. hdr_simpl.
  unfold RecordHeader.setUserHeaderLength.
  rewrite getWords_spec, getPadding_spec by apply W. hdr_simpl.
  rewrite G8. hdr_simpl.
  unfold RecordHeader.setDataLength.
  rewrite getWords_spec, getPadding_spec by apply W. hdr_simpl.
  rewrite G9. hdr_simpl.
  rewrite <- (int_mod (compressedWord_of h)),
    compressionType_read_back, compressedDataLength_read_back.
  rewrite <- (int_mod (RecordHeader.getBitInfoWord h)), version_read_back.
  assert (Hc : 0 <= RecordHeader.compressedDataLengthWords h mod 2 ^ 28 <= Java.MAX_INT).
  { pose proof (Z.mod_pos_bound (RecordHeader.compressedDataLengthWords h) (2 ^ 28) eq_refl).
    unfold Java.MAX_INT. change (2 ^ 28) with 268435456 in *.
    change (2 ^ 31) with 2147483648. lia. }
  unfold RecordHeader.setCompressedDataLength.
  rewrite getWords_spec, getPadding_spec by (hdr_simpl; lia). hdr_simpl.
  rewrite G10, G12. hdr_simpl.
  reflexivity.
Qed.

(** ** C2 *)

Lemma make_header_eq
    (recordLength recordNumber headerLength entries indexLength version
     userHeaderLength dataLength compressedDataLength compressionType
     register1 register2 : Z) :
  fits_wire recordLength recordNumber headerLength entries indexLength version
            userHeaderLength dataLength compressedDataLength compressionType
            register1 register2 ->
  make_header recordLength recordNumber headerLength entries indexLength version
              userHeaderLength dataLength compressedDataLength compressionType
              register1 register2
  = Ok {| RecordHeader.position := 0;
          RecordHeader.recordLength := recordLength;
          RecordHeader.recordNumber := recordNumber;
          RecordHeader.entries := entries;
          RecordHeader.headerLength := headerLength;
          RecordHeader.userHeaderLength := userHeaderLength;
          RecordHeader.indexLength := indexLength;
          RecordHeader.dataLength := dataLength;
          RecordHeader.compressedDataLength := compressedDataLength;
          RecordHeader.compressionType := compressionType;
          RecordHeader.userHeaderLengthPadding := Z.land (- userHeaderLength) 3;
          RecordHeader.dataLengthPadding := Z.land (- dataLength) 3;
          RecordHeader.compressedDataLengthPadding := Z.land (- compressedDataLength) 3;
          RecordHeader.recordLengthPadding := Z.land (- recordLength) 3;
          RecordHeader.dataLengthWords := (dataLength + 3) / 4;
          RecordHeader.compressedDataLengthWords := (compressedDataLength + 3) / 4;
          RecordHeader.userHeaderLengthWords := (userHeaderLength + 3) / 4;
          RecordHeader.recordLengthWords := (recordLength + 3) / 4;
          RecordHeader.headerLengthWords := Java.div headerLength 4;
          RecordHeader.recordUserRegisterFirst := register1;
          RecordHeader.recordUserRegisterSecond := register2;
          RecordHeader.headerVersion := version;
          RecordHeader.headerMagicWord := RecordHeader.HEADER_MAGIC |}.
Proof.
  intros F. unfold make_header.
  unfold RecordHeader.setCompressedDataLength, RecordHeader.setDataLength,
    RecordHeader.setUserHeaderLength, RecordHeader.setLength.
  rewrite !getWords_spec, !getPadding_spec by apply F.
  reflexivity.
Qed.

(** C2 (amended): for every header set up through the setters from values
    that fit the fields of the 14 words - lengths that are not negative,
    a record length that is a multiple of 4, a version below 256, a
    compression type below 16 - parsing the 56 bytes produced by
    serializing it, in the byte order they were written in, succeeds,
    leaves the byte order of the buffer as it was, and yields the same
    recordLength, recordNumber, headerLength, entries, indexLength,
    version, userHeaderLength, dataLength, compressionType, both user
    registers, and the words and padding derived from the user header
    length, the data length and the record length. *)
Theorem C2_header_round_trip
    (recordLength recordNumber headerLength entries indexLength version
     userHeaderLength dataLength compressedDataLength compressionType
     register1 register2 : Z)
    (h0 : RecordHeader.t) (b : ByteBuffer.t) (off : Z) :
  fits_wire recordLength recordNumber headerLength entries indexLength version
            userHeaderLength dataLength compressedDataLength compressionType
            register1 register2 ->
  wf_buffer b -> 0 <= off -> off + 56 <= ByteBuffer.limit b ->
  exists h b' h',
    make_header recordLength recordNumber headerLength entries indexLength
                version userHeaderLength dataLength compressedDataLength
                compressionType register1 register2 = Ok h /\
    RecordHeader.writeHeader h b off = Ok b' /\
    RecordHeader.readHeader h0 b' off = Ok (h', b') /\
    ByteBuffer.order b' = ByteBuffer.order b /\
    same_fields h h'.
Proof.
  intros F Hwf Hoff Hlim.
  rewrite (make_header_eq _ _ _ _ _ _ _ _ _ _ _ _ F).
  eexists. 
  match goal with |- exists b' h', Ok ?H = _ /\ _ => set (h := H) end.
  assert (M4 : (recordLength + 3) / 4 * 4 = recordLength).
  { destruct (fw_recordLength _ _ _ _ _ _ _ _ _ _ _ _ F) as [_ M].
    Z.div_mod_to_equations. lia. }
  assert (RI : is_int ((recordLength + 3) / 4)).
  { destruct (fw_recordLength _ _ _ _ _ _ _ _ _ _ _ _ F) as [[R0 R1] _].
    unfold Java.MAX_INT in R1. unfold is_int.
    change (2 ^ 31) with 2147483648 in *. Z.div_mod_to_equations. lia. }
  assert (W : writable h).
  { constructor; cbn; try apply F; try exact RI; reflexivity. }
  destruct (readHeader_writeHeader h h0 b off Hwf Hoff Hlim W)
    as (b' & Ew & Eo & El & Wf' & Er).
  exists b', (read_back h h0).
  split; [reflexivity |]. split; [exact Ew |]. split; [exact Er |].
  split; [exact Eo |].
  unfold same_fields, read_back; cbn.
  destruct (fw_recordLength _ _ _ _ _ _ _ _ _ _ _ _ F) as [[R0 R1] M].
  unfold Java.MAX_INT in R1.
  repeat split.
  - rewrite M4. apply int_id. change (2 ^ 31) with 2147483648 in *. lia.
  - apply Z.mod_small, F.
  - apply Z.mod_small, F.
  - rewrite land_neg_3. Z.div_mod_to_equations. lia.
Qed.

Lemma C2_header_round_trip_witness :
  exists h b' h',
    make_header 232 23 14 3245 324 6 459 12457 861 1 1234567 4567890 = Ok h /\
    RecordHeader.writeHeader h (little_endian_buffer (repeat 0 56%nat)) 0 = Ok b' /\
    RecordHeader.readHeader RecordHeader.new b' 0 = Ok (h', b') /\
    ByteBuffer.order b' = LITTLE_ENDIAN /\
    same_fields h h'.
Proof.
  apply (C2_header_round_trip 232 23 14 3245 324 6 459 12457 861 1 1234567 4567890
           RecordHeader.new (little_endian_buffer (repeat 0 56%nat)) 0).
  - constructor; unfold is_int, is_long, Java.MAX_INT; try lia.
    split; [lia | reflexivity].
  - split; vm_compute; discriminate.
  - lia.
  - vm_compute; discriminate.
Defined.

(** C2, as stated, fails: a header whose record length, 6 bytes, is not a
    multiple of 4 is written as 2 words and read back with record length 8
    and record length padding 0 instead of 6 and 2. *)
Lemma C2_counterexample :
  exists h b' h',
    RecordHeader.setLength 6 RecordHeader.new = Ok h /\
    RecordHeader.writeHeader h (little_endian_buffer (repeat 0 56%nat)) 0 = Ok b' /\
    RecordHeader.readHeader RecordHeader.new b' 0 = Ok (h', b') /\
    RecordHeader.recordLength h = 6 /\ RecordHeader.recordLength h' = 8 /\
    RecordHeader.recordLengthPadding h = 2 /\
    RecordHeader.recordLengthPadding h' = 0 /\
    h' <> h.
Proof.
  do 3 eexists.
  split; [vm_compute; reflexivity |].
  split; [vm_compute; reflexivity |].
  split; [vm_compute; reflexivity |].
  repeat split. intros E. apply (f_equal RecordHeader.recordLength) in E.
  vm_compute in E. discriminate.
Qed.

(** ** The 64-bit views of evioswap.c *)

Lemma le_bytes_low (n : nat) (x y : Z) :
  le_bytes n (x + 2 ^ (8 * Z.of_nat n) * y) = le_bytes n x.
Proof.
  revert x y. induction n as [|n IH]; intros x y; [reflexivity |].
  cbn [le_bytes].
  replace (8 * Z.of_nat (S n)) with (8 + 8 * Z.of_nat n) by lia.
  rewrite Z.pow_add_r by lia. change (2 ^ 8) with 256.
  f_equal.
  - rewrite <- Z.mul_assoc, Z.mul_comm, Z.mod_add; [reflexivity | discriminate].
  - rewrite <- Z.mul_assoc, (Z.mul_comm 256), Z.div_add by discriminate.
    apply IH.
Qed.

Lemma le_bytes_app (n m : nat) (u : Z) :
  le_bytes (n + m) u = le_bytes n u ++ le_bytes m (u / 2 ^ (8 * Z.of_nat n)).
Proof.
  revert u. induction n as [|n IH]; intros u.
  - simpl. now rewrite Z.div_1_r.
  - cbn [Nat.add le_bytes app]. f_equal. rewrite IH. f_equal. f_equal.
    replace (8 * Z.of_nat (S n)) with (8 + 8 * Z.of_nat n) by lia.
    rewrite Z.pow_add_r by lia. change (2 ^ 8) with 256.
    rewrite Z.div_div; [reflexivity | discriminate |].
    apply Z.pow_pos_nonneg; lia.
Qed.

Lemma le_val_app (x y : list Z) :
  le_val (x ++ y) = le_val x + 2 ^ (8 * Z.of_nat (length x)) * le_val y.
Proof.
  induction x as [|a x IH].
  { cbn [app le_val length]. change (8 * Z.of_nat 0) with 0.
    rewrite Z.pow_0_r. lia. }
  cbn [app le_val length]. rewrite IH.
  replace (8 * Z.of_nat (S (length x))) with (8 + 8 * Z.of_nat (length x)) by lia.
  rewrite Z.pow_add_r by lia. change (2 ^ 8) with 256. ring.
Qed.

Lemma le_bytes_range (n : nat) (u : Z) :
  Forall (fun b => 0 <= b < 256) (le_bytes n u).
Proof.
  revert u. induction n as [|n IH]; intros u; constructor; [| apply IH].
  apply Z.mod_pos_bound. reflexivity.
Qed.

Lemma le_val_range (bs : list Z) :
  Forall (fun b => 0 <= b < 256) bs ->
  0 <= le_val bs < 2 ^ (8 * Z.of_nat (length bs)).
Proof.
  induction 1 as [|b bs Hb _ IH].
  { cbn [le_val length]. change (8 * Z.of_nat 0) with 0. rewrite Z.pow_0_r. lia. }
  cbn [le_val length].
  replace (8 * Z.of_nat (S (length bs))) with (8 + 8 * Z.of_nat (length bs)) by lia.
  rewrite Z.pow_add_r by lia. change (2 ^ 8) with 256. lia.
Qed.

Lemma EVIO_SWAP32_range (x : Z) : 0 <= Evioswap.EVIO_SWAP32 x < 2 ^ 32.
Proof.
  unfold Evioswap.EVIO_SWAP32.
  pose proof (le_val_range (rev (le_bytes 4 x))) as R.
  rewrite length_rev, le_bytes_length in R. apply R.
  apply Forall_rev, le_bytes_range.
Qed.

Lemma EVIO_SWAP64_split (a b : Z) :
  0 <= a < 2 ^ 32 ->
  Evioswap.EVIO_SWAP64 (a + 2 ^ 32 * b)
  = Evioswap.EVIO_SWAP32 b + 2 ^ 32 * Evioswap.EVIO_SWAP32 a.
Proof.
  intros Ha. unfold Evioswap.EVIO_SWAP64, Evioswap.EVIO_SWAP32.
  change 8%nat with (4 + 4)%nat. rewrite le_bytes_app.
  change (2 ^ (8 * Z.of_nat 4)) with (2 ^ 32).
  pose proof (le_bytes_low 4 a b) as L.
  change (2 ^ (8 * Z.of_nat 4)) with (2 ^ 32) in L. rewrite L.
  rewrite (Z.mul_comm (2 ^ 32) b), Z.div_add by discriminate.
  rewrite Z.div_small by exact Ha. rewrite Z.add_0_l.
  rewrite rev_app_distr, le_val_app, length_rev, le_bytes_length.
  reflexivity.
Qed.

(** ** evioSwapRecordHeaderV6 *)

Lemma evioSwapRecordHeaderV6_words (hw rest dest : list Z) :
  length hw = 14%nat ->
  Evioswap.evioSwapRecordHeaderV6 (Evioswap.mkmem (hw ++ rest) dest) (Evioswap.Data 0)
  = Evioswap.Done
      (Evioswap.mkmem
         (map Evioswap.EVIO_SWAP32 (firstn 10 hw)
          ++ [Evioswap.EVIO_SWAP32 (nth 11 hw 0); Evioswap.EVIO_SWAP32 (nth 10 hw 0);
              Evioswap.EVIO_SWAP32 (nth 13 hw 0); Evioswap.EVIO_SWAP32 (nth 12 hw 0)]
          ++ rest) dest).
Proof.
  intros L.
  do 14 (destruct hw as [|? hw]; [discriminate L |]).
  destruct hw; [| discriminate L].
  reflexivity.
Qed.

Lemma load64_header (host : ByteOrder) (hw rest dest : list Z) (k : Z) :
  length hw = 14%nat -> k = 5 \/ k = 6 ->
  Evioswap.load64 host (Evioswap.mkmem (hw ++ rest) dest) (Evioswap.Data 0) k
  = Evioswap.Done
      (match host with
       | LITTLE_ENDIAN => nth (Z.to_nat (2 * k)) hw 0
                          + 2 ^ 32 * nth (Z.to_nat (2 * k + 1)) hw 0
       | BIG_ENDIAN => nth (Z.to_nat (2 * k + 1)) hw 0
                       + 2 ^ 32 * nth (Z.to_nat (2 * k)) hw 0
       end).
Proof.
  intros L K.
  do 14 (destruct hw as [|? hw]; [discriminate L |]).
  destruct hw; [| discriminate L].
  destruct K as [-> | ->]; destruct host; reflexivity.
Qed.

Lemma hb_stored_same w b i v :
  wf_buffer b -> 0 <= i -> i + Z.of_nat w <= ByteBuffer.limit b ->
  get_bytes (ByteBuffer.hb (stored w b i v)) i w = encode (ByteBuffer.order b) w v.
Proof.
  intros [H0 H1] Hi Hw. unfold stored; simpl. unfold ByteBuffer.capacity in H1.
  rewrite <- (encode_length (ByteBuffer.order b) w v) at 2.
  apply get_put_same; rewrite ?encode_length; lia.
Qed.

Lemma hb_stored_other w' w b i j v :
  wf_buffer b -> 0 <= i -> i + Z.of_nat w <= ByteBuffer.limit b -> 0 <= j ->
  j + Z.of_nat w' <= i \/ i + Z.of_nat w <= j ->
  get_bytes (ByteBuffer.hb (stored w b i v)) j w' = get_bytes (ByteBuffer.hb b) j w'.
Proof.
  intros [H0 H1] Hi Hw Hj Hd. unfold stored; simpl.
  unfold ByteBuffer.capacity in H1.
  apply get_put_other; rewrite ?encode_length; lia.
Qed.

Lemma writeHeader_register_bytes (h : RecordHeader.t) (b : ByteBuffer.t) (off : Z) :
  wf_buffer b -> 0 <= off -> off + 56 <= ByteBuffer.limit b ->
  exists b',
    RecordHeader.writeHeader h b off = Ok b' /\
    get_bytes (ByteBuffer.hb b') (10 * 4 + off) 8
    = encode (ByteBuffer.order b) 8 (RecordHeader.recordUserRegisterFirst h) /\
    get_bytes (ByteBuffer.hb b') (12 * 4 + off) 8
    = encode (ByteBuffer.order b) 8 (RecordHeader.recordUserRegisterSecond h).
Proof.
  intros Hwf Hoff Hlim.
  unfold RecordHeader.writeHeader, ByteBuffer.putInt, ByteBuffer.putLong.
  repeat (rewrite putN_stored by buf_side; cbn [bind]).
  eexists. split; [reflexivity |]. split.
  - rewrite hb_stored_other by buf_side.
    rewrite hb_stored_same by buf_side. reflexivity.
  - rewrite hb_stored_same by buf_side. reflexivity.
Qed.

(** C4: the two user registers are held in words 10-13 as single 64-bit
    quantities in the byte order of the buffer, whichever it is: the eight
    bytes at word 10 and at word 12 of a written header are the encodings
    of the two registers in that order, and reading the header back gives
    the two register values exactly.  The C routine
    [evioSwapRecordHeaderV6] reverses the bytes of each of the 14 words
    and then exchanges words 10 and 11 and words 12 and 13, so that each
    register, seen as the [uint64_t] it is on either host, becomes its
    64-bit byte swap. *)
Theorem C4_user_registers_are_64_bit_units :
  (forall (h h0 : RecordHeader.t) (b : ByteBuffer.t) (off : Z),
     wf_buffer b -> 0 <= off -> off + 56 <= ByteBuffer.limit b -> writable h ->
     exists b' h',
       RecordHeader.writeHeader h b off = Ok b' /\
       get_bytes (ByteBuffer.hb b') (10 * 4 + off) 8
       = encode (ByteBuffer.order b) 8 (RecordHeader.recordUserRegisterFirst h) /\
       get_bytes (ByteBuffer.hb b') (12 * 4 + off) 8
       = encode (ByteBuffer.order b) 8 (RecordHeader.recordUserRegisterSecond h) /\
       RecordHeader.readHeader h0 b' off = Ok (h', b') /\
       ByteBuffer.order b' = ByteBuffer.order b /\
       RecordHeader.recordUserRegisterFirst h' = RecordHeader.recordUserRegisterFirst h /\
       RecordHeader.recordUserRegisterSecond h' = RecordHeader.recordUserRegisterSecond h) /\
  (forall (host : ByteOrder) (hw rest dest : list Z),
     length hw = 14%nat -> Forall (fun w => 0 <= w < 2 ^ 32) hw ->
     let m := Evioswap.mkmem (hw ++ rest) dest in
     exists m',
       Evioswap.evioSwapRecordHeaderV6 m (Evioswap.Data 0) = Evioswap.Done m' /\
       (forall k, 0 <= k < 10 ->
          Evioswap.load m' (Evioswap.Data 0) k
          = Evioswap.Done (Evioswap.EVIO_SWAP32 (nth (Z.to_nat k) hw 0))) /\
       Evioswap.load m' (Evioswap.Data 0) 10
       = Evioswap.Done (Evioswap.EVIO_SWAP32 (nth 11 hw 0)) /\
       Evioswap.load m' (Evioswap.Data 0) 11
       = Evioswap.Done (Evioswap.EVIO_SWAP32 (nth 10 hw 0)) /\
       Evioswap.load m' (Evioswap.Data 0) 12
       = Evioswap.Done (Evioswap.EVIO_SWAP32 (nth 13 hw 0)) /\
       Evioswap.load m' (Evioswap.Data 0) 13
       = Evioswap.Done (Evioswap.EVIO_SWAP32 (nth 12 hw 0)) /\
       (forall k v, k = 5 \/ k = 6 ->
          Evioswap.load64 host m (Evioswap.Data 0) k = Evioswap.Done v ->
          Evioswap.load64 host m' (Evioswap.Data 0) k
          = Evioswap.Done (Evioswap.EVIO_SWAP64 v))).
Proof.
  split.
  - intros h h0 b off Hwf Hoff Hlim W.
    destruct (readHeader_writeHeader h h0 b off Hwf Hoff Hlim W)
      as (b' & Ew & Eo & El & Wf' & Er).
    destruct (writeHeader_register_bytes h b off Hwf Hoff Hlim)
      as (b'' & Ew' & B1 & B2).
    assert (b'' = b') by congruence. subst b''.
    exists b', (read_back h h0).
    repeat split; assumption.
  - intros host hw rest dest L R m. subst m.
    rewrite (evioSwapRecordHeaderV6_words hw rest dest L).
    eexists. split; [reflexivity |].
    assert (N : forall i, (i < 14)%nat -> 0 <= nth i hw 0 < 2 ^ 32).
    { intros i Hi. apply (proj1 (Forall_nth _ hw) R). now rewrite L. }
    split; [| split; [| split; [| split; [| split]]]].
    6: {
      intros k v K E.
      rewrite (load64_header host hw rest dest k L K) in E.
      assert (V : v = match host with
                      | LITTLE_ENDIAN => nth (Z.to_nat (2 * k)) hw 0
                                         + 2 ^ 32 * nth (Z.to_nat (2 * k + 1)) hw 0
                      | BIG_ENDIAN => nth (Z.to_nat (2 * k + 1)) hw 0
                                      + 2 ^ 32 * nth (Z.to_nat (2 * k)) hw 0
                      end) by congruence.
      subst v. clear E.
      rewrite app_assoc.
      rewrite load64_header;
        [| rewrite length_app, length_map, length_firstn, L; reflexivity | exact K].
      f_equal.
      destruct K as [-> | ->]; destruct host;
        rewrite EVIO_SWAP64_split by (apply N; simpl; lia);
        do 14 (destruct hw as [|? hw]; [discriminate L |]); reflexivity. }
    all: do 14 (destruct hw as [|? hw]; [discriminate L |]);
      (destruct hw; [| discriminate L]).
    { intros k Hk.
      assert (C : k = 0 \/ k = 1 \/ k = 2 \/ k = 3 \/ k = 4 \/ k = 5 \/ k = 6 \/
                  k = 7 \/ k = 8 \/ k = 9) by lia.
      repeat (destruct C as [-> | C]; [reflexivity |]). subst k. reflexivity. }
    all: reflexivity.
Qed.

Lemma C4_user_registers_are_64_bit_units_witness :
  (exists b' h',
     RecordHeader.writeHeader
       (RecordHeader.setUserRegisterSecond 4567890
          (RecordHeader.setUserRegisterFirst 1234567 RecordHeader.new))
       (ByteBuffer.allocate 56) 0 = Ok b' /\
     get_bytes (ByteBuffer.hb b') 40 8 = [0; 0; 0; 0; 0; 18; 214; 135] /\
     get_bytes (ByteBuffer.hb b') 48 8 = [0; 0; 0; 0; 0; 69; 179; 82] /\
     RecordHeader.readHeader RecordHeader.new b' 0 = Ok (h', b') /\
     ByteBuffer.order b' = BIG_ENDIAN /\
     RecordHeader.recordUserRegisterFirst h' = 1234567 /\
     RecordHeader.recordUserRegisterSecond h' = 4567890) /\
  (exists m',
     Evioswap.evioSwapRecordHeaderV6
       (Evioswap.mkmem ([0; 1; 2; 3; 4; 5; 6; 7; 8; 9; 0x11223344; 0x55667788; 12; 13] ++ [])
                       [])
       (Evioswap.Data 0) = Evioswap.Done m' /\
     Evioswap.load m' (Evioswap.Data 0) 10 = Evioswap.Done 0x88776655 /\
     Evioswap.load m' (Evioswap.Data 0) 11 = Evioswap.Done 0x44332211).
Proof.
  destruct C4_user_registers_are_64_bit_units as [J S].
  split.
  - assert (W : writable (RecordHeader.setUserRegisterSecond 4567890
                  (RecordHeader.setUserRegisterFirst 1234567 RecordHeader.new))).
    { constructor; cbn; unfold is_int, is_long, Java.MAX_INT; lia. }
    assert (B : wf_buffer (ByteBuffer.allocate 56)) by (split; vm_compute; discriminate).
    assert (L : 0 + 56 <= ByteBuffer.limit (ByteBuffer.allocate 56))
      by (vm_compute; discriminate).
    destruct (J _ RecordHeader.new (ByteBuffer.allocate 56) 0 B (Z.le_refl 0) L W)
      as (b' & h' & E1 & E2 & E3 & E4 & E5 & E6 & E7).
    exists b', h'. repeat split; assumption.
  - assert (R : Forall (fun w => 0 <= w < 2 ^ 32)
                  [0; 1; 2; 3; 4; 5; 6; 7; 8; 9; 0x11223344; 0x55667788; 12; 13])
      by (repeat constructor; lia).
    destruct (S LITTLE_ENDIAN
                [0; 1; 2; 3; 4; 5; 6; 7; 8; 9; 0x11223344; 0x55667788; 12; 13]
                [] [] eq_refl R)
      as (m' & E & _ & E10 & E11 & _).
    exists m'. repeat split; assumption.
Defined.

(** ** Swapping composite data in place *)

Section Composite.

Variable host : ByteOrder.
Variable eviofmt : Evioswap.mem -> Evioswap.ptr -> Z -> Z * list Z.
Variable eviofmtswap :
  Evioswap.mem -> Evioswap.ptr -> Z -> list Z -> Z -> bool -> Z -> Evioswap.mem * Z.

Lemma load_cases (m : Evioswap.mem) (p : Evioswap.ptr) (i : Z) :
  (exists w, Evioswap.load m p i = Evioswap.Done w) \/
  Evioswap.load m p i = Evioswap.Fault.
Proof.
  unfold Evioswap.load, Evioswap.nth_word.
  destruct p; try (right; reflexivity).
  - destruct (_ <? 0); [right; reflexivity |].
    destruct (nth_error _ _); [left; eexists; reflexivity | right; reflexivity].
  - destruct (_ <? 0); [right; reflexivity |].
    destruct (nth_error _ _); [left; eexists; reflexivity | right; reflexivity].
Qed.

(** Once [dest] is neither null nor a pointer into the destination, the
    next element of a composite array swapped in place is not reached: the
    swap of its first word stores through [dest]. *)
Lemma swap_composite_loop_wild_dest
    (fuel : nat) (m : Evioswap.mem) (tolocal : bool) (i a : Z)
    (d pData : Evioswap.ptr) (len : Z) :
  0 < len ->
  Evioswap.swap_composite_loop eviofmt eviofmtswap (S fuel) m true tolocal
    (Evioswap.Data i) (Evioswap.Wild a) d pData len
  = Evioswap.Fault.
Proof.
  intros Hlen. cbn [Evioswap.swap_composite_loop].
  replace (0 <? len) with true by (symmetry; apply Z.ltb_lt; exact Hlen).
  destruct tolocal.
  - unfold Evioswap.swap_int32_t at 1. cbn [Evioswap.is_null].
    change (Z.to_nat 1) with 1%nat. cbn [Evioswap.for_loop].
    destruct (load_cases m (Evioswap.Data i) 0) as [[w ->] | ->]; reflexivity.
  - cbn [Evioswap.obind negb].
    destruct (load_cases m pData 0) as [[w0 ->] | ->]; [| reflexivity].
    cbn [Evioswap.obind].
    unfold Evioswap.swap_int32_t at 1. cbn [Evioswap.is_null].
    change (Z.to_nat 1) with 1%nat. cbn [Evioswap.for_loop].
    destruct (load_cases m (Evioswap.Data i) 0) as [[w ->] | ->]; reflexivity.
Qed.

Lemma composite_event_first_element (fuel : nat) :
  Evioswap.evioswap host eviofmt eviofmtswap (3 + fuel)
    (Evioswap.mkmem composite_event []) (Evioswap.Data 0) true Evioswap.Null
  = Evioswap.obind
      (let '(nfmt, ifmt) :=
         eviofmt composite_event_at_first_call (Evioswap.Data 3) 1024 in
       if 0 <? nfmt then
         let '(m, rc) :=
           eviofmtswap composite_event_at_first_call (Evioswap.Data 6) 1 ifmt
                       nfmt true 0 in
         if negb (rc =? 0) then Evioswap.Done (m, Evioswap.S_FAILURE)
         else Evioswap.swap_composite_loop eviofmt eviofmtswap (S fuel) m true true
                (Evioswap.Data 7) (Evioswap.Wild 20) (Evioswap.Data 7)
                (Evioswap.Data 7) 5
       else Evioswap.Done (composite_event_at_first_call, Evioswap.S_FAILURE))
      (fun '(m, _) => Evioswap.Done m).
Proof. reflexivity. Qed.

End Composite.

(** C5, evaluated at [composite_event]: the in-place swap of this
    well-formed event does not come back, so swapping it twice does not
    reproduce it.  When the composite swapper accepts the first element of
    the array ([eviofmt] returns a positive count and [eviofmtswap]
    returns 0), [swap_composite_t] advances [dest], which is null, by the
    length of the element; on the second element [swap_int32_t] is handed
    that pointer, which is not null any more, and stores through it. *)
Theorem C5_in_place_swap_of_composite_array_faults
    (host : ByteOrder)
    (eviofmt : Evioswap.mem -> Evioswap.ptr -> Z -> Z * list Z)
    (eviofmtswap : Evioswap.mem -> Evioswap.ptr -> Z -> list Z -> Z -> bool -> Z
                   -> Evioswap.mem * Z)
    (nfmt : Z) (ifmt : list Z) (fuel : nat) :
  eviofmt composite_event_at_first_call (Evioswap.Data 3) 1024 = (nfmt, ifmt) ->
  0 < nfmt ->
  snd (eviofmtswap composite_event_at_first_call (Evioswap.Data 6) 1 ifmt nfmt true 0) = 0 ->
  Evioswap.evioswap host eviofmt eviofmtswap (3 + fuel)
    (Evioswap.mkmem composite_event []) (Evioswap.Data 0) true Evioswap.Null
  = Evioswap.Fault.
Proof.
  intros Hf Hn Hs.
  rewrite composite_event_first_element, Hf.
  replace (0 <? nfmt) with true by (symmetry; apply Z.ltb_lt; exact Hn).
  destruct (eviofmtswap composite_event_at_first_call (Evioswap.Data 6) 1 ifmt
                        nfmt true 0) as [m2 rc].
  simpl in Hs. subst rc. cbn [Z.eqb negb].
  rewrite swap_composite_loop_wild_dest by lia.
  reflexivity.
Qed.

Lemma C5_in_place_swap_of_composite_array_faults_witness :
  Evioswap.evioswap LITTLE_ENDIAN
    (fun _ _ _ => (1, [])) (fun m _ _ _ _ _ _ => (m, 0)) 3
    (Evioswap.mkmem composite_event []) (Evioswap.Data 0) true Evioswap.Null
  = Evioswap.Fault.
Proof.
  apply (C5_in_place_swap_of_composite_array_faults LITTLE_ENDIAN
           (fun _ _ _ => (1, [])) (fun m _ _ _ _ _ _ => (m, 0)) 1 [] 0%nat).
  - reflexivity.
  - lia.
  - reflexivity.
Defined.

(** The same event is swapped and swapped back when the swap copies into a
    destination buffer, and so is, in place, an event whose composite data
    is a single element (here with a composite swapper that accepts the
    element and leaves its data as they are). *)
Example composite_event_copy_round_trip :
  let fmt : Evioswap.mem -> Evioswap.ptr -> Z -> Z * list Z := fun _ _ _ => (1, []) in
  let swp : Evioswap.mem -> Evioswap.ptr -> Z -> list Z -> Z -> bool -> Z
            -> Evioswap.mem * Z := fun m _ _ _ _ _ _ => (m, 0) in
  exists local,
    Evioswap.evioswap LITTLE_ENDIAN fmt swp 4
      (Evioswap.mkmem composite_event (repeat 0 12)) (Evioswap.Data 0) true
      (Evioswap.Dest 0)
    = Evioswap.Done (Evioswap.mkmem composite_event local) /\
    Evioswap.evioswap LITTLE_ENDIAN fmt swp 4
      (Evioswap.mkmem local (repeat 0 12)) (Evioswap.Data 0) false
      (Evioswap.Dest 0)
    = Evioswap.Done (Evioswap.mkmem local composite_event).
Proof.
  exists [11; 0x00010f01; 0x00030001; 0x00000049; 2; 0x00010100; 42;
          0x00030001; 0x00000049; 2; 0x00010100; 42].
  split; vm_compute; reflexivity.
Qed.

(** ** The reader *)

(** *** getEvent out of range *)

(** C10: for every index below 0 or not below the total event count,
    [getEvent] returns null without raising an error and leaves the reader
    as it was: the sequential cursor, the event index and the loaded
    record are those of before the call. *)
Theorem C10_getEvent_out_of_range
    (C : Reader.Collaborators) (r : Reader.t C) (index : Z) :
  index < 0 \/ Reader.getMaxEvents C (Reader.eventIndex C r) <= index ->
  Reader.getEvent C r index = Ok (None, r).
Proof.
  intros H. unfold Reader.getEvent.
  replace ((index <? 0) || (Reader.getMaxEvents C (Reader.eventIndex C r) <=? index))
    with true; [reflexivity |].
  symmetry. apply orb_true_iff.
  destruct H as [H | H]; [left; apply Z.ltb_lt | right; apply Z.leb_le]; exact H.
Qed.

Lemma C10_getEvent_out_of_range_witness :
  let C := example_collaborators 0 example_file_header example_record_header [] in
  let r := example_reader C tt [1000; 1000] tt one_event_buffer [] in
  Reader.getEvent C r 2000 = Ok (None, r) /\
  Reader.getEvent C r (-1) = Ok (None, r).
Proof.
  intros C r. split.
  - apply (C10_getEvent_out_of_range C r 2000). right. simpl. lia.
  - apply (C10_getEvent_out_of_range C r (-1)). left. lia.
Defined.

(** *** addStructure *)

Lemma list_get_In {A : Type} (l : list A) (i : Z) (a : A) :
  Reader.list_get l i = Ok a -> In a l.
Proof.
  unfold Reader.list_get. destruct (i <? 0); [discriminate |].
  destruct (nth_error l (Z.to_nat i)) eqn:E; [| discriminate].
  intros H. injection H as <-. eapply nth_error_In; eassumption.
Qed.

(** C7, on the code: [addStructure] never returns a buffer for a reader
    whose event nodes are event nodes (their parent node is null).  The
    node whose ancestors and record header are to grow is fetched with
    [eventNodes.get(eventNumber)], one past the event fetched before with
    [eventNodes.get(eventNumber - 1)]: for the last event it does not
    exist, and for any other it is the next event, which has no parent to
    call [updateLengths] on. *)
Theorem C7_addStructure_never_returns
    (C : Reader.Collaborators) (scanBuffer : Reader.t C -> res (Reader.t C))
    (r : Reader.t C) (eventNumber : Z) (addBuffer : ByteBuffer.t) :
  Forall (fun n => Reader.parentNode n = None) (Reader.eventNodes C r) ->
  exists e, Reader.addStructure C scanBuffer r eventNumber addBuffer = Throw e.
Proof.
  intros H. unfold Reader.addStructure.
  repeat match goal with
         | |- exists e, (if ?c then _ else _) = _ => destruct c
         | |- exists e, Throw ?x = _ => exists x; reflexivity
         | |- exists e, bind ?m _ = _ =>
             let E := fresh "E" in destruct m eqn:E; cbn [bind]
         | |- exists e, (let '(_, _) := ?p in _) = _ => destruct p
         end.
  match goal with
  | E : Reader.list_get _ eventNumber = Ok ?n |- _ =>
      apply list_get_In in E; cbn in E;
      rewrite Forall_forall in H; rewrite (H n E)
  end.
  eexists; reflexivity.
Qed.

Lemma C7_addStructure_never_returns_witness :
  let C := example_collaborators 0 example_file_header example_record_header [] in
  let r := example_reader C tt [1] tt one_event_buffer [one_event_node] in
  exists e, Reader.addStructure C (fun r => Ok r) r 1 bank_to_add = Throw e.
Proof.
  intros C r.
  apply (C7_addStructure_never_returns C (fun r => Ok r) r 1 bank_to_add).
  repeat constructor.
Defined.

(** With one event in the buffer, adding to event 1 ends in the failed
    [eventNodes.get(1)]. *)
Example addStructure_last_event :
  let C := example_collaborators 0 example_file_header example_record_header [] in
  let r := example_reader C tt [1] tt one_event_buffer [one_event_node] in
  Reader.addStructure C (fun r => Ok r) r 1 bank_to_add
  = Throw IndexOutOfBoundsException.
Proof. vm_compute. reflexivity. Qed.

(** With two events, adding to event 1 ends in the call of [updateLengths]
    on the parent of event 2, which is null. *)
Example addStructure_first_of_two_events :
  let C := example_collaborators 0 example_file_header example_record_header [] in
  let r := example_reader C tt [1] tt one_event_buffer
             [one_event_node; one_event_node] in
  Reader.addStructure C (fun r => Ok r) r 1 bank_to_add
  = Throw NullPointerException.
Proof. vm_compute. reflexivity. Qed.

(** *** scanFile *)

Lemma scanIndexLoop_positions (C : Reader.Collaborators) (n : nat) :
  forall (intData : list Z) (r : Reader.t C) (recordPosition : Z),
    length intData = (2 * n)%nat ->
    exists r',
      Reader.scanIndexLoop C r intData recordPosition = Ok r' /\
      Reader.recordPositions C r'
      = Reader.recordPositions C r ++ index_positions intData recordPosition.
Proof.
  induction n as [| n IH]; intros intData r p Hlen.
  - destruct intData; [| discriminate]. exists r. split; [reflexivity |].
    simpl. rewrite app_nil_r. reflexivity.
  - destruct intData as [| len [| count intData]]; try discriminate.
    + simpl in Hlen. lia.
    + cbn [Reader.scanIndexLoop index_positions].
      edestruct IH as [r' [E P]]; [| exists r'; split; [exact E |]].
      * simpl in Hlen. lia.
      * rewrite P. cbn. rewrite <- app_assoc. reflexivity.
Qed.

(** The positions stored by the index loop are the prefix sums of the
    record lengths, reduced modulo 2^32. *)
Lemma index_positions_nth (i : nat) :
  forall (intData : list Z) (p : Z) (rp : Reader.RecordPosition),
    0 <= p < 2 ^ 32 ->
    nth_error (index_positions intData p) i = Some rp ->
    Reader.rp_position rp
    = (p + prefix_sum (index_lengths intData) i) mod 2 ^ 32.
Proof.
  induction i as [| i IH]; intros intData p rp Hp H;
    destruct intData as [| len [| count intData]]; try discriminate.
  - injection H as <-. cbn. rewrite Z.add_0_r, Z.mod_small by exact Hp.
    reflexivity.
  - cbn [index_positions nth_error] in H.
    unfold Reader.u32 in H.
    assert (B : 0 <= (p + len) mod 2 ^ 32 < 2 ^ 32)
      by (apply Z.mod_pos_bound; lia).
    rewrite (IH _ _ _ B H).
    unfold prefix_sum. cbn [index_lengths firstn fold_right].
    rewrite Zplus_mod_idemp_l. f_equal. lia.
Qed.

(** C8, on the code: [scanFile] keeps the running record position in a
    [uint32_t], so the stored positions are prefix sums modulo 2^32.  For
    the index of a file of 513 records of 8 MiB after a file header region
    of 4160 bytes, the scan returns 513 positions, and the position of
    record 512 is 4160, that of record 0, while the first record position
    plus the lengths of the 512 records before it is 4294971456. *)
Theorem C8_scanFile_positions_wrap
    (C : Reader.Collaborators) (r : Reader.t C) (fuel : nat)
    (fh : Reader.FileHeader) (rh : Reader.RecordHeaderInfo) :
  Reader.readFileHeader C (Reader.inStreamRandom C r) 0 = Ok fh ->
  Reader.fh_hasTrailerWithIndex fh = false ->
  Reader.fh_hasIndex fh = true ->
  Reader.fh_getLength fh = 4160 ->
  Reader.readRecordHeader C (Reader.inStreamRandom C r) 4160 = Ok rh ->
  Reader.readIntArray C (Reader.inStreamRandom C r)
    (Reader.fh_getHeaderLength fh) (Reader.fh_getIndexLength fh)
    (Reader.fh_getByteOrder fh) = Ok big_file_index ->
  exists r',
    Reader.scanFile C fuel r false = Some (Ok r') /\
    Reader.recordPositions C r' = index_positions big_file_index 4160 /\
    length (Reader.recordPositions C r') = 513%nat /\
    option_map Reader.rp_position (nth_error (Reader.recordPositions C r') 0)
    = Some 4160 /\
    option_map Reader.rp_position (nth_error (Reader.recordPositions C r') 512)
    = Some 4160 /\
    4160 + prefix_sum (index_lengths big_file_index) 512 = 4294971456.
Proof.
  intros Hfh Htr Hix Hlen Hrh Hint.
  unfold Reader.scanFile. cbn [Reader.inStreamRandom Reader.set_eventIndex
    Reader.set_recordPositions Reader.set_fileHeader Reader.set_firstRecordHeader].
  rewrite Hfh, Htr, Hix, Hlen. cbn [orb negb andb].
  change (Reader.u32 4160) with 4160.
  rewrite Hrh. cbn [bind]. rewrite Hint. cbn [bind].
  match goal with
  | |- exists r', Some (Reader.scanIndexLoop C ?r0 _ _) = _ /\ _ =>
      destruct (scanIndexLoop_positions C 513 big_file_index r0 4160
                  ltac:(vm_compute; reflexivity)) as [r' [E P]]
  end.
  exists r'. split; [rewrite E; reflexivity |].
  change (Reader.recordPositions C r' = index_positions big_file_index 4160) in P.
  rewrite P.
  repeat split; vm_compute; reflexivity.
Qed.

Lemma C8_scanFile_positions_wrap_witness :
  let C := example_collaborators 4303360064 example_file_header
             example_record_header big_file_index in
  let r := example_reader C tt [] tt one_event_buffer [] in
  exists r',
    Reader.scanFile C 0 r false = Some (Ok r') /\
    Reader.recordPositions C r' = index_positions big_file_index 4160 /\
    length (Reader.recordPositions C r') = 513%nat /\
    option_map Reader.rp_position (nth_error (Reader.recordPositions C r') 0)
    = Some 4160 /\
    option_map Reader.rp_position (nth_error (Reader.recordPositions C r') 512)
    = Some 4160 /\
    4160 + prefix_sum (index_lengths big_file_index) 512 = 4294971456.
Proof.
  intros C r.
  apply (C8_scanFile_positions_wrap C r 0 example_file_header
           example_record_header); reflexivity.
Defined.

(** The forced scan keeps the position in 64 bits: on a file of those 513
    records it finds record 512 at 4294971456. *)
Example forceScanFile_positions_do_not_wrap :
  let C := example_collaborators 4303360064 example_file_header
             example_record_header big_file_index in
  let r := example_reader C tt [] tt one_event_buffer [] in
  exists r',
    Reader.scanFile C 514 r true = Some (Ok r') /\
    length (Reader.recordPositions C r') = 513%nat /\
    option_map Reader.rp_position (nth_error (Reader.recordPositions C r') 512)
    = Some 4294971456.
Proof.
  intros C r. eexists. split; [vm_compute; reflexivity |].
  split; vm_compute; reflexivity.
Qed.

(* ===================================================================== *)
(** * Further properties                                                  *)
(* ===================================================================== *)

(** ** Bits of Java integers *)

(** The bits of an [int] are those of the number it wraps, bit 31 being
    the sign. *)
Lemma int_testbit (z n : Z) :
  0 <= n -> Z.testbit (Java.int z) n = Z.testbit z (Z.min n 31).
Proof.
  intros Hn. unfold Java.int, Java.wrap.
  change (32 - 1) with 31.
  assert (P31 : 2 ^ 31 = 2147483648) by reflexivity.
  assert (P32 : 2 ^ 32 = 4294967296) by reflexivity.
  set (r := z mod 2 ^ 32).
  assert (Hr : 0 <= r < 2 ^ 32) by (apply Z.mod_pos_bound; lia).
  assert (Hlow : forall k, 0 <= k < 32 -> Z.testbit r k = Z.testbit z k).
  { intros k Hk. unfold r. apply Z.mod_pow2_bits_low. lia. }
  assert (H31 : Z.testbit r 31 = (2 ^ 31 <=? r)).
  { rewrite Z.testbit_eqb by lia.
    destruct (Z.leb_spec (2 ^ 31) r).
    - replace (r / 2 ^ 31) with 1 by (Z.div_mod_to_equations; lia). reflexivity.
    - rewrite Z.div_small by lia. reflexivity. }
  destruct (Z.leb_spec (2 ^ 31) r) as [Hhi | Hlo].
  - replace ((z + 2 ^ 31) mod 2 ^ 32 - 2 ^ 31) with (r - 2 ^ 32).
    2:{ unfold r. Z.div_mod_to_equations. lia. }
    destruct (Z.lt_ge_cases n 32) as [Hs | Hb].
    + rewrite Z.min_l by lia.
      rewrite <- Hlow by lia.
      rewrite <- (Z.mod_pow2_bits_low (r - 2 ^ 32) 32 n) by lia.
      f_equal. Z.div_mod_to_equations. lia.
    + rewrite Z.min_r by lia. rewrite <- Hlow, H31 by lia.
      apply Z.bits_above_log2_neg; [lia |].
      destruct (Z.eq_dec (Z.pred (- (r - 2 ^ 32))) 0) as [E | E].
      * rewrite E. simpl. lia.
      * apply Z.log2_lt_pow2; [lia |].
        apply Z.lt_le_trans with (2 ^ 31); [lia |].
        apply Z.pow_le_mono_r; lia.
  - replace ((z + 2 ^ 31) mod 2 ^ 32 - 2 ^ 31) with r.
    2:{ unfold r. Z.div_mod_to_equations. lia. }
    destruct (Z.lt_ge_cases n 32) as [Hs | Hb].
    + rewrite Z.min_l by lia. apply Hlow. lia.
    + rewrite Z.min_r by lia. rewrite <- Hlow, H31 by lia.
      destruct (Z.eq_dec r 0) as [E | E].
      * rewrite E. apply Z.bits_0.
      * apply Z.bits_above_log2; [lia |].
        apply Z.lt_le_trans with 31; [| lia].
        apply Z.log2_lt_pow2; lia.
Qed.

(** An [int] value has all its bits from 31 on equal. *)
Lemma is_int_testbit (v n : Z) :
  is_int v -> 0 <= n -> Z.testbit v n = Z.testbit v (Z.min n 31).
Proof.
  intros Hv Hn. rewrite <- (int_id v) at 1 by exact Hv.
  apply int_testbit. exact Hn.
Qed.

Lemma int_testbit_all (z n : Z) :
  Z.testbit (Java.int z) n = Z.testbit z (Z.min n 31).
Proof.
  destruct (Z.lt_ge_cases n 0).
  - rewrite Z.min_l by lia. rewrite !Z.testbit_neg_r by lia. reflexivity.
  - apply int_testbit. lia.
Qed.

Lemma shiftl_testbit_all (a s n : Z) :
  0 <= s -> Z.testbit (Z.shiftl a s) n = Z.testbit a (n - s).
Proof.
  intros Hs. destruct (Z.lt_ge_cases n 0).
  - rewrite !Z.testbit_neg_r by lia. reflexivity.
  - apply Z.shiftl_spec. lia.
Qed.

Lemma testbit_ones8_shifted (s n : Z) :
  0 <= s ->
  Z.testbit (Z.shiftl (Z.ones 8) s) n = (s <=? n) && (n <? s + 8).
Proof.
  intros Hs. rewrite shiftl_testbit_all by lia.
  destruct (Z.leb_spec s n).
  - rewrite Z.testbit_ones_nonneg by lia.
    destruct (Z.ltb_spec (n - s) 8), (Z.ltb_spec n (s + 8)); try lia; reflexivity.
  - rewrite Z.testbit_neg_r by lia. reflexivity.
Qed.

Lemma testbit_high_mask (n : Z) :
  Z.testbit (Java.int 0xff000000) n = (24 <=? n).
Proof.
  destruct (Z.lt_ge_cases n 0).
  - rewrite Z.testbit_neg_r by lia. destruct (Z.leb_spec 24 n); [lia | reflexivity].
  - change (Java.int 0xff000000) with (Z.lnot (Z.ones 24)).
    rewrite Z.lnot_spec, Z.testbit_ones_nonneg by lia.
    destruct (Z.ltb_spec n 24), (Z.leb_spec 24 n); try lia; reflexivity.
Qed.

(** The rewriting of the bit of a Java expression at a position that is
    not negative. *)
Ltac java_bits :=
  unfold Java.shl, Java.ushr;
  repeat first
    [ rewrite Z.lor_spec
    | rewrite Z.land_spec
    | rewrite Z.bits_0
    | rewrite testbit_high_mask
    | rewrite testbit_ones8_shifted by lia
    | rewrite int_testbit_all
    | rewrite Z.shiftr_spec by lia
    | rewrite Z.testbit_mod_pow2 by lia
    | rewrite shiftl_testbit_all by lia ].

Ltac split_ranges :=
  repeat match goal with
         | |- context [Z.min ?a ?b] =>
             first [ rewrite (Z.min_l a b) by lia | rewrite (Z.min_r a b) by lia ]
         | |- context [?a <=? ?b] =>
             let H := fresh in destruct (Z.leb_spec a b) as [H | H]; try lia
         | |- context [?a <? ?b] =>
             let H := fresh in destruct (Z.ltb_spec a b) as [H | H]; try lia
         end.

Ltac bool_simpl :=
  repeat first
    [ rewrite Z.testbit_neg_r by lia
    | rewrite andb_true_r | rewrite andb_false_r
    | rewrite andb_true_l | rewrite andb_false_l
    | rewrite orb_false_r | rewrite orb_false_l ].

(** Where [swap_int_value] takes each bit of its result from. *)
Lemma swap_int_value_testbit (w n : Z) :
  0 <= n ->
  Z.testbit (EvioswapJava.swap_int_value w) n =
  Z.testbit w (let m := Z.min n 31 in
               if m <? 8 then m + 24 else if m <? 16 then m + 8
               else if m <? 24 then m - 8 else m - 24).
Proof.
  intros Hn. unfold EvioswapJava.swap_int_value.
  change 0xff with (Z.shiftl (Z.ones 8) 0).
  change 0xff00 with (Z.shiftl (Z.ones 8) 8).
  change 0xff0000 with (Z.shiftl (Z.ones 8) 16).
  cbv zeta.
  destruct (Z.lt_ge_cases n 31) as [Hs | Hb];
    [ rewrite (Z.min_l n 31) by lia | rewrite (Z.min_r n 31) by lia ].
  - java_bits. rewrite ?(Z.min_l n 31) by lia.
    split_ranges; bool_simpl; try reflexivity; f_equal; lia.
  - java_bits. rewrite ?(Z.min_r n 31) by lia.
    split_ranges; bool_simpl; try reflexivity; f_equal; lia.
Qed.

Lemma swap_short_value_testbit (w n : Z) :
  0 <= n ->
  Z.testbit (EvioswapJava.swap_short_value w) n =
  Z.testbit w (let m := Z.min n 31 in
               if m <? 8 then m + 8 else if m <? 16 then m - 8
               else if m <? 24 then m + 8 else m - 8).
Proof.
  intros Hn. unfold EvioswapJava.swap_short_value.
  change 0xff with (Z.shiftl (Z.ones 8) 0).
  change 0xff00 with (Z.shiftl (Z.ones 8) 8).
  change 0xff0000 with (Z.shiftl (Z.ones 8) 16).
  cbv zeta.
  destruct (Z.lt_ge_cases n 31) as [Hs | Hb];
    [ rewrite (Z.min_l n 31) by lia | rewrite (Z.min_r n 31) by lia ].
  - java_bits. rewrite !(Z.min_l n 31) by lia.
    split_ranges; bool_simpl; try reflexivity; f_equal; lia.
  - java_bits. rewrite !(Z.min_r n 31) by lia.
    split_ranges; bool_simpl; try reflexivity; f_equal; lia.
Qed.

Lemma testbit_is_int (v : Z) :
  (forall n, 31 <= n -> Z.testbit v n = Z.testbit v 31) -> is_int v.
Proof.
  intros H. replace v with (Java.int v); [apply int_range |].
  apply Z.bits_inj'. intros n Hn. rewrite int_testbit by lia.
  destruct (Z.lt_ge_cases n 31).
  - rewrite Z.min_l by lia. reflexivity.
  - rewrite Z.min_r by lia. symmetry. apply H. lia.
Qed.

Lemma swap_int_value_is_int (w : Z) : is_int (EvioswapJava.swap_int_value w).
Proof.
  apply testbit_is_int. intros n Hn.
  rewrite !swap_int_value_testbit by lia. cbv zeta.
  rewrite Z.min_r by lia. reflexivity.
Qed.

Lemma swap_short_value_is_int (w : Z) : is_int (EvioswapJava.swap_short_value w).
Proof.
  apply testbit_is_int. intros n Hn.
  rewrite !swap_short_value_testbit by lia. cbv zeta.
  rewrite Z.min_r by lia. reflexivity.
Qed.

Lemma swap_int_value_involutive (v : Z) :
  is_int v -> EvioswapJava.swap_int_value (EvioswapJava.swap_int_value v) = v.
Proof.
  intros Hv. apply Z.bits_inj'. intros n Hn.
  rewrite (is_int_testbit v n Hv Hn).
  rewrite swap_int_value_testbit by lia. cbv zeta.
  assert (B : 0 <= Z.min n 31 <= 31) by lia.
  revert B. generalize (Z.min n 31). intros m B.
  split_ranges; rewrite swap_int_value_testbit by lia; cbv zeta;
    split_ranges; f_equal; lia.
Qed.

Lemma swap_short_value_involutive (v : Z) :
  is_int v -> EvioswapJava.swap_short_value (EvioswapJava.swap_short_value v) = v.
Proof.
  intros Hv. apply Z.bits_inj'. intros n Hn.
  rewrite (is_int_testbit v n Hv Hn).
  rewrite swap_short_value_testbit by lia. cbv zeta.
  assert (B : 0 <= Z.min n 31 <= 31) by lia.
  revert B. generalize (Z.min n 31). intros m B.
  split_ranges; rewrite swap_short_value_testbit by lia; cbv zeta;
    split_ranges; f_equal; lia.
Qed.

(** Byte [k] of a word, [k] = 0 for the least significant. *)
Lemma byte_testbit (v k n : Z) :
  0 <= k -> 0 <= n ->
  Z.testbit (Z.land (Z.shiftr v (8 * k)) 0xff) n
  = (n <? 8) && Z.testbit v (n + 8 * k).
Proof.
  intros Hk Hn. change 0xff with (Z.ones 8).
  rewrite Z.land_spec, Z.shiftr_spec, Z.testbit_ones_nonneg by lia.
  apply andb_comm.
Qed.

(** [swap_int_value] reverses the four bytes of an [int]: the result is an
    [int] whose byte [k] is byte [3 - k] of the argument, and swapping
    twice gives the argument back. *)
Theorem swap_int_value_reverses_bytes (val : Z) :
  is_int val ->
  is_int (EvioswapJava.swap_int_value val) /\
  (forall k, 0 <= k < 4 ->
     Z.land (Z.shiftr (EvioswapJava.swap_int_value val) (8 * k)) 0xff
     = Z.land (Z.shiftr val (8 * (3 - k))) 0xff) /\
  EvioswapJava.swap_int_value (EvioswapJava.swap_int_value val) = val.
Proof.
  intros Hv. split; [apply swap_int_value_is_int |].
  split; [| apply swap_int_value_involutive; exact Hv].
  intros k Hk. apply Z.bits_inj'. intros n Hn.
  rewrite !byte_testbit by lia.
  destruct (Z.ltb_spec n 8); [| reflexivity]. cbn [andb].
  rewrite swap_int_value_testbit by lia. cbv zeta.
  assert (K : k = 0 \/ k = 1 \/ k = 2 \/ k = 3) by lia.
  destruct K as [-> | [-> | [-> | ->]]]; split_ranges; f_equal; lia.
Qed.

Lemma swap_int_value_reverses_bytes_witness :
  is_int 0x10203040 /\
  EvioswapJava.swap_int_value (EvioswapJava.swap_int_value 0x10203040) = 0x10203040.
Proof.
  assert (H : is_int 0x10203040) by (unfold is_int; lia).
  split; [exact H |].
  exact (proj2 (proj2 (swap_int_value_reverses_bytes 0x10203040 H))).
Defined.

(** [swap_short_value] exchanges the two bytes of each 16-bit half of an
    [int] and leaves the halves where they are; swapping twice gives the
    argument back. *)
Theorem swap_short_value_swaps_halves (val : Z) :
  is_int val ->
  is_int (EvioswapJava.swap_short_value val) /\
  (forall k, 0 <= k < 4 ->
     Z.land (Z.shiftr (EvioswapJava.swap_short_value val) (8 * k)) 0xff
     = Z.land (Z.shiftr val (8 * (if Z.even k then k + 1 else k - 1))) 0xff) /\
  EvioswapJava.swap_short_value (EvioswapJava.swap_short_value val) = val.
Proof.
  intros Hv. split; [apply swap_short_value_is_int |].
  split; [| apply swap_short_value_involutive; exact Hv].
  intros k Hk. apply Z.bits_inj'. intros n Hn.
  assert (K : k = 0 \/ k = 1 \/ k = 2 \/ k = 3) by lia.
  destruct K as [-> | [-> | [-> | ->]]]; cbn [Z.even];
    rewrite !byte_testbit by lia;
    (destruct (Z.ltb_spec n 8); [| reflexivity]); cbn [andb];
    rewrite swap_short_value_testbit by lia; cbv zeta;
    split_ranges; f_equal; lia.
Qed.

Lemma swap_short_value_swaps_halves_witness :
  is_int 0x10203040 /\
  EvioswapJava.swap_short_value (EvioswapJava.swap_short_value 0x10203040) = 0x10203040.
Proof.
  assert (H : is_int 0x10203040) by (unfold is_int; lia).
  split; [exact H |].
  exact (proj2 (proj2 (swap_short_value_swaps_halves 0x10203040 H))).
Defined.

(** ** Arrays of the Java swapper *)

Lemma aget_app (pre : list Z) (x : Z) (post : list Z) (i : Z) :
  i = Z.of_nat (length pre) ->
  EvioswapJava.aget (pre ++ x :: post) i = Ok x.
Proof.
  intros ->. unfold EvioswapJava.aget.
  rewrite length_app. cbn [length].
  replace ((Z.of_nat (length pre) <? 0)
           || (Z.of_nat (length pre + S (length post)) <=? Z.of_nat (length pre)))
    with false.
  2:{ symmetry. apply orb_false_iff. split; [apply Z.ltb_ge | apply Z.leb_gt]; lia. }
  rewrite Nat2Z.id, app_nth2, Nat.sub_diag by lia. reflexivity.
Qed.

Lemma aset_app (pre : list Z) (x : Z) (post : list Z) (i v : Z) :
  i = Z.of_nat (length pre) ->
  EvioswapJava.aset (pre ++ x :: post) i v = Ok (pre ++ v :: post).
Proof.
  intros ->. unfold EvioswapJava.aset.
  rewrite length_app. cbn [length].
  replace ((Z.of_nat (length pre) <? 0)
           || (Z.of_nat (length pre + S (length post)) <=? Z.of_nat (length pre)))
    with false.
  2:{ symmetry. apply orb_false_iff. split; [apply Z.ltb_ge | apply Z.leb_gt]; lia. }
  rewrite Nat2Z.id.
  rewrite firstn_app, firstn_all, Nat.sub_diag, firstn_O, app_nil_r.
  replace (S (length pre)) with (length pre + 1)%nat by lia.
  rewrite skipn_app, skipn_all2 by lia.
  replace (length pre + 1 - length pre)%nat with 1%nat by lia.
  reflexivity.
Qed.

Lemma aget_out (a : list Z) (i : Z) :
  i < 0 \/ Z.of_nat (length a) <= i ->
  EvioswapJava.aget a i = Throw ArrayIndexOutOfBoundsException.
Proof.
  intros H. unfold EvioswapJava.aget.
  replace ((i <? 0) || (Z.of_nat (length a) <=? i)) with true; [reflexivity |].
  symmetry. apply orb_true_iff.
  destruct H; [left; apply Z.ltb_lt | right; apply Z.leb_le]; lia.
Qed.

Lemma int_index (off i n : Z) :
  off + i = n -> 0 <= n < 2 ^ 31 -> Java.int (off + i) = n.
Proof. intros <- H. apply int_id. lia. Qed.

(** A loop that replaces [a[off + i]] by [f(a[off + i])]. *)
Lemma for_loop_in_place (f : Z -> Z) (off : Z) (post : list Z) :
  forall (ws pre : list Z) (i : Z),
    off + i = Z.of_nat (length pre) ->
    Z.of_nat (length pre + length ws + length post) < 2 ^ 31 ->
    EvioswapJava.for_loop (length ws) i 1
      (fun i data =>
         v <- EvioswapJava.aget data (Java.int (off + i)) ;;
         EvioswapJava.aset data (Java.int (off + i)) (f v))
      (pre ++ ws ++ post)
    = Ok (pre ++ map f ws ++ post).
Proof.
  induction ws as [| w ws IH]; intros pre i Hi Hlen; [reflexivity |].
  cbn [length EvioswapJava.for_loop app map].
  rewrite (int_index off i _ Hi) by (cbn [length] in Hlen; lia).
  rewrite aget_app by reflexivity. cbn [bind].
  rewrite aset_app by reflexivity. cbn [bind].
  specialize (IH (pre ++ [f w]) (i + 1)).
  rewrite <- !app_assoc in IH. cbn [app] in IH. apply IH.
  - rewrite length_app. cbn [length]. lia.
  - rewrite length_app. cbn [length] in *. lia.
Qed.

(** A loop that stores [f(data[off + i])] in [dest[off + i]]. *)
Lemma for_loop_copy (f : Z -> Z) (off : Z) (post dpost : list Z) :
  forall (ws pre dold dpre : list Z) (i : Z),
    off + i = Z.of_nat (length pre) ->
    length dpre = length pre -> length dold = length ws ->
    Z.of_nat (length pre + length ws + length post) < 2 ^ 31 ->
    EvioswapJava.for_loop (length ws) i 1
      (fun i dest =>
         v <- EvioswapJava.aget (pre ++ ws ++ post) (Java.int (off + i)) ;;
         EvioswapJava.aset dest (Java.int (off + i)) (f v))
      (dpre ++ dold ++ dpost)
    = Ok (dpre ++ map f ws ++ dpost).
Proof.
  induction ws as [| w ws IH]; intros pre dold dpre i Hi Hd Ho Hlen.
  - destruct dold; [reflexivity | discriminate].
  - destruct dold as [| d0 dold]; [discriminate |].
    cbn [length EvioswapJava.for_loop app map].
    rewrite (int_index off i _ Hi) by (cbn [length] in Hlen; lia).
    rewrite aget_app by reflexivity. cbn [bind].
    rewrite aset_app by (rewrite Hd; reflexivity). cbn [bind].
    specialize (IH (pre ++ [w]) dold (dpre ++ [f w]) (i + 1)).
    rewrite <- !app_assoc in IH. cbn [app] in IH. apply IH.
    + rewrite length_app. cbn [length]. lia.
    + rewrite !length_app. cbn [length]. lia.
    + cbn [length] in Ho. lia.
    + rewrite length_app. cbn [length] in *. lia.
Qed.

(** The loop of [swap_long] in place. *)
Lemma for_loop_pairs_in_place (off : Z) (post : list Z) :
  forall (ps : list (Z * Z)) (pre : list Z) (i : Z),
    off + i = Z.of_nat (length pre) ->
    Z.of_nat (length pre + length (pair_words ps) + length post) < 2 ^ 31 ->
    EvioswapJava.for_loop (length ps) i 2
      (fun i data =>
         temp <- EvioswapJava.aget data (Java.int (off + i)) ;;
         v <- EvioswapJava.aget data (Java.int (Java.int (off + i) + 1)) ;;
         data <- EvioswapJava.aset data (Java.int (off + i))
                   (EvioswapJava.swap_int_value v) ;;
         EvioswapJava.aset data (Java.int (Java.int (off + i) + 1))
           (EvioswapJava.swap_int_value temp))
      (pre ++ pair_words ps ++ post)
    = Ok (pre ++ swapped_pair_words ps ++ post).
Proof.
  induction ps as [| [a b] ps IH]; intros pre i Hi Hlen; [reflexivity |].
  cbn [length EvioswapJava.for_loop pair_words swapped_pair_words flat_map
       app fst snd] in *.
  fold (pair_words ps) in *. fold (swapped_pair_words ps).
  rewrite (int_index off i _ Hi) by lia.
  rewrite (int_index (Z.of_nat (length pre)) 1 (Z.of_nat (length (pre ++ [a]))))
    by (rewrite ?length_app; cbn [length]; lia).
  rewrite aget_app by reflexivity. cbn [bind].
  change (pre ++ a :: b :: pair_words ps ++ post)
    with (pre ++ [a] ++ b :: pair_words ps ++ post).
  rewrite app_assoc.
  rewrite aget_app by reflexivity. cbn [bind].
  rewrite <- app_assoc. cbn [app].
  rewrite aset_app by (rewrite ?length_app; cbn [length]; lia). cbn [bind].
  change (pre ++ EvioswapJava.swap_int_value b :: b :: pair_words ps ++ post)
    with (pre ++ [EvioswapJava.swap_int_value b] ++ b :: pair_words ps ++ post).
  rewrite app_assoc.
  rewrite aset_app by (rewrite ?length_app; cbn [length]; lia). cbn [bind].
  specialize (IH ((pre ++ [EvioswapJava.swap_int_value b])
                  ++ [EvioswapJava.swap_int_value a]) (i + 2)).
  rewrite <- !app_assoc in IH. cbn [app] in IH.
  rewrite <- !app_assoc. cbn [app]. apply IH.
  - rewrite !length_app. cbn [length]. lia.
  - rewrite !length_app. cbn [length]. lia.
Qed.

Lemma pair_words_length (ps : list (Z * Z)) :
  length (pair_words ps) = (2 * length ps)%nat.
Proof. induction ps as [| p ps IH]; cbn [pair_words flat_map length app] in *; [reflexivity |]. fold (pair_words ps). lia. Qed.

Lemma swapped_pair_words_length (ps : list (Z * Z)) :
  length (swapped_pair_words ps) = (2 * length ps)%nat.
Proof. induction ps as [| p ps IH]; cbn [swapped_pair_words flat_map length app] in *; [reflexivity |]. fold (swapped_pair_words ps). lia. Qed.

(** ** The Java swapper on events *)

(** The switch of [swap_data], by case. *)
Lemma swap_data_case (fuel : nat) (data : list Z) (offset type length : Z)
    (tolocal : bool) (dest : option (list Z)) :
  EvioswapJava.swap_data (S fuel) data offset type length tolocal dest =
  match data_case_of type with
  | AsInts => EvioswapJava.lift (EvioswapJava.swap_int data offset length dest)
  | AsShorts => EvioswapJava.lift (EvioswapJava.swap_short data offset length dest)
  | AsLongs => EvioswapJava.lift (EvioswapJava.swap_long data offset length dest)
  | AsBytes => EvioswapJava.lift (EvioswapJava.copy_data data offset length dest)
  | AsFragments f =>
      EvioswapJava.fragment_loop fuel
        (fun data offset dest =>
           swap_fragment_body f (EvioswapJava.swap_data fuel) data offset
                              tolocal dest)
        (fraglen_of f) tolocal data dest offset length 0
  end.
Proof.
  destruct type as [| p | p]; [reflexivity | | reflexivity].
  do 7 (try (destruct p as [p | p |]; try reflexivity)).
Qed.

Lemma map_swap_int_involutive (ws : list Z) :
  Forall is_int ws ->
  map EvioswapJava.swap_int_value (map EvioswapJava.swap_int_value ws) = ws.
Proof.
  induction 1 as [| w ws Hw _ IH]; [reflexivity |].
  cbn [map]. rewrite swap_int_value_involutive, IH by exact Hw. reflexivity.
Qed.

Lemma map_swap_short_involutive (ws : list Z) :
  Forall is_int ws ->
  map EvioswapJava.swap_short_value (map EvioswapJava.swap_short_value ws) = ws.
Proof.
  induction 1 as [| w ws Hw _ IH]; [reflexivity |].
  cbn [map]. rewrite swap_short_value_involutive, IH by exact Hw. reflexivity.
Qed.

(** The pairs of a swapped list of 64-bit values. *)
Lemma swapped_pairs (ps : list (Z * Z)) :
  Forall is_int (pair_words ps) ->
  let qs := map (fun p => (EvioswapJava.swap_int_value (snd p),
                           EvioswapJava.swap_int_value (fst p))) ps in
  pair_words qs = swapped_pair_words ps /\ swapped_pair_words qs = pair_words ps /\
  length qs = length ps.
Proof.
  intros H. cbv zeta. induction ps as [| [a b] ps IH].
  - repeat split.
  - cbn [pair_words flat_map app fst snd] in H. fold (pair_words ps) in H.
    inversion H as [| ? ? Ha H1]; subst. inversion H1 as [| ? ? Hb H2]; subst.
    destruct (IH H2) as (E1 & E2 & E3).
    cbn [map pair_words swapped_pair_words flat_map app fst snd length].
    fold (pair_words ps). fold (swapped_pair_words ps).
    fold (pair_words (map (fun p => (EvioswapJava.swap_int_value (snd p),
                                     EvioswapJava.swap_int_value (fst p))) ps)).
    fold (swapped_pair_words (map (fun p => (EvioswapJava.swap_int_value (snd p),
                                     EvioswapJava.swap_int_value (fst p))) ps)).
    rewrite E1, E2, E3, !swap_int_value_involutive by assumption.
    repeat split.
Qed.

Lemma swap_int_in_place (pre ws post : list Z) :
  Z.of_nat (length pre + length ws + length post) < 2 ^ 31 ->
  EvioswapJava.swap_int (pre ++ ws ++ post) (Z.of_nat (length pre))
    (Z.of_nat (length ws)) None
  = Ok (pre ++ map EvioswapJava.swap_int_value ws ++ post, None).
Proof.
  intros H. unfold EvioswapJava.swap_int. rewrite Nat2Z.id.
  rewrite for_loop_in_place by (try exact H; lia). reflexivity.
Qed.

Lemma swap_short_in_place (pre ws post : list Z) :
  Z.of_nat (length pre + length ws + length post) < 2 ^ 31 ->
  EvioswapJava.swap_short (pre ++ ws ++ post) (Z.of_nat (length pre))
    (Z.of_nat (length ws)) None
  = Ok (pre ++ map EvioswapJava.swap_short_value ws ++ post, None).
Proof.
  intros H. unfold EvioswapJava.swap_short. rewrite Nat2Z.id.
  rewrite for_loop_in_place by (try exact H; lia). reflexivity.
Qed.

Lemma swap_long_in_place (pre : list Z) (ps : list (Z * Z)) (post : list Z) :
  Z.of_nat (length pre + length (pair_words ps) + length post) < 2 ^ 31 ->
  EvioswapJava.swap_long (pre ++ pair_words ps ++ post) (Z.of_nat (length pre))
    (Z.of_nat (length (pair_words ps))) None
  = Ok (pre ++ swapped_pair_words ps ++ post, None).
Proof.
  intros H. unfold EvioswapJava.swap_long.
  replace (Z.to_nat ((Z.of_nat (length (pair_words ps)) + 1) / 2)) with (length ps).
  2:{ rewrite pair_words_length.
      replace (Z.of_nat (2 * length ps) + 1) with (1 + Z.of_nat (length ps) * 2) by lia.
      rewrite Z.div_add by lia. change (1 / 2) with 0. lia. }
  rewrite for_loop_pairs_in_place by (try exact H; lia). reflexivity.
Qed.

Lemma foreign_length (p : part) (y x : list Z) :
  foreign p y x -> length x = length y.
Proof.
  induction 1; cbn [length]; rewrite ?length_map, ?length_app,
    ?pair_words_length, ?swapped_pair_words_length; congruence.
Qed.

(** The first word of a fragment in local order gives its length. *)
Lemma fragment_first_word (f : fragment) (b b' : list Z) :
  foreign (Fragment f) b b' ->
  Z.of_nat (length b) < 2 ^ 31 ->
  exists w rest w' rest',
    b = w :: rest /\ b' = w' :: rest' /\
    fraglen_of f w = Z.of_nat (length b).
Proof.
  intros H B. inversion H; subst; cbn [length] in *.
  - do 4 eexists. split; [reflexivity |]. split; [reflexivity |].
    cbn [fraglen_of]. rewrite int_id by lia. lia.
  - do 4 eexists. split; [reflexivity |]. split; [reflexivity |].
    cbn [fraglen_of]. rewrite int_id by lia. lia.
  - do 4 eexists. split; [reflexivity |]. split; [reflexivity |].
    cbn [fraglen_of]. rewrite int_id by lia. lia.
Qed.

Ltac run_simpl := cbn [EvioswapJava.rbind EvioswapJava.lift bind].

(** The header words of a fragment are swapped, then its data. *)
Lemma swap_bank_body_in_place (fuel : nat) (tolocal : bool)
    (pre post : list Z) (len w1 : Z) (y x : list Z) :
  is_int len -> is_int w1 -> len = Z.of_nat (length y) + 1 ->
  length x = length y ->
  Z.of_nat (length pre + S (S (length y)) + length post) < 2 ^ 31 ->
  let sw := EvioswapJava.swap_int_value in
  let src := if tolocal then sw len :: sw w1 :: x else len :: w1 :: y in
  let hdr := if tolocal then [len; w1] else [sw len; sw w1] in
  EvioswapJava.swap_bank_body (EvioswapJava.swap_data fuel) (pre ++ src ++ post)
    (Z.of_nat (length pre)) tolocal None
  = EvioswapJava.swap_data fuel
      ((pre ++ hdr) ++ (if tolocal then x else y) ++ post)
      (Z.of_nat (length (pre ++ hdr))) (Z.land (Z.shiftr w1 8) 0xff)
      (Z.of_nat (length y)) tolocal None.
Proof.
  intros Hlen Hw1 El Exy B. cbv zeta.
  unfold EvioswapJava.swap_bank_body.
  assert (I1 : Java.int (Z.of_nat (length pre) + 1) = Z.of_nat (length pre) + 1)
    by (apply int_id; lia).
  assert (I2 : Java.int (Z.of_nat (length pre) + 2) = Z.of_nat (length pre) + 2)
    by (apply int_id; lia).
  rewrite I1, I2.
  destruct tolocal; cbn [app].
  - rewrite aget_app by reflexivity. run_simpl.
    change (pre ++ EvioswapJava.swap_int_value len
                :: EvioswapJava.swap_int_value w1 :: x ++ post)
      with (pre ++ [EvioswapJava.swap_int_value len]
                ++ EvioswapJava.swap_int_value w1 :: x ++ post).
    rewrite app_assoc.
    rewrite aget_app by (rewrite length_app; cbn [length]; lia). run_simpl.
    rewrite <- app_assoc.
    change (pre ++ [EvioswapJava.swap_int_value len]
                ++ EvioswapJava.swap_int_value w1 :: x ++ post)
      with (pre ++ [EvioswapJava.swap_int_value len;
                    EvioswapJava.swap_int_value w1] ++ (x ++ post)).
    change 2 with (Z.of_nat (length [EvioswapJava.swap_int_value len;
                                     EvioswapJava.swap_int_value w1])) at 1.
    rewrite swap_int_in_place
      by (rewrite length_app; cbn [length] in *; lia).
    run_simpl. cbn [map].
    rewrite !swap_int_value_involutive by assumption.
    rewrite <- app_assoc, length_app. cbn [length app].
    f_equal; try lia. rewrite int_id by lia. lia.
  - rewrite aget_app by reflexivity. run_simpl.
    change (pre ++ len :: w1 :: y ++ post)
      with (pre ++ [len] ++ w1 :: y ++ post).
    rewrite app_assoc.
    rewrite aget_app by (rewrite length_app; cbn [length]; lia). run_simpl.
    rewrite <- app_assoc.
    change (pre ++ [len] ++ w1 :: y ++ post)
      with (pre ++ [len; w1] ++ (y ++ post)).
    change 2 with (Z.of_nat (length [len; w1])) at 1.
    rewrite swap_int_in_place
      by (rewrite length_app; cbn [length] in *; lia).
    run_simpl. cbn [map].
    rewrite <- app_assoc, length_app. cbn [length app].
    f_equal; try lia. rewrite int_id by lia. lia.
Qed.

Lemma swap_segment_body_in_place (fuel : nat) (tolocal : bool)
    (pre post : list Z) (d : Z) (y x : list Z) :
  is_int d -> Z.land d 0xffff = Z.of_nat (length y) ->
  length x = length y ->
  Z.of_nat (length pre + S (length y) + length post) < 2 ^ 31 ->
  let sw := EvioswapJava.swap_int_value in
  let src := if tolocal then sw d :: x else d :: y in
  let hdr := if tolocal then [d] else [sw d] in
  EvioswapJava.swap_segment_body (EvioswapJava.swap_data fuel) (pre ++ src ++ post)
    (Z.of_nat (length pre)) tolocal None
  = EvioswapJava.swap_data fuel
      ((pre ++ hdr) ++ (if tolocal then x else y) ++ post)
      (Z.of_nat (length (pre ++ hdr))) (Z.land (Z.shiftr d 16) 0xff)
      (Z.of_nat (length y)) tolocal None.
Proof.
  intros Hd El Exy B. cbv zeta.
  unfold EvioswapJava.swap_segment_body.
  assert (I1 : Java.int (Z.of_nat (length pre) + 1) = Z.of_nat (length pre) + 1)
    by (apply int_id; lia).
  rewrite I1.
  destruct tolocal; cbn [app].
  - rewrite aget_app by reflexivity. run_simpl.
    change (pre ++ EvioswapJava.swap_int_value d :: x ++ post)
      with (pre ++ [EvioswapJava.swap_int_value d] ++ (x ++ post)).
    change 1 with (Z.of_nat (length [EvioswapJava.swap_int_value d])) at 1.
    rewrite swap_int_in_place
      by (rewrite length_app; cbn [length] in *; lia).
    run_simpl. cbn [map].
    rewrite !swap_int_value_involutive by assumption.
    rewrite <- app_assoc, length_app. cbn [length app].
    f_equal; lia.
  - rewrite aget_app by reflexivity. run_simpl.
    change (pre ++ d :: y ++ post) with (pre ++ [d] ++ (y ++ post)).
    change 1 with (Z.of_nat (length [d])) at 1.
    rewrite swap_int_in_place
      by (rewrite length_app; cbn [length] in *; lia).
    run_simpl. cbn [map].
    rewrite <- app_assoc, length_app. cbn [length app].
    f_equal; lia.
Qed.

Lemma swap_tagsegment_body_in_place (fuel : nat) (tolocal : bool)
    (pre post : list Z) (d : Z) (y x : list Z) :
  is_int d -> Z.land d 0xffff = Z.of_nat (length y) ->
  length x = length y ->
  Z.of_nat (length pre + S (length y) + length post) < 2 ^ 31 ->
  let sw := EvioswapJava.swap_int_value in
  let src := if tolocal then sw d :: x else d :: y in
  let hdr := if tolocal then [d] else [sw d] in
  EvioswapJava.swap_tagsegment_body (EvioswapJava.swap_data fuel) (pre ++ src ++ post)
    (Z.of_nat (length pre)) tolocal None
  = EvioswapJava.swap_data fuel
      ((pre ++ hdr) ++ (if tolocal then x else y) ++ post)
      (Z.of_nat (length (pre ++ hdr))) (Z.land (Z.shiftr d 16) 0xf)
      (Z.of_nat (length y)) tolocal None.
Proof.
  intros Hd El Exy B. cbv zeta.
  unfold EvioswapJava.swap_tagsegment_body.
  assert (I1 : Java.int (Z.of_nat (length pre) + 1) = Z.of_nat (length pre) + 1)
    by (apply int_id; lia).
  rewrite I1.
  destruct tolocal; cbn [app].
  - rewrite aget_app by reflexivity. run_simpl.
    change (pre ++ EvioswapJava.swap_int_value d :: x ++ post)
      with (pre ++ [EvioswapJava.swap_int_value d] ++ (x ++ post)).
    change 1 with (Z.of_nat (length [EvioswapJava.swap_int_value d])) at 1.
    rewrite swap_int_in_place
      by (rewrite length_app; cbn [length] in *; lia).
    run_simpl. cbn [map].
    rewrite !swap_int_value_involutive by assumption.
    rewrite <- app_assoc, length_app. cbn [length app].
    f_equal; lia.
  - rewrite aget_app by reflexivity. run_simpl.
    change (pre ++ d :: y ++ post) with (pre ++ [d] ++ (y ++ post)).
    change 1 with (Z.of_nat (length [d])) at 1.
    rewrite swap_int_in_place
      by (rewrite length_app; cbn [length] in *; lia).
    run_simpl. cbn [map].
    rewrite <- app_assoc, length_app. cbn [length app].
    f_equal; lia.
Qed.

Lemma aget_head (pre b tail : list Z) (w : Z) (rest : list Z) :
  b = w :: rest ->
  EvioswapJava.aget (pre ++ b ++ tail) (Z.of_nat (length pre)) = Ok w.
Proof. intros ->. cbn [app]. apply aget_app. reflexivity. Qed.

(** The in-place swap of a well-formed part gives its image in the other
    byte order, and the in-place swap of the image gives the part back. *)
Lemma foreign_swaps_in_place (p : part) (y x : list Z) :
  foreign p y x -> swaps_in_place p y x.
Proof.
  induction 1 as
    [ type ws Hc Hi | type ws Hc Hi | type ps Hc Hi | type ws Hc
    | type f y x Hc Hf IH
    | f
    | f b b' r r' Hb IHb Hr IHr
    | len w1 y x El Hlen Hw1 Hd IH
    | d y x El Hd Hdat IH
    | d y x El Hd Hdat IH ];
    unfold swaps_in_place; intros fuel pre post tolocal B; cbv zeta.
  - (* ints *)
    intros F. destruct fuel as [| fuel]; [lia |].
    rewrite swap_data_case, Hc. unfold EvioswapJava.lift.
    destruct tolocal.
    + pose proof (swap_int_in_place pre (map EvioswapJava.swap_int_value ws) post) as E.
      rewrite length_map in E. rewrite E by exact B.
      rewrite map_swap_int_involutive by exact Hi. reflexivity.
    + rewrite swap_int_in_place by exact B. reflexivity.
  - (* shorts *)
    intros F. destruct fuel as [| fuel]; [lia |].
    rewrite swap_data_case, Hc. unfold EvioswapJava.lift.
    destruct tolocal.
    + pose proof (swap_short_in_place pre (map EvioswapJava.swap_short_value ws) post) as E.
      rewrite length_map in E. rewrite E by exact B.
      rewrite map_swap_short_involutive by exact Hi. reflexivity.
    + rewrite swap_short_in_place by exact B. reflexivity.
  - (* longs *)
    intros F. destruct fuel as [| fuel]; [lia |].
    rewrite swap_data_case, Hc. unfold EvioswapJava.lift.
    destruct tolocal.
    + destruct (swapped_pairs ps Hi) as (E1 & E2 & E3).
      rewrite <- E1.
      replace (length (pair_words ps))
        with (length (pair_words
                (map (fun p => (EvioswapJava.swap_int_value (snd p),
                                EvioswapJava.swap_int_value (fst p))) ps)))
        by (rewrite !pair_words_length; lia).
      rewrite swap_long_in_place.
      * rewrite E2. reflexivity.
      * rewrite pair_words_length, E3, <- pair_words_length. exact B.
    + rewrite swap_long_in_place by exact B. reflexivity.
  - (* bytes *)
    intros F. destruct fuel as [| fuel]; [lia |].
    rewrite swap_data_case, Hc. destruct tolocal; reflexivity.
  - (* a container *)
    intros F. destruct fuel as [| fuel]; [lia |].
    rewrite swap_data_case, Hc.
    specialize (IH fuel pre post tolocal B). cbv zeta in IH.
    specialize (IH ltac:(lia) fuel (Z.of_nat (length pre)) 0).
    rewrite Z.add_0_l in IH. apply IH; lia.
  - (* no fragment left *)
    intros F n offset l Ho H0 Hl Hn. destruct n as [| n]; [cbn in Hn; lia |].
    cbn [EvioswapJava.fragment_loop length].
    rewrite Z.add_0_r, Z.ltb_irrefl. destruct tolocal; reflexivity.
  - (* a fragment, then the others *)
    intros F n offset l Ho H0 Hl Hn.
    pose proof (foreign_length _ _ _ Hb) as Lb.
    pose proof (foreign_length _ _ _ Hr) as Lr.
    rewrite length_app in *.
    destruct (fragment_first_word f b b' Hb ltac:(lia))
      as (w & rest & w' & rest' & Eb & Eb' & Efl).
    assert (Pb : (1 <= length b)%nat) by (rewrite Eb; cbn [length]; lia).
    destruct n as [| n]; [lia |].
    cbn [EvioswapJava.fragment_loop].
    replace (l <? l + Z.of_nat (length b + length r)) with true
      by (symmetry; apply Z.ltb_lt; lia).
    rewrite (int_index offset l _ Ho) by lia.
    specialize (IHb fuel pre (if tolocal then r' ++ post else r ++ post) tolocal).
    specialize (IHr fuel (pre ++ (if tolocal then b else b')) post tolocal).
    cbv zeta in IHb, IHr.
    destruct tolocal.
    + rewrite <- app_assoc.
      rewrite IHb by (rewrite ?length_app; lia). run_simpl.
      rewrite (aget_head pre b (r' ++ post) w rest Eb). run_simpl.
      rewrite Efl, int_id by lia.
      rewrite app_assoc.
      replace (l + Z.of_nat (length b + length r))
        with ((l + Z.of_nat (length b)) + Z.of_nat (length r)) by lia.
      replace (pre ++ (b ++ r) ++ post) with ((pre ++ b) ++ r ++ post)
        by (rewrite <- !app_assoc; reflexivity).
      apply IHr; rewrite ?length_app; lia.
    + rewrite <- app_assoc.
      rewrite (aget_head pre b (r ++ post) w rest Eb). run_simpl.
      rewrite IHb by (rewrite ?length_app; lia). run_simpl.
      rewrite Efl, int_id by lia.
      rewrite app_assoc.
      replace (l + Z.of_nat (length b + length r))
        with ((l + Z.of_nat (length b)) + Z.of_nat (length r)) by lia.
      replace (pre ++ (b' ++ r') ++ post) with ((pre ++ b') ++ r' ++ post)
        by (rewrite <- !app_assoc; reflexivity).
      apply IHr; rewrite ?length_app; lia.
  - (* bank *)
    intros F. cbn [swap_fragment_body].
    pose proof (foreign_length _ _ _ Hd) as L.
    cbn [length] in B, F.
    pose proof (swap_bank_body_in_place fuel tolocal pre post len w1 y x
                  Hlen Hw1 El L B) as E.
    cbv zeta in E. rewrite E.
    specialize (IH fuel (pre ++ (if tolocal then [len; w1]
                                 else [EvioswapJava.swap_int_value len;
                                       EvioswapJava.swap_int_value w1]))
                   post tolocal).
    cbv zeta in IH.
    destruct tolocal; rewrite IH by (rewrite ?length_app; cbn [length]; lia);
      rewrite <- app_assoc; reflexivity.
  - (* segment *)
    intros F. cbn [swap_fragment_body].
    pose proof (foreign_length _ _ _ Hdat) as L.
    cbn [length] in B, F.
    pose proof (swap_segment_body_in_place fuel tolocal pre post d y x
                  Hd El L B) as E.
    cbv zeta in E. rewrite E.
    specialize (IH fuel (pre ++ (if tolocal then [d]
                                 else [EvioswapJava.swap_int_value d]))
                   post tolocal).
    cbv zeta in IH.
    destruct tolocal; rewrite IH by (rewrite ?length_app; cbn [length]; lia);
      rewrite <- app_assoc; reflexivity.
  - (* tagsegment *)
    intros F. cbn [swap_fragment_body].
    pose proof (foreign_length _ _ _ Hdat) as L.
    cbn [length] in B, F.
    pose proof (swap_tagsegment_body_in_place fuel tolocal pre post d y x
                  Hd El L B) as E.
    cbv zeta in E. rewrite E.
    specialize (IH fuel (pre ++ (if tolocal then [d]
                                 else [EvioswapJava.swap_int_value d]))
                   post tolocal).
    cbv zeta in IH.
    destruct tolocal; rewrite IH by (rewrite ?length_app; cbn [length]; lia);
      rewrite <- app_assoc; reflexivity.
Qed.


Lemma sample_event_is_foreign :
  foreign (Fragment Bank) sample_event sample_event_foreign.
Proof.
  assert (I : forall v, (- 2 ^ 31 <=? v) = true -> (v <? 2 ^ 31) = true -> is_int v).
  { intros v A B. apply Z.leb_le in A. apply Z.ltb_lt in B. split; assumption. }
  apply (foreign_bank 9 0x00071000
           [3; 0x00010100; 0x11223344; 5; 3; 0x00022000; 0x05040001; 0x00010002]
           [0x03000000; 0x00010100; 0x44332211; 0x05000000;
            0x03000000; 0x00200200; 0x01000405; 0x01000200]);
    [reflexivity | apply I; reflexivity | apply I; reflexivity |].
  apply (foreign_container _ Bank); [reflexivity |].
  apply (foreign_cons Bank [3; 0x00010100; 0x11223344; 5]
           [0x03000000; 0x00010100; 0x44332211; 0x05000000]
           [3; 0x00022000; 0x05040001; 0x00010002]
           [0x03000000; 0x00200200; 0x01000405; 0x01000200]).
  - apply (foreign_bank 3 0x00010100 [0x11223344; 5] [0x44332211; 0x05000000]);
      [reflexivity | apply I; reflexivity | apply I; reflexivity |].
    apply (foreign_ints _ [0x11223344; 5]); [reflexivity |].
    repeat constructor; apply I; reflexivity.
  - apply (foreign_cons Bank [3; 0x00022000; 0x05040001; 0x00010002]
             [0x03000000; 0x00200200; 0x01000405; 0x01000200] [] []);
      [| apply foreign_nil].
    apply (foreign_bank 3 0x00022000 [0x05040001; 0x00010002]
             [0x01000405; 0x01000200]);
      [reflexivity | apply I; reflexivity | apply I; reflexivity |].
    apply (foreign_container _ Segment); [reflexivity |].
    apply (foreign_cons Segment [0x05040001; 0x00010002]
             [0x01000405; 0x01000200] [] []); [| apply foreign_nil].
    apply (foreign_segment 0x05040001 [0x00010002] [0x01000200]);
      [reflexivity | apply I; reflexivity |].
    apply (foreign_shorts _ [0x00010002]); [reflexivity |].
    repeat constructor; apply I; reflexivity.
Qed.


(** ** The Java swapper with a destination *)

(** The loop of [swap_long] into a destination. *)
Lemma for_loop_pairs_copy (off : Z) (post dpost : list Z) :
  forall (ps : list (Z * Z)) (pre dold dpre : list Z) (i : Z),
    off + i = Z.of_nat (length pre) ->
    length dpre = length pre -> length dold = length (pair_words ps) ->
    Z.of_nat (length pre + length (pair_words ps) + length post) < 2 ^ 31 ->
    EvioswapJava.for_loop (length ps) i 2
      (fun i dest =>
         v <- EvioswapJava.aget (pre ++ pair_words ps ++ post)
                (Java.int (Java.int (off + i) + 1)) ;;
         dest <- EvioswapJava.aset dest (Java.int (off + i))
                   (EvioswapJava.swap_int_value v) ;;
         v <- EvioswapJava.aget (pre ++ pair_words ps ++ post)
                (Java.int (off + i)) ;;
         EvioswapJava.aset dest (Java.int (Java.int (off + i) + 1))
           (EvioswapJava.swap_int_value v))
      (dpre ++ dold ++ dpost)
    = Ok (dpre ++ swapped_pair_words ps ++ dpost).
Proof.
  induction ps as [| [a b] ps IH]; intros pre dold dpre i Hi Hd Ho Hlen.
  - destruct dold; [reflexivity | discriminate].
  - cbn [length EvioswapJava.for_loop pair_words swapped_pair_words flat_map
         app fst snd] in *.
    fold (pair_words ps) in *. fold (swapped_pair_words ps).
    destruct dold as [| d0 [| d1 dold]]; try discriminate.
    cbn [app length] in *.
    rewrite (int_index off i _ Hi) by lia.
    rewrite (int_index (Z.of_nat (length pre)) 1 (Z.of_nat (length (pre ++ [a]))))
      by (rewrite ?length_app; cbn [length]; lia).
    change (pre ++ a :: b :: pair_words ps ++ post)
      with (pre ++ [a] ++ b :: pair_words ps ++ post).
    rewrite (app_assoc pre [a]).
    rewrite aget_app by reflexivity. cbn [bind].
    rewrite aset_app by (rewrite Hd; reflexivity). cbn [bind].
    rewrite <- (app_assoc pre [a]). cbn [app].
    rewrite aget_app by reflexivity. cbn [bind].
    change (dpre ++ EvioswapJava.swap_int_value b :: d1 :: dold ++ dpost)
      with (dpre ++ [EvioswapJava.swap_int_value b] ++ d1 :: dold ++ dpost).
    rewrite app_assoc.
    rewrite aset_app by (rewrite !length_app; cbn [length]; lia). cbn [bind].
    specialize (IH (pre ++ [a; b]) dold
                   ((dpre ++ [EvioswapJava.swap_int_value b])
                    ++ [EvioswapJava.swap_int_value a]) (i + 2)).
    rewrite <- !app_assoc in IH. cbn [app] in IH.
    rewrite <- !app_assoc. cbn [app]. apply IH.
    + rewrite !length_app. cbn [length]. lia.
    + rewrite !length_app. cbn [length]. lia.
    + cbn [length] in Ho. lia.
    + rewrite !length_app. cbn [length]. lia.
Qed.

Lemma swap_int_copy (pre ws post dpre dold dpost : list Z) :
  Z.of_nat (length pre + length ws + length post) < 2 ^ 31 ->
  length dpre = length pre -> length dold = length ws ->
  EvioswapJava.swap_int (pre ++ ws ++ post) (Z.of_nat (length pre))
    (Z.of_nat (length ws)) (Some (dpre ++ dold ++ dpost))
  = Ok (pre ++ ws ++ post,
        Some (dpre ++ map EvioswapJava.swap_int_value ws ++ dpost)).
Proof.
  intros H Hd Ho. unfold EvioswapJava.swap_int. rewrite Nat2Z.id.
  rewrite for_loop_copy by (try exact H; try assumption; lia). reflexivity.
Qed.

Lemma swap_short_copy (pre ws post dpre dold dpost : list Z) :
  Z.of_nat (length pre + length ws + length post) < 2 ^ 31 ->
  length dpre = length pre -> length dold = length ws ->
  EvioswapJava.swap_short (pre ++ ws ++ post) (Z.of_nat (length pre))
    (Z.of_nat (length ws)) (Some (dpre ++ dold ++ dpost))
  = Ok (pre ++ ws ++ post,
        Some (dpre ++ map EvioswapJava.swap_short_value ws ++ dpost)).
Proof.
  intros H Hd Ho. unfold EvioswapJava.swap_short. rewrite Nat2Z.id.
  rewrite for_loop_copy by (try exact H; try assumption; lia). reflexivity.
Qed.

Lemma copy_data_copy (pre ws post dpre dold dpost : list Z) :
  Z.of_nat (length pre + length ws + length post) < 2 ^ 31 ->
  length dpre = length pre -> length dold = length ws ->
  EvioswapJava.copy_data (pre ++ ws ++ post) (Z.of_nat (length pre))
    (Z.of_nat (length ws)) (Some (dpre ++ dold ++ dpost))
  = Ok (pre ++ ws ++ post, Some (dpre ++ ws ++ dpost)).
Proof.
  intros H Hd Ho. unfold EvioswapJava.copy_data. rewrite Nat2Z.id.
  rewrite (for_loop_copy (fun v => v)) by (try exact H; try assumption; lia).
  rewrite map_id. reflexivity.
Qed.

Lemma swap_long_copy (pre : list Z) (ps : list (Z * Z)) (post dpre dold dpost : list Z) :
  Z.of_nat (length pre + length (pair_words ps) + length post) < 2 ^ 31 ->
  length dpre = length pre -> length dold = length (pair_words ps) ->
  EvioswapJava.swap_long (pre ++ pair_words ps ++ post) (Z.of_nat (length pre))
    (Z.of_nat (length (pair_words ps))) (Some (dpre ++ dold ++ dpost))
  = Ok (pre ++ pair_words ps ++ post,
        Some (dpre ++ swapped_pair_words ps ++ dpost)).
Proof.
  intros H Hd Ho. unfold EvioswapJava.swap_long.
  replace (Z.to_nat ((Z.of_nat (length (pair_words ps)) + 1) / 2)) with (length ps).
  2:{ rewrite pair_words_length.
      replace (Z.of_nat (2 * length ps) + 1) with (1 + Z.of_nat (length ps) * 2) by lia.
      rewrite Z.div_add by lia. change (1 / 2) with 0. lia. }
  rewrite for_loop_pairs_copy by (try exact H; try assumption; lia). reflexivity.
Qed.

Lemma swap_bank_body_copy (fuel : nat) (tolocal : bool)
    (pre post dpre dold dpost : list Z) (len w1 : Z) (y x : list Z) :
  is_int len -> is_int w1 -> len = Z.of_nat (length y) + 1 ->
  length x = length y ->
  length dpre = length pre -> length dold = length y ->
  forall d0 d1 : Z,
  Z.of_nat (length pre + S (S (length y)) + length post) < 2 ^ 31 ->
  let sw := EvioswapJava.swap_int_value in
  let shdr := if tolocal then [sw len; sw w1] else [len; w1] in
  let thdr := if tolocal then [len; w1] else [sw len; sw w1] in
  let body := if tolocal then x else y in
  EvioswapJava.swap_bank_body (EvioswapJava.swap_data fuel)
    (pre ++ (shdr ++ body) ++ post)
    (Z.of_nat (length pre)) tolocal (Some (dpre ++ (d0 :: d1 :: dold) ++ dpost))
  = EvioswapJava.swap_data fuel
      ((pre ++ shdr) ++ body ++ post)
      (Z.of_nat (length (pre ++ shdr))) (Z.land (Z.shiftr w1 8) 0xff)
      (Z.of_nat (length y)) tolocal (Some ((dpre ++ thdr) ++ dold ++ dpost)).
Proof.
  intros Hlen Hw1 El Exy Hd Ho d0 d1 B. cbv zeta.
  unfold EvioswapJava.swap_bank_body.
  assert (I1 : Java.int (Z.of_nat (length pre) + 1) = Z.of_nat (length pre) + 1)
    by (apply int_id; lia).
  assert (I2 : Java.int (Z.of_nat (length pre) + 2) = Z.of_nat (length pre) + 2)
    by (apply int_id; lia).
  rewrite I1, I2.
  destruct tolocal; cbn [app].
  - rewrite aget_app by reflexivity. run_simpl.
    change (pre ++ EvioswapJava.swap_int_value len
                :: EvioswapJava.swap_int_value w1 :: x ++ post)
      with (pre ++ [EvioswapJava.swap_int_value len]
                ++ EvioswapJava.swap_int_value w1 :: x ++ post).
    rewrite app_assoc.
    rewrite aget_app by (rewrite length_app; cbn [length]; lia). run_simpl.
    rewrite <- app_assoc.
    change (pre ++ [EvioswapJava.swap_int_value len]
                ++ EvioswapJava.swap_int_value w1 :: x ++ post)
      with (pre ++ [EvioswapJava.swap_int_value len;
                    EvioswapJava.swap_int_value w1] ++ (x ++ post)).
    change (dpre ++ d0 :: d1 :: dold ++ dpost)
      with (dpre ++ [d0; d1] ++ (dold ++ dpost)).
    change 2 with (Z.of_nat (length [EvioswapJava.swap_int_value len;
                                     EvioswapJava.swap_int_value w1])) at 1.
    rewrite swap_int_copy
      by (try assumption; try reflexivity; rewrite length_app; cbn [length] in *; lia).
    run_simpl. cbn [map].
    rewrite !swap_int_value_involutive by assumption.
    rewrite <- !app_assoc, length_app. cbn [length app].
    f_equal; try lia. rewrite int_id by lia. lia.
  - rewrite aget_app by reflexivity. run_simpl.
    change (pre ++ len :: w1 :: y ++ post)
      with (pre ++ [len] ++ w1 :: y ++ post).
    rewrite app_assoc.
    rewrite aget_app by (rewrite length_app; cbn [length]; lia). run_simpl.
    rewrite <- app_assoc.
    change (pre ++ [len] ++ w1 :: y ++ post)
      with (pre ++ [len; w1] ++ (y ++ post)).
    change (dpre ++ d0 :: d1 :: dold ++ dpost)
      with (dpre ++ [d0; d1] ++ (dold ++ dpost)).
    change 2 with (Z.of_nat (length [len; w1])) at 1.
    rewrite swap_int_copy
      by (try assumption; try reflexivity; rewrite length_app; cbn [length] in *; lia).
    run_simpl. cbn [map].
    rewrite <- !app_assoc, length_app. cbn [length app].
    f_equal; try lia. rewrite int_id by lia. lia.
Qed.

Lemma swap_segment_body_copy (fuel : nat) (tolocal : bool)
    (pre post dpre dold dpost : list Z) (d : Z) (y x : list Z) :
  is_int d -> Z.land d 0xffff = Z.of_nat (length y) ->
  length x = length y ->
  length dpre = length pre -> length dold = length y ->
  forall d0 : Z,
  Z.of_nat (length pre + S (length y) + length post) < 2 ^ 31 ->
  let sw := EvioswapJava.swap_int_value in
  let shdr := if tolocal then [sw d] else [d] in
  let thdr := if tolocal then [d] else [sw d] in
  let body := if tolocal then x else y in
  EvioswapJava.swap_segment_body (EvioswapJava.swap_data fuel)
    (pre ++ (shdr ++ body) ++ post)
    (Z.of_nat (length pre)) tolocal (Some (dpre ++ (d0 :: dold) ++ dpost))
  = EvioswapJava.swap_data fuel
      ((pre ++ shdr) ++ body ++ post)
      (Z.of_nat (length (pre ++ shdr))) (Z.land (Z.shiftr d 16) 0xff)
      (Z.of_nat (length y)) tolocal (Some ((dpre ++ thdr) ++ dold ++ dpost)).
Proof.
  intros Hd El Exy Hdp Ho d0 B. cbv zeta.
  unfold EvioswapJava.swap_segment_body.
  assert (I1 : Java.int (Z.of_nat (length pre) + 1) = Z.of_nat (length pre) + 1)
    by (apply int_id; lia).
  rewrite I1.
  destruct tolocal; cbn [app].
  - rewrite aget_app by reflexivity. run_simpl.
    change (pre ++ EvioswapJava.swap_int_value d :: x ++ post)
      with (pre ++ [EvioswapJava.swap_int_value d] ++ (x ++ post)).
    change (dpre ++ d0 :: dold ++ dpost) with (dpre ++ [d0] ++ (dold ++ dpost)).
    change 1 with (Z.of_nat (length [EvioswapJava.swap_int_value d])) at 1.
    rewrite swap_int_copy
      by (try assumption; try reflexivity; rewrite length_app; cbn [length] in *; lia).
    run_simpl. cbn [map].
    rewrite !swap_int_value_involutive by assumption.
    rewrite <- !app_assoc, length_app. cbn [length app].
    f_equal; lia.
  - rewrite aget_app by reflexivity. run_simpl.
    change (pre ++ d :: y ++ post) with (pre ++ [d] ++ (y ++ post)).
    change (dpre ++ d0 :: dold ++ dpost) with (dpre ++ [d0] ++ (dold ++ dpost)).
    change 1 with (Z.of_nat (length [d])) at 1.
    rewrite swap_int_copy
      by (try assumption; try reflexivity; rewrite length_app; cbn [length] in *; lia).
    run_simpl. cbn [map].
    rewrite <- !app_assoc, length_app. cbn [length app].
    f_equal; lia.
Qed.

Lemma swap_tagsegment_body_copy (fuel : nat) (tolocal : bool)
    (pre post dpre dold dpost : list Z) (d : Z) (y x : list Z) :
  is_int d -> Z.land d 0xffff = Z.of_nat (length y) ->
  length x = length y ->
  length dpre = length pre -> length dold = length y ->
  forall d0 : Z,
  Z.of_nat (length pre + S (length y) + length post) < 2 ^ 31 ->
  let sw := EvioswapJava.swap_int_value in
  let shdr := if tolocal then [sw d] else [d] in
  let thdr := if tolocal then [d] else [sw d] in
  let body := if tolocal then x else y in
  EvioswapJava.swap_tagsegment_body (EvioswapJava.swap_data fuel)
    (pre ++ (shdr ++ body) ++ post)
    (Z.of_nat (length pre)) tolocal (Some (dpre ++ (d0 :: dold) ++ dpost))
  = EvioswapJava.swap_data fuel
      ((pre ++ shdr) ++ body ++ post)
      (Z.of_nat (length (pre ++ shdr))) (Z.land (Z.shiftr d 16) 0xf)
      (Z.of_nat (length y)) tolocal (Some ((dpre ++ thdr) ++ dold ++ dpost)).
Proof.
  intros Hd El Exy Hdp Ho d0 B. cbv zeta.
  unfold EvioswapJava.swap_tagsegment_body.
  assert (I1 : Java.int (Z.of_nat (length pre) + 1) = Z.of_nat (length pre) + 1)
    by (apply int_id; lia).
  rewrite I1.
  destruct tolocal; cbn [app].
  - rewrite aget_app by reflexivity. run_simpl.
    change (pre ++ EvioswapJava.swap_int_value d :: x ++ post)
      with (pre ++ [EvioswapJava.swap_int_value d] ++ (x ++ post)).
    change (dpre ++ d0 :: dold ++ dpost) with (dpre ++ [d0] ++ (dold ++ dpost)).
    change 1 with (Z.of_nat (length [EvioswapJava.swap_int_value d])) at 1.
    rewrite swap_int_copy
      by (try assumption; try reflexivity; rewrite length_app; cbn [length] in *; lia).
    run_simpl. cbn [map].
    rewrite !swap_int_value_involutive by assumption.
    rewrite <- !app_assoc, length_app. cbn [length app].
    f_equal; lia.
  - rewrite aget_app by reflexivity. run_simpl.
    change (pre ++ d :: y ++ post) with (pre ++ [d] ++ (y ++ post)).
    change (dpre ++ d0 :: dold ++ dpost) with (dpre ++ [d0] ++ (dold ++ dpost)).
    change 1 with (Z.of_nat (length [d])) at 1.
    rewrite swap_int_copy
      by (try assumption; try reflexivity; rewrite length_app; cbn [length] in *; lia).
    run_simpl. cbn [map].
    rewrite <- !app_assoc, length_app. cbn [length app].
    f_equal; lia.
Qed.

(** The swap of a well-formed part into a destination leaves the part as
    it is and stores its image in the destination, in both directions. *)
Lemma foreign_swaps_to_dest (p : part) (y x : list Z) :
  foreign p y x -> swaps_to_dest p y x.
Proof.
  induction 1 as
    [ type ws Hc Hi | type ws Hc Hi | type ps Hc Hi | type ws Hc
    | type f y x Hc Hf IH
    | f
    | f b b' r r' Hb IHb Hr IHr
    | len w1 y x El Hlen Hw1 Hd IH
    | d y x El Hd Hdat IH
    | d y x El Hd Hdat IH ];
    unfold swaps_to_dest; intros fuel pre post dpre dold dpost tolocal B Ldp Ldo;
    cbv zeta.
  - (* ints *)
    intros F. destruct fuel as [| fuel]; [lia |].
    rewrite swap_data_case, Hc. unfold EvioswapJava.lift.
    destruct tolocal.
    + pose proof (swap_int_copy pre (map EvioswapJava.swap_int_value ws) post
                    dpre dold dpost) as E.
      rewrite length_map in E. rewrite E by assumption.
      rewrite map_swap_int_involutive by exact Hi. reflexivity.
    + rewrite swap_int_copy by assumption. reflexivity.
  - (* shorts *)
    intros F. destruct fuel as [| fuel]; [lia |].
    rewrite swap_data_case, Hc. unfold EvioswapJava.lift.
    destruct tolocal.
    + pose proof (swap_short_copy pre (map EvioswapJava.swap_short_value ws) post
                    dpre dold dpost) as E.
      rewrite length_map in E. rewrite E by assumption.
      rewrite map_swap_short_involutive by exact Hi. reflexivity.
    + rewrite swap_short_copy by assumption. reflexivity.
  - (* longs *)
    intros F. destruct fuel as [| fuel]; [lia |].
    rewrite swap_data_case, Hc. unfold EvioswapJava.lift.
    destruct tolocal.
    + destruct (swapped_pairs ps Hi) as (E1 & E2 & E3).
      rewrite <- E1.
      replace (length (pair_words ps))
        with (length (pair_words
                (map (fun p => (EvioswapJava.swap_int_value (snd p),
                                EvioswapJava.swap_int_value (fst p))) ps)))
        by (rewrite !pair_words_length; lia).
      rewrite swap_long_copy.
      * rewrite E2. reflexivity.
      * rewrite pair_words_length, E3, <- pair_words_length. exact B.
      * exact Ldp.
      * rewrite Ldo, !pair_words_length, E3. reflexivity.
    + rewrite swap_long_copy by assumption. reflexivity.
  - (* bytes *)
    intros F. destruct fuel as [| fuel]; [lia |].
    rewrite swap_data_case, Hc. unfold EvioswapJava.lift.
    destruct tolocal; rewrite copy_data_copy by assumption; reflexivity.
  - (* a container *)
    intros F. destruct fuel as [| fuel]; [lia |].
    rewrite swap_data_case, Hc.
    specialize (IH fuel pre post dpre dold dpost tolocal B Ldp Ldo).
    cbv zeta in IH.
    specialize (IH ltac:(lia) fuel (Z.of_nat (length pre)) 0).
    rewrite Z.add_0_l in IH. apply IH; lia.
  - (* no fragment left *)
    intros F n offset l Ho H0 Hl Hn. destruct n as [| n]; [cbn in Hn; lia |].
    destruct dold; [| discriminate].
    cbn [EvioswapJava.fragment_loop length].
    rewrite Z.add_0_r, Z.ltb_irrefl. destruct tolocal; reflexivity.
  - (* a fragment, then the others *)
    intros F n offset l Ho H0 Hl Hn.
    pose proof (foreign_length _ _ _ Hb) as Lb.
    pose proof (foreign_length _ _ _ Hr) as Lr.
    rewrite length_app in *.
    destruct (fragment_first_word f b b' Hb ltac:(lia))
      as (w & rest & w' & rest' & Eb & Eb' & Efl).
    assert (Pb : (1 <= length b)%nat) by (rewrite Eb; cbn [length]; lia).
    rewrite <- (firstn_skipn (length b) dold).
    set (db := firstn (length b) dold).
    set (dr := skipn (length b) dold).
    assert (Ldb : length db = length b) by (unfold db; rewrite length_firstn; lia).
    assert (Ldr : length dr = length r) by (unfold dr; rewrite length_skipn; lia).
    destruct n as [| n]; [lia |].
    cbn [EvioswapJava.fragment_loop].
    replace (l <? l + Z.of_nat (length b + length r)) with true
      by (symmetry; apply Z.ltb_lt; lia).
    rewrite (int_index offset l _ Ho) by lia.
    specialize (IHb fuel pre (if tolocal then r' ++ post else r ++ post)
                    dpre db (dr ++ dpost) tolocal).
    specialize (IHr fuel (pre ++ (if tolocal then b' else b)) post
                    (dpre ++ (if tolocal then b else b')) dr dpost tolocal).
    cbv zeta in IHb, IHr.
    replace (l + Z.of_nat (length b + length r))
      with ((l + Z.of_nat (length b)) + Z.of_nat (length r)) by lia.
    destruct tolocal.
    + rewrite <- !app_assoc.
      rewrite IHb by (rewrite ?length_app; lia). run_simpl.
      rewrite <- Ldp.
      rewrite (aget_head dpre b (dr ++ dpost) w rest Eb). run_simpl.
      rewrite Efl, int_id by lia.
      rewrite <- ?app_assoc.
      replace (pre ++ b' ++ r' ++ post) with ((pre ++ b') ++ r' ++ post)
        by (rewrite <- app_assoc; reflexivity).
      replace (dpre ++ b ++ dr ++ dpost) with ((dpre ++ b) ++ dr ++ dpost)
        by (rewrite <- app_assoc; reflexivity).
      replace (dpre ++ b ++ r ++ dpost) with ((dpre ++ b) ++ r ++ dpost)
        by (rewrite <- app_assoc; reflexivity).
      apply IHr; rewrite ?length_app; lia.
    + rewrite <- !app_assoc.
      rewrite (aget_head pre b (r ++ post) w rest Eb). run_simpl.
      rewrite IHb by (rewrite ?length_app; lia). run_simpl.
      rewrite Efl, int_id by lia.
      rewrite <- ?app_assoc.
      replace (pre ++ b ++ r ++ post) with ((pre ++ b) ++ r ++ post)
        by (rewrite <- app_assoc; reflexivity).
      replace (dpre ++ b' ++ dr ++ dpost) with ((dpre ++ b') ++ dr ++ dpost)
        by (rewrite <- app_assoc; reflexivity).
      replace (dpre ++ b' ++ r' ++ dpost) with ((dpre ++ b') ++ r' ++ dpost)
        by (rewrite <- app_assoc; reflexivity).
      apply IHr; rewrite ?length_app; lia.
  - (* bank *)
    intros F. cbn [swap_fragment_body].
    pose proof (foreign_length _ _ _ Hd) as L.
    cbn [length] in B, F, Ldo.
    destruct dold as [| d0 [| d1 dold]]; try discriminate.
    cbn [length] in Ldo.
    pose proof (swap_bank_body_copy fuel tolocal pre post dpre dold dpost len w1 y x
                  Hlen Hw1 El L Ldp ltac:(lia) d0 d1 B) as E.
    cbv zeta in E.
    specialize (IH fuel (pre ++ (if tolocal
                                 then [EvioswapJava.swap_int_value len;
                                       EvioswapJava.swap_int_value w1]
                                 else [len; w1]))
                   post
                   (dpre ++ (if tolocal then [len; w1]
                             else [EvioswapJava.swap_int_value len;
                                   EvioswapJava.swap_int_value w1]))
                   dold dpost tolocal).
    cbv zeta in IH.
    destruct tolocal; cbn [app] in E |- *; rewrite E;
      rewrite IH by (rewrite ?length_app; cbn [length]; lia);
      rewrite <- !app_assoc; reflexivity.
  - (* segment *)
    intros F. cbn [swap_fragment_body].
    pose proof (foreign_length _ _ _ Hdat) as L.
    cbn [length] in B, F, Ldo.
    destruct dold as [| d0 dold]; try discriminate.
    cbn [length] in Ldo.
    pose proof (swap_segment_body_copy fuel tolocal pre post dpre dold dpost d y x
                  Hd El L Ldp ltac:(lia) d0 B) as E.
    cbv zeta in E.
    specialize (IH fuel (pre ++ (if tolocal
                                 then [EvioswapJava.swap_int_value d] else [d]))
                   post
                   (dpre ++ (if tolocal then [d]
                             else [EvioswapJava.swap_int_value d]))
                   dold dpost tolocal).
    cbv zeta in IH.
    destruct tolocal; cbn [app] in E |- *; rewrite E;
      rewrite IH by (rewrite ?length_app; cbn [length]; lia);
      rewrite <- !app_assoc; reflexivity.
  - (* tagsegment *)
    intros F. cbn [swap_fragment_body].
    pose proof (foreign_length _ _ _ Hdat) as L.
    cbn [length] in B, F, Ldo.
    destruct dold as [| d0 dold]; try discriminate.
    cbn [length] in Ldo.
    pose proof (swap_tagsegment_body_copy fuel tolocal pre post dpre dold dpost d y x
                  Hd El L Ldp ltac:(lia) d0 B) as E.
    cbv zeta in E.
    specialize (IH fuel (pre ++ (if tolocal
                                 then [EvioswapJava.swap_int_value d] else [d]))
                   post
                   (dpre ++ (if tolocal then [d]
                             else [EvioswapJava.swap_int_value d]))
                   dold dpost tolocal).
    cbv zeta in IH.
    destruct tolocal; cbn [app] in E |- *; rewrite E;
      rewrite IH by (rewrite ?length_app; cbn [length]; lia);
      rewrite <- !app_assoc; reflexivity.
Qed.



(** ** The loops of the Java swapper at the ends of the array *)

Lemma for_loop_app {A : Type} (body : Z -> A -> res A) (m : nat) :
  forall (n : nat) (i : Z) (s : A),
    EvioswapJava.for_loop (n + m) i 1 body s
    = (s' <- EvioswapJava.for_loop n i 1 body s ;;
       EvioswapJava.for_loop m (i + Z.of_nat n) 1 body s').
Proof.
  induction n as [| n IH]; intros i s.
  - cbn [EvioswapJava.for_loop Nat.add bind]. rewrite Z.add_0_r. reflexivity.
  - cbn [EvioswapJava.for_loop Nat.add].
    destruct (body i s) as [s1 | e]; cbn [bind]; [| reflexivity].
    rewrite IH.
    replace (i + Z.of_nat (S n)) with (i + 1 + Z.of_nat n) by lia.
    reflexivity.
Qed.

(** [swap_int] in place succeeds when its range lies within the array, and
    then replaces each word of the range by its byte reversal and leaves
    the others; for a length that is not positive it does nothing; in
    every other case it ends in an ArrayIndexOutOfBoundsException. *)
Theorem swap_int_in_place_bounds (data : list Z) (offset length : Z) :
  Z.of_nat (List.length data) < 2 ^ 31 -> is_int offset -> is_int length ->
  EvioswapJava.swap_int data offset length None =
  if length <=? 0 then Ok (data, None)
  else if (0 <=? offset) && (offset + length <=? Z.of_nat (List.length data)) then
    Ok (firstn (Z.to_nat offset) data
        ++ map EvioswapJava.swap_int_value
               (firstn (Z.to_nat length) (skipn (Z.to_nat offset) data))
        ++ skipn (Z.to_nat length) (skipn (Z.to_nat offset) data), None)
  else Throw ArrayIndexOutOfBoundsException.
Proof.
  intros B Ho Hl.
  destruct (Z.leb_spec length 0) as [L0 | L0].
  { unfold EvioswapJava.swap_int. replace (Z.to_nat length) with 0%nat by lia.
    reflexivity. }
  destruct (Z.leb_spec 0 offset) as [O0 | O0]; cbn [andb].
  - destruct (Z.leb_spec (offset + length) (Z.of_nat (List.length data))) as [In | Out].
    + set (pre := firstn (Z.to_nat offset) data).
      set (ws := firstn (Z.to_nat length) (skipn (Z.to_nat offset) data)).
      set (post := skipn (Z.to_nat length) (skipn (Z.to_nat offset) data)).
      assert (E : data = pre ++ ws ++ post).
      { unfold pre, ws, post. rewrite !firstn_skipn. reflexivity. }
      assert (Lp : List.length pre = Z.to_nat offset)
        by (unfold pre; rewrite length_firstn; lia).
      assert (Lw : List.length ws = Z.to_nat length)
        by (unfold ws; rewrite length_firstn, length_skipn; lia).
      rewrite E at 1.
      replace offset with (Z.of_nat (List.length pre)) by lia.
      replace length with (Z.of_nat (List.length ws)) by lia.
      apply swap_int_in_place.
      rewrite E, !length_app in B. lia.
    + unfold EvioswapJava.swap_int.
      destruct (Z.le_gt_cases (Z.of_nat (List.length data)) offset) as [Far | Near].
      * destruct (Z.to_nat length) as [| k] eqn:Ek; [lia |].
        cbn [EvioswapJava.for_loop]. rewrite Z.add_0_r, int_id by exact Ho.
        rewrite aget_out by lia. reflexivity.
      * set (pre := firstn (Z.to_nat offset) data).
        set (ws := skipn (Z.to_nat offset) data).
        assert (E : data = pre ++ ws ++ [])
          by (unfold pre, ws; rewrite app_nil_r, firstn_skipn; reflexivity).
        assert (Lp : List.length pre = Z.to_nat offset)
          by (unfold pre; rewrite length_firstn; lia).
        assert (Lw : List.length ws = (List.length data - Z.to_nat offset)%nat)
          by (unfold ws; rewrite length_skipn; lia).
        replace (Z.to_nat length)
          with (List.length ws + S (Z.to_nat length - List.length ws - 1))%nat by lia.
        rewrite for_loop_app. rewrite E at 1.
        rewrite for_loop_in_place by (rewrite ?E, ?length_app in *; cbn [List.length] in *; lia).
        cbn [bind EvioswapJava.for_loop].
        rewrite int_id by (unfold is_int in *; lia).
        rewrite aget_out; [reflexivity |].
        right. rewrite !length_app, length_map. cbn [List.length]. lia.
  - unfold EvioswapJava.swap_int.
    destruct (Z.to_nat length) as [| k] eqn:Ek; [lia |].
    cbn [EvioswapJava.for_loop]. rewrite Z.add_0_r, int_id by exact Ho.
    rewrite aget_out by lia. reflexivity.
Qed.

Lemma swap_int_in_place_bounds_witness :
  EvioswapJava.swap_int [1; 2; 3] 1 2 None
  = Ok ([1; 0x02000000; 0x03000000], None) /\
  EvioswapJava.swap_int [1; 2; 3] 2 2 None = Throw ArrayIndexOutOfBoundsException.
Proof.
  assert (B : Z.of_nat (List.length [1; 2; 3]) < 2 ^ 31) by (vm_compute; reflexivity).
  assert (I1 : is_int 1) by (unfold is_int; lia).
  assert (I2 : is_int 2) by (unfold is_int; lia).
  split.
  - exact (swap_int_in_place_bounds [1; 2; 3] 1 2 B I1 I2).
  - exact (swap_int_in_place_bounds [1; 2; 3] 2 2 B I2 I2).
Defined.

(** [swap_long] in place exchanges the two words of each pair and reverses
    the bytes of each, which reverses the eight bytes of the 64-bit value;
    the loop advances by two, so for an odd length it swaps the same pairs
    as for the next even length, the last one reaching one word beyond the
    range. *)
Theorem swap_long_in_place_swaps_pairs
    (pre post : list Z) (ps : list (Z * Z)) (length : Z) :
  Z.of_nat (List.length pre + 2 * List.length ps + List.length post) < 2 ^ 31 ->
  length = 2 * Z.of_nat (List.length ps)
  \/ length = 2 * Z.of_nat (List.length ps) - 1 ->
  EvioswapJava.swap_long (pre ++ pair_words ps ++ post)
    (Z.of_nat (List.length pre)) length None
  = Ok (pre ++ swapped_pair_words ps ++ post, None).
Proof.
  intros B Hl. unfold EvioswapJava.swap_long.
  replace (Z.to_nat ((length + 1) / 2)) with (List.length ps).
  2:{ destruct Hl as [-> | ->].
      - replace (2 * Z.of_nat (List.length ps) + 1)
          with (1 + Z.of_nat (List.length ps) * 2) by lia.
        rewrite Z.div_add by lia. change (1 / 2) with 0. lia.
      - replace (2 * Z.of_nat (List.length ps) - 1 + 1)
          with (0 + Z.of_nat (List.length ps) * 2) by lia.
        rewrite Z.div_add by lia. change (0 / 2) with 0. lia. }
  rewrite for_loop_pairs_in_place; [reflexivity | lia |].
  rewrite pair_words_length. exact B.
Qed.

Lemma swap_long_in_place_swaps_pairs_witness :
  EvioswapJava.swap_long [7; 0x10203040; 0x50607080; 9] 1 2 None
  = Ok ([7; Java.int 0x80706050; 0x40302010; 9], None) /\
  EvioswapJava.swap_long [7; 0x10203040; 0x50607080; 9] 1 1 None
  = Ok ([7; Java.int 0x80706050; 0x40302010; 9], None).
Proof.
  assert (B : Z.of_nat (List.length [7] + 2 * List.length [(0x10203040, 0x50607080)]
                        + List.length [9]) < 2 ^ 31) by (vm_compute; reflexivity).
  split.
  - apply (swap_long_in_place_swaps_pairs [7] [9] [(0x10203040, 0x50607080)] 2 B).
    left. reflexivity.
  - apply (swap_long_in_place_swaps_pairs [7] [9] [(0x10203040, 0x50607080)] 1 B).
    right. reflexivity.
Defined.

(** ** The swapper of evioswap.c: words and headers *)

Lemma le_bytes_le_val (bs : list Z) :
  Forall (fun b => 0 <= b < 256) bs ->
  le_bytes (length bs) (le_val bs) = bs.
Proof.
  induction 1 as [| b bs Hb _ IH]; [reflexivity |].
  cbn [length le_bytes le_val].
  replace (b + 256 * le_val bs) with (b + le_val bs * 256) by lia.
  rewrite Z.mod_add, Z.div_add by discriminate.
  rewrite Z.mod_small, Z.div_small by lia. rewrite Z.add_0_l, IH. reflexivity.
Qed.

Lemma EVIO_SWAP32_involutive (x : Z) :
  0 <= x < 2 ^ 32 -> Evioswap.EVIO_SWAP32 (Evioswap.EVIO_SWAP32 x) = x.
Proof.
  intros Hx. unfold Evioswap.EVIO_SWAP32.
  pose proof (le_bytes_le_val (rev (le_bytes 4 x))) as E.
  rewrite length_rev, le_bytes_length in E.
  rewrite E by (apply Forall_rev, le_bytes_range).
  rewrite rev_involutive, le_val_le_bytes.
  apply Z.mod_small. exact Hx.
Qed.

Lemma evioSwapFileHeaderV6_words (hw rest dest : list Z) :
  length hw = 14%nat ->
  Evioswap.evioSwapFileHeaderV6 (Evioswap.mkmem (hw ++ rest) dest) (Evioswap.Data 0)
  = Evioswap.Done
      (Evioswap.mkmem
         (map Evioswap.EVIO_SWAP32 (firstn 8 hw)
          ++ [Evioswap.EVIO_SWAP32 (nth 9 hw 0); Evioswap.EVIO_SWAP32 (nth 8 hw 0);
              Evioswap.EVIO_SWAP32 (nth 11 hw 0); Evioswap.EVIO_SWAP32 (nth 10 hw 0);
              Evioswap.EVIO_SWAP32 (nth 12 hw 0); Evioswap.EVIO_SWAP32 (nth 13 hw 0)]
          ++ rest) dest).
Proof.
  intros L.
  do 14 (destruct hw as [|? hw]; [discriminate L |]).
  destruct hw; [| discriminate L].
  reflexivity.
Qed.

(** The two header swaps of evioswap.c undo themselves: applied twice to a
    header of 14 words they give the header back, and they never touch the
    words that follow the header nor the other array; on a null pointer
    they do nothing. *)
Theorem header_swaps_are_involutions (hw rest dest : list Z) :
  length hw = 14%nat -> Forall (fun w => 0 <= w < 2 ^ 32) hw ->
  let m := Evioswap.mkmem (hw ++ rest) dest in
  (exists hw',
     length hw' = 14%nat /\
     Evioswap.evioSwapRecordHeaderV6 m (Evioswap.Data 0)
     = Evioswap.Done (Evioswap.mkmem (hw' ++ rest) dest) /\
     Evioswap.evioSwapRecordHeaderV6 (Evioswap.mkmem (hw' ++ rest) dest)
       (Evioswap.Data 0) = Evioswap.Done m) /\
  (exists hw',
     length hw' = 14%nat /\
     Evioswap.evioSwapFileHeaderV6 m (Evioswap.Data 0)
     = Evioswap.Done (Evioswap.mkmem (hw' ++ rest) dest) /\
     Evioswap.evioSwapFileHeaderV6 (Evioswap.mkmem (hw' ++ rest) dest)
       (Evioswap.Data 0) = Evioswap.Done m) /\
  Evioswap.evioSwapRecordHeaderV6 m Evioswap.Null = Evioswap.Done m /\
  Evioswap.evioSwapFileHeaderV6 m Evioswap.Null = Evioswap.Done m.
Proof.
  intros L R. cbv zeta.
  split; [| split; [| split; reflexivity]].
  - exists (map Evioswap.EVIO_SWAP32 (firstn 10 hw)
            ++ [Evioswap.EVIO_SWAP32 (nth 11 hw 0); Evioswap.EVIO_SWAP32 (nth 10 hw 0);
                Evioswap.EVIO_SWAP32 (nth 13 hw 0); Evioswap.EVIO_SWAP32 (nth 12 hw 0)]).
    do 14 (destruct hw as [|? hw]; [discriminate L |]).
    destruct hw; [| discriminate L].
    repeat match goal with
           | H : Forall _ (_ :: _) |- _ => inversion H; clear H; subst
           end.
    split; [reflexivity |]. split.
    + rewrite evioSwapRecordHeaderV6_words by reflexivity. reflexivity.
    + cbn [firstn map nth].
      rewrite evioSwapRecordHeaderV6_words by reflexivity.
      cbn [firstn map nth app].
      rewrite !EVIO_SWAP32_involutive by assumption. reflexivity.
  - exists (map Evioswap.EVIO_SWAP32 (firstn 8 hw)
            ++ [Evioswap.EVIO_SWAP32 (nth 9 hw 0); Evioswap.EVIO_SWAP32 (nth 8 hw 0);
                Evioswap.EVIO_SWAP32 (nth 11 hw 0); Evioswap.EVIO_SWAP32 (nth 10 hw 0);
                Evioswap.EVIO_SWAP32 (nth 12 hw 0); Evioswap.EVIO_SWAP32 (nth 13 hw 0)]).
    do 14 (destruct hw as [|? hw]; [discriminate L |]).
    destruct hw; [| discriminate L].
    repeat match goal with
           | H : Forall _ (_ :: _) |- _ => inversion H; clear H; subst
           end.
    split; [reflexivity |]. split.
    + rewrite evioSwapFileHeaderV6_words by reflexivity. reflexivity.
    + cbn [firstn map nth].
      rewrite evioSwapFileHeaderV6_words by reflexivity.
      cbn [firstn map nth app].
      rewrite !EVIO_SWAP32_involutive by assumption. reflexivity.
Qed.

Lemma header_swaps_are_involutions_witness :
  let hw := [14; 1; 14; 0; 0; 6; 0; 0xc0da0100; 0; 0; 1; 2; 3; 4] in
  Evioswap.evioSwapRecordHeaderV6 (Evioswap.mkmem (hw ++ [5]) []) Evioswap.Null
  = Evioswap.Done (Evioswap.mkmem (hw ++ [5]) []).
Proof.
  intros hw.
  refine (proj1 (proj2 (proj2 (header_swaps_are_involutions hw [5] [] _ _)))).
  - reflexivity.
  - repeat constructor; try (vm_compute; discriminate); vm_compute; reflexivity.
Defined.

Lemma EVIO_SWAP32_le_val (bs : list Z) :
  length bs = 4%nat -> Forall (fun b => 0 <= b < 256) bs ->
  Evioswap.EVIO_SWAP32 (le_val bs) = le_val (rev bs).
Proof.
  intros L R. unfold Evioswap.EVIO_SWAP32.
  rewrite <- L, le_bytes_le_val by exact R. reflexivity.
Qed.

Lemma le_val_word_range (bs : list Z) :
  length bs = 4%nat -> Forall (fun b => 0 <= b < 256) bs ->
  0 <= le_val bs < 2 ^ 32.
Proof.
  intros L R. pose proof (le_val_range bs R) as H. rewrite L in H. exact H.
Qed.

(** [evioToLongWord] gives the 64-bit value that the eight bytes of its
    two words hold: with [word1] and [word2] the words that the host reads
    from eight bytes of memory, the result is the number those bytes
    stand for in the byte order of the host, or in the other byte order
    when [needToSwap] is set. *)
Theorem evioToLongWord_is_the_value_of_the_bytes
    (host : ByteOrder) (EVIO_TO_64_BITS : Z -> Z -> Z)
    (bs : list Z) (needToSwap : bool) :
  (forall low high, 0 <= low < 2 ^ 32 -> 0 <= high < 2 ^ 32 ->
                    EVIO_TO_64_BITS low high = low + 2 ^ 32 * high) ->
  length bs = 8%nat -> Forall (fun b => 0 <= b < 256) bs ->
  Evioswap.evioToLongWord host EVIO_TO_64_BITS
    (decode host (firstn 4 bs)) (decode host (skipn 4 bs)) needToSwap
  = decode (if needToSwap then flip_order host else host) bs.
Proof.
  intros T L R.
  set (a := firstn 4 bs). set (b := skipn 4 bs).
  assert (E : bs = a ++ b) by (unfold a, b; rewrite firstn_skipn; reflexivity).
  assert (La : length a = 4%nat) by (unfold a; rewrite length_firstn; lia).
  assert (Lb : length b = 4%nat) by (unfold b; rewrite length_skipn; lia).
  assert (Ra : Forall (fun b => 0 <= b < 256) a).
  { rewrite E in R. apply Forall_app in R. tauto. }
  assert (Rb : Forall (fun b => 0 <= b < 256) b).
  { rewrite E in R. apply Forall_app in R. tauto. }
  assert (Rra := Forall_rev Ra). assert (Rrb := Forall_rev Rb).
  assert (P : 2 ^ (8 * Z.of_nat 4) = 2 ^ 32) by reflexivity.
  rewrite E. unfold Evioswap.evioToLongWord, Evioswap.evioIsLocalHostBigEndian.
  destruct host, needToSwap; cbn [encode le_bytes rev app hd Z.eqb negb decode flip_order];
    change (hd 0 (rev (le_bytes 4 1) ) =? 1) with false;
    change (1 mod 256 =? 1) with true; cbn [negb];
    rewrite ?rev_app_distr, ?le_val_app, ?length_rev, ?La, ?Lb, ?P;
    rewrite ?EVIO_SWAP32_le_val, ?rev_involutive
      by (rewrite ?length_rev; auto using Forall_rev);
    rewrite T by (apply le_val_word_range; rewrite ?length_rev; auto using Forall_rev);
    reflexivity.
Qed.

Lemma evioToLongWord_is_the_value_of_the_bytes_witness :
  Evioswap.evioToLongWord LITTLE_ENDIAN (fun low high => low + 2 ^ 32 * high)
    0x04030201 0x08070605 true
  = 0x0102030405060708.
Proof.
  apply (evioToLongWord_is_the_value_of_the_bytes LITTLE_ENDIAN
           (fun low high => low + 2 ^ 32 * high) [1; 2; 3; 4; 5; 6; 7; 8] true).
  - intros. reflexivity.
  - reflexivity.
  - repeat constructor; lia.
Defined.

(* ===================================================================== *)
(** * RecordHeader.java: bounds and frame of the codec                    *)
(* ===================================================================== *)

Lemma putN_cases (w : nat) (b : ByteBuffer.t) (i v : Z) :
  ByteBuffer.putN w b i v = Ok (stored w b i v) /\ 0 <= i /\
  i + Z.of_nat w <= ByteBuffer.limit b
  \/ ByteBuffer.putN w b i v = Throw IndexOutOfBoundsException /\
     (i < 0 \/ ByteBuffer.limit b < i + Z.of_nat w).
Proof.
  unfold ByteBuffer.putN, ByteBuffer.checkIndex.
  destruct (Z.leb_spec 0 i); destruct (Z.leb_spec (Z.of_nat w) (ByteBuffer.limit b - i));
    cbn [andb]; [left | right | right | right]; repeat split; try reflexivity; lia.
Qed.

Lemma length_hb_stored (w : nat) (b : ByteBuffer.t) (i v : Z) :
  wf_buffer b -> 0 <= i -> i + Z.of_nat w <= ByteBuffer.limit b ->
  length (ByteBuffer.hb (stored w b i v)) = length (ByteBuffer.hb b).
Proof.
  intros [H0 H1] Hi Hw. unfold stored, ByteBuffer.capacity in *. cbn.
  rewrite put_bytes_length; rewrite ?encode_length; lia.
Qed.

(** [writeHeader(buffer, offset)] succeeds exactly when the 56 bytes from
    [offset] lie below the limit of the buffer, and ends in an
    IndexOutOfBoundsException otherwise.  When it succeeds it writes those
    56 bytes only: the bytes before and after them, the size of the buffer,
    its position, its limit and its byte order are as before. *)
Theorem writeHeader_writes_56_bytes_or_fails
    (h : RecordHeader.t) (b : ByteBuffer.t) (off : Z) :
  wf_buffer b ->
  (0 <= off /\ off + 56 <= ByteBuffer.limit b ->
   exists b',
     RecordHeader.writeHeader h b off = Ok b' /\
     length (ByteBuffer.hb b') = length (ByteBuffer.hb b) /\
     ByteBuffer.position b' = ByteBuffer.position b /\
     ByteBuffer.limit b' = ByteBuffer.limit b /\
     ByteBuffer.order b' = ByteBuffer.order b /\
     (forall (j : Z) (n : nat),
        0 <= j -> j + Z.of_nat n <= off \/ off + 56 <= j ->
        get_bytes (ByteBuffer.hb b') j n = get_bytes (ByteBuffer.hb b) j n)) /\
  (off < 0 \/ ByteBuffer.limit b < off + 56 ->
   RecordHeader.writeHeader h b off = Throw IndexOutOfBoundsException).
Proof.
  intros Hwf. split.
  - intros [Hoff Hlim].
    unfold RecordHeader.writeHeader, ByteBuffer.putInt, ByteBuffer.putLong.
    repeat (rewrite putN_stored by buf_side; cbn [bind]).
    eexists. split; [reflexivity |].
    split; [| split; [reflexivity | split; [reflexivity | split; [reflexivity |]]]].
    + repeat (rewrite length_hb_stored by buf_side). reflexivity.
    + intros j n Hj Hd.
      repeat (rewrite hb_stored_other by buf_side). reflexivity.
  - intros Hout.
    unfold RecordHeader.writeHeader, ByteBuffer.putInt, ByteBuffer.putLong.
    repeat match goal with
           | |- bind (ByteBuffer.putN ?w ?b ?i ?v) _ = _ =>
               let E := fresh "E" in
               destruct (putN_cases w b i v) as [(E & ? & ?) | (E & ?)];
               rewrite E; cbn [bind]; [| reflexivity]
           | |- ByteBuffer.putN ?w ?b ?i ?v = _ =>
               let E := fresh "E" in
               destruct (putN_cases w b i v) as [(E & ? & ?) | (E & ?)];
               rewrite E; [| reflexivity]
           end.
    exfalso. rewrite ?limit_stored in *.
    cbn [Z.of_nat Pos.of_succ_nat Pos.succ] in *. lia.
Qed.

Lemma writeHeader_writes_56_bytes_or_fails_witness :
  (exists b',
     RecordHeader.writeHeader RecordHeader.new (little_endian_buffer (repeat 0 60%nat)) 4
     = Ok b' /\
     get_bytes (ByteBuffer.hb b') 0 4 = [0; 0; 0; 0]) /\
  RecordHeader.writeHeader RecordHeader.new (little_endian_buffer (repeat 0 60%nat)) 8
  = Throw IndexOutOfBoundsException.
Proof.
  assert (W : wf_buffer (little_endian_buffer (repeat 0 60%nat)))
    by (split; vm_compute; discriminate).
  destruct (writeHeader_writes_56_bytes_or_fails RecordHeader.new
              (little_endian_buffer (repeat 0 60%nat)) 4 W) as [A _].
  destruct (writeHeader_writes_56_bytes_or_fails RecordHeader.new
              (little_endian_buffer (repeat 0 60%nat)) 8 W) as [_ B].
  split.
  - destruct A as (b' & E & _ & _ & _ & _ & F); [vm_compute; split; discriminate |].
    exists b'. split; [exact E |].
    rewrite (F 0 4%nat); [reflexivity | lia | left; reflexivity].
  - apply B. right. vm_compute. reflexivity.
Defined.

Lemma getPadding_negative (n : Z) :
  n < 0 ->
  RecordHeader.getPadding n
  = if n mod 4 =? 0 then Ok 0 else Throw ArrayIndexOutOfBoundsException.
Proof.
  intros Hn. unfold RecordHeader.getPadding, Java.rem.
  assert (R : Z.rem n 4 = - ((- n) mod 4)).
  { replace n with (- (- n)) at 1 by lia. rewrite Z.rem_opp_l by discriminate.
    rewrite Z.rem_mod_nonneg by lia. reflexivity. }
  cbv zeta. rewrite R.
  destruct (Z.eqb_spec (n mod 4) 0) as [E | E].
  - replace ((- n) mod 4) with 0 by (Z.div_mod_to_equations; lia). reflexivity.
  - assert (0 < (- n) mod 4) by (Z.div_mod_to_equations; lia).
    replace (- ((- n) mod 4) <? 0) with true by (symmetry; apply Z.ltb_lt; lia).
    reflexivity.
Qed.

Lemma getWords_negative (n : Z) :
  is_int n -> n < 0 ->
  RecordHeader.getWords n
  = if n mod 4 =? 0 then Ok (n / 4) else Throw ArrayIndexOutOfBoundsException.
Proof.
  intros Hi Hn. unfold RecordHeader.getWords. rewrite getPadding_negative by exact Hn.
  destruct (Z.eqb_spec (n mod 4) 0) as [E | E]; [| reflexivity].
  cbn [bind Z.ltb Z.compare]. unfold Java.div. f_equal.
  replace (Z.quot n 4) with (n / 4).
  2:{ apply Z.quot_unique_exact; [discriminate |].
      Z.div_mod_to_equations. lia. }  
  apply int_id. unfold is_int in *. Z.div_mod_to_equations. lia.
Qed.



Lemma getInt_in_bounds (b : ByteBuffer.t) (i : Z) :
  0 <= i -> i + 4 <= ByteBuffer.limit b ->
  ByteBuffer.getInt b i
  = Ok (Java.int (decode (ByteBuffer.order b) (get_bytes (ByteBuffer.hb b) i 4))).
Proof.
  intros Hi Hl. unfold ByteBuffer.getInt, ByteBuffer.getN.
  rewrite checkIndex_true by (cbn; lia). reflexivity.
Qed.

Lemma getLong_in_bounds (b : ByteBuffer.t) (i : Z) :
  0 <= i -> i + 8 <= ByteBuffer.limit b ->
  ByteBuffer.getLong b i
  = Ok (Java.long (decode (ByteBuffer.order b) (get_bytes (ByteBuffer.hb b) i 8))).
Proof.
  intros Hi Hl. unfold ByteBuffer.getLong, ByteBuffer.getN.
  rewrite checkIndex_true by (cbn; lia). reflexivity.
Qed.

(** The number of words and the padding of a length, when the table of
    paddings has an entry for it. *)
Lemma words_and_padding (v : Z) :
  is_int v ->
  (v < 0 /\ v mod 4 <> 0 /\
   RecordHeader.getWords v = Throw ArrayIndexOutOfBoundsException)
  \/ (~ (v < 0 /\ v mod 4 <> 0) /\
      exists w p, RecordHeader.getWords v = Ok w /\ RecordHeader.getPadding v = Ok p).
Proof.
  intros Hv. destruct (Z.lt_ge_cases v 0) as [N | P].
  - rewrite getWords_negative, getPadding_negative by assumption.
    destruct (Z.eqb_spec (v mod 4) 0) as [E | E].
    + right. split; [lia |]. do 2 eexists. split; reflexivity.
    + left. repeat split; assumption.
  - right. split; [lia |]. do 2 eexists.
    rewrite getWords_spec, getPadding_spec by (unfold is_int, Java.MAX_INT in *; lia).
    split; reflexivity.
Qed.



(* ===================================================================== *)
(** * DataType.java                                                       *)
(* ===================================================================== *)

Lemma small_cases (v : Z) :
  0 <= v <= 36 -> exists n : nat, (n <= 36)%nat /\ v = Z.of_nat n.
Proof. intros H. exists (Z.to_nat v). lia. Qed.

(** [getDataType] is the inverse of [getValue]: it finds every constant
    from its value, a constant it returns has the value asked for, and it
    returns null for every integer that is the value of none, below 0,
    above 0x24, or in the gap from 0x11 to 0x1f. *)
Theorem getDataType_inverts_getValue :
  (forall type, DataType.getDataType (DataType.getValue type) = Some type) /\
  (forall val type,
     DataType.getDataType val = Some type -> DataType.getValue type = val) /\
  (forall val,
     DataType.getDataType val = None <->
     val < 0 \/ 0x24 < val \/ 0x11 <= val <= 0x1f).
Proof.
  split; [intros type; destruct type; reflexivity |].
  assert (Out : forall val, val < 0 \/ 0x24 < val -> DataType.getDataType val = None).
  { intros val H. unfold DataType.getDataType.
    replace ((val >? 36) || (val <? 0)) with true; [reflexivity |].
    symmetry. apply orb_true_iff. rewrite Z.gtb_lt, Z.ltb_lt. lia. }
  split.
  - intros val type H.
    destruct (Z.lt_ge_cases val 0) as [N | P]; [rewrite Out in H by lia; discriminate |].
    destruct (Z.lt_ge_cases 36 val) as [B | S]; [rewrite Out in H by lia; discriminate |].
    destruct (small_cases val ltac:(lia)) as (n & Hn & ->).
    do 37 (destruct n as [| n];
           [vm_compute in H; try discriminate; injection H as <-; reflexivity |]).
    lia.
  - intros val. split.
    + intros H.
      destruct (Z.lt_ge_cases val 0) as [N | P]; [lia |].
      destruct (Z.lt_ge_cases 36 val) as [B | S]; [lia |].
      destruct (small_cases val ltac:(lia)) as (n & Hn & ->).
      do 37 (destruct n as [| n];
             [vm_compute in H; try discriminate; lia |]).
      lia.
    + intros [H | [H | H]]; [apply Out; lia | apply Out; lia |].
      destruct (small_cases val ltac:(lia)) as (n & Hn & ->).
      do 37 (destruct n as [| n]; [try lia; reflexivity |]).
      lia.
Qed.

(** The static tests on an integer agree with the methods of the constant
    that the integer stands for, and are false for an integer that stands
    for none. *)
Theorem static_type_tests_agree_with_methods (dataType : Z) :
  DataType.isStructure_of dataType
  = match DataType.getDataType dataType with
    | Some type => DataType.isStructure type
    | None => false
    end /\
  DataType.isBank_of dataType
  = match DataType.getDataType dataType with
    | Some type => DataType.isBank type
    | None => false
    end /\
  (DataType.isStructure_of dataType
   = DataType.isBank_of dataType || DataType.isSegment_of dataType
     || DataType.isTagSegment_of dataType).
Proof.
  destruct (Z.lt_ge_cases dataType 0) as [N | P].
  { unfold DataType.getDataType, DataType.isStructure_of, DataType.isBank_of,
      DataType.isSegment_of, DataType.isTagSegment_of.
    replace (dataType <? 0) with true by (symmetry; apply Z.ltb_lt; lia).
    rewrite orb_true_r. cbn [DataType.getValue].
    repeat match goal with
           | |- context [?a =? ?b] =>
               replace (a =? b) with false by (symmetry; apply Z.eqb_neq; lia)
           end.
    repeat split. }
  destruct (Z.lt_ge_cases 36 dataType) as [B | S].
  { unfold DataType.getDataType, DataType.isStructure_of, DataType.isBank_of,
      DataType.isSegment_of, DataType.isTagSegment_of.
    replace (dataType >? 36) with true by (symmetry; apply Z.gtb_lt; lia).
    cbn [orb DataType.getValue].
    repeat match goal with
           | |- context [?a =? ?b] =>
               replace (a =? b) with false by (symmetry; apply Z.eqb_neq; lia)
           end.
    repeat split. }
  destruct (small_cases dataType ltac:(lia)) as (n & Hn & ->).
  do 37 (destruct n as [| n]; [repeat split |]).
  lia.
Qed.

Lemma getDataType_inverts_getValue_witness :
  DataType.getValue DataType.BANK = 0x10.
Proof.
  exact (proj1 (proj2 getDataType_inverts_getValue) 0x10 DataType.BANK eq_refl).
Defined.

(* ===================================================================== *)
(** * The reader: sequential reading and scans                            *)
(* ===================================================================== *)

Section Sequential.

Variable C : Reader.Collaborators.

Lemma readRecord_keeps_cursor (r r' : Reader.t C) (index : Z) (ok : bool) :
  Reader.readRecord C r index = Ok (r', ok) ->
  Reader.sequentialIndex C r' = Reader.sequentialIndex C r /\
  Reader.lastCalledSeqNext C r' = Reader.lastCalledSeqNext C r /\
  Reader.eventIndex C r' = Reader.eventIndex C r.
Proof.
  unfold Reader.readRecord.
  destruct ((0 <=? index) && (index <? Z.of_nat (length (Reader.recordPositions C r)))).
  - destruct (Reader.list_get (Reader.recordPositions C r) index) as [pos | e];
      cbn [bind]; [| discriminate].
    destruct (if Reader.fromFile C r then _ else _) as [ri | e];
      cbn [bind]; [| discriminate].
    intros H. injection H as <- _. repeat split.
  - intros H. injection H as <- _. repeat split.
Qed.

Lemma getEvent_keeps_cursor (r r' : Reader.t C) (index : Z) (a : option (list Z)) :
  (forall e i, Reader.getMaxEvents C (fst (Reader.setEvent C e i))
               = Reader.getMaxEvents C e) ->
  Reader.getEvent C r index = Ok (a, r') ->
  Reader.sequentialIndex C r' = Reader.sequentialIndex C r /\
  Reader.lastCalledSeqNext C r' = Reader.lastCalledSeqNext C r /\
  Reader.getMaxEvents C (Reader.eventIndex C r')
  = Reader.getMaxEvents C (Reader.eventIndex C r) /\
  (a <> None -> 0 <= index < Reader.getMaxEvents C (Reader.eventIndex C r)).
Proof.
  intros Stable. unfold Reader.getEvent.
  destruct (Z.ltb_spec index 0) as [N | P]; cbn [orb].
  { intros H. injection H as <- <-. repeat split; congruence. }
  destruct (Z.leb_spec (Reader.getMaxEvents C (Reader.eventIndex C r)) index) as [B | S].
  { intros H. injection H as <- <-. repeat split; congruence. }
  pose proof (Stable (Reader.eventIndex C r) index) as St.
  destruct (Reader.setEvent C (Reader.eventIndex C r) index) as [ei changed].
  cbn [fst] in St.
  set (r1 := Reader.set_eventIndex C ei r).
  assert (F1 : Reader.sequentialIndex C r1 = Reader.sequentialIndex C r /\
               Reader.lastCalledSeqNext C r1 = Reader.lastCalledSeqNext C r /\
               Reader.getMaxEvents C (Reader.eventIndex C r1)
               = Reader.getMaxEvents C (Reader.eventIndex C r))
    by (repeat split; exact St).
  clearbody r1.
  assert (Step : forall (c : bool) (ra rb : Reader.t C),
             (if c
              then '(r, _) <- Reader.readRecord C ra
                                (Reader.getRecordNumber C (Reader.eventIndex C ra)) ;;
                   Ok r
              else Ok ra) = Ok rb ->
             Reader.sequentialIndex C rb = Reader.sequentialIndex C ra /\
             Reader.lastCalledSeqNext C rb = Reader.lastCalledSeqNext C ra /\
             Reader.eventIndex C rb = Reader.eventIndex C ra).
  { intros c ra rb H. destruct c.
    - destruct (Reader.readRecord C ra _) as [[rc ok] | e] eqn:E;
        cbn [bind] in H; [| discriminate].
      injection H as <-. exact (readRecord_keeps_cursor _ _ _ _ E).
    - injection H as <-. repeat split. }
  destruct (if changed then _ else _) as [r2 | e] eqn:E2; cbn [bind]; [| discriminate].
  destruct (if Reader.getEntries C (Reader.inputRecordStream C r2) =? 0 then _ else _)
    as [r3 | e] eqn:E3; cbn [bind]; [| discriminate].
  apply Step in E2. apply Step in E3.
  intros H. injection H as <- <-.
  destruct E2 as (A1 & A2 & A3), E3 as (B1 & B2 & B3), F1 as (C1 & C2 & C3).
  repeat split; try congruence; lia.
Qed.

Lemma int_succ_pred (s : Z) : is_int s -> Java.int (Java.int (s + 1) - 1) = s.
Proof.
  intros H. destruct (int_shift (s + 1)) as [q E]. rewrite E.
  rewrite <- (int_id s) at 2 by exact H.
  rewrite <- (int_mod (s + 1 + q * 2 ^ 32 - 1)), <- (int_mod s).
  f_equal. replace (s + 1 + q * 2 ^ 32 - 1) with (s + q * 2 ^ 32) by lia.
  apply Z.mod_add. discriminate.
Qed.

Lemma int_pred_succ (s : Z) : is_int s -> Java.int (Java.int (s - 1) + 1) = s.
Proof.
  intros H. destruct (int_shift (s - 1)) as [q E]. rewrite E.
  rewrite <- (int_id s) at 2 by exact H.
  rewrite <- (int_mod (s - 1 + q * 2 ^ 32 + 1)), <- (int_mod s).
  f_equal. replace (s - 1 + q * 2 ^ 32 + 1) with (s + q * 2 ^ 32) by lia.
  apply Z.mod_add. discriminate.
Qed.

End Sequential.

Ltac cursor_simpl :=
  unfold cursor_in_range, Reader.set_lastCalledSeqNext, Reader.set_sequentialIndex;
  cbn [Reader.sequentialIndex Reader.lastCalledSeqNext Reader.eventIndex].




Ltac reader_simpl :=
  unfold Reader.set_lastCalledSeqNext, Reader.set_sequentialIndex;
  cbn [Reader.inStreamRandom Reader.fileHeader Reader.firstRecordHeader
       Reader.byteOrder Reader.evioVersion Reader.compressed Reader.closed
       Reader.fromFile Reader.checkRecordNumberSequence
       Reader.recordNumberExpected Reader.eventIndex Reader.recordPositions
       Reader.inputRecordStream Reader.currentRecordLoaded
       Reader.sequentialIndex Reader.lastCalledSeqNext Reader.buffer
       Reader.bufferOffset Reader.bufferLimit Reader.eventNodes].

Ltac reader_simpl_in H :=
  cbn [Reader.inStreamRandom Reader.fileHeader Reader.firstRecordHeader
       Reader.byteOrder Reader.evioVersion Reader.compressed Reader.closed
       Reader.fromFile Reader.checkRecordNumberSequence
       Reader.recordNumberExpected Reader.eventIndex Reader.recordPositions
       Reader.inputRecordStream Reader.currentRecordLoaded
       Reader.sequentialIndex Reader.lastCalledSeqNext Reader.buffer
       Reader.bufferOffset Reader.bufferLimit Reader.eventNodes] in H.

Lemma getEvent_null_outside (C : Reader.Collaborators) (r : Reader.t C) (index : Z) :
  index < 0 \/ Reader.getMaxEvents C (Reader.eventIndex C r) <= index ->
  Reader.getEvent C r index = Ok (None, r).
Proof.
  intros H. unfold Reader.getEvent.
  destruct (Z.ltb_spec index 0); [reflexivity |].
  destruct (Z.leb_spec (Reader.getMaxEvents C (Reader.eventIndex C r)) index);
    [reflexivity | lia].
Qed.

(** Reading past either end of the events changes nothing: at the end of
    the events, after a forward read, [getNextEvent] returns null and
    leaves the reader as it was; with a negative cursor [getPrevEvent]
    returns null and leaves the reader as it was but for the direction of
    the last call, which becomes backwards. *)
Theorem sequential_reads_stop_at_the_ends
    (C : Reader.Collaborators) (r : Reader.t C) :
  0 <= Reader.getMaxEvents C (Reader.eventIndex C r) <= Java.MAX_INT ->
  (Reader.sequentialIndex C r = Reader.getMaxEvents C (Reader.eventIndex C r) ->
   Reader.lastCalledSeqNext C r = true ->
   Reader.getNextEvent C r = Ok (None, r)) /\
  (is_int (Reader.sequentialIndex C r) ->
   Reader.sequentialIndex C r < 0 ->
   Reader.getPrevEvent C r
   = Ok (None, Reader.set_lastCalledSeqNext C false r)).
Proof.
  intros M. unfold Java.MAX_INT in M.
  assert (P31 : 2 ^ 31 = 2147483648) by reflexivity.
  split.
  - intros E L. unfold Reader.getNextEvent.
    destruct (Z.ltb_spec (Reader.sequentialIndex C r) 0) as [N | _]; [lia |].
    rewrite L. cbn [negb]. cbv zeta.
    rewrite getEvent_null_outside
      by (right; cbn [Reader.set_sequentialIndex Reader.eventIndex]; lia).
    cbn [bind]. reader_simpl.
    rewrite int_succ_pred by (unfold is_int; lia).
    destruct r; reader_simpl_in L; rewrite L; reflexivity.
  - intros I N. unfold Reader.getPrevEvent.
    destruct (Z.ltb_spec (Reader.sequentialIndex C r) 0) as [_ | P]; [| lia].
    cbv zeta. cbn [Reader.sequentialIndex Reader.set_sequentialIndex].
    rewrite getEvent_null_outside.
    + cbn [bind]. reader_simpl.
      rewrite int_pred_succ by exact I.
      destruct r; reflexivity.
    + cbn [Reader.set_sequentialIndex Reader.eventIndex].
      unfold is_int in I.
      destruct (Z.eq_dec (Reader.sequentialIndex C r) (- 2 ^ 31)) as [Q | Q].
      * right. rewrite Q. change (Java.int (- 2 ^ 31 - 1)) with 2147483647. lia.
      * left. rewrite int_id by (unfold is_int; lia). lia.
Qed.

Lemma sequential_reads_stop_at_the_ends_witness :
  let C := serving_collaborators in
  let r := example_reader C tt [3] tt one_event_buffer [] in
  let at_end := Reader.set_lastCalledSeqNext C true (Reader.set_sequentialIndex C 3 r) in
  let at_start := Reader.set_sequentialIndex C (-1) r in
  Reader.getNextEvent C at_end = Ok (None, at_end) /\
  Reader.getPrevEvent C at_start = Ok (None, at_start).
Proof.
  intros C r at_end at_start. split.
  - apply (proj1 (sequential_reads_stop_at_the_ends C at_end
                    ltac:(split; vm_compute; discriminate)));
      reflexivity.
  - apply (proj2 (sequential_reads_stop_at_the_ends C at_start
                    ltac:(split; vm_compute; discriminate))).
    + split; vm_compute; [discriminate | reflexivity].
    + reflexivity.
Defined.

(** ** Scanning a file *)

Lemma total_length_nonneg (recs : list Reader.RecordHeaderInfo) (k : Z) :
  0 <= k ->
  Forall (fun rh => k <= Reader.rh_getLength rh) recs -> 0 <= total_length recs.
Proof.
  intros K F. induction F as [| rh recs L F IH]; unfold total_length in *; cbn; lia.
Qed.

Section Scan.

Variable C : Reader.Collaborators.

Ltac scan_simpl :=
  unfold Reader.set_recordPositions, Reader.set_eventIndex,
    Reader.set_firstRecordHeader, Reader.set_fileHeader,
    Reader.set_recordNumberExpected;
  cbn [Reader.inStreamRandom Reader.fileHeader Reader.firstRecordHeader
       Reader.byteOrder Reader.evioVersion Reader.compressed Reader.closed
       Reader.fromFile Reader.checkRecordNumberSequence
       Reader.recordNumberExpected Reader.eventIndex Reader.recordPositions
       Reader.inputRecordStream Reader.currentRecordLoaded
       Reader.sequentialIndex Reader.lastCalledSeqNext Reader.buffer
       Reader.bufferOffset Reader.bufferLimit Reader.eventNodes].

Lemma forceScanLoop_laid_out (size slack : Z) :
  forall (recs : list Reader.RecordHeaderInfo) (fuel : nat) (r : Reader.t C)
         (pos : Z) (b : bool),
    Reader.checkRecordNumberSequence C r = false ->
    laid_out C (Reader.inStreamRandom C r) pos recs ->
    Forall (fun rh => 57 <= Reader.rh_getLength rh) recs ->
    0 <= pos -> 0 <= slack <= 56 ->
    pos + total_length recs + slack = size -> size < 2 ^ 64 ->
    (length recs < fuel)%nat ->
    exists r',
      Reader.forceScanLoop C fuel r (size - 56) pos b = Some (Ok r') /\
      Reader.recordPositions C r'
      = Reader.recordPositions C r ++ record_positions pos recs /\
      Reader.eventIndex C r'
      = fold_left (Reader.addEventSize C) (map Reader.rh_getEntries recs)
                  (Reader.eventIndex C r) /\
      Reader.firstRecordHeader C r'
      = (if b then Reader.firstRecordHeader C r
         else match recs with
              | [] => Reader.firstRecordHeader C r
              | rh :: _ => Some rh
              end).
Proof.
  induction recs as [| rh recs IH]; intros fuel r pos b Chk Lay Len P X Sz Big Fuel;
    (destruct fuel as [| fuel]; [cbn in Fuel; lia |]); cbn [Reader.forceScanLoop].
  - unfold total_length in Sz. cbn in Sz.
    destruct (Z.ltb_spec pos (size - 56)) as [Q | _]; [lia |].
    exists r. rewrite app_nil_r. repeat split. destruct b; reflexivity.
  - destruct Lay as [Rd Lay]. pose proof (Forall_inv Len) as L1; pose proof (Forall_inv_tail Len) as Len'.
    cbv beta in L1.
    pose proof (total_length_nonneg recs 57 ltac:(lia) Len') as T.
    unfold total_length in Sz, T. cbn [map fold_right] in Sz.
    destruct (Z.ltb_spec pos (size - 56)) as [_ | Q]; [| lia].
    rewrite Rd. unfold Reader.checkSequence. rewrite Chk.
    assert (U : Reader.u64 (pos + Reader.rh_getLength rh) = pos + Reader.rh_getLength rh)
      by (unfold Reader.u64; apply Z.mod_small; lia).
    rewrite U.
    match goal with
    | |- exists r', Reader.forceScanLoop C fuel ?r1 _ _ _ = _ /\ _ =>
        destruct (IH fuel r1 (pos + Reader.rh_getLength rh) true) as (r' & E & RP & EI & FH);
          [ destruct b; exact Chk | destruct b; exact Lay | exact Len' | lia | exact X
          | unfold total_length; lia | exact Big | cbn in Fuel; lia | ]
    end.
    exists r'. split; [exact E |].
    rewrite RP, EI, FH. clear.
    destruct b; scan_simpl; cbn [record_positions map fold_left negb];
      rewrite <- app_assoc; repeat split.
Qed.

Lemma forceScanLoop_stuck (size : Z) (rh0 : Reader.RecordHeaderInfo) :
  forall (fuel : nat) (recs : list Reader.RecordHeaderInfo) (r : Reader.t C)
         (pos : Z) (b : bool),
    Reader.checkRecordNumberSequence C r = false ->
    laid_out C (Reader.inStreamRandom C r) pos (recs ++ [rh0]) ->
    Forall (fun rh => 0 <= Reader.rh_getLength rh) recs ->
    Reader.rh_getLength rh0 = 0 ->
    0 <= pos -> pos + total_length recs < size -> size < 2 ^ 64 ->
    Reader.forceScanLoop C fuel r size pos b = None.
Proof.
  induction fuel as [| fuel IH]; intros recs r pos b Chk Lay Len Z0 P Sz Big;
    [reflexivity |].
  cbn [Reader.forceScanLoop].
  destruct recs as [| rh recs].
  - destruct Lay as [Rd _]. unfold total_length in Sz. cbn in Sz.
    destruct (Z.ltb_spec pos size) as [_ | Q]; [| lia].
    rewrite Rd. unfold Reader.checkSequence. rewrite Chk, Z0, Z.add_0_r.
    assert (U : Reader.u64 pos = pos) by (unfold Reader.u64; apply Z.mod_small; lia).
    rewrite U.
    apply (IH []); [destruct b; exact Chk | | constructor | exact Z0 | exact P
                   | unfold total_length; cbn; lia | exact Big].
    destruct b; (split; [exact Rd | exact I]).
  - destruct Lay as [Rd Lay]. pose proof (Forall_inv Len) as L1; pose proof (Forall_inv_tail Len) as Len'.
    cbv beta in L1.
    pose proof (total_length_nonneg recs 0 ltac:(lia) Len') as T.
    unfold total_length in Sz, T. cbn [map fold_right] in Sz.
    destruct (Z.ltb_spec pos size) as [_ | Q]; [| lia].
    rewrite Rd. unfold Reader.checkSequence. rewrite Chk.
    assert (U : Reader.u64 (pos + Reader.rh_getLength rh) = pos + Reader.rh_getLength rh)
      by (unfold Reader.u64; apply Z.mod_small; lia).
    rewrite U.
    apply (IH recs); [destruct b; exact Chk | destruct b; exact Lay | exact Len'
                     | exact Z0 | lia | unfold total_length; lia | exact Big].
Qed.

End Scan.

Lemma forceScanFile_laid_out
    (C : Reader.Collaborators) (r : Reader.t C) (fh : Reader.FileHeader)
    (recs : list Reader.RecordHeaderInfo) (slack : Z) (fuel : nat) :
  let file := Reader.inStreamRandom C r in
  let start := Reader.fh_getHeaderLength fh + Reader.fh_getUserHeaderLength fh
               + Reader.fh_getIndexLength fh in
  match Reader.fileHeader C r with
  | Some f => f = fh
  | None => Reader.readFileHeader C file 0 = Ok fh
  end ->
  Reader.checkRecordNumberSequence C r = false ->
  0 <= start < 2 ^ 31 ->
  laid_out C file start recs ->
  Forall (fun rh => Reader.HEADER_SIZE_BYTES < Reader.rh_getLength rh) recs ->
  0 <= slack <= Reader.HEADER_SIZE_BYTES ->
  Reader.file_length C file = start + total_length recs + slack ->
  Reader.HEADER_SIZE_BYTES <= Reader.file_length C file < 2 ^ 64 ->
  (length recs < fuel)%nat ->
  exists r',
    Reader.forceScanFile C fuel r = Some (Ok r') /\
    Reader.recordPositions C r' = record_positions start recs /\
    Reader.eventIndex C r'
    = fold_left (Reader.addEventSize C) (map Reader.rh_getEntries recs)
                (Reader.clear C (Reader.eventIndex C r)) /\
    (recs <> [] -> Reader.firstRecordHeader C r' = head recs).
Proof.
  intros file start Hfh Chk St Lay Len X Sz Big Fuel.
  unfold Reader.HEADER_SIZE_BYTES in *.
  assert (Len' : Forall (fun rh => 57 <= Reader.rh_getLength rh) recs)
    by (eapply Forall_impl; [| exact Len]; cbv beta; intros; lia).
  unfold Reader.forceScanFile.
  assert (Start : exists r0,
             match Reader.fileHeader C r with
             | Some fh0 => Ok (r, fh0)
             | None => fh0 <- Reader.readFileHeader C (Reader.inStreamRandom C r) 0 ;;
                       Ok (Reader.set_fileHeader C fh0 r, fh0)
             end = Ok (r0, fh) /\
             Reader.inStreamRandom C r0 = file /\
             Reader.checkRecordNumberSequence C r0 = false /\
             Reader.eventIndex C r0 = Reader.eventIndex C r).
  { destruct (Reader.fileHeader C r) as [f |].
    - subst f. exists r. repeat split. exact Chk.
    - fold file. rewrite Hfh. cbn [bind]. eexists. split; [reflexivity |].
      repeat split. exact Chk. }
  destruct Start as (r0 & E0 & F0 & C0 & I0). rewrite E0.
  cbv zeta.
  cbn [Reader.inStreamRandom Reader.set_eventIndex Reader.set_recordPositions
       Reader.set_recordNumberExpected].
  rewrite F0. fold start.
  assert (P31 : 2 ^ 31 = 2147483648) by reflexivity.
  rewrite (int_id start) by (unfold is_int; lia).
  unfold Reader.HEADER_SIZE_BYTES.
  replace (Reader.u64 start) with start
    by (symmetry; unfold Reader.u64; apply Z.mod_small; lia).
  replace (Reader.u64 (Reader.file_length C file))
    with (Reader.file_length C file)
    by (symmetry; unfold Reader.u64; apply Z.mod_small; lia).
  replace (Reader.u64 (Reader.file_length C file - 56))
    with (Reader.file_length C file - 56)
    by (symmetry; unfold Reader.u64; apply Z.mod_small; lia).
  match goal with
  | |- exists r', Reader.forceScanLoop C fuel ?r1 _ _ _ = _ /\ _ =>
      destruct (forceScanLoop_laid_out C (Reader.file_length C file) slack
                  recs fuel r1 start false)
        as (r' & E & RP & EI & FH);
        [ exact C0 | change (laid_out C (Reader.inStreamRandom C r0) start recs); rewrite F0; exact Lay | exact Len'
        | lia | exact X | lia | lia | exact Fuel | ]
  end.
  exists r'. split; [exact E |].
  rewrite RP, EI, FH. cbn [Reader.recordPositions Reader.eventIndex app].
  rewrite I0. repeat split.
  destruct recs; [intros N; contradiction | reflexivity].
Qed.



(** The forced scan never ends on a record of length 0.  When the records
    from the end of the file header region are followed, more than 56
    bytes before the end of the file, by a record whose header gives the
    length 0, and record numbers are not checked, [forceScanFile] returns
    with no amount of fuel: the position does not advance, and every
    iteration reads the same header again and stores one more record
    position. *)
Theorem forceScanFile_never_ends_on_an_empty_length
    (C : Reader.Collaborators) (r : Reader.t C) (fh : Reader.FileHeader)
    (recs : list Reader.RecordHeaderInfo) (rh0 : Reader.RecordHeaderInfo) :
  let file := Reader.inStreamRandom C r in
  let start := Reader.fh_getHeaderLength fh + Reader.fh_getUserHeaderLength fh
               + Reader.fh_getIndexLength fh in
  match Reader.fileHeader C r with
  | Some f => f = fh
  | None => Reader.readFileHeader C file 0 = Ok fh
  end ->
  Reader.checkRecordNumberSequence C r = false ->
  0 <= start < 2 ^ 31 ->
  laid_out C file start (recs ++ [rh0]) ->
  Forall (fun rh => 0 <= Reader.rh_getLength rh) recs ->
  Reader.rh_getLength rh0 = 0 ->
  start + total_length recs + Reader.HEADER_SIZE_BYTES < Reader.file_length C file ->
  Reader.file_length C file < 2 ^ 64 ->
  forall fuel, Reader.forceScanFile C fuel r = None.
Proof.
  intros file start Hfh Chk St Lay Len Z0 Sz Big fuel.
  unfold Reader.HEADER_SIZE_BYTES in *.
  pose proof (total_length_nonneg recs 0 ltac:(lia) Len) as T.
  unfold Reader.forceScanFile.
  assert (Start : exists r0,
             match Reader.fileHeader C r with
             | Some fh0 => Ok (r, fh0)
             | None => fh0 <- Reader.readFileHeader C (Reader.inStreamRandom C r) 0 ;;
                       Ok (Reader.set_fileHeader C fh0 r, fh0)
             end = Ok (r0, fh) /\
             Reader.inStreamRandom C r0 = file /\
             Reader.checkRecordNumberSequence C r0 = false).
  { destruct (Reader.fileHeader C r) as [f |].
    - subst f. exists r. repeat split. exact Chk.
    - fold file. rewrite Hfh. cbn [bind]. eexists. split; [reflexivity |].
      repeat split. exact Chk. }
  destruct Start as (r0 & E0 & F0 & C0). rewrite E0.
  cbv zeta.
  cbn [Reader.inStreamRandom Reader.set_eventIndex Reader.set_recordPositions
       Reader.set_recordNumberExpected].
  rewrite F0. fold start.
  assert (P31 : 2 ^ 31 = 2147483648) by reflexivity.
  rewrite (int_id start) by (unfold is_int; lia).
  unfold Reader.HEADER_SIZE_BYTES.
  replace (Reader.u64 start) with start
    by (symmetry; unfold Reader.u64; apply Z.mod_small; lia).
  replace (Reader.u64 (Reader.file_length C file))
    with (Reader.file_length C file)
    by (symmetry; unfold Reader.u64; apply Z.mod_small; lia).
  replace (Reader.u64 (Reader.file_length C file - 56))
    with (Reader.file_length C file - 56)
    by (symmetry; unfold Reader.u64; apply Z.mod_small; lia).
  apply (forceScanLoop_stuck C _ rh0 fuel recs);
    [ exact C0 | change (laid_out C (Reader.inStreamRandom C r0) start (recs ++ [rh0])); rewrite F0; exact Lay | exact Len
    | exact Z0 | lia | lia | lia ].
Qed.

Lemma forceScanFile_never_ends_on_an_empty_length_witness :
  let C := example_collaborators 736 indexed_file_header empty_length_header [] in
  let r := example_reader C tt [] tt one_event_buffer [] in
  Reader.forceScanFile C 1000 r = None.
Proof.
  intros C r.
  refine (forceScanFile_never_ends_on_an_empty_length C r indexed_file_header
            [] empty_length_header _ _ _ _ _ _ _ _ 1000%nat).
  - reflexivity.
  - reflexivity.
  - split; vm_compute; [discriminate | reflexivity].
  - repeat split.
  - constructor.
  - reflexivity.
  - vm_compute. reflexivity.
  - vm_compute. reflexivity.
Defined.

Lemma scanIndexLoop_exact (C : Reader.Collaborators) (n : nat) :
  forall (intData : list Z) (r : Reader.t C) (pos : Z),
    length intData = (2 * n)%nat ->
    Forall (fun len => 0 <= len) (index_lengths intData) ->
    0 <= pos ->
    pos + fold_right Z.add 0 (index_lengths intData) < 2 ^ 32 ->
    exists r',
      Reader.scanIndexLoop C r intData pos = Ok r' /\
      Reader.recordPositions C r'
      = Reader.recordPositions C r ++ exact_positions intData pos /\
      Reader.eventIndex C r'
      = fold_left (Reader.addEventSize C) (index_counts intData)
                  (Reader.eventIndex C r) /\
      Reader.firstRecordHeader C r' = Reader.firstRecordHeader C r.
Proof.
  induction n as [| n IH]; intros intData r pos Hlen Len P Sz.
  - destruct intData; [| discriminate]. exists r. cbn.
    rewrite app_nil_r. repeat split.
  - destruct intData as [| len [| count intData]]; try discriminate.
    { cbn in Hlen. lia. }
    cbn [index_lengths fold_right] in Len, Sz.
    pose proof (Forall_inv Len) as L1. pose proof (Forall_inv_tail Len) as Len'.
    cbv beta in L1.
    assert (T : 0 <= fold_right Z.add 0 (index_lengths intData)).
    { clear - Len'. induction Len'; cbn; lia. }
    cbn [Reader.scanIndexLoop exact_positions index_counts fold_left].
    replace (Reader.u32 (pos + len)) with (pos + len)
      by (symmetry; unfold Reader.u32; apply Z.mod_small; lia).
    match goal with
    | |- exists r', Reader.scanIndexLoop C ?r1 _ _ = _ /\ _ =>
        destruct (IH intData r1 (pos + len)) as (r' & E & RP & EI & FH);
          [ cbn in Hlen; lia | exact Len' | lia | lia | ]
    end.
    exists r'. split; [exact E |]. rewrite RP, EI, FH.
    cbn. rewrite <- app_assoc. repeat split.
Qed.

Lemma scanFile_index_exact
    (C : Reader.Collaborators) (r : Reader.t C) (fuel : nat)
    (fh : Reader.FileHeader) (rh : Reader.RecordHeaderInfo)
    (intData : list Z) (n : nat) :
  let file := Reader.inStreamRandom C r in
  Reader.readFileHeader C file 0 = Ok fh ->
  Reader.fh_hasTrailerWithIndex fh = false ->
  Reader.fh_hasIndex fh = true ->
  Reader.readRecordHeader C file (Reader.fh_getLength fh) = Ok rh ->
  Reader.readIntArray C file (Reader.fh_getHeaderLength fh)
    (Reader.fh_getIndexLength fh) (Reader.fh_getByteOrder fh) = Ok intData ->
  length intData = (2 * n)%nat ->
  Forall (fun len => 0 <= len) (index_lengths intData) ->
  0 <= Reader.fh_getLength fh ->
  Reader.fh_getLength fh + fold_right Z.add 0 (index_lengths intData) < 2 ^ 32 ->
  exists r',
    Reader.scanFile C fuel r false = Some (Ok r') /\
    Reader.recordPositions C r' = exact_positions intData (Reader.fh_getLength fh) /\
    Reader.eventIndex C r'
    = fold_left (Reader.addEventSize C) (index_counts intData)
                (Reader.clear C (Reader.eventIndex C r)) /\
    Reader.firstRecordHeader C r' = Some rh.
Proof.
  intros file Hfh Htr Hix Hrh Hint Hlen Len P Sz.
  assert (T : 0 <= fold_right Z.add 0 (index_lengths intData)).
  { clear - Len. induction Len; cbn; lia. }
  unfold Reader.scanFile.
  cbn [Reader.inStreamRandom Reader.set_eventIndex Reader.set_recordPositions
       Reader.set_fileHeader Reader.set_firstRecordHeader].
  fold file. rewrite Hfh, Htr, Hix. cbn [orb negb andb].
  replace (Reader.u32 (Reader.fh_getLength fh)) with (Reader.fh_getLength fh)
    by (symmetry; unfold Reader.u32; apply Z.mod_small; lia).
  rewrite Hrh. cbn [bind]. rewrite Hint. cbn [bind].
  match goal with
  | |- exists r', Some (Reader.scanIndexLoop C ?r0 _ _) = _ /\ _ =>
      destruct (scanIndexLoop_exact C n intData r0 (Reader.fh_getLength fh)
                  Hlen Len P Sz) as (r' & E & RP & EI & FH)
  end.
  exists r'. split; [rewrite E; reflexivity |].
  rewrite RP, EI, FH. repeat split.
Qed.

(** The scan of a file with an index in its file header is exact below
    4 GiB.  When the index array holds a length and a count for each
    record, the lengths are not negative and the first record position
    plus all the lengths is below 2^32, [scanFile(false)] returns with the
    record positions the index describes, each at the first record
    position plus the lengths of the records before it, with the event
    counts added to the cleared event index and the header read at the
    first record position kept as the first record header. *)
Theorem scanFile_index_gives_exact_positions
    (C : Reader.Collaborators) (r : Reader.t C) (fuel : nat)
    (fh : Reader.FileHeader) (rh : Reader.RecordHeaderInfo)
    (intData : list Z) (n : nat) :
  let file := Reader.inStreamRandom C r in
  Reader.readFileHeader C file 0 = Ok fh ->
  Reader.fh_hasTrailerWithIndex fh = false ->
  Reader.fh_hasIndex fh = true ->
  Reader.readRecordHeader C file (Reader.fh_getLength fh) = Ok rh ->
  Reader.readIntArray C file (Reader.fh_getHeaderLength fh)
    (Reader.fh_getIndexLength fh) (Reader.fh_getByteOrder fh) = Ok intData ->
  length intData = (2 * n)%nat ->
  Forall (fun len => 0 <= len) (index_lengths intData) ->
  0 <= Reader.fh_getLength fh ->
  Reader.fh_getLength fh + fold_right Z.add 0 (index_lengths intData) < 2 ^ 32 ->
  exists r',
    Reader.scanFile C fuel r false = Some (Ok r') /\
    Reader.recordPositions C r' = exact_positions intData (Reader.fh_getLength fh) /\
    Reader.eventIndex C r'
    = fold_left (Reader.addEventSize C) (index_counts intData)
                (Reader.clear C (Reader.eventIndex C r)) /\
    Reader.firstRecordHeader C r' = Some rh.
Proof. exact (scanFile_index_exact C r fuel fh rh intData n). Qed.

Lemma scanFile_index_gives_exact_positions_witness :
  let C := three_records_file in
  let r := example_reader C tt [7] tt one_event_buffer [] in
  exists r',
    Reader.scanFile C 0 r false = Some (Ok r') /\
    Reader.recordPositions C r'
    = [Reader.mkRecordPosition 80 100 1; Reader.mkRecordPosition 180 200 2;
       Reader.mkRecordPosition 380 300 3] /\
    Reader.eventIndex C r' = [1; 2; 3] /\
    Reader.firstRecordHeader C r' = Some (nth 0 three_records trailer_header).
Proof.
  intros C r.
  apply (scanFile_index_gives_exact_positions C r 0 indexed_file_header
           (nth 0 three_records trailer_header) [100; 1; 200; 2; 300; 3] 3).
  - reflexivity.
  - reflexivity.
  - reflexivity.
  - reflexivity.
  - reflexivity.
  - reflexivity.
  - repeat constructor; discriminate.
  - vm_compute. discriminate.
  - vm_compute. reflexivity.
Defined.

Lemma index_of_spec (recs : list Reader.RecordHeaderInfo) :
  length (index_of recs) = (2 * length recs)%nat /\
  index_lengths (index_of recs) = map Reader.rh_getLength recs /\
  index_counts (index_of recs) = map Reader.rh_getEntries recs /\
  forall pos, exact_positions (index_of recs) pos = record_positions pos recs.
Proof.
  induction recs as [| rh recs (L & A & B & P)]; [repeat split |].
  unfold index_of in *.
  cbn [flat_map app length index_lengths index_counts map
       exact_positions record_positions].
  rewrite L, A, B. repeat split; [lia |]. intros pos. rewrite P. reflexivity.
Qed.



(* ===================================================================== *)
(** * evioswap.c on events                                                *)
(* ===================================================================== *)

(** ** Loads and stores *)

Lemma nth_word_app (pre : list Z) (x : Z) (post : list Z) (i : Z) :
  i = Z.of_nat (length pre) ->
  Evioswap.nth_word (pre ++ x :: post) i = Evioswap.Done x.
Proof.
  intros ->. unfold Evioswap.nth_word.
  destruct (Z.ltb_spec (Z.of_nat (length pre)) 0); [lia |].
  rewrite Nat2Z.id, nth_error_app2, Nat.sub_diag by lia. reflexivity.
Qed.

Lemma set_word_app (pre : list Z) (x : Z) (post : list Z) (i v : Z) :
  i = Z.of_nat (length pre) ->
  Evioswap.set_word (pre ++ x :: post) i v = Evioswap.Done (pre ++ v :: post).
Proof.
  intros ->. unfold Evioswap.set_word.
  destruct (Z.ltb_spec (Z.of_nat (length pre)) 0); [lia |].
  rewrite Nat2Z.id, nth_error_app2, Nat.sub_diag by lia. cbn [nth_error].
  rewrite firstn_app, firstn_all, Nat.sub_diag, firstn_O, app_nil_r.
  replace (S (length pre)) with (length pre + 1)%nat by lia.
  rewrite skipn_app, skipn_all2 by lia.
  replace (length pre + 1 - length pre)%nat with 1%nat by lia.
  reflexivity.
Qed.

Lemma load_app (pre : list Z) (x : Z) (post other : list Z) (k i : Z) :
  k + i = Z.of_nat (length pre) ->
  Evioswap.load (Evioswap.mkmem (pre ++ x :: post) other) (Evioswap.Data k) i
  = Evioswap.Done x.
Proof. intros H. cbn [Evioswap.load Evioswap.data_array]. apply nth_word_app, H. Qed.

Lemma store_app (pre : list Z) (x : Z) (post other : list Z) (k i v : Z) :
  k + i = Z.of_nat (length pre) ->
  Evioswap.store (Evioswap.mkmem (pre ++ x :: post) other) (Evioswap.Data k) i v
  = Evioswap.Done (Evioswap.mkmem (pre ++ v :: post) other).
Proof.
  intros H. cbn [Evioswap.store Evioswap.data_array Evioswap.dest_array].
  rewrite set_word_app by exact H. reflexivity.
Qed.

Ltac c_simpl := cbn [Evioswap.obind Evioswap.is_null].

(** ** The three swapping loops, in place *)

(** A loop that replaces [p[i]] by [f(p[i])]. *)
Lemma c_for_loop_in_place (f : Z -> Z) (k : Z) (post other : list Z) :
  forall (ws pre : list Z) (i : Z),
    k + i = Z.of_nat (length pre) ->
    Evioswap.for_loop (length ws) i
      (fun m i =>
         Evioswap.obind (Evioswap.load m (Evioswap.Data k) i)
           (fun w => Evioswap.store m (Evioswap.Data k) i (f w)))
      (Evioswap.mkmem (pre ++ ws ++ post) other)
    = Evioswap.Done (Evioswap.mkmem (pre ++ map f ws ++ post) other).
Proof.
  induction ws as [| w ws IH]; intros pre i Hi; [reflexivity |].
  cbn [length Evioswap.for_loop app map].
  rewrite load_app by exact Hi. c_simpl.
  rewrite store_app by exact Hi. c_simpl.
  specialize (IH (pre ++ [f w]) (i + 1)).
  rewrite <- !app_assoc in IH. cbn [app] in IH. apply IH.
  rewrite length_app. cbn [length]. lia.
Qed.

Lemma swap_int32_t_in_place (pre ws post other : list Z) :
  Evioswap.swap_int32_t (Evioswap.mkmem (pre ++ ws ++ post) other)
    (Evioswap.Data (Z.of_nat (length pre))) (Z.of_nat (length ws)) Evioswap.Null
  = Evioswap.Done
      (Evioswap.mkmem (pre ++ map Evioswap.EVIO_SWAP32 ws ++ post) other,
       Evioswap.Data (Z.of_nat (length pre))).
Proof.
  unfold Evioswap.swap_int32_t. c_simpl. rewrite Nat2Z.id.
  rewrite c_for_loop_in_place by lia. reflexivity.
Qed.

Lemma EVIO_SWAP16_range (x : Z) : 0 <= Evioswap.EVIO_SWAP16 x < 2 ^ 16.
Proof.
  unfold Evioswap.EVIO_SWAP16.
  pose proof (le_val_range (rev (le_bytes 2 x))) as R.
  rewrite length_rev, le_bytes_length in R. apply R.
  apply Forall_rev, le_bytes_range.
Qed.

Lemma EVIO_SWAP16_involutive (x : Z) :
  0 <= x < 2 ^ 16 -> Evioswap.EVIO_SWAP16 (Evioswap.EVIO_SWAP16 x) = x.
Proof.
  intros Hx. unfold Evioswap.EVIO_SWAP16.
  pose proof (le_bytes_le_val (rev (le_bytes 2 x))) as E.
  rewrite length_rev, le_bytes_length in E.
  rewrite E by (apply Forall_rev, le_bytes_range).
  rewrite rev_involutive, le_val_le_bytes.
  apply Z.mod_small. exact Hx.
Qed.

Lemma swap_halves_range (w : Z) : is_word (swap_halves w).
Proof.
  unfold swap_halves, is_word.
  pose proof (EVIO_SWAP16_range (w mod 2 ^ 16)).
  pose proof (EVIO_SWAP16_range ((w / 2 ^ 16) mod 2 ^ 16)).
  change (2 ^ 32) with (2 ^ 16 * 2 ^ 16). lia.
Qed.

Lemma swap_halves_involutive (w : Z) :
  is_word w -> swap_halves (swap_halves w) = w.
Proof.
  intros Hw. unfold swap_halves at 1.
  pose proof (EVIO_SWAP16_range (w mod 2 ^ 16)) as R1.
  pose proof (EVIO_SWAP16_range ((w / 2 ^ 16) mod 2 ^ 16)) as R2.
  unfold swap_halves.
  set (a := Evioswap.EVIO_SWAP16 (w mod 2 ^ 16)) in *.
  set (b := Evioswap.EVIO_SWAP16 ((w / 2 ^ 16) mod 2 ^ 16)) in *.
  replace ((a + 2 ^ 16 * b) mod 2 ^ 16) with a.
  2:{ rewrite (Z.mul_comm (2 ^ 16) b), Z.mod_add by lia.
      symmetry. apply Z.mod_small. exact R1. }
  replace (((a + 2 ^ 16 * b) / 2 ^ 16) mod 2 ^ 16) with b.
  2:{ rewrite (Z.mul_comm (2 ^ 16) b), Z.div_add by lia.
      rewrite (Z.div_small a) by exact R1. rewrite Z.add_0_l.
      symmetry. apply Z.mod_small. exact R2. }
  unfold a, b.
  rewrite !EVIO_SWAP16_involutive by (apply Z.mod_pos_bound; lia).
  unfold is_word in Hw.
  rewrite (Z.mod_small (w / 2 ^ 16))
    by (split; [apply Z.div_pos; lia | apply Z.div_lt_upper_bound; lia]).
  pose proof (Z.div_mod w (2 ^ 16) ltac:(lia)). lia.
Qed.

Section CLoops.

Variable host : ByteOrder.

Lemma div2_even (j : Z) : (2 * j) / 2 = j.
Proof. rewrite Z.mul_comm. apply Z.div_mul. lia. Qed.

Lemma div2_odd (j : Z) : (2 * j + 1) / 2 = j.
Proof.
  replace (2 * j + 1) with (1 + j * 2) by lia.
  rewrite Z.div_add by lia. reflexivity.
Qed.

Lemma mod2_even (j : Z) : (2 * j) mod 2 = 0.
Proof. rewrite Z.mul_comm. apply Z.mod_mul. lia. Qed.

Lemma mod2_odd (j : Z) : (2 * j + 1) mod 2 = 1.
Proof.
  replace (2 * j + 1) with (1 + j * 2) by lia.
  rewrite Z.mod_add by lia. reflexivity.
Qed.

Lemma halves_low (a b : Z) :
  0 <= a < 2 ^ 16 -> (a + 2 ^ 16 * b) mod 2 ^ 16 = a.
Proof.
  intros H. rewrite (Z.mul_comm (2 ^ 16) b), Z.mod_add by lia.
  apply Z.mod_small. exact H.
Qed.

Lemma halves_high (a b : Z) :
  0 <= a < 2 ^ 16 -> 0 <= b < 2 ^ 16 -> ((a + 2 ^ 16 * b) / 2 ^ 16) mod 2 ^ 16 = b.
Proof.
  intros Ha Hb. rewrite (Z.mul_comm (2 ^ 16) b), Z.div_add by lia.
  rewrite (Z.div_small a) by exact Ha. rewrite Z.add_0_l.
  apply Z.mod_small. exact Hb.
Qed.

(** The two iterations of the loop of [swap_int16_t] on the halves of one
    word, on either host. *)
Lemma swap_int16_t_two_steps (k j w : Z) (pre post other : list Z) :
  k + j = Z.of_nat (length pre) ->
  let body := fun m i =>
    Evioswap.obind (Evioswap.load16 host m (Evioswap.Data k) i)
      (fun v => Evioswap.store16 host m (Evioswap.Data k) i (Evioswap.EVIO_SWAP16 v)) in
  Evioswap.obind (body (Evioswap.mkmem (pre ++ w :: post) other) (2 * j))
    (fun m => body m (2 * j + 1))
  = Evioswap.Done (Evioswap.mkmem (pre ++ swap_halves w :: post) other).
Proof.
  intros Hk. cbv zeta. unfold Evioswap.load16, Evioswap.store16.
  rewrite div2_even, div2_odd, mod2_even, mod2_odd.
  pose proof (EVIO_SWAP16_range (w mod 2 ^ 16)) as R1.
  pose proof (EVIO_SWAP16_range ((w / 2 ^ 16) mod 2 ^ 16)) as R2.
  pose proof (Z.mod_pos_bound w (2 ^ 16) ltac:(lia)) as R3.
  pose proof (Z.mod_pos_bound (w / 2 ^ 16) (2 ^ 16) ltac:(lia)) as R4.
  unfold Evioswap.u16, swap_halves.
  destruct host; cbn [Z.eqb Bool.eqb].
  - repeat (first [rewrite !load_app by exact Hk | rewrite store_app by exact Hk];
            c_simpl).
    rewrite (Z.mod_small (Evioswap.EVIO_SWAP16 (w mod 2 ^ 16))) by exact R1.
    rewrite halves_high by (try exact R4; exact R1).
    rewrite halves_low by exact R1.
    rewrite (Z.mod_small (Evioswap.EVIO_SWAP16 ((w / 2 ^ 16) mod 2 ^ 16))) by exact R2.
    reflexivity.
  - (* the high half comes first in memory *)
    repeat (first [rewrite !load_app by exact Hk | rewrite store_app by exact Hk];
            c_simpl).
    rewrite (Z.mod_small (Evioswap.EVIO_SWAP16 ((w / 2 ^ 16) mod 2 ^ 16))) by exact R2.
    rewrite halves_low by exact R3.
    rewrite halves_high by (try exact R3; exact R2).
    rewrite (Z.mod_small (Evioswap.EVIO_SWAP16 (w mod 2 ^ 16))) by exact R1.
    reflexivity.
Qed.

Lemma obind_assoc {A B D : Type} (m : Evioswap.outcome A)
    (f : A -> Evioswap.outcome B) (g : B -> Evioswap.outcome D) :
  Evioswap.obind (Evioswap.obind m f) g
  = Evioswap.obind m (fun a => Evioswap.obind (f a) g).
Proof. destruct m; reflexivity. Qed.

Lemma c_for_loop_halves (k : Z) (post other : list Z) :
  forall (ws pre : list Z) (j : Z),
    k + j = Z.of_nat (length pre) ->
    Evioswap.for_loop (2 * length ws) (2 * j)
      (fun m i =>
         Evioswap.obind (Evioswap.load16 host m (Evioswap.Data k) i)
           (fun v => Evioswap.store16 host m (Evioswap.Data k) i
                       (Evioswap.EVIO_SWAP16 v)))
      (Evioswap.mkmem (pre ++ ws ++ post) other)
    = Evioswap.Done (Evioswap.mkmem (pre ++ map swap_halves ws ++ post) other).
Proof.
  induction ws as [| w ws IH]; intros pre j Hj; [reflexivity |].
  replace (2 * length (w :: ws))%nat with (S (S (2 * length ws)))
    by (cbn [length]; lia).
  cbn [Evioswap.for_loop app map].
  rewrite <- obind_assoc.
  pose proof (swap_int16_t_two_steps k j w pre (ws ++ post) other Hj) as E.
  cbv zeta in E. rewrite E. c_simpl.
  specialize (IH (pre ++ [swap_halves w]) (j + 1)).
  rewrite <- !app_assoc in IH. cbn [app] in IH.
  replace (2 * j + 1 + 1) with (2 * (j + 1)) by lia.
  apply IH. rewrite length_app. cbn [length]. lia.
Qed.

Lemma swap_int16_t_in_place (pre ws post other : list Z) :
  Z.of_nat (length ws) < 2 ^ 31 ->
  Evioswap.swap_int16_t host (Evioswap.mkmem (pre ++ ws ++ post) other)
    (Evioswap.Data (Z.of_nat (length pre)))
    (Evioswap.u32 (Z.of_nat (length ws) * 2)) Evioswap.Null
  = Evioswap.Done
      (Evioswap.mkmem (pre ++ map swap_halves ws ++ post) other,
       Evioswap.Data (Z.of_nat (length pre))).
Proof.
  intros B. unfold Evioswap.swap_int16_t. c_simpl.
  replace (Z.to_nat (Evioswap.u32 (Z.of_nat (length ws) * 2)))
    with (2 * length ws)%nat
    by (unfold Evioswap.u32; rewrite Z.mod_small by lia; lia).
  pose proof (c_for_loop_halves (Z.of_nat (length pre)) post other ws pre 0) as E.
  rewrite Z.mul_0_r in E. rewrite E by lia. reflexivity.
Qed.

(** One iteration of the loop of [swap_int64_t] on a pair of words, on
    either host. *)
Lemma swap_int64_t_step (k j a b : Z) (pre post other : list Z) :
  is_word a -> is_word b ->
  k + 2 * j = Z.of_nat (length pre) ->
  Evioswap.obind
    (Evioswap.load64 host (Evioswap.mkmem (pre ++ a :: b :: post) other)
       (Evioswap.Data k) j)
    (fun v => Evioswap.store64 host (Evioswap.mkmem (pre ++ a :: b :: post) other)
                (Evioswap.Data k) j (Evioswap.EVIO_SWAP64 v))
  = Evioswap.Done
      (Evioswap.mkmem
         (pre ++ Evioswap.EVIO_SWAP32 b :: Evioswap.EVIO_SWAP32 a :: post) other).
Proof.
  intros Ha Hb Hk. unfold Evioswap.load64, Evioswap.store64.
  pose proof (EVIO_SWAP32_range a) as Ra.
  pose proof (EVIO_SWAP32_range b) as Rb.
  rewrite load_app by exact Hk. c_simpl.
  change (pre ++ a :: b :: post) with (pre ++ [a] ++ b :: post).
  rewrite app_assoc.
  rewrite load_app by (rewrite length_app; cbn [length]; lia). c_simpl.
  rewrite <- app_assoc. cbn [app].
  assert (Lo : forall u v, 0 <= u < 2 ^ 32 -> (u + 2 ^ 32 * v) mod 2 ^ 32 = u).
  { intros u v Hu. rewrite (Z.mul_comm (2 ^ 32) v), Z.mod_add by lia.
    apply Z.mod_small. exact Hu. }
  assert (Hi : forall u v, 0 <= u < 2 ^ 32 -> 0 <= v < 2 ^ 32 ->
                           ((u + 2 ^ 32 * v) / 2 ^ 32) mod 2 ^ 32 = v).
  { intros u v Hu Hv. rewrite (Z.mul_comm (2 ^ 32) v), Z.div_add by lia.
    rewrite (Z.div_small u) by exact Hu. rewrite Z.add_0_l.
    apply Z.mod_small. exact Hv. }
  destruct host.
  - rewrite EVIO_SWAP64_split by exact Ha.
    rewrite Lo by exact Rb. rewrite Hi by (try exact Rb; exact Ra).
    rewrite store_app by exact Hk. c_simpl.
    change (pre ++ Evioswap.EVIO_SWAP32 b :: b :: post)
      with (pre ++ [Evioswap.EVIO_SWAP32 b] ++ b :: post).
    rewrite app_assoc.
    rewrite store_app by (rewrite length_app; cbn [length]; lia).
    rewrite <- app_assoc. reflexivity.
  - rewrite EVIO_SWAP64_split by exact Hb.
    rewrite Lo by exact Ra. rewrite Hi by (try exact Ra; exact Rb).
    rewrite store_app by exact Hk. c_simpl.
    change (pre ++ Evioswap.EVIO_SWAP32 b :: b :: post)
      with (pre ++ [Evioswap.EVIO_SWAP32 b] ++ b :: post).
    rewrite app_assoc.
    rewrite store_app by (rewrite length_app; cbn [length]; lia).
    rewrite <- app_assoc. reflexivity.
Qed.

Lemma c_swapped_pair_words_length (ps : list (Z * Z)) :
  length (c_swapped_pair_words ps) = (2 * length ps)%nat.
Proof.
  induction ps as [| p ps IH]; cbn [c_swapped_pair_words flat_map length app] in *;
    [reflexivity |].
  fold (c_swapped_pair_words ps). lia.
Qed.

Lemma c_for_loop_pairs (k : Z) (post other : list Z) :
  forall (ps : list (Z * Z)) (pre : list Z) (j : Z),
    Forall is_word (pair_words ps) ->
    k + 2 * j = Z.of_nat (length pre) ->
    Evioswap.for_loop (length ps) j
      (fun m i =>
         Evioswap.obind (Evioswap.load64 host m (Evioswap.Data k) i)
           (fun v => Evioswap.store64 host m (Evioswap.Data k) i
                       (Evioswap.EVIO_SWAP64 v)))
      (Evioswap.mkmem (pre ++ pair_words ps ++ post) other)
    = Evioswap.Done (Evioswap.mkmem (pre ++ c_swapped_pair_words ps ++ post) other).
Proof.
  induction ps as [| [a b] ps IH]; intros pre j W Hj; [reflexivity |].
  cbn [length Evioswap.for_loop pair_words c_swapped_pair_words flat_map
       app fst snd] in *.
  fold (pair_words ps) in *. fold (c_swapped_pair_words ps).
  pose proof (Forall_inv W) as Wa. pose proof (Forall_inv (Forall_inv_tail W)) as Wb.
  pose proof (Forall_inv_tail (Forall_inv_tail W)) as W'.
  rewrite swap_int64_t_step by assumption. c_simpl.
  specialize (IH ((pre ++ [Evioswap.EVIO_SWAP32 b]) ++ [Evioswap.EVIO_SWAP32 a])
                 (j + 1) W').
  rewrite <- !app_assoc in IH. cbn [app] in IH.
  apply IH. rewrite !length_app. cbn [length]. lia.
Qed.

Lemma swap_int64_t_in_place (pre : list Z) (ps : list (Z * Z)) (post other : list Z) :
  Forall is_word (pair_words ps) ->
  Evioswap.swap_int64_t host (Evioswap.mkmem (pre ++ pair_words ps ++ post) other)
    (Evioswap.Data (Z.of_nat (length pre)))
    (Z.of_nat (length (pair_words ps)) / 2) Evioswap.Null
  = Evioswap.Done
      (Evioswap.mkmem (pre ++ c_swapped_pair_words ps ++ post) other,
       Evioswap.Data (Z.of_nat (length pre))).
Proof.
  intros W. unfold Evioswap.swap_int64_t. c_simpl.
  replace (Z.to_nat (Z.of_nat (length (pair_words ps)) / 2)) with (length ps).
  2:{ rewrite pair_words_length.
      replace (Z.of_nat (2 * length ps)) with (Z.of_nat (length ps) * 2) by lia.
      rewrite Z.div_mul by lia. lia. }
  rewrite (c_for_loop_pairs (Z.of_nat (length pre)) post other ps pre 0 W) by lia.
  reflexivity.
Qed.

End CLoops.

(** ** The C swapper on events *)

Section CEvents.

Variable host : ByteOrder.
Variable eviofmt : Evioswap.mem -> Evioswap.ptr -> Z -> Z * list Z.
Variable eviofmtswap :
  Evioswap.mem -> Evioswap.ptr -> Z -> list Z -> Z -> bool -> Z -> Evioswap.mem * Z.

Local Abbreviation swap_data := (Evioswap.swap_data host eviofmt eviofmtswap).

(** The switch of [swap_data], by case. *)
Lemma c_swap_data_case (fuel : nat) (tolocal : bool) (m : Evioswap.mem)
    (data : Evioswap.ptr) (type length : Z) (dest : Evioswap.ptr) :
  swap_data (S fuel) tolocal m data type length dest =
  match c_data_case_of type with
  | CInts =>
      Evioswap.obind (Evioswap.swap_int32_t m data length dest)
        (fun r => Evioswap.Done (fst r))
  | CShorts =>
      Evioswap.obind
        (Evioswap.swap_int16_t host m data (Evioswap.u32 (length * 2)) dest)
        (fun r => Evioswap.Done (fst r))
  | CLongs =>
      Evioswap.obind (Evioswap.swap_int64_t host m data (length / 2) dest)
        (fun r => Evioswap.Done (fst r))
  | CBytes => Evioswap.copy_data m data length dest
  | CComposite =>
      Evioswap.obind
        (Evioswap.swap_composite_t eviofmt eviofmtswap fuel m data tolocal dest length)
        (fun r => Evioswap.Done (fst r))
  | CFragments f =>
      Evioswap.fragment_loop fuel
        (fun m b d => c_swap_fragment_body f (swap_data fuel tolocal) m b tolocal d)
        (c_fraglen_of f) m data tolocal dest 0 length
  end.
Proof.
  assert (P : forall A (o : Evioswap.outcome (Evioswap.mem * A)),
             Evioswap.obind o (fun '(m, _) => Evioswap.Done m)
             = Evioswap.obind o (fun r => Evioswap.Done (fst r))).
  { intros A [[m0 a] | |]; reflexivity. }
  destruct type as [| p | p]; [reflexivity | | reflexivity].
  do 7 (try (destruct p as [p | p |]; try reflexivity; try apply P)).
Qed.

Lemma map_EVIO_SWAP32_involutive (ws : list Z) :
  Forall is_word ws ->
  map Evioswap.EVIO_SWAP32 (map Evioswap.EVIO_SWAP32 ws) = ws.
Proof.
  induction 1 as [| w ws Hw _ IH]; [reflexivity |].
  cbn [map]. rewrite EVIO_SWAP32_involutive, IH by exact Hw. reflexivity.
Qed.

Lemma map_swap_halves_involutive (ws : list Z) :
  Forall is_word ws -> map swap_halves (map swap_halves ws) = ws.
Proof.
  induction 1 as [| w ws Hw _ IH]; [reflexivity |].
  cbn [map]. rewrite swap_halves_involutive, IH by exact Hw. reflexivity.
Qed.

(** The pairs of a swapped list of 64-bit values. *)
Lemma c_swapped_pairs (ps : list (Z * Z)) :
  Forall is_word (pair_words ps) ->
  let qs := map (fun p => (Evioswap.EVIO_SWAP32 (snd p),
                           Evioswap.EVIO_SWAP32 (fst p))) ps in
  pair_words qs = c_swapped_pair_words ps /\
  c_swapped_pair_words qs = pair_words ps /\
  length qs = length ps /\ Forall is_word (pair_words qs).
Proof.
  intros H. cbv zeta. induction ps as [| [a b] ps IH].
  - repeat split. constructor.
  - cbn [pair_words flat_map app fst snd] in H. fold (pair_words ps) in H.
    pose proof (Forall_inv H) as Ha. pose proof (Forall_inv (Forall_inv_tail H)) as Hb.
    destruct (IH (Forall_inv_tail (Forall_inv_tail H))) as (E1 & E2 & E3 & E4).
    cbn [map pair_words c_swapped_pair_words flat_map app fst snd length].
    fold (pair_words ps). fold (c_swapped_pair_words ps).
    fold (pair_words (map (fun p => (Evioswap.EVIO_SWAP32 (snd p),
                                     Evioswap.EVIO_SWAP32 (fst p))) ps)).
    fold (c_swapped_pair_words (map (fun p => (Evioswap.EVIO_SWAP32 (snd p),
                                     Evioswap.EVIO_SWAP32 (fst p))) ps)).
    rewrite E1, E2, E3, !EVIO_SWAP32_involutive by assumption.
    repeat split. constructor; [apply EVIO_SWAP32_range |].
    constructor; [apply EVIO_SWAP32_range |]. rewrite <- E1. exact E4.
Qed.

Lemma c_foreign_length (p : part) (y x : list Z) :
  c_foreign p y x -> length x = length y.
Proof.
  induction 1; cbn [length]; rewrite ?length_map, ?length_app,
    ?pair_words_length, ?c_swapped_pair_words_length; congruence.
Qed.

(** The first word of a fragment in local order gives its length. *)
Lemma c_fragment_first_word (f : fragment) (b b' : list Z) :
  c_foreign (Fragment f) b b' ->
  Z.of_nat (length b) < 2 ^ 31 ->
  exists w rest w' rest',
    b = w :: rest /\ b' = w' :: rest' /\
    c_fraglen_of f w = Z.of_nat (length b).
Proof.
  intros H B. inversion H; subst; cbn [length] in *;
    do 4 eexists; (split; [reflexivity |]); (split; [reflexivity |]);
    cbn [c_fraglen_of]; unfold Evioswap.u32; rewrite Z.mod_small; lia.
Qed.

Lemma load_head (pre b tail other : list Z) (w : Z) (rest : list Z) (k l : Z) :
  b = w :: rest -> k + l = Z.of_nat (length pre) ->
  Evioswap.load (Evioswap.mkmem (pre ++ b ++ tail) other) (Evioswap.Data k) l
  = Evioswap.Done w.
Proof. intros -> H. cbn [app]. apply load_app. exact H. Qed.

(** The header words of a fragment are swapped, then its data. *)
Lemma c_swap_bank_body_in_place (fuel : nat) (tolocal : bool)
    (pre post other : list Z) (len w1 : Z) (y x : list Z) :
  is_word len -> is_word w1 -> len = Z.of_nat (length y) + 1 ->
  length x = length y ->
  let sw := Evioswap.EVIO_SWAP32 in
  let src := if tolocal then sw len :: sw w1 :: x else len :: w1 :: y in
  let hdr := if tolocal then [len; w1] else [sw len; sw w1] in
  Evioswap.swap_bank_body (swap_data fuel tolocal)
    (Evioswap.mkmem (pre ++ src ++ post) other)
    (Evioswap.Data (Z.of_nat (length pre))) tolocal Evioswap.Null
  = swap_data fuel tolocal
      (Evioswap.mkmem ((pre ++ hdr) ++ (if tolocal then x else y) ++ post) other)
      (Evioswap.Data (Z.of_nat (length (pre ++ hdr))))
      (Z.land (Z.shiftr w1 8) 0x3f) (Z.of_nat (length y)) Evioswap.Null.
Proof.
  intros Hlen Hw1 El Exy. cbv zeta.
  unfold Evioswap.swap_bank_body, Evioswap.dest_at.
  cbn [Evioswap.is_null Evioswap.padd negb].
  assert (U : Evioswap.u32 (len - 1) = Z.of_nat (length y))
    by (unfold Evioswap.u32, is_word in *; rewrite Z.mod_small; lia).
  destruct tolocal; cbn [app negb].
  - change (pre ++ Evioswap.EVIO_SWAP32 len :: Evioswap.EVIO_SWAP32 w1 :: x ++ post)
      with (pre ++ [Evioswap.EVIO_SWAP32 len; Evioswap.EVIO_SWAP32 w1] ++ (x ++ post)).
    change 2 with (Z.of_nat (length [Evioswap.EVIO_SWAP32 len;
                                     Evioswap.EVIO_SWAP32 w1])) at 1.
    rewrite swap_int32_t_in_place. c_simpl. cbn [map app].
    rewrite !EVIO_SWAP32_involutive by assumption.
    rewrite load_app by lia. c_simpl.
    change (pre ++ len :: w1 :: x ++ post) with (pre ++ [len] ++ w1 :: x ++ post).
    rewrite app_assoc.
    rewrite load_app by (rewrite length_app; cbn [length]; lia). c_simpl.
    rewrite U, <- !app_assoc, length_app. cbn [length app].
    do 2 f_equal. lia.
  - c_simpl. rewrite load_app by lia. c_simpl.
    change (pre ++ len :: w1 :: y ++ post) with (pre ++ [len] ++ w1 :: y ++ post).
    rewrite app_assoc.
    rewrite load_app by (rewrite length_app; cbn [length]; lia). c_simpl.
    rewrite <- app_assoc.
    change (pre ++ [len] ++ w1 :: y ++ post) with (pre ++ [len; w1] ++ (y ++ post)).
    change 2 with (Z.of_nat (length [len; w1])) at 1.
    rewrite swap_int32_t_in_place. c_simpl. cbn [map app].
    rewrite U, <- !app_assoc, length_app. cbn [length app].
    do 2 f_equal. lia.
Qed.

Lemma c_swap_segment_body_in_place (fuel : nat) (tolocal : bool)
    (pre post other : list Z) (d : Z) (y x : list Z) :
  is_word d -> Z.land d 0xffff = Z.of_nat (length y) ->
  length x = length y ->
  let sw := Evioswap.EVIO_SWAP32 in
  let src := if tolocal then sw d :: x else d :: y in
  let hdr := if tolocal then [d] else [sw d] in
  Evioswap.swap_segment_body (swap_data fuel tolocal)
    (Evioswap.mkmem (pre ++ src ++ post) other)
    (Evioswap.Data (Z.of_nat (length pre))) tolocal Evioswap.Null
  = swap_data fuel tolocal
      (Evioswap.mkmem ((pre ++ hdr) ++ (if tolocal then x else y) ++ post) other)
      (Evioswap.Data (Z.of_nat (length (pre ++ hdr))))
      (Z.land (Z.shiftr d 16) 0x3f) (Z.of_nat (length y)) Evioswap.Null.
Proof.
  intros Hd El Exy. cbv zeta.
  unfold Evioswap.swap_segment_body, Evioswap.dest_at.
  cbn [Evioswap.is_null Evioswap.padd negb].
  destruct tolocal; cbn [app negb].
  - change (pre ++ Evioswap.EVIO_SWAP32 d :: x ++ post)
      with (pre ++ [Evioswap.EVIO_SWAP32 d] ++ (x ++ post)).
    change 1 with (Z.of_nat (length [Evioswap.EVIO_SWAP32 d])) at 1.
    rewrite swap_int32_t_in_place. c_simpl. cbn [map app].
    rewrite !EVIO_SWAP32_involutive by assumption.
    rewrite load_app by lia. c_simpl.
    rewrite El, <- !app_assoc, length_app. cbn [length app].
    do 2 f_equal. lia.
  - c_simpl. rewrite load_app by lia. c_simpl.
    change (pre ++ d :: y ++ post) with (pre ++ [d] ++ (y ++ post)).
    change 1 with (Z.of_nat (length [d])) at 1.
    rewrite swap_int32_t_in_place. c_simpl. cbn [map app].
    rewrite El, <- !app_assoc, length_app. cbn [length app].
    do 2 f_equal. lia.
Qed.

Lemma c_swap_tagsegment_body_in_place (fuel : nat) (tolocal : bool)
    (pre post other : list Z) (d : Z) (y x : list Z) :
  is_word d -> Z.land d 0xffff = Z.of_nat (length y) ->
  length x = length y ->
  let sw := Evioswap.EVIO_SWAP32 in
  let src := if tolocal then sw d :: x else d :: y in
  let hdr := if tolocal then [d] else [sw d] in
  Evioswap.swap_tagsegment_body (swap_data fuel tolocal)
    (Evioswap.mkmem (pre ++ src ++ post) other)
    (Evioswap.Data (Z.of_nat (length pre))) tolocal Evioswap.Null
  = swap_data fuel tolocal
      (Evioswap.mkmem ((pre ++ hdr) ++ (if tolocal then x else y) ++ post) other)
      (Evioswap.Data (Z.of_nat (length (pre ++ hdr))))
      (Z.land (Z.shiftr d 16) 0xf) (Z.of_nat (length y)) Evioswap.Null.
Proof.
  intros Hd El Exy. cbv zeta.
  unfold Evioswap.swap_tagsegment_body, Evioswap.dest_at.
  cbn [Evioswap.is_null Evioswap.padd negb].
  destruct tolocal; cbn [app negb].
  - change (pre ++ Evioswap.EVIO_SWAP32 d :: x ++ post)
      with (pre ++ [Evioswap.EVIO_SWAP32 d] ++ (x ++ post)).
    change 1 with (Z.of_nat (length [Evioswap.EVIO_SWAP32 d])) at 1.
    rewrite swap_int32_t_in_place. c_simpl. cbn [map app].
    rewrite !EVIO_SWAP32_involutive by assumption.
    rewrite load_app by lia. c_simpl.
    rewrite El, <- !app_assoc, length_app. cbn [length app].
    do 2 f_equal. lia.
  - c_simpl. rewrite load_app by lia. c_simpl.
    change (pre ++ d :: y ++ post) with (pre ++ [d] ++ (y ++ post)).
    change 1 with (Z.of_nat (length [d])) at 1.
    rewrite swap_int32_t_in_place. c_simpl. cbn [map app].
    rewrite El, <- !app_assoc, length_app. cbn [length app].
    do 2 f_equal. lia.
Qed.

(** The in-place swap of a well-formed part gives its image in the other
    byte order, and the in-place swap of the image gives the part back. *)
Lemma c_foreign_swaps_in_place (p : part) (y x : list Z) :
  c_foreign p y x -> c_swaps_in_place host eviofmt eviofmtswap p y x.
Proof.
  induction 1 as
    [ type ws Hc Hi | type ws Hc Hi | type ps Hc Hi | type ws Hc
    | type f y x Hc Hf IH
    | f
    | f b b' r r' Hb IHb Hr IHr
    | len w1 y x El Hlen Hw1 Hd IH
    | d y x El Hd Hdat IH
    | d y x El Hd Hdat IH ];
    unfold c_swaps_in_place; intros fuel pre post other tolocal B; cbv zeta.
  - (* ints *)
    intros F. destruct fuel as [| fuel]; [lia |].
    rewrite c_swap_data_case, Hc.
    destruct tolocal.
    + pose proof (swap_int32_t_in_place pre (map Evioswap.EVIO_SWAP32 ws) post other) as E.
      rewrite length_map in E. rewrite E. c_simpl. cbn [fst].
      rewrite map_EVIO_SWAP32_involutive by exact Hi. reflexivity.
    + rewrite swap_int32_t_in_place. reflexivity.
  - (* shorts *)
    intros F. destruct fuel as [| fuel]; [lia |].
    rewrite c_swap_data_case, Hc.
    destruct tolocal.
    + pose proof (swap_int16_t_in_place host pre (map swap_halves ws) post other) as E.
      rewrite length_map in E. rewrite E by lia. c_simpl. cbn [fst].
      rewrite map_swap_halves_involutive by exact Hi. reflexivity.
    + rewrite swap_int16_t_in_place by lia. reflexivity.
  - (* longs *)
    intros F. destruct fuel as [| fuel]; [lia |].
    rewrite c_swap_data_case, Hc.
    destruct tolocal.
    + destruct (c_swapped_pairs ps Hi) as (E1 & E2 & E3 & E4).
      rewrite <- E1.
      replace (length (pair_words ps))
        with (length (pair_words
                (map (fun p => (Evioswap.EVIO_SWAP32 (snd p),
                                Evioswap.EVIO_SWAP32 (fst p))) ps)))
        by (rewrite !pair_words_length; lia).
      rewrite swap_int64_t_in_place by exact E4. c_simpl. cbn [fst].
      rewrite E2. reflexivity.
    + rewrite swap_int64_t_in_place by exact Hi. reflexivity.
  - (* bytes *)
    intros F. destruct fuel as [| fuel]; [lia |].
    rewrite c_swap_data_case, Hc. destruct tolocal; reflexivity.
  - (* a container *)
    intros F. destruct fuel as [| fuel]; [lia |].
    rewrite c_swap_data_case, Hc.
    specialize (IH fuel pre post other tolocal B). cbv zeta in IH.
    specialize (IH ltac:(lia) fuel (Z.of_nat (length pre)) 0).
    rewrite Z.add_0_l in IH. apply IH; lia.
  - (* no fragment left *)
    intros F n base l Ho H0 Hl Hn. destruct n as [| n]; [cbn in Hn; lia |].
    cbn [Evioswap.fragment_loop length].
    rewrite Z.add_0_r, Z.ltb_irrefl. destruct tolocal; reflexivity.
  - (* a fragment, then the others *)
    intros F n base l Ho H0 Hl Hn.
    pose proof (c_foreign_length _ _ _ Hb) as Lb.
    pose proof (c_foreign_length _ _ _ Hr) as Lr.
    rewrite length_app in *.
    destruct (c_fragment_first_word f b b' Hb ltac:(lia))
      as (w & rest & w' & rest' & Eb & Eb' & Efl).
    assert (Pb : (1 <= length b)%nat) by (rewrite Eb; cbn [length]; lia).
    destruct n as [| n]; [lia |].
    cbn [Evioswap.fragment_loop].
    replace (l <? l + Z.of_nat (length b + length r)) with true
      by (symmetry; apply Z.ltb_lt; lia).
    unfold Evioswap.dest_at. cbn [Evioswap.is_null Evioswap.padd].
    rewrite Ho.
    specialize (IHb fuel pre (if tolocal then r' ++ post else r ++ post) other tolocal).
    specialize (IHr fuel (pre ++ (if tolocal then b else b')) post other tolocal).
    cbv zeta in IHb, IHr.
    assert (U : Evioswap.u32 (l + Z.of_nat (length b)) = l + Z.of_nat (length b))
      by (unfold Evioswap.u32; rewrite Z.mod_small; lia).
    destruct tolocal.
    + rewrite <- app_assoc.
      rewrite IHb by (rewrite ?length_app; lia). c_simpl.
      rewrite (load_head pre b (r' ++ post) other w rest base l Eb Ho). c_simpl.
      rewrite Efl, U.
      rewrite app_assoc.
      replace (l + Z.of_nat (length b + length r))
        with ((l + Z.of_nat (length b)) + Z.of_nat (length r)) by lia.
      replace (pre ++ (b ++ r) ++ post) with ((pre ++ b) ++ r ++ post)
        by (rewrite <- !app_assoc; reflexivity).
      apply IHr; rewrite ?length_app; lia.
    + rewrite <- app_assoc.
      rewrite (load_head pre b (r ++ post) other w rest base l Eb Ho). c_simpl.
      rewrite IHb by (rewrite ?length_app; lia). c_simpl.
      rewrite Efl, U.
      rewrite app_assoc.
      replace (l + Z.of_nat (length b + length r))
        with ((l + Z.of_nat (length b)) + Z.of_nat (length r)) by lia.
      replace (pre ++ (b' ++ r') ++ post) with ((pre ++ b') ++ r' ++ post)
        by (rewrite <- !app_assoc; reflexivity).
      apply IHr; rewrite ?length_app; lia.
  - (* bank *)
    intros F. cbn [c_swap_fragment_body].
    pose proof (c_foreign_length _ _ _ Hd) as L.
    cbn [length] in B, F.
    pose proof (c_swap_bank_body_in_place fuel tolocal pre post other len w1 y x
                  Hlen Hw1 El L) as E.
    cbv zeta in E. rewrite E.
    specialize (IH fuel (pre ++ (if tolocal then [len; w1]
                                 else [Evioswap.EVIO_SWAP32 len;
                                       Evioswap.EVIO_SWAP32 w1]))
                   post other tolocal).
    cbv zeta in IH.
    destruct tolocal; rewrite IH by (rewrite ?length_app; cbn [length]; lia);
      rewrite <- app_assoc; reflexivity.
  - (* segment *)
    intros F. cbn [c_swap_fragment_body].
    pose proof (c_foreign_length _ _ _ Hdat) as L.
    cbn [length] in B, F.
    pose proof (c_swap_segment_body_in_place fuel tolocal pre post other d y x
                  Hd El L) as E.
    cbv zeta in E. rewrite E.
    specialize (IH fuel (pre ++ (if tolocal then [d]
                                 else [Evioswap.EVIO_SWAP32 d]))
                   post other tolocal).
    cbv zeta in IH.
    destruct tolocal; rewrite IH by (rewrite ?length_app; cbn [length]; lia);
      rewrite <- app_assoc; reflexivity.
  - (* tagsegment *)
    intros F. cbn [c_swap_fragment_body].
    pose proof (c_foreign_length _ _ _ Hdat) as L.
    cbn [length] in B, F.
    pose proof (c_swap_tagsegment_body_in_place fuel tolocal pre post other d y x
                  Hd El L) as E.
    cbv zeta in E. rewrite E.
    specialize (IH fuel (pre ++ (if tolocal then [d]
                                 else [Evioswap.EVIO_SWAP32 d]))
                   post other tolocal).
    cbv zeta in IH.
    destruct tolocal; rewrite IH by (rewrite ?length_app; cbn [length]; lia);
      rewrite <- app_assoc; reflexivity.
Qed.


End CEvents.

(** evioswap.c, in place: an event without composite data that is well
    formed in the other byte order is turned into the order of the host by
    [evioswap(buf, 1, NULL)], and [evioswap(buf, 0, NULL)] turns it back,
    so that swapping twice gives the words the buffer started with.  This
    holds on a little-endian and on a big-endian host; no access leaves
    the event, and the words around the event and the other array are not
    touched. *)
Theorem evioswap_c_in_place_round_trip
    (host : ByteOrder)
    (eviofmt : Evioswap.mem -> Evioswap.ptr -> Z -> Z * list Z)
    (eviofmtswap : Evioswap.mem -> Evioswap.ptr -> Z -> list Z -> Z -> bool -> Z
                   -> Evioswap.mem * Z)
    (y x pre post other : list Z) (fuel : nat) :
  c_foreign (Fragment Bank) y x ->
  Z.of_nat (length pre + length y + length post) < 2 ^ 31 ->
  (length y + 1 <= fuel)%nat ->
  let buf := Evioswap.Data (Z.of_nat (length pre)) in
  Evioswap.evioswap host eviofmt eviofmtswap fuel
    (Evioswap.mkmem (pre ++ x ++ post) other) buf true Evioswap.Null
  = Evioswap.Done (Evioswap.mkmem (pre ++ y ++ post) other) /\
  Evioswap.evioswap host eviofmt eviofmtswap fuel
    (Evioswap.mkmem (pre ++ y ++ post) other) buf false Evioswap.Null
  = Evioswap.Done (Evioswap.mkmem (pre ++ x ++ post) other).
Proof.
  intros H B F. pose proof (c_foreign_swaps_in_place host eviofmt eviofmtswap _ _ _ H) as S.
  unfold c_swaps_in_place in S. cbv zeta.
  unfold Evioswap.evioswap, Evioswap.swap_bank.
  split.
  - apply (S fuel pre post other true); [exact B | exact F].
  - apply (S fuel pre post other false); [exact B | exact F].
Qed.

Lemma sample_event_is_c_foreign :
  c_foreign (Fragment Bank) sample_event sample_event_foreign.
Proof.
  assert (I : forall v, (0 <=? v) = true -> (v <? 2 ^ 32) = true -> is_word v).
  { intros v A B. apply Z.leb_le in A. apply Z.ltb_lt in B. split; assumption. }
  apply (c_foreign_bank 9 0x00071000
           [3; 0x00010100; 0x11223344; 5; 3; 0x00022000; 0x05040001; 0x00010002]
           [0x03000000; 0x00010100; 0x44332211; 0x05000000;
            0x03000000; 0x00200200; 0x01000405; 0x01000200]);
    [reflexivity | apply I; reflexivity | apply I; reflexivity |].
  apply (c_foreign_container _ Bank); [reflexivity |].
  apply (c_foreign_cons Bank [3; 0x00010100; 0x11223344; 5]
           [0x03000000; 0x00010100; 0x44332211; 0x05000000]
           [3; 0x00022000; 0x05040001; 0x00010002]
           [0x03000000; 0x00200200; 0x01000405; 0x01000200]).
  - apply (c_foreign_bank 3 0x00010100 [0x11223344; 5] [0x44332211; 0x05000000]);
      [reflexivity | apply I; reflexivity | apply I; reflexivity |].
    apply (c_foreign_ints _ [0x11223344; 5]); [reflexivity |].
    repeat constructor; apply I; reflexivity.
  - apply (c_foreign_cons Bank [3; 0x00022000; 0x05040001; 0x00010002]
             [0x03000000; 0x00200200; 0x01000405; 0x01000200] [] []);
      [| apply c_foreign_nil].
    apply (c_foreign_bank 3 0x00022000 [0x05040001; 0x00010002]
             [0x01000405; 0x01000200]);
      [reflexivity | apply I; reflexivity | apply I; reflexivity |].
    apply (c_foreign_container _ Segment); [reflexivity |].
    apply (c_foreign_cons Segment [0x05040001; 0x00010002]
             [0x01000405; 0x01000200] [] []); [| apply c_foreign_nil].
    apply (c_foreign_segment 0x05040001 [0x00010002] [0x01000200]);
      [reflexivity | apply I; reflexivity |].
    apply (c_foreign_shorts _ [0x00010002]); [reflexivity |].
    repeat constructor; apply I; reflexivity.
Qed.

Lemma evioswap_c_in_place_round_trip_witness :
  let eviofmt := fun (_ : Evioswap.mem) (_ : Evioswap.ptr) (_ : Z) => (0, @nil Z) in
  let eviofmtswap :=
    fun (m : Evioswap.mem) (_ : Evioswap.ptr) (_ : Z) (_ : list Z) (_ : Z)
        (_ : bool) (_ : Z) => (m, 0) in
  let buf := Evioswap.Data 1 in
  Evioswap.evioswap BIG_ENDIAN eviofmt eviofmtswap 11
    (Evioswap.mkmem ([7] ++ sample_event_foreign ++ [8]) [5]) buf true Evioswap.Null
  = Evioswap.Done (Evioswap.mkmem ([7] ++ sample_event ++ [8]) [5]) /\
  Evioswap.evioswap BIG_ENDIAN eviofmt eviofmtswap 11
    (Evioswap.mkmem ([7] ++ sample_event ++ [8]) [5]) buf false Evioswap.Null
  = Evioswap.Done (Evioswap.mkmem ([7] ++ sample_event_foreign ++ [8]) [5]).
Proof.
  intros eviofmt eviofmtswap.
  apply (evioswap_c_in_place_round_trip BIG_ENDIAN eviofmt eviofmtswap
           sample_event sample_event_foreign [7] [8] [5] 11).
  - exact sample_event_is_c_foreign.
  - vm_compute. reflexivity.
  - vm_compute. lia.
Defined.

(** ** The C swapper with a destination *)

Lemma load_app_dest (data dpre : list Z) (x : Z) (dpost : list Z) (k i : Z) :
  k + i = Z.of_nat (length dpre) ->
  Evioswap.load (Evioswap.mkmem data (dpre ++ x :: dpost)) (Evioswap.Dest k) i
  = Evioswap.Done x.
Proof. intros H. cbn [Evioswap.load Evioswap.dest_array]. apply nth_word_app, H. Qed.

Lemma store_app_dest (data dpre : list Z) (x : Z) (dpost : list Z) (k i v : Z) :
  k + i = Z.of_nat (length dpre) ->
  Evioswap.store (Evioswap.mkmem data (dpre ++ x :: dpost)) (Evioswap.Dest k) i v
  = Evioswap.Done (Evioswap.mkmem data (dpre ++ v :: dpost)).
Proof.
  intros H. cbn [Evioswap.store Evioswap.data_array Evioswap.dest_array].
  rewrite set_word_app by exact H. reflexivity.
Qed.

(** A loop that stores [f(data[i])] in [dest[i]]. *)
Lemma c_for_loop_copy (f : Z -> Z) (k kd : Z) (post dpost : list Z) :
  forall (ws pre dold dpre : list Z) (i : Z),
    k + i = Z.of_nat (length pre) -> kd + i = Z.of_nat (length dpre) ->
    length dold = length ws ->
    Evioswap.for_loop (length ws) i
      (fun m i =>
         Evioswap.obind (Evioswap.load m (Evioswap.Data k) i)
           (fun w => Evioswap.store m (Evioswap.Dest kd) i (f w)))
      (Evioswap.mkmem (pre ++ ws ++ post) (dpre ++ dold ++ dpost))
    = Evioswap.Done (Evioswap.mkmem (pre ++ ws ++ post) (dpre ++ map f ws ++ dpost)).
Proof.
  induction ws as [| w ws IH]; intros pre dold dpre i Hi Hd Ho.
  - destruct dold; [reflexivity | discriminate].
  - destruct dold as [| d0 dold]; [discriminate |].
    cbn [length Evioswap.for_loop app map].
    rewrite load_app by exact Hi. c_simpl.
    rewrite store_app_dest by exact Hd. c_simpl.
    specialize (IH (pre ++ [w]) dold (dpre ++ [f w]) (i + 1)).
    rewrite <- !app_assoc in IH. cbn [app] in IH. apply IH.
    + rewrite length_app. cbn [length]. lia.
    + rewrite length_app. cbn [length]. lia.
    + cbn [length] in Ho. lia.
Qed.

Lemma swap_int32_t_copy (pre ws post dpre dold dpost : list Z) :
  length dold = length ws ->
  Evioswap.swap_int32_t
    (Evioswap.mkmem (pre ++ ws ++ post) (dpre ++ dold ++ dpost))
    (Evioswap.Data (Z.of_nat (length pre))) (Z.of_nat (length ws))
    (Evioswap.Dest (Z.of_nat (length dpre)))
  = Evioswap.Done
      (Evioswap.mkmem (pre ++ ws ++ post)
         (dpre ++ map Evioswap.EVIO_SWAP32 ws ++ dpost),
       Evioswap.Dest (Z.of_nat (length dpre))).
Proof.
  intros Ho. unfold Evioswap.swap_int32_t. c_simpl. rewrite Nat2Z.id.
  rewrite c_for_loop_copy by (try exact Ho; lia). reflexivity.
Qed.

Lemma c_copy_data_copy (pre ws post dpre dold dpost : list Z) :
  length dold = length ws ->
  Evioswap.copy_data
    (Evioswap.mkmem (pre ++ ws ++ post) (dpre ++ dold ++ dpost))
    (Evioswap.Data (Z.of_nat (length pre))) (Z.of_nat (length ws))
    (Evioswap.Dest (Z.of_nat (length dpre)))
  = Evioswap.Done (Evioswap.mkmem (pre ++ ws ++ post) (dpre ++ ws ++ dpost)).
Proof.
  intros Ho. unfold Evioswap.copy_data. c_simpl. rewrite Nat2Z.id.
  rewrite (c_for_loop_copy (fun w => w)) by (try exact Ho; lia).
  rewrite map_id. reflexivity.
Qed.

Section CLoopsToDest.

Variable host : ByteOrder.

Lemma swap_int16_t_two_steps_copy (k kd j w d0 : Z)
    (pre post dpre dpost : list Z) :
  k + j = Z.of_nat (length pre) -> kd + j = Z.of_nat (length dpre) ->
  let body := fun m i =>
    Evioswap.obind (Evioswap.load16 host m (Evioswap.Data k) i)
      (fun v => Evioswap.store16 host m (Evioswap.Dest kd) i (Evioswap.EVIO_SWAP16 v)) in
  Evioswap.obind
    (body (Evioswap.mkmem (pre ++ w :: post) (dpre ++ d0 :: dpost)) (2 * j))
    (fun m => body m (2 * j + 1))
  = Evioswap.Done
      (Evioswap.mkmem (pre ++ w :: post) (dpre ++ swap_halves w :: dpost)).
Proof.
  intros Hk Hd. cbv zeta. unfold Evioswap.load16, Evioswap.store16.
  rewrite div2_even, div2_odd, mod2_even, mod2_odd.
  pose proof (EVIO_SWAP16_range (w mod 2 ^ 16)) as R1.
  pose proof (EVIO_SWAP16_range ((w / 2 ^ 16) mod 2 ^ 16)) as R2.
  pose proof (Z.mod_pos_bound d0 (2 ^ 16) ltac:(lia)) as R3.
  pose proof (Z.mod_pos_bound (d0 / 2 ^ 16) (2 ^ 16) ltac:(lia)) as R4.
  unfold Evioswap.u16, swap_halves.
  destruct host; cbn [Z.eqb Bool.eqb].
  - repeat (first [rewrite !load_app by exact Hk
                  | rewrite !load_app_dest by exact Hd
                  | rewrite store_app_dest by exact Hd]; c_simpl).
    rewrite (Z.mod_small (Evioswap.EVIO_SWAP16 (w mod 2 ^ 16))) by exact R1.
    rewrite halves_low by exact R1.
    rewrite (Z.mod_small (Evioswap.EVIO_SWAP16 ((w / 2 ^ 16) mod 2 ^ 16))) by exact R2.
    reflexivity.
  - repeat (first [rewrite !load_app by exact Hk
                  | rewrite !load_app_dest by exact Hd
                  | rewrite store_app_dest by exact Hd]; c_simpl).
    rewrite (Z.mod_small (Evioswap.EVIO_SWAP16 ((w / 2 ^ 16) mod 2 ^ 16))) by exact R2.
    rewrite halves_high by (try exact R3; exact R2).
    rewrite (Z.mod_small (Evioswap.EVIO_SWAP16 (w mod 2 ^ 16))) by exact R1.
    reflexivity.
Qed.

Lemma c_for_loop_halves_copy (k kd : Z) (post dpost : list Z) :
  forall (ws pre dold dpre : list Z) (j : Z),
    k + j = Z.of_nat (length pre) -> kd + j = Z.of_nat (length dpre) ->
    length dold = length ws ->
    Evioswap.for_loop (2 * length ws) (2 * j)
      (fun m i =>
         Evioswap.obind (Evioswap.load16 host m (Evioswap.Data k) i)
           (fun v => Evioswap.store16 host m (Evioswap.Dest kd) i
                       (Evioswap.EVIO_SWAP16 v)))
      (Evioswap.mkmem (pre ++ ws ++ post) (dpre ++ dold ++ dpost))
    = Evioswap.Done
        (Evioswap.mkmem (pre ++ ws ++ post) (dpre ++ map swap_halves ws ++ dpost)).
Proof.
  induction ws as [| w ws IH]; intros pre dold dpre j Hj Hd Ho.
  - destruct dold; [reflexivity | discriminate].
  - destruct dold as [| d0 dold]; [discriminate |].
    replace (2 * length (w :: ws))%nat with (S (S (2 * length ws)))
      by (cbn [length]; lia).
    cbn [Evioswap.for_loop app map].
    rewrite <- obind_assoc.
    pose proof (swap_int16_t_two_steps_copy k kd j w d0 pre (ws ++ post)
                  dpre (dold ++ dpost) Hj Hd) as E.
    cbv zeta in E. rewrite E. c_simpl.
    specialize (IH (pre ++ [w]) dold (dpre ++ [swap_halves w]) (j + 1)).
    rewrite <- !app_assoc in IH. cbn [app] in IH.
    replace (2 * j + 1 + 1) with (2 * (j + 1)) by lia.
    apply IH.
    + rewrite length_app. cbn [length]. lia.
    + rewrite length_app. cbn [length]. lia.
    + cbn [length] in Ho. lia.
Qed.

Lemma swap_int16_t_copy (pre ws post dpre dold dpost : list Z) :
  Z.of_nat (length ws) < 2 ^ 31 -> length dold = length ws ->
  Evioswap.swap_int16_t host
    (Evioswap.mkmem (pre ++ ws ++ post) (dpre ++ dold ++ dpost))
    (Evioswap.Data (Z.of_nat (length pre)))
    (Evioswap.u32 (Z.of_nat (length ws) * 2))
    (Evioswap.Dest (Z.of_nat (length dpre)))
  = Evioswap.Done
      (Evioswap.mkmem (pre ++ ws ++ post) (dpre ++ map swap_halves ws ++ dpost),
       Evioswap.Dest (Z.of_nat (length dpre))).
Proof.
  intros B Ho. unfold Evioswap.swap_int16_t. c_simpl.
  replace (Z.to_nat (Evioswap.u32 (Z.of_nat (length ws) * 2)))
    with (2 * length ws)%nat
    by (unfold Evioswap.u32; rewrite Z.mod_small by lia; lia).
  pose proof (c_for_loop_halves_copy (Z.of_nat (length pre)) (Z.of_nat (length dpre))
                post dpost ws pre dold dpre 0) as E.
  rewrite Z.mul_0_r in E. rewrite E by (try exact Ho; lia). reflexivity.
Qed.

Lemma swap_int64_t_step_copy (k kd j a b d0 d1 : Z)
    (pre post dpre dpost : list Z) :
  is_word a -> is_word b ->
  k + 2 * j = Z.of_nat (length pre) -> kd + 2 * j = Z.of_nat (length dpre) ->
  let m := Evioswap.mkmem (pre ++ a :: b :: post) (dpre ++ d0 :: d1 :: dpost) in
  Evioswap.obind (Evioswap.load64 host m (Evioswap.Data k) j)
    (fun v => Evioswap.store64 host m (Evioswap.Dest kd) j (Evioswap.EVIO_SWAP64 v))
  = Evioswap.Done
      (Evioswap.mkmem (pre ++ a :: b :: post)
         (dpre ++ Evioswap.EVIO_SWAP32 b :: Evioswap.EVIO_SWAP32 a :: dpost)).
Proof.
  intros Ha Hb Hk Hd. cbv zeta. unfold Evioswap.load64, Evioswap.store64.
  pose proof (EVIO_SWAP32_range a) as Ra.
  pose proof (EVIO_SWAP32_range b) as Rb.
  rewrite load_app by exact Hk. c_simpl.
  change (pre ++ a :: b :: post) with (pre ++ [a] ++ b :: post).
  rewrite app_assoc.
  rewrite load_app by (rewrite length_app; cbn [length]; lia). c_simpl.
  rewrite <- app_assoc. cbn [app].
  assert (Lo : forall u v, 0 <= u < 2 ^ 32 -> (u + 2 ^ 32 * v) mod 2 ^ 32 = u).
  { intros u v Hu. rewrite (Z.mul_comm (2 ^ 32) v), Z.mod_add by lia.
    apply Z.mod_small. exact Hu. }
  assert (Hi : forall u v, 0 <= u < 2 ^ 32 -> 0 <= v < 2 ^ 32 ->
                           ((u + 2 ^ 32 * v) / 2 ^ 32) mod 2 ^ 32 = v).
  { intros u v Hu Hv. rewrite (Z.mul_comm (2 ^ 32) v), Z.div_add by lia.
    rewrite (Z.div_small u) by exact Hu. rewrite Z.add_0_l.
    apply Z.mod_small. exact Hv. }
  destruct host.
  - rewrite EVIO_SWAP64_split by exact Ha.
    rewrite Lo by exact Rb. rewrite Hi by (try exact Rb; exact Ra).
    rewrite store_app_dest by exact Hd. c_simpl.
    change (dpre ++ Evioswap.EVIO_SWAP32 b :: d1 :: dpost)
      with (dpre ++ [Evioswap.EVIO_SWAP32 b] ++ d1 :: dpost).
    rewrite app_assoc.
    rewrite store_app_dest by (rewrite length_app; cbn [length]; lia).
    rewrite <- app_assoc. reflexivity.
  - rewrite EVIO_SWAP64_split by exact Hb.
    rewrite Lo by exact Ra. rewrite Hi by (try exact Ra; exact Rb).
    rewrite store_app_dest by exact Hd. c_simpl.
    change (dpre ++ Evioswap.EVIO_SWAP32 b :: d1 :: dpost)
      with (dpre ++ [Evioswap.EVIO_SWAP32 b] ++ d1 :: dpost).
    rewrite app_assoc.
    rewrite store_app_dest by (rewrite length_app; cbn [length]; lia).
    rewrite <- app_assoc. reflexivity.
Qed.

Lemma c_for_loop_pairs_copy (k kd : Z) (post dpost : list Z) :
  forall (ps : list (Z * Z)) (pre dold dpre : list Z) (j : Z),
    Forall is_word (pair_words ps) ->
    k + 2 * j = Z.of_nat (length pre) -> kd + 2 * j = Z.of_nat (length dpre) ->
    length dold = length (pair_words ps) ->
    Evioswap.for_loop (length ps) j
      (fun m i =>
         Evioswap.obind (Evioswap.load64 host m (Evioswap.Data k) i)
           (fun v => Evioswap.store64 host m (Evioswap.Dest kd) i
                       (Evioswap.EVIO_SWAP64 v)))
      (Evioswap.mkmem (pre ++ pair_words ps ++ post) (dpre ++ dold ++ dpost))
    = Evioswap.Done
        (Evioswap.mkmem (pre ++ pair_words ps ++ post)
           (dpre ++ c_swapped_pair_words ps ++ dpost)).
Proof.
  induction ps as [| [a b] ps IH]; intros pre dold dpre j W Hj Hd Ho.
  - destruct dold; [reflexivity | discriminate].
  - cbn [length Evioswap.for_loop pair_words c_swapped_pair_words flat_map
         app fst snd] in *.
    fold (pair_words ps) in *. fold (c_swapped_pair_words ps).
    destruct dold as [| d0 [| d1 dold]]; try discriminate.
    cbn [app length] in *.
    pose proof (Forall_inv W) as Wa. pose proof (Forall_inv (Forall_inv_tail W)) as Wb.
    pose proof (Forall_inv_tail (Forall_inv_tail W)) as W'.
    pose proof (swap_int64_t_step_copy k kd j a b d0 d1 pre (pair_words ps ++ post)
                  dpre (dold ++ dpost) Wa Wb Hj Hd) as E.
    cbv zeta in E. rewrite E. c_simpl.
    specialize (IH (pre ++ [a; b]) dold
                   ((dpre ++ [Evioswap.EVIO_SWAP32 b]) ++ [Evioswap.EVIO_SWAP32 a])
                   (j + 1) W').
    rewrite <- !app_assoc in IH. cbn [app] in IH.
    apply IH.
    + rewrite !length_app. cbn [length]. lia.
    + rewrite !length_app. cbn [length]. lia.
    + lia.
Qed.

Lemma swap_int64_t_copy (pre : list Z) (ps : list (Z * Z))
    (post dpre dold dpost : list Z) :
  Forall is_word (pair_words ps) -> length dold = length (pair_words ps) ->
  Evioswap.swap_int64_t host
    (Evioswap.mkmem (pre ++ pair_words ps ++ post) (dpre ++ dold ++ dpost))
    (Evioswap.Data (Z.of_nat (length pre)))
    (Z.of_nat (length (pair_words ps)) / 2)
    (Evioswap.Dest (Z.of_nat (length dpre)))
  = Evioswap.Done
      (Evioswap.mkmem (pre ++ pair_words ps ++ post)
         (dpre ++ c_swapped_pair_words ps ++ dpost),
       Evioswap.Dest (Z.of_nat (length dpre))).
Proof.
  intros W Ho. unfold Evioswap.swap_int64_t. c_simpl.
  replace (Z.to_nat (Z.of_nat (length (pair_words ps)) / 2)) with (length ps).
  2:{ rewrite pair_words_length.
      replace (Z.of_nat (2 * length ps)) with (Z.of_nat (length ps) * 2) by lia.
      rewrite Z.div_mul by lia. lia. }
  rewrite (c_for_loop_pairs_copy (Z.of_nat (length pre)) (Z.of_nat (length dpre))
             post dpost ps pre dold dpre 0 W) by (try exact Ho; lia).
  reflexivity.
Qed.

End CLoopsToDest.

Section CEventsToDest.

Variable host : ByteOrder.
Variable eviofmt : Evioswap.mem -> Evioswap.ptr -> Z -> Z * list Z.
Variable eviofmtswap :
  Evioswap.mem -> Evioswap.ptr -> Z -> list Z -> Z -> bool -> Z -> Evioswap.mem * Z.

Local Abbreviation swap_data := (Evioswap.swap_data host eviofmt eviofmtswap).

Lemma load_head_dest (data dpre b tail : list Z) (w : Z) (rest : list Z) (k l : Z) :
  b = w :: rest -> k + l = Z.of_nat (length dpre) ->
  Evioswap.load (Evioswap.mkmem data (dpre ++ b ++ tail)) (Evioswap.Dest k) l
  = Evioswap.Done w.
Proof. intros -> H. cbn [app]. apply load_app_dest. exact H. Qed.

Lemma c_swap_bank_body_copy (fuel : nat) (tolocal : bool)
    (pre post dpre dold dpost : list Z) (len w1 : Z) (y x : list Z) :
  is_word len -> is_word w1 -> len = Z.of_nat (length y) + 1 ->
  length x = length y -> length dold = length y ->
  forall d0 d1 : Z,
  let sw := Evioswap.EVIO_SWAP32 in
  let shdr := if tolocal then [sw len; sw w1] else [len; w1] in
  let thdr := if tolocal then [len; w1] else [sw len; sw w1] in
  let body := if tolocal then x else y in
  Evioswap.swap_bank_body (swap_data fuel tolocal)
    (Evioswap.mkmem (pre ++ (shdr ++ body) ++ post)
                    (dpre ++ (d0 :: d1 :: dold) ++ dpost))
    (Evioswap.Data (Z.of_nat (length pre))) tolocal
    (Evioswap.Dest (Z.of_nat (length dpre)))
  = swap_data fuel tolocal
      (Evioswap.mkmem ((pre ++ shdr) ++ body ++ post)
                      ((dpre ++ thdr) ++ dold ++ dpost))
      (Evioswap.Data (Z.of_nat (length (pre ++ shdr))))
      (Z.land (Z.shiftr w1 8) 0x3f) (Z.of_nat (length y))
      (Evioswap.Dest (Z.of_nat (length (dpre ++ thdr)))).
Proof.
  intros Hlen Hw1 El Exy Ho d0 d1. cbv zeta.
  unfold Evioswap.swap_bank_body, Evioswap.dest_at.
  cbn [Evioswap.is_null Evioswap.padd negb].
  assert (U : Evioswap.u32 (len - 1) = Z.of_nat (length y))
    by (unfold Evioswap.u32, is_word in *; rewrite Z.mod_small; lia).
  destruct tolocal; cbn [app negb].
  - change (pre ++ Evioswap.EVIO_SWAP32 len :: Evioswap.EVIO_SWAP32 w1 :: x ++ post)
      with (pre ++ [Evioswap.EVIO_SWAP32 len; Evioswap.EVIO_SWAP32 w1] ++ (x ++ post)).
    change (dpre ++ d0 :: d1 :: dold ++ dpost)
      with (dpre ++ [d0; d1] ++ (dold ++ dpost)).
    change 2 with (Z.of_nat (length [Evioswap.EVIO_SWAP32 len;
                                     Evioswap.EVIO_SWAP32 w1])) at 1.
    rewrite swap_int32_t_copy by reflexivity. c_simpl. cbn [map app].
    rewrite !EVIO_SWAP32_involutive by assumption.
    rewrite load_app_dest by lia. c_simpl.
    change (dpre ++ len :: w1 :: dold ++ dpost)
      with (dpre ++ [len] ++ w1 :: dold ++ dpost).
    rewrite (app_assoc dpre [len]).
    rewrite load_app_dest by (rewrite length_app; cbn [length]; lia). c_simpl.
    rewrite U, <- !app_assoc, !length_app. cbn [length app].
    f_equal; f_equal; lia.
  - c_simpl. rewrite load_app by lia. c_simpl.
    change (pre ++ len :: w1 :: y ++ post) with (pre ++ [len] ++ w1 :: y ++ post).
    rewrite (app_assoc pre [len]).
    rewrite load_app by (rewrite length_app; cbn [length]; lia). c_simpl.
    rewrite <- (app_assoc pre [len]).
    change (pre ++ [len] ++ w1 :: y ++ post) with (pre ++ [len; w1] ++ (y ++ post)).
    change (dpre ++ d0 :: d1 :: dold ++ dpost)
      with (dpre ++ [d0; d1] ++ (dold ++ dpost)).
    change 2 with (Z.of_nat (length [len; w1])) at 1.
    rewrite swap_int32_t_copy by reflexivity. c_simpl. cbn [map app].
    rewrite U, <- !app_assoc, !length_app. cbn [length app].
    f_equal; f_equal; lia.
Qed.

Lemma c_swap_segment_body_copy (fuel : nat) (tolocal : bool)
    (pre post dpre dold dpost : list Z) (d : Z) (y x : list Z) :
  is_word d -> Z.land d 0xffff = Z.of_nat (length y) ->
  length x = length y -> length dold = length y ->
  forall d0 : Z,
  let sw := Evioswap.EVIO_SWAP32 in
  let shdr := if tolocal then [sw d] else [d] in
  let thdr := if tolocal then [d] else [sw d] in
  let body := if tolocal then x else y in
  Evioswap.swap_segment_body (swap_data fuel tolocal)
    (Evioswap.mkmem (pre ++ (shdr ++ body) ++ post)
                    (dpre ++ (d0 :: dold) ++ dpost))
    (Evioswap.Data (Z.of_nat (length pre))) tolocal
    (Evioswap.Dest (Z.of_nat (length dpre)))
  = swap_data fuel tolocal
      (Evioswap.mkmem ((pre ++ shdr) ++ body ++ post)
                      ((dpre ++ thdr) ++ dold ++ dpost))
      (Evioswap.Data (Z.of_nat (length (pre ++ shdr))))
      (Z.land (Z.shiftr d 16) 0x3f) (Z.of_nat (length y))
      (Evioswap.Dest (Z.of_nat (length (dpre ++ thdr)))).
Proof.
  intros Hd El Exy Ho d0. cbv zeta.
  unfold Evioswap.swap_segment_body, Evioswap.dest_at.
  cbn [Evioswap.is_null Evioswap.padd negb].
  destruct tolocal; cbn [app negb].
  - change (pre ++ Evioswap.EVIO_SWAP32 d :: x ++ post)
      with (pre ++ [Evioswap.EVIO_SWAP32 d] ++ (x ++ post)).
    change (dpre ++ d0 :: dold ++ dpost) with (dpre ++ [d0] ++ (dold ++ dpost)).
    change 1 with (Z.of_nat (length [Evioswap.EVIO_SWAP32 d])) at 1.
    rewrite swap_int32_t_copy by reflexivity. c_simpl. cbn [map app].
    rewrite !EVIO_SWAP32_involutive by assumption.
    rewrite load_app_dest by lia. c_simpl.
    rewrite El, <- !app_assoc, !length_app. cbn [length app].
    f_equal; f_equal; lia.
  - c_simpl. rewrite load_app by lia. c_simpl.
    change (pre ++ d :: y ++ post) with (pre ++ [d] ++ (y ++ post)).
    change (dpre ++ d0 :: dold ++ dpost) with (dpre ++ [d0] ++ (dold ++ dpost)).
    change 1 with (Z.of_nat (length [d])) at 1.
    rewrite swap_int32_t_copy by reflexivity. c_simpl. cbn [map app].
    rewrite El, <- !app_assoc, !length_app. cbn [length app].
    f_equal; f_equal; lia.
Qed.

Lemma c_swap_tagsegment_body_copy (fuel : nat) (tolocal : bool)
    (pre post dpre dold dpost : list Z) (d : Z) (y x : list Z) :
  is_word d -> Z.land d 0xffff = Z.of_nat (length y) ->
  length x = length y -> length dold = length y ->
  forall d0 : Z,
  let sw := Evioswap.EVIO_SWAP32 in
  let shdr := if tolocal then [sw d] else [d] in
  let thdr := if tolocal then [d] else [sw d] in
  let body := if tolocal then x else y in
  Evioswap.swap_tagsegment_body (swap_data fuel tolocal)
    (Evioswap.mkmem (pre ++ (shdr ++ body) ++ post)
                    (dpre ++ (d0 :: dold) ++ dpost))
    (Evioswap.Data (Z.of_nat (length pre))) tolocal
    (Evioswap.Dest (Z.of_nat (length dpre)))
  = swap_data fuel tolocal
      (Evioswap.mkmem ((pre ++ shdr) ++ body ++ post)
                      ((dpre ++ thdr) ++ dold ++ dpost))
      (Evioswap.Data (Z.of_nat (length (pre ++ shdr))))
      (Z.land (Z.shiftr d 16) 0xf) (Z.of_nat (length y))
      (Evioswap.Dest (Z.of_nat (length (dpre ++ thdr)))).
Proof.
  intros Hd El Exy Ho d0. cbv zeta.
  unfold Evioswap.swap_tagsegment_body, Evioswap.dest_at.
  cbn [Evioswap.is_null Evioswap.padd negb].
  destruct tolocal; cbn [app negb].
  - change (pre ++ Evioswap.EVIO_SWAP32 d :: x ++ post)
      with (pre ++ [Evioswap.EVIO_SWAP32 d] ++ (x ++ post)).
    change (dpre ++ d0 :: dold ++ dpost) with (dpre ++ [d0] ++ (dold ++ dpost)).
    change 1 with (Z.of_nat (length [Evioswap.EVIO_SWAP32 d])) at 1.
    rewrite swap_int32_t_copy by reflexivity. c_simpl. cbn [map app].
    rewrite !EVIO_SWAP32_involutive by assumption.
    rewrite load_app_dest by lia. c_simpl.
    rewrite El, <- !app_assoc, !length_app. cbn [length app].
    f_equal; f_equal; lia.
  - c_simpl. rewrite load_app by lia. c_simpl.
    change (pre ++ d :: y ++ post) with (pre ++ [d] ++ (y ++ post)).
    change (dpre ++ d0 :: dold ++ dpost) with (dpre ++ [d0] ++ (dold ++ dpost)).
    change 1 with (Z.of_nat (length [d])) at 1.
    rewrite swap_int32_t_copy by reflexivity. c_simpl. cbn [map app].
    rewrite El, <- !app_assoc, !length_app. cbn [length app].
    f_equal; f_equal; lia.
Qed.

(** The swap of a well-formed part into the other array leaves the part
    as it is and stores its image there, in both directions. *)
Lemma c_foreign_swaps_to_dest (p : part) (y x : list Z) :
  c_foreign p y x -> c_swaps_to_dest host eviofmt eviofmtswap p y x.
Proof.
  induction 1 as
    [ type ws Hc Hi | type ws Hc Hi | type ps Hc Hi | type ws Hc
    | type f y x Hc Hf IH
    | f
    | f b b' r r' Hb IHb Hr IHr
    | len w1 y x El Hlen Hw1 Hd IH
    | d y x El Hd Hdat IH
    | d y x El Hd Hdat IH ];
    unfold c_swaps_to_dest; intros fuel pre post dpre dold dpost tolocal B Ldo;
    cbv zeta.
  - (* ints *)
    intros F. destruct fuel as [| fuel]; [lia |].
    rewrite c_swap_data_case, Hc.
    destruct tolocal.
    + pose proof (swap_int32_t_copy pre (map Evioswap.EVIO_SWAP32 ws) post
                    dpre dold dpost) as E.
      rewrite length_map in E. rewrite E by exact Ldo. c_simpl. cbn [fst].
      rewrite map_EVIO_SWAP32_involutive by exact Hi. reflexivity.
    + rewrite swap_int32_t_copy by exact Ldo. reflexivity.
  - (* shorts *)
    intros F. destruct fuel as [| fuel]; [lia |].
    rewrite c_swap_data_case, Hc.
    destruct tolocal.
    + pose proof (swap_int16_t_copy host pre (map swap_halves ws) post
                    dpre dold dpost) as E.
      rewrite length_map in E. rewrite E by (try exact Ldo; lia). c_simpl. cbn [fst].
      rewrite map_swap_halves_involutive by exact Hi. reflexivity.
    + rewrite swap_int16_t_copy by (try exact Ldo; lia). reflexivity.
  - (* longs *)
    intros F. destruct fuel as [| fuel]; [lia |].
    rewrite c_swap_data_case, Hc.
    destruct tolocal.
    + destruct (c_swapped_pairs ps Hi) as (E1 & E2 & E3 & E4).
      rewrite <- E1.
      replace (length (pair_words ps))
        with (length (pair_words
                (map (fun p => (Evioswap.EVIO_SWAP32 (snd p),
                                Evioswap.EVIO_SWAP32 (fst p))) ps)))
        by (rewrite !pair_words_length; lia).
      rewrite swap_int64_t_copy.
      * c_simpl. cbn [fst]. rewrite E2. reflexivity.
      * exact E4.
      * rewrite Ldo, !pair_words_length, E3. reflexivity.
    + rewrite swap_int64_t_copy by assumption. reflexivity.
  - (* bytes *)
    intros F. destruct fuel as [| fuel]; [lia |].
    rewrite c_swap_data_case, Hc.
    destruct tolocal; rewrite c_copy_data_copy by assumption; reflexivity.
  - (* a container *)
    intros F. destruct fuel as [| fuel]; [lia |].
    rewrite c_swap_data_case, Hc.
    specialize (IH fuel pre post dpre dold dpost tolocal B Ldo).
    cbv zeta in IH.
    specialize (IH ltac:(lia) fuel (Z.of_nat (length pre)) (Z.of_nat (length dpre)) 0).
    rewrite Z.add_0_l in IH. apply IH; lia.
  - (* no fragment left *)
    intros F n base dbase l Ho Hdb H0 Hl Hn. destruct n as [| n]; [cbn in Hn; lia |].
    destruct dold; [| discriminate].
    cbn [Evioswap.fragment_loop length].
    rewrite Z.add_0_r, Z.ltb_irrefl. destruct tolocal; reflexivity.
  - (* a fragment, then the others *)
    intros F n base dbase l Ho Hdb H0 Hl Hn.
    pose proof (c_foreign_length _ _ _ Hb) as Lb.
    pose proof (c_foreign_length _ _ _ Hr) as Lr.
    rewrite length_app in *.
    destruct (c_fragment_first_word f b b' Hb ltac:(lia))
      as (w & rest & w' & rest' & Eb & Eb' & Efl).
    assert (Pb : (1 <= length b)%nat) by (rewrite Eb; cbn [length]; lia).
    rewrite <- (firstn_skipn (length b) dold).
    set (db := firstn (length b) dold).
    set (dr := skipn (length b) dold).
    assert (Ldb : length db = length b) by (unfold db; rewrite length_firstn; lia).
    assert (Ldr : length dr = length r) by (unfold dr; rewrite length_skipn; lia).
    destruct n as [| n]; [lia |].
    cbn [Evioswap.fragment_loop].
    replace (l <? l + Z.of_nat (length b + length r)) with true
      by (symmetry; apply Z.ltb_lt; lia).
    unfold Evioswap.dest_at. cbn [Evioswap.is_null Evioswap.padd].
    rewrite Ho, Hdb.
    specialize (IHb fuel pre (if tolocal then r' ++ post else r ++ post)
                    dpre db (dr ++ dpost) tolocal).
    specialize (IHr fuel (pre ++ (if tolocal then b' else b)) post
                    (dpre ++ (if tolocal then b else b')) dr dpost tolocal).
    cbv zeta in IHb, IHr.
    assert (U : Evioswap.u32 (l + Z.of_nat (length b)) = l + Z.of_nat (length b))
      by (unfold Evioswap.u32; rewrite Z.mod_small; lia).
    replace (l + Z.of_nat (length b + length r))
      with ((l + Z.of_nat (length b)) + Z.of_nat (length r)) by lia.
    destruct tolocal.
    + rewrite <- !app_assoc.
      rewrite IHb by (rewrite ?length_app; lia). c_simpl.
      rewrite (load_head_dest _ dpre b (dr ++ dpost) w rest dbase l Eb Hdb). c_simpl.
      rewrite Efl, U.
      rewrite <- ?app_assoc.
      replace (pre ++ b' ++ r' ++ post) with ((pre ++ b') ++ r' ++ post)
        by (rewrite <- app_assoc; reflexivity).
      replace (dpre ++ b ++ dr ++ dpost) with ((dpre ++ b) ++ dr ++ dpost)
        by (rewrite <- app_assoc; reflexivity).
      replace (dpre ++ b ++ r ++ dpost) with ((dpre ++ b) ++ r ++ dpost)
        by (rewrite <- app_assoc; reflexivity).
      apply IHr; rewrite ?length_app; lia.
    + rewrite <- !app_assoc.
      rewrite (load_head pre b (r ++ post) _ w rest base l Eb Ho). c_simpl.
      rewrite IHb by (rewrite ?length_app; lia). c_simpl.
      rewrite Efl, U.
      rewrite <- ?app_assoc.
      replace (pre ++ b ++ r ++ post) with ((pre ++ b) ++ r ++ post)
        by (rewrite <- app_assoc; reflexivity).
      replace (dpre ++ b' ++ dr ++ dpost) with ((dpre ++ b') ++ dr ++ dpost)
        by (rewrite <- app_assoc; reflexivity).
      replace (dpre ++ b' ++ r' ++ dpost) with ((dpre ++ b') ++ r' ++ dpost)
        by (rewrite <- app_assoc; reflexivity).
      apply IHr; rewrite ?length_app; lia.
  - (* bank *)
    intros F. cbn [c_swap_fragment_body].
    pose proof (c_foreign_length _ _ _ Hd) as L.
    cbn [length] in B, F, Ldo.
    destruct dold as [| d0 [| d1 dold]]; try discriminate.
    cbn [length] in Ldo.
    pose proof (c_swap_bank_body_copy fuel tolocal pre post dpre dold dpost len w1 y x
                  Hlen Hw1 El L ltac:(lia) d0 d1) as E.
    cbv zeta in E.
    specialize (IH fuel (pre ++ (if tolocal
                                 then [Evioswap.EVIO_SWAP32 len;
                                       Evioswap.EVIO_SWAP32 w1]
                                 else [len; w1]))
                   post
                   (dpre ++ (if tolocal then [len; w1]
                             else [Evioswap.EVIO_SWAP32 len;
                                   Evioswap.EVIO_SWAP32 w1]))
                   dold dpost tolocal).
    cbv zeta in IH.
    destruct tolocal; cbn [app] in E |- *; rewrite E;
      rewrite IH by (rewrite ?length_app; cbn [length]; lia);
      rewrite <- !app_assoc; reflexivity.
  - (* segment *)
    intros F. cbn [c_swap_fragment_body].
    pose proof (c_foreign_length _ _ _ Hdat) as L.
    cbn [length] in B, F, Ldo.
    destruct dold as [| d0 dold]; try discriminate.
    cbn [length] in Ldo.
    pose proof (c_swap_segment_body_copy fuel tolocal pre post dpre dold dpost d y x
                  Hd El L ltac:(lia) d0) as E.
    cbv zeta in E.
    specialize (IH fuel (pre ++ (if tolocal
                                 then [Evioswap.EVIO_SWAP32 d] else [d]))
                   post
                   (dpre ++ (if tolocal then [d]
                             else [Evioswap.EVIO_SWAP32 d]))
                   dold dpost tolocal).
    cbv zeta in IH.
    destruct tolocal; cbn [app] in E |- *; rewrite E;
      rewrite IH by (rewrite ?length_app; cbn [length]; lia);
      rewrite <- !app_assoc; reflexivity.
  - (* tagsegment *)
    intros F. cbn [c_swap_fragment_body].
    pose proof (c_foreign_length _ _ _ Hdat) as L.
    cbn [length] in B, F, Ldo.
    destruct dold as [| d0 dold]; try discriminate.
    cbn [length] in Ldo.
    pose proof (c_swap_tagsegment_body_copy fuel tolocal pre post dpre dold dpost d y x
                  Hd El L ltac:(lia) d0) as E.
    cbv zeta in E.
    specialize (IH fuel (pre ++ (if tolocal
                                 then [Evioswap.EVIO_SWAP32 d] else [d]))
                   post
                   (dpre ++ (if tolocal then [d]
                             else [Evioswap.EVIO_SWAP32 d]))
                   dold dpost tolocal).
    cbv zeta in IH.
    destruct tolocal; cbn [app] in E |- *; rewrite E;
      rewrite IH by (rewrite ?length_app; cbn [length]; lia);
      rewrite <- !app_assoc; reflexivity.
Qed.

End CEventsToDest.

(** evioswap.c, with a destination in the other array:
    [evioswap(buf, tolocal, dest)] leaves the event in [buf] as it is and
    stores the swapped event from [dest] on, in either direction and on
    either host; the other words of the destination stay. *)
Theorem evioswap_c_copies_into_dest
    (host : ByteOrder)
    (eviofmt : Evioswap.mem -> Evioswap.ptr -> Z -> Z * list Z)
    (eviofmtswap : Evioswap.mem -> Evioswap.ptr -> Z -> list Z -> Z -> bool -> Z
                   -> Evioswap.mem * Z)
    (y x pre post dpre dold dpost : list Z) (fuel : nat) :
  c_foreign (Fragment Bank) y x ->
  Z.of_nat (length pre + length y + length post) < 2 ^ 31 ->
  length dold = length y ->
  (length y + 1 <= fuel)%nat ->
  let buf := Evioswap.Data (Z.of_nat (length pre)) in
  let dest := Evioswap.Dest (Z.of_nat (length dpre)) in
  Evioswap.evioswap host eviofmt eviofmtswap fuel
    (Evioswap.mkmem (pre ++ x ++ post) (dpre ++ dold ++ dpost)) buf true dest
  = Evioswap.Done (Evioswap.mkmem (pre ++ x ++ post) (dpre ++ y ++ dpost)) /\
  Evioswap.evioswap host eviofmt eviofmtswap fuel
    (Evioswap.mkmem (pre ++ y ++ post) (dpre ++ dold ++ dpost)) buf false dest
  = Evioswap.Done (Evioswap.mkmem (pre ++ y ++ post) (dpre ++ x ++ dpost)).
Proof.
  intros H B Ldo F.
  pose proof (c_foreign_swaps_to_dest host eviofmt eviofmtswap _ _ _ H) as S.
  unfold c_swaps_to_dest in S. cbv zeta.
  unfold Evioswap.evioswap, Evioswap.swap_bank.
  split.
  - apply (S fuel pre post dpre dold dpost true); [exact B | exact Ldo | exact F].
  - apply (S fuel pre post dpre dold dpost false); [exact B | exact Ldo | exact F].
Qed.

Lemma evioswap_c_copies_into_dest_witness :
  let eviofmt := fun (_ : Evioswap.mem) (_ : Evioswap.ptr) (_ : Z) => (0, @nil Z) in
  let eviofmtswap :=
    fun (m : Evioswap.mem) (_ : Evioswap.ptr) (_ : Z) (_ : list Z) (_ : Z)
        (_ : bool) (_ : Z) => (m, 0) in
  let buf := Evioswap.Data 1 in
  let dest := Evioswap.Dest 2 in
  let old := repeat 0 10 in
  Evioswap.evioswap LITTLE_ENDIAN eviofmt eviofmtswap 11
    (Evioswap.mkmem ([7] ++ sample_event_foreign ++ [8]) ([5; 6] ++ old ++ [9]))
    buf true dest
  = Evioswap.Done
      (Evioswap.mkmem ([7] ++ sample_event_foreign ++ [8])
                      ([5; 6] ++ sample_event ++ [9])) /\
  Evioswap.evioswap LITTLE_ENDIAN eviofmt eviofmtswap 11
    (Evioswap.mkmem ([7] ++ sample_event ++ [8]) ([5; 6] ++ old ++ [9]))
    buf false dest
  = Evioswap.Done
      (Evioswap.mkmem ([7] ++ sample_event ++ [8])
                      ([5; 6] ++ sample_event_foreign ++ [9])).
Proof.
  intros eviofmt eviofmtswap.
  apply (evioswap_c_copies_into_dest LITTLE_ENDIAN eviofmt eviofmtswap
           sample_event sample_event_foreign [7] [8] [5; 6] (repeat 0 10) [9] 11).
  - exact sample_event_is_c_foreign.
  - vm_compute. reflexivity.
  - reflexivity.
  - vm_compute. lia.
Defined.

(** 64-bit data of an odd number of words in evioswap.c: [swap_data]
    swaps the pairs and leaves out the last word.  In place the last word
    keeps its value; with a destination it is not copied, so the word of
    the destination at its place keeps what it held. *)
Theorem swap_data_skips_the_odd_word_of_64_bit_data
    (host : ByteOrder)
    (eviofmt : Evioswap.mem -> Evioswap.ptr -> Z -> Z * list Z)
    (eviofmtswap : Evioswap.mem -> Evioswap.ptr -> Z -> list Z -> Z -> bool -> Z
                   -> Evioswap.mem * Z)
    (fuel : nat) (tolocal : bool) (type : Z) (ps : list (Z * Z)) (last dlast : Z)
    (pre post other dpre dold dpost : list Z) :
  c_data_case_of type = CLongs ->
  Forall is_word (pair_words ps) ->
  length dold = length (pair_words ps) ->
  let data := pre ++ pair_words ps ++ last :: post in
  let n := Z.of_nat (length (pair_words ps)) + 1 in
  let buf := Evioswap.Data (Z.of_nat (length pre)) in
  Evioswap.swap_data host eviofmt eviofmtswap (S fuel) tolocal
    (Evioswap.mkmem data other) buf type n Evioswap.Null
  = Evioswap.Done
      (Evioswap.mkmem (pre ++ c_swapped_pair_words ps ++ last :: post) other) /\
  Evioswap.swap_data host eviofmt eviofmtswap (S fuel) tolocal
    (Evioswap.mkmem data (dpre ++ dold ++ dlast :: dpost)) buf type n
    (Evioswap.Dest (Z.of_nat (length dpre)))
  = Evioswap.Done
      (Evioswap.mkmem data (dpre ++ c_swapped_pair_words ps ++ dlast :: dpost)).
Proof.
  intros Hc W Ldo. cbv zeta.
  rewrite !c_swap_data_case, Hc.
  assert (H : (Z.of_nat (length (pair_words ps)) + 1) / 2
              = Z.of_nat (length (pair_words ps)) / 2).
  { rewrite pair_words_length.
    replace (Z.of_nat (2 * length ps) + 1) with (1 + Z.of_nat (length ps) * 2) by lia.
    replace (Z.of_nat (2 * length ps)) with (Z.of_nat (length ps) * 2) by lia.
    rewrite Z.div_add, Z.div_mul by lia. reflexivity. }
  rewrite H. split.
  - rewrite swap_int64_t_in_place by exact W. reflexivity.
  - rewrite swap_int64_t_copy by assumption. reflexivity.
Qed.

Lemma swap_data_skips_the_odd_word_of_64_bit_data_witness :
  let eviofmt := fun (_ : Evioswap.mem) (_ : Evioswap.ptr) (_ : Z) => (0, @nil Z) in
  let eviofmtswap :=
    fun (m : Evioswap.mem) (_ : Evioswap.ptr) (_ : Z) (_ : list Z) (_ : Z)
        (_ : bool) (_ : Z) => (m, 0) in
  let data := [7; 0x11223344; 0x55667788; 0x99aabbcc; 8] in
  Evioswap.swap_data LITTLE_ENDIAN eviofmt eviofmtswap 1 true
    (Evioswap.mkmem data [5]) (Evioswap.Data 1) 8 3 Evioswap.Null
  = Evioswap.Done (Evioswap.mkmem [7; 0x88776655; 0x44332211; 0x99aabbcc; 8] [5]) /\
  Evioswap.swap_data LITTLE_ENDIAN eviofmt eviofmtswap 1 true
    (Evioswap.mkmem data [5; 1; 2; 3; 4]) (Evioswap.Data 1) 8 3 (Evioswap.Dest 1)
  = Evioswap.Done (Evioswap.mkmem data [5; 0x88776655; 0x44332211; 3; 4]).
Proof.
  intros eviofmt eviofmtswap.
  apply (swap_data_skips_the_odd_word_of_64_bit_data LITTLE_ENDIAN eviofmt eviofmtswap
           0 true 8 [(0x11223344, 0x55667788)] 0x99aabbcc 3 [7] [8] [5] [5] [1; 2] [4]).
  - reflexivity.
  - repeat constructor; vm_compute; congruence.
  - reflexivity.
Defined.
